(** * Quantum atomic swaps: hash-chain signatures, HTLC scripts, swap coordinator

    A shallow embedding of the JavaScript sources
      - lib/crypto.js   (Winternitz one-time signatures, hashes, pushData),
      - lib/htlc.js     (HTLC script builder, parser, minimal number encoding),
      - lib/bsv.js, lib/btc.js (claim / refund transaction builders),
      - lib/swap.js     (the swap coordinator state machine),
    followed by the properties of the design document that concern them.

    Conventions of the embedding.
      - A JS string is a [string]; one [ascii] stands for one code unit.
      - A Node [Buffer] is a [list byte].
      - An integral JS number is a [Z]; a number that may be [NaN] is an
        [option Z] with [None] for [NaN]; an amount, which is what [parseInt]
        has made of a text, is a [Number]: an integer, [NaN] or an infinity.
      - [throw new Error(...)] is the [Throw] branch of [result]; a function
        that mutates a record and may throw is a state-and-error computation
        whose state survives the throw, as it does in JS.
      - Anything read from the network, the clock or the random source is an
        argument or a field of the [Env] class. *)

From Stdlib Require Import ZArith List String Ascii Bool Lia.
From Stdlib Require Import Strings.Byte.
From Stdlib Require QArith.
From stdpp Require Import base strings gmap.

Local Open Scope string_scope.
Local Open Scope Z_scope.

(** ** Errors and results *)

Inductive SwapStatus :=
| INITIATED | COUNTERPARTY_JOINED | INITIATOR_FUNDED | RESPONDER_FUNDED
| FULLY_FUNDED | CLAIMING | COMPLETED | REFUNDING | REFUNDED | EXPIRED | FAILED.

(** What [parseInt] returns: an integer that a double holds, [NaN], or an
    infinity with its sign. *)
Inductive Number :=
| Finite (z : Z)
| NaN
| Infinite (negative : bool).

(** One constructor per shape of thrown value.  [Err] carries the message
    of [new Error('...')], up to the first value a template literal puts
    into it when no property below reads that value; the others carry the
    values interpolated into a template literal. *)
Inductive Error :=
| Err (message : string)
| ErrMessageSize (got : nat)
    (* `Message must be 32 bytes, got ${message.length}` *)
| ErrTimeoutNotReached (remaining : Z)
    (* `Timeout not reached. ${remaining} seconds remaining.` *)
| ErrCannotJoin (status : SwapStatus)
    (* `Cannot join swap in status: ${swap.status}` *)
| ErrCannotFund (status : SwapStatus)
    (* `Cannot record funding in status: ${swap.status}` *)
| ErrCannotClaim (status : SwapStatus)
    (* `Cannot claim in status: ${swap.status}` *)
| ErrInsufficientFunding (expected : Number)
    (* `Insufficient funding. Expected ${...}` *)
| ErrInvalidAddress (which reason : string)
    (* `Invalid refund address: ${validation.error}` and its siblings *)
| ErrInvalidChain (which : string)
    (* `Invalid fromChain. Supported: ...` / `Invalid toChain. ...` *)
| TypeError (what : string)
    (* raised by the runtime: property access on null / undefined *)
| RangeError (what : string)
    (* raised by the runtime: Date.prototype.toISOString on an invalid date *)
| LedgerError (message : string).
    (* a rejected promise of a ledger adapter (network I/O) *)

Inductive result (A : Type) :=
| Ok (a : A)
| Throw (e : Error).
Arguments Ok {A} a.
Arguments Throw {A} e.

Definition isOk {A} (r : result A) : bool :=
  match r with Ok _ => true | Throw _ => false end.

(** [result] is a monad; the binds below are written with stdpp's
    [x ← c; k]. *)
#[global] Instance result_ret : MRet result := fun A a => Ok a.
#[global] Instance result_bind : MBind result :=
  fun A B k r => match r with Ok a => k a | Throw e => Throw e end.

(** ** JavaScript strings, numbers and buffers *)

Abbreviation Buffer := (list byte).

Module Js.

(** A byte as a number, and the store [buf[i] = v] of a typed array, which
    keeps [v] modulo 256. *)
Definition byteZ (b : byte) : Z := Z.of_N (Byte.to_N b).

Definition Zbyte (v : Z) : byte :=
  match Byte.of_N (Z.to_N (v mod 256)) with
  | Some b => b
  | None => x00
  end.

(** The digits of [Buffer.prototype.toString('hex')] and of
    [Number.prototype.toString(16)]. *)
Definition hexChar (d : Z) : ascii :=
  match String.get (Z.to_nat d) "0123456789abcdef" with
  | Some c => c
  | None => "0"%char
  end.

(** The value of a hexadecimal digit, in either case, from its code unit:
    the digits from 48, the lower-case letters from 97, the capitals from
    65. *)
Definition hexVal (c : ascii) : option Z :=
  let code := Z.of_N (N_of_ascii c) in
  if (48 <=? code) && (code <=? 57) then Some (code - 48)
  else if (97 <=? code) && (code <=? 102) then Some (code - 87)
  else if (65 <=? code) && (code <=? 70) then Some (code - 55)
  else None.

Definition isHexDigit (c : ascii) : bool :=
  match hexVal c with Some _ => true | None => false end.

Fixpoint isHex (s : string) : bool :=
  match s with
  | EmptyString => true
  | String c r => isHexDigit c && isHex r
  end.

(** [buf.toString('hex')] *)
Fixpoint toHex (b : Buffer) : string :=
  match b with
  | [] => EmptyString
  | x :: r => String (hexChar (byteZ x / 16))
                (String (hexChar (byteZ x mod 16)) (toHex r))
  end.

(** [Buffer.from(s, 'hex')]: decodes pairs of digits and stops at the first
    pair that is not hexadecimal; a trailing single character is dropped. *)
Fixpoint fromHex (s : string) : Buffer :=
  match s with
  | String a (String b r) =>
      match hexVal a, hexVal b with
      | Some x, Some y => Zbyte (16 * x + y) :: fromHex r
      | _, _ => []
      end
  | _ => []
  end.

(** [String.prototype.substring(start, end)]: [NaN] counts as 0, both
    indices are clamped to [0, length], and they are swapped when
    [start > end]. *)
Definition clampIndex (s : string) (x : option Z) : nat :=
  match x with
  | None => 0%nat
  | Some z => Z.to_nat (Z.min (Z.max z 0) (Z.of_nat (String.length s)))
  end.

Definition substring (s : string) (start end_ : option Z) : string :=
  let a := clampIndex s start in
  let b := clampIndex s end_ in
  String.substring (Nat.min a b) (Nat.max a b - Nat.min a b) s.

(** Arithmetic on numbers that may be [NaN]. *)
Definition num (z : Z) : option Z := Some z.

Definition add (a b : option Z) : option Z :=
  match a, b with Some x, Some y => Some (x + y) | _, _ => None end.

Definition mul (a b : option Z) : option Z :=
  match a, b with Some x, Some y => Some (x * y) | _, _ => None end.

(** [parseInt(s, 16)]: leading white space is skipped, then an optional
    sign, then an optional [0x] / [0X], then the longest run of
    hexadecimal digits; no digit at all gives [NaN]. *)
Definition isWhiteSpace (c : ascii) : bool :=
  let n := nat_of_ascii c in
  ((9 <=? n) && (n <=? 13) || (n =? 32) || (n =? 160))%nat.

Fixpoint skipWhiteSpace (s : string) : string :=
  match s with
  | String c r => if isWhiteSpace c then skipWhiteSpace r else s
  | EmptyString => s
  end.

Fixpoint hexDigits (acc : option Z) (s : string) : option Z :=
  match s with
  | String c r =>
      match hexVal c with
      | Some d =>
          hexDigits (Some (16 * (match acc with Some a => a | None => 0 end) + d)) r
      | None => acc
      end
  | EmptyString => acc
  end.

Definition stripHexPrefix (s : string) : string :=
  match s with
  | String "0" (String "x" r) => r
  | String "0" (String "X" r) => r
  | _ => s
  end.

Definition parseInt16 (s : string) : option Z :=
  match skipWhiteSpace s with
  | String "-" r => option_map Z.opp (hexDigits None (stripHexPrefix r))
  | String "+" r => hexDigits None (stripHexPrefix r)
  | t => hexDigits None (stripHexPrefix t)
  end.

(** [parseInt(s)], with no radix: leading white space is skipped, then an
    optional sign; behind [0x] / [0X] the digits are hexadecimal, decimal
    otherwise; the longest run of digits is read and what follows it is
    ignored; no digit at all gives [NaN].  The integer read is returned as
    the nearest double, ties to the even significand of 53 bits, and as an
    infinity from 2^1024 on.  The sign of a zero is not kept: nothing that
    is done with an amount tells 0 from -0. *)
Definition decVal (c : ascii) : option Z :=
  match hexVal c with
  | Some d => if d <? 10 then Some d else None
  | None => None
  end.

Fixpoint decDigits (acc : option Z) (s : string) : option Z :=
  match s with
  | String c r =>
      match decVal c with
      | Some d =>
          decDigits (Some (10 * (match acc with Some a => a | None => 0 end) + d)) r
      | None => acc
      end
  | EmptyString => acc
  end.

Definition nearestDouble (v : Z) : Z :=
  if v <? 2 ^ 53 then v
  else
    let unit := 2 ^ (Z.log2 v - 52) in
    let significand := v / unit in
    let rest := v mod unit in
    if 2 * rest <? unit then significand * unit
    else if unit <? 2 * rest then (significand + 1) * unit
    else if Z.even significand then significand * unit
    else (significand + 1) * unit.

Definition ofInteger (negative : bool) (v : Z) : Number :=
  let d := nearestDouble v in
  if 2 ^ 1024 <=? d then Infinite negative
  else Finite (if negative then - d else d).

Definition unsignedDigits (t : string) : option Z :=
  match t with
  | String "0" (String "x" r) => hexDigits None r
  | String "0" (String "X" r) => hexDigits None r
  | _ => decDigits None t
  end.

Definition parseInt (s : string) : Number :=
  let signed (negative : bool) (t : string) :=
    match unsignedDigits t with
    | Some v => ofInteger negative v
    | None => NaN
    end in
  match skipWhiteSpace s with
  | String "-" r => signed true r
  | String "+" r => signed false r
  | t => signed false t
  end.

(** [n.toString(16)] for a non-negative integer [n]. *)
Fixpoint hexOfPos (fuel : nat) (n : Z) (acc : string) : string :=
  match fuel with
  | O => acc
  | S f =>
      let acc' := String (hexChar (n mod 16)) acc in
      if n / 16 =? 0 then acc' else hexOfPos f (n / 16) acc'
  end.

Definition toString16 (n : Z) : string :=
  hexOfPos (S (Z.to_nat (Z.log2 n))) n EmptyString.

(** [s.padStart(2, '0')] *)
Definition padStart2 (s : string) : string :=
  match s with
  | EmptyString => "00"
  | String c EmptyString => String "0" s
  | _ => s
  end.

(** [String.prototype.toLowerCase] / [toUpperCase] on code units below 256:
    the ASCII letters and the Latin-1 letters with a Latin-1 counterpart. *)
Definition lowerChar (c : ascii) : ascii :=
  let n := nat_of_ascii c in
  if ((65 <=? n) && (n <=? 90)
      || (192 <=? n) && (n <=? 222) && negb (n =? 215))%nat
  then ascii_of_nat (n + 32) else c.

Definition upperChar (c : ascii) : ascii :=
  let n := nat_of_ascii c in
  if ((97 <=? n) && (n <=? 122)
      || (224 <=? n) && (n <=? 254) && negb (n =? 247))%nat
  then ascii_of_nat (n - 32) else c.

Fixpoint toLowerCase (s : string) : string :=
  match s with
  | EmptyString => EmptyString
  | String c r => String (lowerChar c) (toLowerCase r)
  end.

Fixpoint toUpperCase (s : string) : string :=
  match s with
  | EmptyString => EmptyString
  | String c r => String (upperChar c) (toUpperCase r)
  end.

(** [new Date(ms).toISOString()] throws a RangeError outside the range of
    time values, 8.64e15 milliseconds either side of the epoch.  The text
    of the date is not modelled, only whether the call returns. *)
Definition validTimeValue (ms : Z) : bool :=
  (-8640000000000000 <=? ms) && (ms <=? 8640000000000000).

Definition toISOString (ms : Z) : result unit :=
  if validTimeValue ms then Ok tt else Throw (RangeError "Invalid time value").

End Js.

(** ** SHA-256

    [crypto.createHash('sha256')] of Node, written out after FIPS 180-4 on
    32-bit words held in [Z].  The digest of 'hello world' asserted by the
    repository's crypto tests is checked further down. *)

Module Sha256.

Definition w32 (x : Z) : Z := x mod 4294967296.

Definition rotr (n x : Z) : Z :=
  Z.lor (Z.shiftr x n) (w32 (Z.shiftl x (32 - n))).

Definition Ch (x y z : Z) : Z :=
  Z.lxor (Z.land x y) (Z.land (w32 (Z.lnot x)) z).

Definition Maj (x y z : Z) : Z :=
  Z.lxor (Z.lxor (Z.land x y) (Z.land x z)) (Z.land y z).

Definition bigSigma0 (x : Z) : Z :=
  Z.lxor (Z.lxor (rotr 2 x) (rotr 13 x)) (rotr 22 x).

Definition bigSigma1 (x : Z) : Z :=
  Z.lxor (Z.lxor (rotr 6 x) (rotr 11 x)) (rotr 25 x).

Definition smallSigma0 (x : Z) : Z :=
  Z.lxor (Z.lxor (rotr 7 x) (rotr 18 x)) (Z.shiftr x 3).

Definition smallSigma1 (x : Z) : Z :=
  Z.lxor (Z.lxor (rotr 17 x) (rotr 19 x)) (Z.shiftr x 10).

(** The constants of FIPS 180-4: the first 32 bits of the fractional parts
    of the cube roots of the first 64 primes, and, for the initial hash
    value, of the square roots of the first 8 primes. *)
Definition isPrime (n : nat) : bool :=
  (1 <? n)%nat && forallb (fun d => negb (n mod d =? 0)%nat) (seq 2 (n - 2)).

Definition primes : list Z :=
  Eval vm_compute in map Z.of_nat (firstn 64 (filter isPrime (seq 2 400))).

(** The integer cube root, one bit at a time from bit [bits - 1] down. *)
Fixpoint cubeRoot (bits : nat) (n root : Z) : Z :=
  match bits with
  | O => root
  | S bits' =>
      let candidate := root + 2 ^ Z.of_nat bits' in
      if candidate * candidate * candidate <=? n
      then cubeRoot bits' n candidate
      else cubeRoot bits' n root
  end.

Definition K : list Z :=
  Eval vm_compute in map (fun p => w32 (cubeRoot 40 (p * 2 ^ 96) 0)) primes.

Definition H0 : list Z :=
  Eval vm_compute in map (fun p => w32 (Z.sqrt (p * 2 ^ 64))) (firstn 8 primes).

(** Big-endian bytes of a number, [k] of them. *)
Fixpoint bigEndian (k : nat) (x : Z) : list Z :=
  match k with
  | O => []
  | S k' => (x / 256 ^ Z.of_nat k') mod 256 :: bigEndian k' x
  end.

Definition fromBigEndian (bs : list Z) : Z :=
  fold_left (fun acc b => acc * 256 + b) bs 0.

(** The message, a 1 bit, zero bits up to 56 modulo 64 bytes, and the bit
    length on 8 bytes. *)
Definition pad (msg : list Z) : list Z :=
  let len := Z.of_nat (length msg) in
  msg ++ [128] ++ repeat 0 (Z.to_nat ((55 - len) mod 64))
      ++ bigEndian 8 (8 * len).

Fixpoint words (n : nat) (bs : list Z) : list Z :=
  match n with
  | O => []
  | S n' => fromBigEndian (firstn 4 bs) :: words n' (skipn 4 bs)
  end.

(** The 64 rounds on the working variables [st = [a; b; c; d; e; f; g; h]];
    [w] is the sliding window of the last 16 words of the message
    schedule. *)
Definition round (k wt : Z) (st : list Z) : list Z :=
  match st with
  | [a; b; c; d; e; f; g; h] =>
      let t1 := h + bigSigma1 e + Ch e f g + k + wt in
      let t2 := bigSigma0 a + Maj a b c in
      [w32 (t1 + t2); a; b; c; w32 (d + t1); e; f; g]
  | _ => st
  end.

Fixpoint rounds (ks w st : list Z) : list Z :=
  match ks with
  | [] => st
  | k :: ks' =>
      let next := w32 (smallSigma1 (nth 14 w 0) + nth 9 w 0
                       + smallSigma0 (nth 1 w 0) + nth 0 w 0) in
      rounds ks' (tl w ++ [next]) (round k (nth 0 w 0) st)
  end.

Definition compress (h block : list Z) : list Z :=
  map (fun p => w32 (fst p + snd p))
      (combine h (rounds K (words 16 block) h)).

Fixpoint blocks (n : nat) (h bs : list Z) : list Z :=
  match n with
  | O => h
  | S n' => blocks n' (compress h (firstn 64 bs)) (skipn 64 bs)
  end.

Definition digest (msg : list Z) : list Z :=
  let p := pad msg in
  flat_map (bigEndian 4) (blocks (length p / 64) H0 p).

Definition sha256 (data : Buffer) : Buffer :=
  map Js.Zbyte (digest (map Js.byteZ data)).

End Sha256.

(** ** RIPEMD-160 and Base58Check

    [crypto.createHash('ripemd160')] and [bs58check.encode], the two other
    library routines under [hash160] and the P2SH address of an escrow. *)

Module Ripemd160.

Definition w32 := Sha256.w32.

Definition rol (n x : Z) : Z :=
  Z.lor (w32 (Z.shiftl x n)) (Z.shiftr x (32 - n)).

Definition not32 (x : Z) : Z := w32 (Z.lnot x).

(** The boolean function of round [j / 16]. *)
Definition f (j : Z) (x y z : Z) : Z :=
  if j <? 16 then Z.lxor (Z.lxor x y) z
  else if j <? 32 then Z.lor (Z.land x y) (Z.land (not32 x) z)
  else if j <? 48 then Z.lxor (Z.lor x (not32 y)) z
  else if j <? 64 then Z.lor (Z.land x z) (Z.land y (not32 z))
  else Z.lxor x (Z.lor y (not32 z)).

Definition KL : list Z :=
  [0x00000000; 0x5a827999; 0x6ed9eba1; 0x8f1bbcdc; 0xa953fd4e].
Definition KR : list Z :=
  [0x50a28be6; 0x5c4dd124; 0x6d703ef3; 0x7a6d76e9; 0x00000000].

Definition RL : list Z :=
  (map Z.of_nat (seq 0 16) ++
  [ 7; 4; 13; 1; 10; 6; 15; 3; 12; 0; 9; 5; 2; 14; 11; 8;
    3; 10; 14; 4; 9; 15; 8; 1; 2; 7; 0; 6; 13; 11; 5; 12;
    1; 9; 11; 10; 0; 8; 12; 4; 13; 3; 7; 15; 14; 5; 6; 2;
    4; 0; 5; 9; 7; 12; 2; 10; 14; 1; 3; 8; 11; 6; 15; 13 ])%list.
Definition RR : list Z :=
  [ 5; 14; 7; 0; 9; 2; 11; 4; 13; 6; 15; 8; 1; 10; 3; 12;
    6; 11; 3; 7; 0; 13; 5; 10; 14; 15; 8; 12; 4; 9; 1; 2;
    15; 5; 1; 3; 7; 14; 6; 9; 11; 8; 12; 2; 10; 0; 4; 13;
    8; 6; 4; 1; 3; 11; 15; 0; 5; 12; 2; 13; 9; 7; 10; 14;
    12; 15; 10; 4; 1; 5; 8; 7; 6; 2; 13; 14; 0; 3; 9; 11 ].
Definition SL : list Z :=
  [ 11; 14; 15; 12; 5; 8; 7; 9; 11; 13; 14; 15; 6; 7; 9; 8;
    7; 6; 8; 13; 11; 9; 7; 15; 7; 12; 15; 9; 11; 7; 13; 12;
    11; 13; 6; 7; 14; 9; 13; 15; 14; 8; 13; 6; 5; 12; 7; 5;
    11; 12; 14; 15; 14; 15; 9; 8; 9; 14; 5; 6; 8; 6; 5; 12;
    9; 15; 5; 11; 6; 8; 13; 12; 5; 12; 13; 14; 11; 8; 5; 6 ].
Definition SR : list Z :=
  [ 8; 9; 9; 11; 13; 15; 15; 5; 7; 7; 8; 11; 14; 14; 12; 6;
    9; 13; 15; 7; 12; 8; 9; 11; 7; 7; 12; 7; 6; 15; 13; 11;
    9; 7; 15; 11; 8; 6; 6; 14; 12; 13; 5; 14; 13; 13; 7; 5;
    15; 5; 8; 11; 14; 14; 6; 14; 6; 9; 12; 9; 12; 5; 15; 8;
    8; 5; 12; 9; 12; 5; 14; 6; 8; 13; 6; 5; 15; 13; 11; 11 ].

Definition at_ (l : list Z) (i : Z) : Z := nth (Z.to_nat i) l 0.

Definition fromLittleEndian (bs : list Z) : Z :=
  fold_right (fun b acc => b + 256 * acc) 0 bs.

Fixpoint littleEndian (k : nat) (x : Z) : list Z :=
  match k with
  | O => []
  | S k' => x mod 256 :: littleEndian k' (x / 256)
  end.

Fixpoint words (n : nat) (bs : list Z) : list Z :=
  match n with
  | O => []
  | S n' => fromLittleEndian (firstn 4 bs) :: words n' (skipn 4 bs)
  end.

Definition pad (msg : list Z) : list Z :=
  let len := Z.of_nat (length msg) in
  msg ++ [128] ++ repeat 0 (Z.to_nat ((55 - len) mod 64))
      ++ littleEndian 8 (8 * len).

(** One step of a line; [fj] is the round function index, which runs
    upwards on the left line and downwards on the right one. *)
Definition step (x : list Z) (fj k r s : Z) (st : list Z) : list Z :=
  match st with
  | [a; b; c; d; e] =>
      let t := w32 (rol s (w32 (a + f fj b c d + at_ x r + k)) + e) in
      [e; t; b; rol 10 c; d]
  | _ => st
  end.

Fixpoint line (left : bool) (x : list Z) (n : nat) (j : Z) (st : list Z)
  : list Z :=
  match n with
  | O => st
  | S n' =>
      let st' :=
        if left
        then step x j (at_ KL (j / 16)) (at_ RL j) (at_ SL j) st
        else step x (79 - j) (at_ KR (j / 16)) (at_ RR j) (at_ SR j) st in
      line left x n' (j + 1) st'
  end.

Definition compress (h block : list Z) : list Z :=
  let x := words 16 block in
  match h, line true x 80 0 h, line false x 80 0 h with
  | [h0; h1; h2; h3; h4], [a; b; c; d; e], [a'; b'; c'; d'; e'] =>
      [w32 (h1 + c + d'); w32 (h2 + d + e'); w32 (h3 + e + a');
       w32 (h4 + a + b'); w32 (h0 + b + c')]
  | _, _, _ => h
  end.

Fixpoint blocks (n : nat) (h bs : list Z) : list Z :=
  match n with
  | O => h
  | S n' => blocks n' (compress h (firstn 64 bs)) (skipn 64 bs)
  end.

Definition digest (msg : list Z) : list Z :=
  let p := pad msg in
  flat_map (littleEndian 4)
    (blocks (length p / 64)
       [0x67452301; 0xefcdab89; 0x98badcfe; 0x10325476; 0xc3d2e1f0] p).

Definition ripemd160 (data : Buffer) : Buffer :=
  map Js.Zbyte (digest (map Js.byteZ data)).

End Ripemd160.

Module Bs58check.

Definition ALPHABET : string :=
  "123456789ABCDEFGHJKLMNPQRSTUVWXYZabcdefghijkmnopqrstuvwxyz".

Definition digit (d : Z) : ascii :=
  match String.get (Z.to_nat d) ALPHABET with
  | Some c => c
  | None => "1"%char
  end.

Fixpoint digits (fuel : nat) (n : Z) (acc : string) : string :=
  match fuel with
  | O => acc
  | S f => if n =? 0 then acc
           else digits f (n / 58) (String (digit (n mod 58)) acc)
  end.

Fixpoint leadingOnes (bs : list Z) : string :=
  match bs with
  | 0 :: r => String "1" (leadingOnes r)
  | _ => EmptyString
  end.

Definition base58 (bs : list Z) : string :=
  leadingOnes bs
    +:+ digits (2 * length bs) (Sha256.fromBigEndian bs) EmptyString.

(** [bs58check.encode(payload)]: the payload and the first four bytes of
    its double SHA-256, in base 58. *)
Definition encode (payload : Buffer) : string :=
  let checksum := firstn 4 (Sha256.sha256 (Sha256.sha256 payload)) in
  base58 (map Js.byteZ (payload ++ checksum)).

End Bs58check.

(** ** lib/crypto.js *)

Module Crypto.

Definition WOTS_CHUNKS : nat := 32.
Definition WOTS_ITERATIONS : Z := 256.
Definition SCALAR_SIZE : nat := 32.

(** The hash functions take "Buffer or hex string":
    [Buffer.isBuffer(data) ? data : Buffer.from(data, 'hex')]. *)
Inductive Data :=
| ofBuffer (b : Buffer)
| ofHex (s : string).

Definition toBuffer (data : Data) : Buffer :=
  match data with
  | ofBuffer b => b
  | ofHex s => Js.fromHex s
  end.

Definition sha256 (data : Data) : Buffer := Sha256.sha256 (toBuffer data).

Definition sha256Hex (data : Data) : string := Js.toHex (sha256 data).

Definition hash256 (data : Data) : Buffer :=
  sha256 (ofBuffer (sha256 data)).

Definition hash160 (data : Data) : Buffer :=
  Ripemd160.ripemd160 (Sha256.sha256 (toBuffer data)).

(** [for (let i = 0; i < iterations; i++) result = hash256(result)] *)
Definition iteratedHash256 (data : Buffer) (iterations : Z) : Buffer :=
  Nat.iter (Z.to_nat iterations) (fun r => hash256 (ofBuffer r)) data.

Record PrivateKey := {
  scalars : list Buffer;
  sk_hex : list string
}.

Record PublicKey := {
  commitments : list Buffer;
  pk_hex : list string
}.

Record Keypair := {
  privateKey : PrivateKey;
  publicKey : PublicKey;
  publicKeyHash : string;
  publicKeyPreimage : string
}.

(** What [generateWinternitzKeypair] and [restoreKeypairFromPrivate] both
    do once they hold the private scalars. *)
Definition keypairOf (privateScalars : list Buffer) (hex : list string)
  : Keypair :=
  let publicCommitments :=
    map (fun scalar => iteratedHash256 scalar WOTS_ITERATIONS) privateScalars in
  let publicKeyHash := sha256 (ofBuffer (concat publicCommitments)) in
  {| privateKey := {| scalars := privateScalars; sk_hex := hex |};
     publicKey := {| commitments := publicCommitments;
                     pk_hex := map Js.toHex publicCommitments |};
     publicKeyHash := Js.toHex publicKeyHash;
     publicKeyPreimage := Js.toHex (concat publicCommitments) |}.

(** [randomBytes i] is the [i]-th draw of [crypto.randomBytes(SCALAR_SIZE)]
    made by the call. *)
Definition generateWinternitzKeypair (randomBytes : nat -> Buffer) : Keypair :=
  let privateScalars := map randomBytes (seq 0 WOTS_CHUNKS) in
  keypairOf privateScalars (map Js.toHex privateScalars).

Fixpoint checkScalarSizes (bufs : list Buffer) : result unit :=
  match bufs with
  | [] => Ok tt
  | buf :: r =>
      if negb (length buf =? SCALAR_SIZE)%nat
      then Throw (Err "Invalid scalar size")
      else checkScalarSizes r
  end.

Definition restoreKeypairFromPrivate (privateKeyHex : list string)
  : result Keypair :=
  if negb (length privateKeyHex =? WOTS_CHUNKS)%nat
  then Throw (Err "Expected 32 private scalars")
  else
    let privateScalars := map Js.fromHex privateKeyHex in
    _ ← checkScalarSizes privateScalars;
    Ok (keypairOf privateScalars privateKeyHex).

Record Chunk := {
  revealed : Buffer;
  offset : Z;
  revealedHex : string
}.

Record Signature := {
  chunks : list Chunk;
  message : string;
  signaturePreimage : string;
  offsets : list Z
}.

(** The body of the signing loop at index [i]; [message[i]] exists because
    the size check comes first, a missing scalar makes [Buffer.from]
    throw. *)
Definition signChunk (message : Buffer) (privateKey : PrivateKey) (i : nat)
  : result Chunk :=
  let messageByte := Js.byteZ (nth i message x00) in
  let hashCount := WOTS_ITERATIONS - messageByte in
  match scalars privateKey !! i with
  | None => Throw (TypeError "scalars[i] is undefined")
  | Some scalar =>
      let revealed := iteratedHash256 scalar hashCount in
      Ok {| revealed := revealed;
            offset := messageByte;
            revealedHex := Js.toHex revealed |}
  end.

Fixpoint signLoop (message : Buffer) (privateKey : PrivateKey)
  (indices : list nat) : result (list Chunk) :=
  match indices with
  | [] => Ok []
  | i :: r =>
      chunk ← signChunk message privateKey i;
      rest ← signLoop message privateKey r;
      Ok (chunk :: rest)
  end.

Definition signWinternitz (message : Data) (privateKey : PrivateKey)
  : result Signature :=
  let message := toBuffer message in
  if negb (length message =? 32)%nat
  then Throw (ErrMessageSize (length message))
  else
    chunks ← signLoop message privateKey (seq 0 WOTS_CHUNKS);
    Ok {| chunks := chunks;
          message := Js.toHex message;
          signaturePreimage := Js.toHex (concat (map revealed chunks));
          offsets := map offset chunks |}.

(** [a.equals(b)] *)
Fixpoint bufferEquals (a b : Buffer) : bool :=
  match a, b with
  | [], [] => true
  | x :: a', y :: b' => Byte.eqb x y && bufferEquals a' b'
  | _, _ => false
  end.

(** The verification loop; [Ok false] and [Ok true] are the two [return]s,
    [Throw] is a missing chunk or commitment. *)
Fixpoint verifyLoop (message : Buffer) (signature : Signature)
  (publicKey : PublicKey) (indices : list nat) : result bool :=
  match indices with
  | [] => Ok true
  | i :: r =>
      match chunks signature !! i with
      | None => Throw (TypeError "signature.chunks[i] is undefined")
      | Some chunk =>
          let expectedOffset := Js.byteZ (nth i message x00) in
          if negb (offset chunk =? expectedOffset) then Ok false
          else
            let computed := iteratedHash256 (revealed chunk) (offset chunk) in
            match commitments publicKey !! i with
            | None => Throw (TypeError "publicKey.commitments[i] is undefined")
            | Some commitment =>
                if negb (bufferEquals computed commitment) then Ok false
                else verifyLoop message signature publicKey r
            end
      end
  end.

Definition verifyWinternitz (message : Data) (signature : Signature)
  (publicKey : PublicKey) : result bool :=
  let message := toBuffer message in
  if negb (length message =? 32)%nat then Ok false
  else verifyLoop message signature publicKey (seq 0 WOTS_CHUNKS).

Definition verifyPreimage (secret expectedHash : string) : bool :=
  String.eqb (Js.toLowerCase (sha256Hex (ofHex secret)))
             (Js.toLowerCase expectedHash).

(** [hexData.length / 2] is a half-integer when the string has an odd
    number of characters; [len2] below is twice that length.
    [toString(16)] of [k + 0.5] is the digits of [k] followed by [.8], and
    [writeUInt16LE] stores the integer part. *)
Definition halfToString16 (len2 : Z) : string :=
  Js.toString16 (len2 / 2) +:+ (if Z.odd len2 then ".8" else "").

Definition writeUInt16LE (v : Z) : Buffer :=
  [Js.Zbyte v; Js.Zbyte (v / 256)].

Definition pushData (hexData : string) : result string :=
  let len2 := Z.of_nat (String.length hexData) in
  if len2 =? 0 then Ok "00"
  else if len2 <=? 2 * 75 then
    Ok (Js.padStart2 (halfToString16 len2) +:+ hexData)
  else if len2 <=? 2 * 255 then
    Ok ("4c" +:+ Js.padStart2 (halfToString16 len2) +:+ hexData)
  else if len2 <=? 2 * 65535 then
    Ok ("4d" +:+ Js.toHex (writeUInt16LE (len2 / 2)) +:+ hexData)
  else Throw (Err "Data too large to push").

End Crypto.

(** ** lib/htlc.js *)

Module Htlc.

(** The opcode table [OP]. *)
Definition OP_FALSE := "00".
Definition OP_TRUE := "51".
Definition OP_PUSHDATA1 := "4c".
Definition OP_PUSHDATA2 := "4d".
Definition OP_IF := "63".
Definition OP_ELSE := "67".
Definition OP_ENDIF := "68".
Definition OP_DROP := "75".
Definition OP_DUP := "76".
Definition OP_EQUAL := "87".
Definition OP_EQUALVERIFY := "88".
Definition OP_SHA256 := "a8".
Definition OP_HASH160 := "a9".
Definition OP_HASH256 := "aa".
Definition OP_CHECKSIG := "ac".
Definition OP_CHECKLOCKTIMEVERIFY := "b1".
Definition OP_CHECKSEQUENCEVERIFY := "b2".
Definition OP_NOP := "61".

(** *** Minimal number encoding *)

(** The [while (n > 0)] loop of [encodeMinimalNumber] on the 8-byte buffer
    [buf].  A store past the end of a typed array does nothing, which is
    what stdpp's list insert does. *)
Fixpoint encodeLoop (fuel : nat) (buf : Buffer) (i : nat) (n : Z)
  : Buffer * nat :=
  match fuel with
  | O => (buf, i)
  | S fuel' =>
      if n >? 0
      then encodeLoop fuel' (<[i := Js.Zbyte (Z.land n 255)]> buf) (S i) (n / 256)
      else (buf, i)
  end.

(** Enough iterations for the loop to leave by its own test: every
    iteration drops eight bits of [n]. *)
Definition encodeFuel (num : Z) : nat := S (Z.to_nat (Z.log2 num)).

(** [buf[i - 1] & 0x80]; [buf[-1]] and reads past the end are
    [undefined], and [undefined & 0x80] is 0. *)
Definition highBitSet (buf : Buffer) (i : nat) : bool :=
  match i with
  | O => false
  | S j =>
      match buf !! j with
      | Some b => negb (Z.land (Js.byteZ b) 128 =? 0)
      | None => false
      end
  end.

Definition encodeMinimalNumber (num : Z) : string :=
  if num =? 0 then ""
  else
    let buf := replicate 8 x00 in
    let '(buf, i) := encodeLoop (encodeFuel num) buf 0 num in
    let '(buf, i) :=
      if highBitSet buf i then (<[i := x00]> buf, S i) else (buf, i) in
    Js.toHex (take i buf).

(** [result = result * 256 + buf[i]] for [i] from the last byte down. *)
Definition decodeMinimalNumber (hex : string) : Z :=
  if (String.length hex =? 0)%nat then 0
  else fold_right (fun b result => result * 256 + Js.byteZ b) 0 (Js.fromHex hex).

(** *** The script *)

Record HTLCParams := {
  p_swapHash : string;
  p_recipientHash : string;
  p_refundHash : string;
  p_timeout : Z
}.

Record HTLCScript := {
  redeemScript : string;
  redeemScriptHash : string;
  sha256Hash : string;
  swapHash : string;
  recipientHash : string;
  refundHash : string;
  timeout : Z;
  timeoutHex : string;
  scriptSize : Z
}.

Definition createHTLCScript (params : HTLCParams) : result HTLCScript :=
  let swapHash := p_swapHash params in
  let recipientHash := p_recipientHash params in
  let refundHash := p_refundHash params in
  let timeout := p_timeout params in
  if negb (String.length swapHash =? 64)%nat then
    Throw (Err "Invalid swap hash: must be 64 hex characters (32 bytes)")
  else if negb (String.length recipientHash =? 64)%nat then
    Throw (Err "Invalid recipient hash: must be 64 hex characters (32 bytes)")
  else if negb (String.length refundHash =? 64)%nat then
    Throw (Err "Invalid refund hash: must be 64 hex characters (32 bytes)")
  else if (timeout =? 0) || (timeout <? 1) then
    Throw (Err "Invalid timeout: must be positive unix timestamp")
  else
    let timeoutHex := encodeMinimalNumber timeout in
    pushSwap ← Crypto.pushData swapHash;
    pushRecipient ← Crypto.pushData recipientHash;
    pushTimeout ← Crypto.pushData timeoutHex;
    pushRefund ← Crypto.pushData refundHash;
    let script :=
      OP_IF
      +:+ OP_SHA256 +:+ pushSwap +:+ OP_EQUALVERIFY
      +:+ OP_SHA256 +:+ pushRecipient +:+ OP_EQUAL
      +:+ OP_ELSE
      +:+ pushTimeout +:+ OP_CHECKLOCKTIMEVERIFY +:+ OP_DROP
      +:+ OP_SHA256 +:+ pushRefund +:+ OP_EQUAL
      +:+ OP_ENDIF in
    let scriptBuffer := Js.fromHex script in
    let scriptHash := Js.toHex (Crypto.hash160 (Crypto.ofBuffer scriptBuffer)) in
    let sha256Hash := Js.toHex (Crypto.sha256 (Crypto.ofBuffer scriptBuffer)) in
    Ok {| redeemScript := script;
          redeemScriptHash := scriptHash;
          sha256Hash := sha256Hash;
          swapHash := swapHash;
          recipientHash := recipientHash;
          refundHash := refundHash;
          timeout := timeout;
          timeoutHex := timeoutHex;
          scriptSize := Z.of_nat (length scriptBuffer) |}.

Definition scriptHashToP2SH (scriptHash network : string) : string :=
  let prefix := if String.eqb network "mainnet" then "005"%byte else "196"%byte in
  Bs58check.encode (prefix :: Js.fromHex scriptHash).

Definition createP2SHScriptPubKey (scriptHash : string) : result string :=
  push ← Crypto.pushData scriptHash;
  Ok (OP_HASH160 +:+ push +:+ OP_EQUAL).

(** The object returned by [createHTLC]: the fields of the script spread
    into it, and the chain specific ones.  A field that a branch does not
    set is [None].  [scriptASM], the disassembly kept for audit logs, is
    left out with [decodeScriptToASM]: on a script built by
    [createHTLCScript] the disassembler takes fifteen fixed steps and
    returns, and no property below reads its text. *)
Record HTLC := {
  htlcScript : HTLCScript;
  chain : string;
  network : string;
  outputType : string;
  lockingScript : option string;
  scriptHash : option string;
  address : option string;
  fundingNote : option string
}.

Definition createHTLC (params : HTLCParams) (chain network : string)
  : result HTLC :=
  htlcScript ← createHTLCScript params;
  if String.eqb chain "BSV" then
    Ok {| htlcScript := htlcScript;
          chain := "BSV";
          network := network;
          outputType := "bare-script";
          lockingScript := Some (redeemScript htlcScript);
          scriptHash := Some (sha256Hash htlcScript);
          address := None;
          fundingNote :=
            Some "BARE_SCRIPT: Must create raw transaction with lockingScript as output" |}
  else
    let p2shAddress := scriptHashToP2SH (redeemScriptHash htlcScript) network in
    Ok {| htlcScript := htlcScript;
          chain := "BTC";
          network := network;
          outputType := "p2sh";
          lockingScript := None;
          scriptHash := None;
          address := Some p2shAddress;
          fundingNote := None |}.

(** *** Unlocking scripts *)

Definition createClaimScriptSig
  (swapPreimage recipientPreimage redeemScript chain : string)
  : result string :=
  if (String.length swapPreimage <? 64)%nat then
    Throw (Err "Invalid swap preimage")
  else if (String.length recipientPreimage <? 64)%nat then
    Throw (Err "Invalid recipient preimage")
  else
    pushSwap ← Crypto.pushData swapPreimage;
    pushRecipient ← Crypto.pushData recipientPreimage;
    let parts := pushSwap +:+ pushRecipient +:+ OP_TRUE in
    if String.eqb chain "BTC" then
      pushScript ← Crypto.pushData redeemScript;
      Ok (parts +:+ pushScript)
    else Ok parts.

Definition createRefundScriptSig (refundPreimage redeemScript chain : string)
  : result string :=
  if (String.length refundPreimage <? 64)%nat then
    Throw (Err "Invalid refund preimage")
  else
    pushRefund ← Crypto.pushData refundPreimage;
    let parts := pushRefund +:+ OP_FALSE in
    if String.eqb chain "BTC" then
      pushScript ← Crypto.pushData redeemScript;
      Ok (parts +:+ pushScript)
    else Ok parts.

(** *** The parser *)

Record ParsedHTLC := {
  valid : bool;
  parsed_swapHash : string;
  parsed_recipientHash : string;
  parsed_refundHash : string;
  parsed_timeout : Z;
  parsed_timeoutHex : string
}.

(** [scriptHex.substring(i, i + n)] *)
Definition peek (scriptHex : string) (i : option Z) (n : Z) : string :=
  Js.substring scriptHex i (Js.add i (Js.num n)).

(** [if (scriptHex.substring(i, i + 2) !== op) throw new Error(msg)] *)
Definition expect (scriptHex : string) (i : option Z) (op msg : string)
  : result unit :=
  if negb (String.eqb (peek scriptHex i 2) op) then Throw (Err msg) else Ok tt.

(** The cursor [i] is a number: it becomes [NaN] when the push length of
    the timeout is not a number.  The returned [timeoutDate] is a call of
    [toISOString], which throws on a timeout outside the range of dates;
    its text is not kept. *)
Definition parseHTLCScript (scriptHex : string) : result ParsedHTLC :=
  let i := Js.num 0 in
  _ ← expect scriptHex i OP_IF "Expected OP_IF at start";
  let i := Js.add i (Js.num 2) in
  _ ← expect scriptHex i OP_SHA256 "Expected OP_SHA256";
  let i := Js.add i (Js.num 2) in
  _ ← expect scriptHex i "20" "Expected 32-byte push for swap hash";
  let i := Js.add i (Js.num 2) in
  let swapHash := peek scriptHex i 64 in
  let i := Js.add i (Js.num 64) in
  _ ← expect scriptHex i OP_EQUALVERIFY "Expected OP_EQUALVERIFY";
  let i := Js.add i (Js.num 2) in
  _ ← expect scriptHex i OP_SHA256 "Expected OP_SHA256";
  let i := Js.add i (Js.num 2) in
  _ ← expect scriptHex i "20" "Expected 32-byte push for recipient hash";
  let i := Js.add i (Js.num 2) in
  let recipientHash := peek scriptHex i 64 in
  let i := Js.add i (Js.num 64) in
  _ ← expect scriptHex i OP_EQUAL "Expected OP_EQUAL";
  let i := Js.add i (Js.num 2) in
  _ ← expect scriptHex i OP_ELSE "Expected OP_ELSE";
  let i := Js.add i (Js.num 2) in
  let timeoutPushLen := Js.parseInt16 (peek scriptHex i 2) in
  let i := Js.add i (Js.num 2) in
  let timeoutHex :=
    Js.substring scriptHex i (Js.add i (Js.mul timeoutPushLen (Js.num 2))) in
  let timeout := decodeMinimalNumber timeoutHex in
  let i := Js.add i (Js.mul timeoutPushLen (Js.num 2)) in
  _ ← expect scriptHex i OP_CHECKLOCKTIMEVERIFY "Expected OP_CHECKLOCKTIMEVERIFY";
  let i := Js.add i (Js.num 2) in
  _ ← expect scriptHex i OP_DROP "Expected OP_DROP";
  let i := Js.add i (Js.num 2) in
  _ ← expect scriptHex i OP_SHA256 "Expected OP_SHA256";
  let i := Js.add i (Js.num 2) in
  _ ← expect scriptHex i "20" "Expected 32-byte push for refund hash";
  let i := Js.add i (Js.num 2) in
  let refundHash := peek scriptHex i 64 in
  let i := Js.add i (Js.num 64) in
  _ ← expect scriptHex i OP_EQUAL "Expected OP_EQUAL";
  let i := Js.add i (Js.num 2) in
  _ ← expect scriptHex i OP_ENDIF "Expected OP_ENDIF";
  _ ← Js.toISOString (timeout * 1000);
  Ok {| valid := true;
        parsed_swapHash := swapHash;
        parsed_recipientHash := recipientHash;
        parsed_refundHash := refundHash;
        parsed_timeout := timeout;
        parsed_timeoutHex := timeoutHex |}.

End Htlc.

(** ** The ledgers

    What the adapters read from outside the process: the block explorers,
    the broadcast endpoints, the clock, the configured durations, and the
    routines of the adapters that only serialise (address validation through
    [bs58check.decode], the raw sweep transaction). *)

Record Utxo := {
  txid : string;
  vout : Z;
  satoshis : Z
}.

(** The balance objects of the three adapters; a field an adapter does not
    return is [None]. *)
Record Balance := {
  b_satoshis : option Z;
  b_lamports : option Z;
  b_utxos : option (list Utxo)
}.

Record Validation := {
  v_valid : bool;
  v_error : string
}.

Record SweepParams := {
  sw_utxo : Utxo;
  sw_lockingScript : option string;
  sw_scriptSig : string;
  sw_toAddress : option string;
  sw_locktime : Z
}.

Record SolHTLCParams := {
  sol_swapHash : string;
  sol_recipientHash : string;
  sol_refundHash : string;
  sol_initiator : string;
  sol_recipient : string;
  sol_lamports : Number;
  sol_timeoutSeconds : Z
}.

Record SolHTLCInfo := {
  htlcAddress : string;
  htlcData : string
}.

Class Env := {
  Date_now : Z;
  initiatorTimeoutSeconds : Z;
  responderTimeoutSeconds : Z;
  bsv_validateAddress : string -> Validation;
  btc_validateAddress : string -> Validation;
  sol_validateAddress : string -> Validation;
  bsv_getUTXOsByScriptHash : option string -> result (list Utxo);
  btc_getUTXOs : option string -> result (list Utxo);
  sol_rpcGetBalance : option string -> result Z;
  sol_createHTLCInfo : SolHTLCParams -> result SolHTLCInfo;
  bsv_buildSweepTransaction : SweepParams -> result string;
  btc_buildSweepTransaction : SweepParams -> result string;
  bsv_broadcastTransaction : string -> result string;
  btc_broadcastTransaction : string -> result string
}.

(** [Math.floor(Date.now() / 1000)] *)
Definition nowSeconds `{Env} : Z := Date_now / 1000.

Record ClaimParams := {
  cp_utxo : Utxo;
  cp_swapSecret : string;
  cp_recipientSecret : option string;
  cp_lockingScript : option string;
  cp_redeemScript : option string;
  cp_toAddress : option string
}.

Record RefundParams := {
  rp_utxo : Utxo;
  rp_refundSecret : option string;
  rp_lockingScript : option string;
  rp_redeemScript : option string;
  rp_toAddress : option string
}.

(** [htlc.parseHTLCScript(script)] on a value that may be [null]. *)
Definition parseScript (script : option string) : result Htlc.ParsedHTLC :=
  match script with
  | Some s => Htlc.parseHTLCScript s
  | None => Throw (TypeError "Cannot read properties of null (reading 'substring')")
  end.

(** [crypto.sha256Hex(secret)] on a value that may be [null]. *)
Definition sha256HexOf (secret : option string) : result string :=
  match secret with
  | Some s => Ok (Crypto.sha256Hex (Crypto.ofHex s))
  | None => Throw (TypeError "The first argument must be of type string")
  end.

(** *** lib/bsv.js *)

Module Bsv.

Definition getHTLCBalance `{Env} (scriptHash : option string) : result Balance :=
  match bsv_getUTXOsByScriptHash scriptHash with
  | Ok utxos =>
      Ok {| b_satoshis := Some (fold_left (fun sum utxo => sum + satoshis utxo) utxos 0);
            b_lamports := None;
            b_utxos := Some utxos |}
  | Throw _ => Throw (LedgerError "Failed to fetch HTLC balance")
  end.

Definition buildClaimTransaction `{Env} (params : ClaimParams) : result string :=
  let lockingScript := cp_lockingScript params in
  htlcDetails ← parseScript lockingScript;
  if negb (String.eqb (Crypto.sha256Hex (Crypto.ofHex (cp_swapSecret params)))
                      (Htlc.parsed_swapHash htlcDetails)) then
    Throw (Err "Swap secret does not match hash in script")
  else
    recipientDigest ← sha256HexOf (cp_recipientSecret params);
    if negb (String.eqb recipientDigest (Htlc.parsed_recipientHash htlcDetails)) then
      Throw (Err "Recipient secret does not match hash in script")
    else
      scriptSig ← Htlc.createClaimScriptSig (cp_swapSecret params)
                    (default "" (cp_recipientSecret params))
                    (default "" lockingScript) "BSV";
      bsv_buildSweepTransaction
        {| sw_utxo := cp_utxo params;
           sw_lockingScript := lockingScript;
           sw_scriptSig := scriptSig;
           sw_toAddress := cp_toAddress params;
           sw_locktime := 0 |}.

Definition buildRefundTransaction `{Env} (params : RefundParams) : result string :=
  let lockingScript := rp_lockingScript params in
  htlcDetails ← parseScript lockingScript;
  refundDigest ← sha256HexOf (rp_refundSecret params);
  if negb (String.eqb refundDigest (Htlc.parsed_refundHash htlcDetails)) then
    Throw (Err "Refund secret does not match hash in script")
  else
    let now := nowSeconds in
    if now <? Htlc.parsed_timeout htlcDetails then
      Throw (ErrTimeoutNotReached (Htlc.parsed_timeout htlcDetails - now))
    else
      scriptSig ← Htlc.createRefundScriptSig
                    (default "" (rp_refundSecret params))
                    (default "" lockingScript) "BSV";
      bsv_buildSweepTransaction
        {| sw_utxo := rp_utxo params;
           sw_lockingScript := lockingScript;
           sw_scriptSig := scriptSig;
           sw_toAddress := rp_toAddress params;
           sw_locktime := Htlc.parsed_timeout htlcDetails |}.

End Bsv.

(** *** lib/btc.js *)

Module Btc.

Definition getBalance `{Env} (address : option string) : result Balance :=
  match btc_getUTXOs address with
  | Ok utxos =>
      Ok {| b_satoshis := Some (fold_left (fun sum utxo => sum + satoshis utxo) utxos 0);
            b_lamports := None;
            b_utxos := Some utxos |}
  | Throw _ => Throw (LedgerError "Failed to fetch balance")
  end.

Definition buildClaimTransaction `{Env} (params : ClaimParams) : result string :=
  let redeemScript := cp_redeemScript params in
  htlcDetails ← parseScript redeemScript;
  if negb (String.eqb (Crypto.sha256Hex (Crypto.ofHex (cp_swapSecret params)))
                      (Htlc.parsed_swapHash htlcDetails)) then
    Throw (Err "Swap secret does not match hash in script")
  else
    recipientDigest ← sha256HexOf (cp_recipientSecret params);
    if negb (String.eqb recipientDigest (Htlc.parsed_recipientHash htlcDetails)) then
      Throw (Err "Recipient secret does not match hash in script")
    else
      scriptSig ← Htlc.createClaimScriptSig (cp_swapSecret params)
                    (default "" (cp_recipientSecret params))
                    (default "" redeemScript) "BTC";
      btc_buildSweepTransaction
        {| sw_utxo := cp_utxo params;
           sw_lockingScript := None;
           sw_scriptSig := scriptSig;
           sw_toAddress := cp_toAddress params;
           sw_locktime := 0 |}.

Definition buildRefundTransaction `{Env} (params : RefundParams) : result string :=
  let redeemScript := rp_redeemScript params in
  htlcDetails ← parseScript redeemScript;
  refundDigest ← sha256HexOf (rp_refundSecret params);
  if negb (String.eqb refundDigest (Htlc.parsed_refundHash htlcDetails)) then
    Throw (Err "Refund secret does not match hash in script")
  else
    let now := nowSeconds in
    if now <? Htlc.parsed_timeout htlcDetails then
      Throw (ErrTimeoutNotReached (Htlc.parsed_timeout htlcDetails - now))
    else
      scriptSig ← Htlc.createRefundScriptSig
                    (default "" (rp_refundSecret params))
                    (default "" redeemScript) "BTC";
      btc_buildSweepTransaction
        {| sw_utxo := rp_utxo params;
           sw_lockingScript := None;
           sw_scriptSig := scriptSig;
           sw_toAddress := rp_toAddress params;
           sw_locktime := Htlc.parsed_timeout htlcDetails |}.

End Btc.

(** *** lib/sol.js *)

Module Sol.

Definition getBalance `{Env} (address : option string) : result Balance :=
  match sol_rpcGetBalance address with
  | Ok lamports =>
      Ok {| b_satoshis := None; b_lamports := Some lamports; b_utxos := None |}
  | Throw _ => Throw (LedgerError "Failed to fetch balance")
  end.

End Sol.

(** ** lib/swap.js: the swap record *)

Definition SupportedChains : list string := ["BSV"; "BTC"; "SOL"].

Inductive ChainModule := bsv | btc | sol.

Record InitiatorSecrets := {
  swap_secret : string;
  swap_hash : string;
  refund_secret : string;
  refund_hash : string;
  claim_secret : string;
  claim_hash : string
}.

Record ResponderSecrets := {
  rs_recipient_secret : string;
  rs_recipient_hash : string;
  rs_refund_secret : string;
  rs_refund_hash : string
}.

(** [swap.responder]: every field is [null] until the responder joins. *)
Record Responder := {
  recipient_secret : option string;
  recipient_hash : option string;
  r_refund_secret : option string;
  r_refund_hash : option string;
  r_toAddress : option string;
  r_refundAddress : option string
}.

(** [swap.initiatorHTLC] and [swap.responderHTLC]. *)
Record Escrow := {
  e_chain : string;
  e_address : option string;
  e_lockingScript : option string;
  e_scriptHash : option string;
  e_timeout : Z;
  e_funded : bool;
  e_fundingTxid : option string;
  e_htlcData : option string
}.

Record Transaction := {
  tx_type : string;
  tx_chain : string;
  tx_txid : option string;
  tx_swapSecretRevealed : bool;
  tx_timestamp : Z
}.

(** The swap object.  The keypair objects stored next to each secret are
    left out: no function reads them back. *)
Record Swap := {
  swapId : string;
  status : SwapStatus;
  fromChain : string;
  toChain : string;
  fromAmount : Number;
  toAmount : Number;
  toAddress : string;
  refundAddress : string;
  initiator : InitiatorSecrets;
  initiatorHTLC : Escrow;
  responderHTLC : Escrow;
  responder : Responder;
  transactions : list Transaction;
  createdAt : Z;
  updatedAt : Z
}.

(** Assignments to one field. *)
Definition set_status (v : SwapStatus) (s : Swap) : Swap :=
  {| swapId := swapId s; status := v; fromChain := fromChain s;
     toChain := toChain s; fromAmount := fromAmount s; toAmount := toAmount s;
     toAddress := toAddress s; refundAddress := refundAddress s;
     initiator := initiator s; initiatorHTLC := initiatorHTLC s;
     responderHTLC := responderHTLC s; responder := responder s;
     transactions := transactions s; createdAt := createdAt s;
     updatedAt := updatedAt s |}.

Definition set_updatedAt (v : Z) (s : Swap) : Swap :=
  {| swapId := swapId s; status := status s; fromChain := fromChain s;
     toChain := toChain s; fromAmount := fromAmount s; toAmount := toAmount s;
     toAddress := toAddress s; refundAddress := refundAddress s;
     initiator := initiator s; initiatorHTLC := initiatorHTLC s;
     responderHTLC := responderHTLC s; responder := responder s;
     transactions := transactions s; createdAt := createdAt s;
     updatedAt := v |}.

Definition set_responder (v : Responder) (s : Swap) : Swap :=
  {| swapId := swapId s; status := status s; fromChain := fromChain s;
     toChain := toChain s; fromAmount := fromAmount s; toAmount := toAmount s;
     toAddress := toAddress s; refundAddress := refundAddress s;
     initiator := initiator s; initiatorHTLC := initiatorHTLC s;
     responderHTLC := responderHTLC s; responder := v;
     transactions := transactions s; createdAt := createdAt s;
     updatedAt := updatedAt s |}.

Definition set_initiatorHTLC (v : Escrow) (s : Swap) : Swap :=
  {| swapId := swapId s; status := status s; fromChain := fromChain s;
     toChain := toChain s; fromAmount := fromAmount s; toAmount := toAmount s;
     toAddress := toAddress s; refundAddress := refundAddress s;
     initiator := initiator s; initiatorHTLC := v;
     responderHTLC := responderHTLC s; responder := responder s;
     transactions := transactions s; createdAt := createdAt s;
     updatedAt := updatedAt s |}.

Definition set_responderHTLC (v : Escrow) (s : Swap) : Swap :=
  {| swapId := swapId s; status := status s; fromChain := fromChain s;
     toChain := toChain s; fromAmount := fromAmount s; toAmount := toAmount s;
     toAddress := toAddress s; refundAddress := refundAddress s;
     initiator := initiator s; initiatorHTLC := initiatorHTLC s;
     responderHTLC := v; responder := responder s;
     transactions := transactions s; createdAt := createdAt s;
     updatedAt := updatedAt s |}.

(** [swap.transactions.push(tx)] *)
Definition push_transaction (tx : Transaction) (s : Swap) : Swap :=
  {| swapId := swapId s; status := status s; fromChain := fromChain s;
     toChain := toChain s; fromAmount := fromAmount s; toAmount := toAmount s;
     toAddress := toAddress s; refundAddress := refundAddress s;
     initiator := initiator s; initiatorHTLC := initiatorHTLC s;
     responderHTLC := responderHTLC s; responder := responder s;
     transactions := (transactions s ++ [tx])%list; createdAt := createdAt s;
     updatedAt := updatedAt s |}.

(** The assignments of [joinSwap] to an escrow, by chain. *)
Definition set_script (address lockingScript scriptHash : option string)
  (e : Escrow) : Escrow :=
  {| e_chain := e_chain e; e_address := address;
     e_lockingScript := lockingScript; e_scriptHash := scriptHash;
     e_timeout := e_timeout e; e_funded := e_funded e;
     e_fundingTxid := e_fundingTxid e; e_htlcData := e_htlcData e |}.

Definition set_solana (address htlcData : string) (e : Escrow) : Escrow :=
  {| e_chain := e_chain e; e_address := Some address;
     e_lockingScript := e_lockingScript e; e_scriptHash := e_scriptHash e;
     e_timeout := e_timeout e; e_funded := e_funded e;
     e_fundingTxid := e_fundingTxid e; e_htlcData := Some htlcData |}.

(** [htlc.funded = true; htlc.fundingTxid = txid], with the [txid] of the
    call, which may be [undefined]. *)
Definition set_funded (fundingTxid : option string) (e : Escrow) : Escrow :=
  {| e_chain := e_chain e; e_address := e_address e;
     e_lockingScript := e_lockingScript e; e_scriptHash := e_scriptHash e;
     e_timeout := e_timeout e; e_funded := true;
     e_fundingTxid := fundingTxid; e_htlcData := e_htlcData e |}.

(** ** lib/swap.js: the coordinator

    The module keeps its swaps in a [Map] from swap id to swap object; a
    function that holds a swap holds a reference into that map, so an
    assignment to a field is visible in the map at once and stays there when
    the function throws later.  [World] is that map together with the list
    of calls made to the ledgers so far, and a coordinator function is a
    computation on it. *)

Inductive LedgerCall :=
| QueryBalance (chain : string) (key : option string)
| CreateSolanaHTLC (params : SolHTLCParams)
| Broadcast (chain : string) (txHex : string).

Record World := {
  swaps : gmap string Swap;
  ledgerCalls : list LedgerCall
}.

Definition Coord (A : Type) : Type := World -> World * result A.

#[global] Instance coord_ret : MRet Coord := fun A a w => (w, Ok a).
#[global] Instance coord_bind : MBind Coord :=
  fun A B k m w =>
    match m w with
    | (w', Ok a) => k a w'
    | (w', Throw e) => (w', Throw e)
    end.

Definition throw {A} (e : Error) : Coord A := fun w => (w, Throw e).

(** A synchronous call that may throw. *)
Definition lift {A} (r : result A) : Coord A := fun w => (w, r).

(** [await] of a ledger call: the call is made, then its promise resolves
    or rejects. *)
Definition await {A} (call : LedgerCall) (r : result A) : Coord A :=
  fun w => ({| swaps := swaps w; ledgerCalls := (ledgerCalls w ++ [call])%list |}, r).

(** [swaps.get(swapId)] followed by [if (!swap) throw ...]. *)
Definition getSwap (swapId : string) : Coord Swap :=
  fun w => match swaps w !! swapId with
           | Some swap => (w, Ok swap)
           | None => (w, Throw (Err "Swap not found"))
           end.

(** [swaps.set(swapId, swap)] *)
Definition setSwap (swapId : string) (swap : Swap) : Coord unit :=
  fun w => ({| swaps := <[swapId := swap]> (swaps w); ledgerCalls := ledgerCalls w |}, Ok tt).

(** An assignment through the reference held for [swapId]. *)
Definition assign (swapId : string) (f : Swap -> Swap) : Coord unit :=
  fun w => ({| swaps := alter f swapId (swaps w); ledgerCalls := ledgerCalls w |}, Ok tt).

Definition getChainModule (chain : string) : result ChainModule :=
  let c := Js.toUpperCase chain in
  if String.eqb c "BSV" then Ok bsv
  else if String.eqb c "BTC" then Ok btc
  else if String.eqb c "SOL" then Ok sol
  else Throw (Err "Unsupported chain").

Definition validateAddress `{Env} (m : ChainModule) (address : string) : Validation :=
  match m with
  | bsv => bsv_validateAddress address
  | btc => btc_validateAddress address
  | sol => sol_validateAddress address
  end.

(** [chainModule.buildClaimTransaction(...)]; lib/sol.js exports no such
    function, so the call on it is a TypeError. *)
Definition buildClaimTransaction `{Env} (m : ChainModule) (params : ClaimParams)
  : result string :=
  match m with
  | bsv => Bsv.buildClaimTransaction params
  | btc => Btc.buildClaimTransaction params
  | sol => Throw (TypeError "chainModule.buildClaimTransaction is not a function")
  end.

Definition buildRefundTransaction `{Env} (m : ChainModule) (params : RefundParams)
  : result string :=
  match m with
  | bsv => Bsv.buildRefundTransaction params
  | btc => Btc.buildRefundTransaction params
  | sol => Throw (TypeError "chainModule.buildRefundTransaction is not a function")
  end.

Definition broadcastTransaction `{Env} (m : ChainModule) (txHex : string)
  : Coord string :=
  match m with
  | bsv => await (Broadcast "BSV" txHex) (bsv_broadcastTransaction txHex)
  | btc => await (Broadcast "BTC" txHex) (btc_broadcastTransaction txHex)
  | sol => throw (TypeError "chainModule.broadcastTransaction is not a function")
  end.

(** The [let utxos; if (chain === 'BSV') ... else if (chain === 'BTC') ...]
    block shared by the claims and the refunds; [utxos] stays [undefined]
    on any other chain. *)
Definition fetchUtxos `{Env} (chain : string) (escrow : Escrow)
  : Coord (option (list Utxo)) :=
  if String.eqb chain "BSV" then
    balance ← await (QueryBalance "BSV" (e_scriptHash escrow))
                    (Bsv.getHTLCBalance (e_scriptHash escrow));
    mret (b_utxos balance)
  else if String.eqb chain "BTC" then
    balance ← await (QueryBalance "BTC" (e_address escrow))
                    (Btc.getBalance (e_address escrow));
    mret (b_utxos balance)
  else mret None.

(** The [let balance; if ... else if ... else if ...] block of the two
    funding records; [balance] stays [undefined] on an unknown chain. *)
Definition fetchBalance `{Env} (chain : string) (escrow : Escrow)
  : Coord (option Balance) :=
  if String.eqb chain "BSV" then
    balance ← await (QueryBalance "BSV" (e_scriptHash escrow))
                    (Bsv.getHTLCBalance (e_scriptHash escrow));
    mret (Some balance)
  else if String.eqb chain "BTC" then
    balance ← await (QueryBalance "BTC" (e_address escrow))
                    (Btc.getBalance (e_address escrow));
    mret (Some balance)
  else if String.eqb chain "SOL" then
    balance ← await (QueryBalance "SOL" (e_address escrow))
                    (Sol.getBalance (e_address escrow));
    mret (Some balance)
  else mret None.

(** [v < y] on a number and an amount: false on [NaN], and an infinity is
    above or below every number. *)
Definition ltNumber (v : Z) (y : Number) : bool :=
  match y with
  | Finite b => v <? b
  | NaN => false
  | Infinite negative => negb negative
  end.

(** [x < y] with [x] possibly [undefined]: the comparison is then false. *)
Definition ltUndef (x : option Z) (y : Number) : bool :=
  match x with Some v => ltNumber v y | None => false end.

(** [a || b || 0] on numbers possibly [undefined]. *)
Definition orElse (a b : option Z) : Z :=
  match a with
  | Some v => if v =? 0 then match b with Some u => u | None => 0 end else v
  | None => match b with Some u => u | None => 0 end
  end.

#[global] Instance SwapStatus_eq_dec : EqDecision SwapStatus.
Proof. solve_decision. Defined.

(** [SupportedChains.includes(x)] *)
Definition includes (l : list string) (x : string) : bool :=
  existsb (String.eqb x) l.

(** [a || b] on strings: [a] unless it is [undefined], [null] or empty. *)
Definition orString (a b : option string) : option string :=
  match a with
  | Some EmptyString => b
  | Some _ => a
  | None => b
  end.

(** [uuid.replace(/-/g, '')] *)
Fixpoint removeDashes (s : string) : string :=
  match s with
  | EmptyString => EmptyString
  | String c r => if Ascii.eqb c "-" then removeDashes r else String c (removeDashes r)
  end.

(** The parameters of [initiateSwap].  The two amounts are read by
    [parseInt] only, which begins by turning its argument into text:
    [ip_fromAmount] is that text, [String(fromAmount)]; a string is its own
    text, the number 100000 has the text 100000, the number 1e21 the text
    1e+21. *)
Record InitiateParams := {
  ip_fromChain : string;
  ip_toChain : string;
  ip_fromAmount : string;
  ip_toAmount : string;
  ip_toAddress : string;
  ip_refundAddress : string
}.

Record InitiateResult := {
  ir_swapId : string;
  ir_status : SwapStatus;
  ir_fromChain : string;
  ir_toChain : string;
  ir_fromAmount : Number;
  ir_toAmount : Number;
  ir_swap_hash : string;
  ir_initiatorTimeout : Z;
  ir_responderTimeout : Z;
  ir_secretsToSave : string * string * string
}.

(** [uuid] is the value of [uuidv4()] and [initiatorSecrets] that of
    [cryptoLib.generateInitiatorSecrets()], both drawn from the random
    source by the call. *)
Definition initiateSwap `{Env} (uuid : string) (initiatorSecrets : InitiatorSecrets)
  (params : InitiateParams) : Coord InitiateResult :=
  let fromChain := ip_fromChain params in
  let toChain := ip_toChain params in
  let toAddress := ip_toAddress params in
  let refundAddress := ip_refundAddress params in
  if negb (includes SupportedChains (Js.toUpperCase fromChain)) then
    throw (ErrInvalidChain "fromChain")
  else if negb (includes SupportedChains (Js.toUpperCase toChain)) then
    throw (ErrInvalidChain "toChain")
  else if String.eqb (Js.toUpperCase fromChain) (Js.toUpperCase toChain) then
    throw (Err "fromChain and toChain must be different")
  else
    fromModule ← lift (getChainModule fromChain);
    toModule ← lift (getChainModule toChain);
    let refundValidation := validateAddress fromModule refundAddress in
    if negb (v_valid refundValidation) then
      throw (ErrInvalidAddress "refund address" (v_error refundValidation))
    else
      let toValidation := validateAddress toModule toAddress in
      if negb (v_valid toValidation) then
        throw (ErrInvalidAddress "destination address" (v_error toValidation))
      else
        let swapId :=
          "qswap_" +:+ Js.substring (removeDashes uuid) (Js.num 0) (Js.num 16) in
        let now := nowSeconds in
        let initiatorTimeout := now + initiatorTimeoutSeconds in
        let responderTimeout := now + responderTimeoutSeconds in
        let swap :=
          {| swapId := swapId;
             status := INITIATED;
             fromChain := Js.toUpperCase fromChain;
             toChain := Js.toUpperCase toChain;
             fromAmount := Js.parseInt (ip_fromAmount params);
             toAmount := Js.parseInt (ip_toAmount params);
             toAddress := toAddress;
             refundAddress := refundAddress;
             initiator := initiatorSecrets;
             initiatorHTLC :=
               {| e_chain := Js.toUpperCase fromChain; e_address := None;
                  e_lockingScript := None; e_scriptHash := None;
                  e_timeout := initiatorTimeout; e_funded := false;
                  e_fundingTxid := None; e_htlcData := None |};
             responderHTLC :=
               {| e_chain := Js.toUpperCase toChain; e_address := None;
                  e_lockingScript := None; e_scriptHash := None;
                  e_timeout := responderTimeout; e_funded := false;
                  e_fundingTxid := None; e_htlcData := None |};
             responder :=
               {| recipient_secret := None; recipient_hash := None;
                  r_refund_secret := None; r_refund_hash := None;
                  r_toAddress := None; r_refundAddress := None |};
             transactions := [];
             createdAt := Date_now;
             updatedAt := Date_now |} in
        _ ← setSwap swapId swap;
        _ ← lift (Js.toISOString (initiatorTimeout * 1000));
        _ ← lift (Js.toISOString (responderTimeout * 1000));
        mret {| ir_swapId := swapId;
                ir_status := status swap;
                ir_fromChain := Js.toUpperCase fromChain;
                ir_toChain := Js.toUpperCase toChain;
                ir_fromAmount := fromAmount swap;
                ir_toAmount := toAmount swap;
                ir_swap_hash := swap_hash initiatorSecrets;
                ir_initiatorTimeout := initiatorTimeout;
                ir_responderTimeout := responderTimeout;
                ir_secretsToSave :=
                  (swap_secret initiatorSecrets, refund_secret initiatorSecrets,
                   claim_secret initiatorSecrets) |}.

Record JoinParams := {
  jp_swapId : string;
  jp_toAddress : string;
  jp_refundAddress : string
}.

Record JoinResult := {
  jr_swapId : string;
  jr_status : SwapStatus;
  jr_initiatorHTLC : Escrow;
  jr_responderHTLC : Escrow;
  jr_secretsToSave : string * string
}.

(** The parameters handed to [htlc.createHTLC] for the two escrows. *)
Definition initiatorEscrowParams (swap : Swap) (responderSecrets : ResponderSecrets)
  : Htlc.HTLCParams :=
  {| Htlc.p_swapHash := swap_hash (initiator swap);
     Htlc.p_recipientHash := rs_recipient_hash responderSecrets;
     Htlc.p_refundHash := refund_hash (initiator swap);
     Htlc.p_timeout := e_timeout (initiatorHTLC swap) |}.

Definition responderEscrowParams (swap : Swap) (responderSecrets : ResponderSecrets)
  : Htlc.HTLCParams :=
  {| Htlc.p_swapHash := swap_hash (initiator swap);
     Htlc.p_recipientHash := claim_hash (initiator swap);
     Htlc.p_refundHash := rs_refund_hash responderSecrets;
     Htlc.p_timeout := e_timeout (responderHTLC swap) |}.

(** The chain by chain assignments of [joinSwap] to one escrow; [setEscrow]
    is the assignment to [swap.initiatorHTLC] or [swap.responderHTLC]. *)
Definition storeEscrow `{Env} (swapId chain : string)
  (setEscrow : (Escrow -> Escrow) -> Swap -> Swap)
  (htlcResult : Htlc.HTLC) (solParams : SolHTLCParams) : Coord unit :=
  if String.eqb chain "BSV" then
    assign swapId (setEscrow
      (set_script None (Htlc.lockingScript htlcResult) (Htlc.scriptHash htlcResult)))
  else if String.eqb chain "BTC" then
    assign swapId (setEscrow
      (set_script (Htlc.address htlcResult)
         (Some (Htlc.redeemScript (Htlc.htlcScript htlcResult)))
         (Some (Htlc.redeemScriptHash (Htlc.htlcScript htlcResult)))))
  else if String.eqb chain "SOL" then
    solHTLC ← await (CreateSolanaHTLC solParams) (sol_createHTLCInfo solParams);
    assign swapId (setEscrow (set_solana (htlcAddress solHTLC) (htlcData solHTLC)))
  else mret tt.

(** [responderSecrets] is the value of
    [cryptoLib.generateResponderSecrets()], drawn by the call. *)
Definition joinSwap `{Env} (responderSecrets : ResponderSecrets) (params : JoinParams)
  : Coord JoinResult :=
  let swapId := jp_swapId params in
  swap ← getSwap swapId;
  if negb (bool_decide (status swap = INITIATED)) then
    throw (ErrCannotJoin (status swap))
  else
    fromModule ← lift (getChainModule (fromChain swap));
    toModule ← lift (getChainModule (toChain swap));
    let toValidation := validateAddress fromModule (jp_toAddress params) in
    if negb (v_valid toValidation) then
      throw (ErrInvalidAddress "toAddress" (v_error toValidation))
    else
      let refundValidation := validateAddress toModule (jp_refundAddress params) in
      if negb (v_valid refundValidation) then
        throw (ErrInvalidAddress "refundAddress" (v_error refundValidation))
      else
        _ ← assign swapId (set_responder
               {| recipient_secret := Some (rs_recipient_secret responderSecrets);
                  recipient_hash := Some (rs_recipient_hash responderSecrets);
                  r_refund_secret := Some (rs_refund_secret responderSecrets);
                  r_refund_hash := Some (rs_refund_hash responderSecrets);
                  r_toAddress := Some (jp_toAddress params);
                  r_refundAddress := Some (jp_refundAddress params) |});
        initiatorHTLCResult ←
          lift (Htlc.createHTLC (initiatorEscrowParams swap responderSecrets)
                  (fromChain swap) "mainnet");
        _ ← storeEscrow swapId (fromChain swap)
              (fun f s => set_initiatorHTLC (f (initiatorHTLC s)) s)
              initiatorHTLCResult
              {| sol_swapHash := swap_hash (initiator swap);
                 sol_recipientHash := rs_recipient_hash responderSecrets;
                 sol_refundHash := refund_hash (initiator swap);
                 sol_initiator := refundAddress swap;
                 sol_recipient := jp_toAddress params;
                 sol_lamports := fromAmount swap;
                 sol_timeoutSeconds := e_timeout (initiatorHTLC swap) - nowSeconds |};
        responderHTLCResult ←
          lift (Htlc.createHTLC (responderEscrowParams swap responderSecrets)
                  (toChain swap) "mainnet");
        _ ← storeEscrow swapId (toChain swap)
              (fun f s => set_responderHTLC (f (responderHTLC s)) s)
              responderHTLCResult
              {| sol_swapHash := swap_hash (initiator swap);
                 sol_recipientHash := claim_hash (initiator swap);
                 sol_refundHash := rs_refund_hash responderSecrets;
                 sol_initiator := jp_refundAddress params;
                 sol_recipient := toAddress swap;
                 sol_lamports := toAmount swap;
                 sol_timeoutSeconds := e_timeout (responderHTLC swap) - nowSeconds |};
        _ ← assign swapId (set_status COUNTERPARTY_JOINED);
        _ ← assign swapId (set_updatedAt Date_now);
        swap ← getSwap swapId;
        _ ← lift (Js.toISOString (e_timeout (initiatorHTLC swap) * 1000));
        _ ← lift (Js.toISOString (e_timeout (responderHTLC swap) * 1000));
        mret {| jr_swapId := swapId;
                jr_status := status swap;
                jr_initiatorHTLC := initiatorHTLC swap;
                jr_responderHTLC := responderHTLC swap;
                jr_secretsToSave :=
                  (rs_recipient_secret responderSecrets,
                   rs_refund_secret responderSecrets) |}.

(** [txid] is [undefined] when the caller names none. *)
Record FundingParams := {
  fp_swapId : string;
  fp_txid : option string
}.

Record FundingResult := {
  fr_swapId : string;
  fr_status : SwapStatus;
  fr_initiatorFunded : bool;
  fr_responderFunded : bool
}.

Definition recordInitiatorFunding `{Env} (params : FundingParams) : Coord FundingResult :=
  let swapId := fp_swapId params in
  let txid := fp_txid params in
  swap ← getSwap swapId;
  if negb (bool_decide (status swap = COUNTERPARTY_JOINED))
     && negb (bool_decide (status swap = RESPONDER_FUNDED)) then
    throw (ErrCannotFund (status swap))
  else
    chainModule ← lift (getChainModule (fromChain swap));
    balance ← fetchBalance (fromChain swap) (initiatorHTLC swap);
    match balance with
    | None => throw (TypeError "Cannot read properties of undefined (reading 'satoshis')")
    | Some balance =>
        if ltUndef (b_satoshis balance) (fromAmount swap)
           || ltUndef (b_lamports balance) (fromAmount swap) then
          throw (ErrInsufficientFunding (fromAmount swap))
        else
          _ ← assign swapId (fun s => set_initiatorHTLC (set_funded txid (initiatorHTLC s)) s);
          _ ← assign swapId (set_status
                 (if e_funded (responderHTLC swap) then FULLY_FUNDED else INITIATOR_FUNDED));
          _ ← assign swapId (set_updatedAt Date_now);
          _ ← assign swapId (push_transaction
                 {| tx_type := "initiator_funding"; tx_chain := fromChain swap;
                    tx_txid := txid; tx_swapSecretRevealed := false;
                    tx_timestamp := Date_now |});
          swap ← getSwap swapId;
          mret {| fr_swapId := swapId;
                  fr_status := status swap;
                  fr_initiatorFunded := true;
                  fr_responderFunded := e_funded (responderHTLC swap) |}
    end.

Definition recordResponderFunding `{Env} (params : FundingParams) : Coord FundingResult :=
  let swapId := fp_swapId params in
  let txid := fp_txid params in
  swap ← getSwap swapId;
  if negb (bool_decide (status swap = COUNTERPARTY_JOINED))
     && negb (bool_decide (status swap = INITIATOR_FUNDED)) then
    throw (ErrCannotFund (status swap))
  else
    balance ← fetchBalance (toChain swap) (responderHTLC swap);
    match balance with
    | None => throw (TypeError "Cannot read properties of undefined (reading 'satoshis')")
    | Some balance =>
        if ltNumber (orElse (b_satoshis balance) (b_lamports balance)) (toAmount swap) then
          throw (ErrInsufficientFunding (toAmount swap))
        else
          _ ← assign swapId (fun s => set_responderHTLC (set_funded txid (responderHTLC s)) s);
          _ ← assign swapId (set_status
                 (if e_funded (initiatorHTLC swap) then FULLY_FUNDED else RESPONDER_FUNDED));
          _ ← assign swapId (set_updatedAt Date_now);
          _ ← assign swapId (push_transaction
                 {| tx_type := "responder_funding"; tx_chain := toChain swap;
                    tx_txid := txid; tx_swapSecretRevealed := false;
                    tx_timestamp := Date_now |});
          swap ← getSwap swapId;
          mret {| fr_swapId := swapId;
                  fr_status := status swap;
                  fr_initiatorFunded := e_funded (initiatorHTLC swap);
                  fr_responderFunded := true |}
    end.

Record ClaimRequest := {
  cq_swapId : string;
  cq_swapSecret : string;
  cq_toAddress : option string
}.

Record SpendResult := {
  sr_swapId : string;
  sr_status : SwapStatus;
  sr_txid : string;
  sr_chain : string;
  sr_revealedSecret : option string
}.

(** [initiatorClaim] reads [swapId] and [toAddress] of its parameter; the
    secrets it spends with are those of the swap object. *)
Definition initiatorClaim `{Env} (params : ClaimRequest) : Coord SpendResult :=
  let swapId := cq_swapId params in
  swap ← getSwap swapId;
  if negb (bool_decide (status swap = FULLY_FUNDED)) then
    throw (ErrCannotClaim (status swap))
  else
    _ ← assign swapId (set_status CLAIMING);
    utxos ← fetchUtxos (toChain swap) (responderHTLC swap);
    match utxos with
    | None | Some [] => throw (Err "No funds to claim in responder HTLC")
    | Some (utxo :: _) =>
        let destination := orString (cq_toAddress params) (Some (toAddress swap)) in
        chainModule ← lift (getChainModule (toChain swap));
        claimTx ← lift (buildClaimTransaction chainModule
                     {| cp_utxo := utxo;
                        cp_swapSecret := swap_secret (initiator swap);
                        cp_recipientSecret := Some (claim_secret (initiator swap));
                        cp_lockingScript := e_lockingScript (responderHTLC swap);
                        cp_redeemScript := e_lockingScript (responderHTLC swap);
                        cp_toAddress := destination |});
        txid ← broadcastTransaction chainModule claimTx;
        _ ← assign swapId (set_status COMPLETED);
        _ ← assign swapId (set_updatedAt Date_now);
        _ ← assign swapId (push_transaction
               {| tx_type := "initiator_claim"; tx_chain := toChain swap;
                  tx_txid := Some txid; tx_swapSecretRevealed := true;
                  tx_timestamp := Date_now |});
        mret {| sr_swapId := swapId;
                sr_status := COMPLETED;
                sr_txid := txid;
                sr_chain := toChain swap;
                sr_revealedSecret := Some (swap_secret (initiator swap)) |}
    end.

Definition responderClaim `{Env} (params : ClaimRequest) : Coord SpendResult :=
  let swapId := cq_swapId params in
  let swapSecret := cq_swapSecret params in
  swap ← getSwap swapId;
  if negb (String.eqb (Crypto.sha256Hex (Crypto.ofHex swapSecret))
                      (swap_hash (initiator swap))) then
    throw (Err "Invalid swap secret")
  else
    utxos ← fetchUtxos (fromChain swap) (initiatorHTLC swap);
    match utxos with
    | None | Some [] => throw (Err "No funds to claim in initiator HTLC")
    | Some (utxo :: _) =>
        let destination := orString (cq_toAddress params) (r_toAddress (responder swap)) in
        chainModule ← lift (getChainModule (fromChain swap));
        claimTx ← lift (buildClaimTransaction chainModule
                     {| cp_utxo := utxo;
                        cp_swapSecret := swapSecret;
                        cp_recipientSecret := recipient_secret (responder swap);
                        cp_lockingScript := e_lockingScript (initiatorHTLC swap);
                        cp_redeemScript := e_lockingScript (initiatorHTLC swap);
                        cp_toAddress := destination |});
        txid ← broadcastTransaction chainModule claimTx;
        _ ← assign swapId (set_status COMPLETED);
        _ ← assign swapId (set_updatedAt Date_now);
        _ ← assign swapId (push_transaction
               {| tx_type := "responder_claim"; tx_chain := fromChain swap;
                  tx_txid := Some txid; tx_swapSecretRevealed := false;
                  tx_timestamp := Date_now |});
        mret {| sr_swapId := swapId;
                sr_status := COMPLETED;
                sr_txid := txid;
                sr_chain := fromChain swap;
                sr_revealedSecret := None |}
    end.

Record RefundRequest := {
  rq_swapId : string;
  rq_toAddress : option string
}.

Definition initiatorRefund `{Env} (params : RefundRequest) : Coord SpendResult :=
  let swapId := rq_swapId params in
  swap ← getSwap swapId;
  let now := nowSeconds in
  if now <? e_timeout (initiatorHTLC swap) then
    let remaining := e_timeout (initiatorHTLC swap) - now in
    throw (ErrTimeoutNotReached remaining)
  else
    utxos ← fetchUtxos (fromChain swap) (initiatorHTLC swap);
    match utxos with
    | None | Some [] => throw (Err "No funds to refund")
    | Some (utxo :: _) =>
        let destination := orString (rq_toAddress params) (Some (refundAddress swap)) in
        chainModule ← lift (getChainModule (fromChain swap));
        refundTx ← lift (buildRefundTransaction chainModule
                      {| rp_utxo := utxo;
                         rp_refundSecret := Some (refund_secret (initiator swap));
                         rp_lockingScript := e_lockingScript (initiatorHTLC swap);
                         rp_redeemScript := e_lockingScript (initiatorHTLC swap);
                         rp_toAddress := destination |});
        txid ← broadcastTransaction chainModule refundTx;
        _ ← assign swapId (set_status REFUNDED);
        _ ← assign swapId (set_updatedAt Date_now);
        _ ← assign swapId (push_transaction
               {| tx_type := "initiator_refund"; tx_chain := fromChain swap;
                  tx_txid := Some txid; tx_swapSecretRevealed := false;
                  tx_timestamp := Date_now |});
        mret {| sr_swapId := swapId;
                sr_status := REFUNDED;
                sr_txid := txid;
                sr_chain := fromChain swap;
                sr_revealedSecret := None |}
    end.

Definition responderRefund `{Env} (params : RefundRequest) : Coord SpendResult :=
  let swapId := rq_swapId params in
  swap ← getSwap swapId;
  let now := nowSeconds in
  if now <? e_timeout (responderHTLC swap) then
    let remaining := e_timeout (responderHTLC swap) - now in
    throw (ErrTimeoutNotReached remaining)
  else
    utxos ← fetchUtxos (toChain swap) (responderHTLC swap);
    match utxos with
    | None | Some [] => throw (Err "No funds to refund")
    | Some (utxo :: _) =>
        let destination :=
          orString (rq_toAddress params) (r_refundAddress (responder swap)) in
        chainModule ← lift (getChainModule (toChain swap));
        refundTx ← lift (buildRefundTransaction chainModule
                      {| rp_utxo := utxo;
                         rp_refundSecret := r_refund_secret (responder swap);
                         rp_lockingScript := e_lockingScript (responderHTLC swap);
                         rp_redeemScript := e_lockingScript (responderHTLC swap);
                         rp_toAddress := destination |});
        txid ← broadcastTransaction chainModule refundTx;
        _ ← assign swapId (set_status REFUNDED);
        _ ← assign swapId (set_updatedAt Date_now);
        _ ← assign swapId (push_transaction
               {| tx_type := "responder_refund"; tx_chain := toChain swap;
                  tx_txid := Some txid; tx_swapSecretRevealed := false;
                  tx_timestamp := Date_now |});
        mret {| sr_swapId := swapId;
                sr_status := REFUNDED;
                sr_txid := txid;
                sr_chain := toChain swap;
                sr_revealedSecret := None |}
    end.

(** ** The minimal encoding in the words of the design document

    The little-endian bytes of [n] up to its most significant non-zero
    byte, followed by one zero byte when the high bit of that byte is set. *)

Definition usedBytes (n : Z) : Z :=
  if n =? 0 then 0 else Z.log2 n / 8 + 1.

Definition byteAt (n j : Z) : Z := (n / 256 ^ j) mod 256.

Definition minimalEncoding (n : Z) : list Z :=
  let k := usedBytes n in
  let bytes := map (byteAt n) (seqZ 0 k) in
  if (0 <? k) && (128 <=? byteAt n (k - 1)) then (bytes ++ [0])%list else bytes.

(** The bytes that [Htlc.encodeLoop] writes, as a list. *)
Fixpoint loopBytes (fuel : nat) (n : Z) : list Z :=
  match fuel with
  | O => []
  | S fuel' => if n >? 0 then Z.land n 255 :: loopBytes fuel' (n / 256) else []
  end.

(** The number that [Htlc.decodeMinimalNumber] reads from a buffer. *)
Definition leValue (bs : Buffer) : Z :=
  fold_right (fun b result => result * 256 + Js.byteZ b) 0 bs.

(** ** Suffixes and prefixes of a string, for the parser *)

Fixpoint sdrop (n : nat) (s : string) : string :=
  match n, s with
  | O, _ => s
  | S n', String _ r => sdrop n' r
  | S _, EmptyString => EmptyString
  end.

Fixpoint stake (n : nat) (s : string) : string :=
  match n, s with
  | O, _ => EmptyString
  | S n', String c r => String c (stake n' r)
  | S _, EmptyString => EmptyString
  end.

(** The exact byte layout that [Htlc.createHTLCScript] emits, with the push
    length of the timeout and whatever follows OP_ENDIF left open. *)
Definition layout (swapHash recipientHash pushLen timeoutHex refundHash rest : string)
  : string :=
  "63a820" +:+ swapHash +:+ "88a820" +:+ recipientHash +:+ "8767"
  +:+ pushLen +:+ timeoutHex +:+ "b175a820" +:+ refundHash +:+ "8768" +:+ rest.

(** What [Htlc.parseHTLCScript] accepts: [s] is the layout around the
    fields of [r], with a two-character push length [pushLen] that
    [parseInt] reads as half the length of the timeout field, and anything
    at all ([rest]) after OP_ENDIF. *)
Definition Accepted (s : string) (r : Htlc.ParsedHTLC) : Prop :=
  exists (pushLen rest : string) (len : Z),
    s = layout (Htlc.parsed_swapHash r) (Htlc.parsed_recipientHash r) pushLen
          (Htlc.parsed_timeoutHex r) (Htlc.parsed_refundHash r) rest
    /\ String.length (Htlc.parsed_swapHash r) = 64%nat
    /\ String.length (Htlc.parsed_recipientHash r) = 64%nat
    /\ String.length (Htlc.parsed_refundHash r) = 64%nat
    /\ String.length pushLen = 2%nat
    /\ Js.parseInt16 pushLen = Some len
    /\ Z.of_nat (String.length (Htlc.parsed_timeoutHex r)) = 2 * len
    /\ Htlc.parsed_timeout r = Htlc.decodeMinimalNumber (Htlc.parsed_timeoutHex r)
    /\ Js.validTimeValue (Htlc.parsed_timeout r * 1000) = true
    /\ Htlc.valid r = true.

(** ** Concrete values used in the examples *)

(** The hashes of the HTLC tests, [sha256Hex] of 'deadbeef', 'cafebabe' and
    '12345678', with the timeout of the parser test. *)
Definition exampleParams : Htlc.HTLCParams :=
  {| Htlc.p_swapHash := "5f78c33274e43fa9de5659265c1d917e25c03722dcb0b8d27db8d5feaa813953";
     Htlc.p_recipientHash := "65ab12a8ff3263fbc257e5ddf0aa563c64573d0bab1f1115b9b107834cfa6971";
     Htlc.p_refundHash := "b2ed992186a5cb19f6668aade821f502c1d00970dfd0e35128d51bac4649916c";
     Htlc.p_timeout := 1700000000 |}.

Definition exampleScript : string :=
  "63a8205f78c33274e43fa9de5659265c1d917e25c03722dcb0b8d27db8d5feaa813953"
  +:+ "88a82065ab12a8ff3263fbc257e5ddf0aa563c64573d0bab1f1115b9b107834cfa6971"
  +:+ "8767" +:+ "0400f15365" +:+ "b175"
  +:+ "a820b2ed992186a5cb19f6668aade821f502c1d00970dfd0e35128d51bac4649916c"
  +:+ "8768".

Definition exampleParsed (timeout : Z) (timeoutHex : string) : Htlc.ParsedHTLC :=
  {| Htlc.valid := true;
     Htlc.parsed_swapHash := Htlc.p_swapHash exampleParams;
     Htlc.parsed_recipientHash := Htlc.p_recipientHash exampleParams;
     Htlc.parsed_refundHash := Htlc.p_refundHash exampleParams;
     Htlc.parsed_timeout := timeout;
     Htlc.parsed_timeoutHex := timeoutHex |}.

(** The same parameters with the first timeout past the last valid date. *)
Definition farFutureParams : Htlc.HTLCParams :=
  {| Htlc.p_swapHash := Htlc.p_swapHash exampleParams;
     Htlc.p_recipientHash := Htlc.p_recipientHash exampleParams;
     Htlc.p_refundHash := Htlc.p_refundHash exampleParams;
     Htlc.p_timeout := 8640000000001 |}.

(** What [parseHTLCScript] returns for the four parameters of a script. *)
Definition parsedOf (params : Htlc.HTLCParams) : Htlc.ParsedHTLC :=
  {| Htlc.valid := true;
     Htlc.parsed_swapHash := Htlc.p_swapHash params;
     Htlc.parsed_recipientHash := Htlc.p_recipientHash params;
     Htlc.parsed_refundHash := Htlc.p_refundHash params;
     Htlc.parsed_timeout := Htlc.p_timeout params;
     Htlc.parsed_timeoutHex := Htlc.encodeMinimalNumber (Htlc.p_timeout params) |}.

(** The hash chain as the design describes it, written without the
    functions of lib/crypto.js: the chain hash is SHA-256 applied twice, and
    [chainValue n x] is the chain hash applied [n] times to [x]. *)
Definition chainHash (x : Buffer) : Buffer := Sha256.sha256 (Sha256.sha256 x).

Fixpoint chainValue (n : nat) (x : Buffer) : Buffer :=
  match n with
  | O => x
  | S k => chainValue k (chainHash x)
  end.

(** The chunk that [signWinternitz] reveals at chain position [i] of
    [message] under the private scalars [privateScalars]: the loop body of
    the signer, with the scalar and the message byte read by index. *)
Definition signedChunk (message : Buffer) (privateScalars : list Buffer) (i : nat)
  : Crypto.Chunk :=
  let b := Js.byteZ (nth i message x00) in
  let revealed :=
    Crypto.iteratedHash256 (nth i privateScalars []) (Crypto.WOTS_ITERATIONS - b) in
  {| Crypto.revealed := revealed;
     Crypto.offset := b;
     Crypto.revealedHex := Js.toHex revealed |}.

(** Thirty-two private scalars of 32 bytes, scalar [i] filled with the
    byte [i], and a 32-byte message. *)
Definition exampleScalars : list Buffer :=
  map (fun i => replicate 32 (Js.Zbyte (Z.of_nat i))) (seq 0 32).

Definition exampleMessage : Crypto.Data :=
  Crypto.ofBuffer (map (fun i => Js.Zbyte (Z.of_nat (7 * i))) (seq 0 32)).

(** ** A session for the examples *)

Definition exampleUtxo : Utxo :=
  {| txid := "7f3a1c0e5b9d2468ace013579bdf02468ace13579bdf02468ace13579bdf0246";
     vout := 0;
     satoshis := 150000 |}.

(** An address validator that accepts what is not empty. *)
Definition nonEmptyAddress (address : string) : Validation :=
  {| v_valid := negb (String.length address =? 0)%nat;
     v_error := "Invalid address format" |}.

(** The outside world at one moment: the clock reads [now] milliseconds,
    every UTXO query answers [utxos], every broadcast answers [broadcast]. *)
Definition exampleEnv (now : Z) (utxos : result (list Utxo))
  (broadcast : result string) : Env :=
  {| Date_now := now;
     initiatorTimeoutSeconds := 86400;
     responderTimeoutSeconds := 43200;
     bsv_validateAddress := nonEmptyAddress;
     btc_validateAddress := nonEmptyAddress;
     sol_validateAddress := nonEmptyAddress;
     bsv_getUTXOsByScriptHash := fun _ => utxos;
     btc_getUTXOs := fun _ => utxos;
     sol_rpcGetBalance := fun _ => Ok 150000;
     sol_createHTLCInfo := fun params =>
       Ok {| htlcAddress := "HtLc1111111111111111111111111111111111111111";
             htlcData := sol_swapHash params |};
     bsv_buildSweepTransaction := fun params => Ok ("0100000001" +:+ sw_scriptSig params);
     btc_buildSweepTransaction := fun params => Ok ("0200000001" +:+ sw_scriptSig params);
     bsv_broadcastTransaction := fun _ => broadcast;
     btc_broadcastTransaction := fun _ => broadcast |}.

Definition exampleTxid : string :=
  "c0ffee00c0ffee00c0ffee00c0ffee00c0ffee00c0ffee00c0ffee00c0ffee00".

(** The ledgers answer: one UTXO at every escrow, broadcasts accepted. *)
Definition ledgersUp (now : Z) : Env :=
  exampleEnv now (Ok [exampleUtxo]) (Ok exampleTxid).

(** The ledgers do not answer: queries and broadcasts are rejected. *)
Definition ledgersDown (now : Z) : Env :=
  exampleEnv now (Throw (LedgerError "ETIMEDOUT")) (Throw (LedgerError "ETIMEDOUT")).

(** A secret of the size the coordinator works with: 1024 bytes, the
    preimage of a Winternitz public key hash, here one byte repeated. *)
Fixpoint repeatString (n : nat) (s : string) : string :=
  match n with
  | O => EmptyString
  | S k => s +:+ repeatString k s
  end.

Definition secretOf (byte : string) : string := repeatString 1024 byte.

Definition exampleInitiator : InitiatorSecrets :=
  {| swap_secret := secretOf "11";
     swap_hash := Crypto.sha256Hex (Crypto.ofHex (secretOf "11"));
     refund_secret := secretOf "22";
     refund_hash := Crypto.sha256Hex (Crypto.ofHex (secretOf "22"));
     claim_secret := secretOf "33";
     claim_hash := Crypto.sha256Hex (Crypto.ofHex (secretOf "33")) |}.

Definition exampleResponder : ResponderSecrets :=
  {| rs_recipient_secret := secretOf "44";
     rs_recipient_hash := Crypto.sha256Hex (Crypto.ofHex (secretOf "44"));
     rs_refund_secret := secretOf "55";
     rs_refund_hash := Crypto.sha256Hex (Crypto.ofHex (secretOf "55")) |}.

Definition exampleUuid : string := "0f8fad5b-d9cb-469f-a165-70867728950e".
Definition exampleSwapId : string := "qswap_0f8fad5bd9cb469f".

Definition exampleInitiate : InitiateParams :=
  {| ip_fromChain := "btc";
     ip_toChain := "bsv";
     ip_fromAmount := "100000";
     ip_toAmount := "150000";
     ip_toAddress := "1BoatSLRHtKNngkdXEeobR76b53LETtpyT";
     ip_refundAddress := "3J98t1WpEZ73CNmQviecrnyiWrnqRhWNLy" |}.

Definition exampleJoin : JoinParams :=
  {| jp_swapId := exampleSwapId;
     jp_toAddress := "3P14159f73E4gFr7JterCCQh9QjiTjiZrG";
     jp_refundAddress := "1dice8EMZmqKvrGE4Qc9bUFf9PX3xaYDp" |}.

Definition emptyWorld : World := {| swaps := ∅; ledgerCalls := [] |}.

Definition exampleStart : Z := 1700000000000.

(** The swap of the examples, initiated, joined and funded on both sides
    through the coordinator, with the ledgers answering. *)
Definition fundSwap : Coord FundingResult :=
  let _ : Env := ledgersUp exampleStart in
  _ ← initiateSwap exampleUuid exampleInitiator exampleInitiate;
  _ ← joinSwap exampleResponder exampleJoin;
  _ ← recordInitiatorFunding {| fp_swapId := exampleSwapId; fp_txid := Some exampleTxid |};
  recordResponderFunding {| fp_swapId := exampleSwapId; fp_txid := Some exampleTxid |}.

Definition fundedWorld : World := fst (fundSwap emptyWorld).

(** The swap after the initiator has opened it. *)
Definition initiatedWorld : World :=
  fst (@initiateSwap (ledgersUp exampleStart) exampleUuid exampleInitiator
         exampleInitiate emptyWorld).

(** The record of the funded swap, written out. *)
Definition fundedSwap : Swap :=
  {| swapId := exampleSwapId;
     status := FULLY_FUNDED;
     fromChain := "BTC";
     toChain := "BSV";
     fromAmount := Finite 100000;
     toAmount := Finite 150000;
     toAddress := "1BoatSLRHtKNngkdXEeobR76b53LETtpyT";
     refundAddress := "3J98t1WpEZ73CNmQviecrnyiWrnqRhWNLy";
     initiator := exampleInitiator;
     initiatorHTLC :=
       {| e_chain := "BTC";
          e_address := Some "3NQWdxeaqteboNzncQwy3Q5dRWsYwPBua5";
          e_lockingScript :=
            Some ("63a8209f36749c5fb3b23ed904ad1582f24a6a65ef3b9e263b1be28af4f792ea269f43"
                  +:+ "88a8205fcc445a936b3b6b827a49a81703a0f15b4f47cdc267a28225d589b2149673c4"
                  +:+ "8767" +:+ "0480425565" +:+ "b175"
                  +:+ "a8209512a6eeb321fca57e7470e193a589f05b58154719e99568099b1d6133818e5e"
                  +:+ "8768");
          e_scriptHash := Some "e33b8a17086ae93bab138ea92fa039262d10a844";
          e_timeout := 1700086400;
          e_funded := true;
          e_fundingTxid := Some exampleTxid;
          e_htlcData := None |};
     responderHTLC :=
       {| e_chain := "BSV";
          e_address := None;
          e_lockingScript :=
            Some ("63a8209f36749c5fb3b23ed904ad1582f24a6a65ef3b9e263b1be28af4f792ea269f43"
                  +:+ "88a8204c86261b168e93c0b142c3ad52fc9d7ec2ff50e9c3b37556ef05e3349c9fde77"
                  +:+ "8767" +:+ "04c0995465" +:+ "b175"
                  +:+ "a8209e1ca7712682c141e196917c6900f6e7c17cb6bfcb0e4f64f1186c32e50aae7a"
                  +:+ "8768");
          e_scriptHash :=
            Some "5a34ba8bb0a939c78ca84ae67daee4b06a320abfbb2926e7ae688a66c0c2d460";
          e_timeout := 1700043200;
          e_funded := true;
          e_fundingTxid := Some exampleTxid;
          e_htlcData := None |};
     responder :=
       {| recipient_secret := Some (rs_recipient_secret exampleResponder);
          recipient_hash := Some (rs_recipient_hash exampleResponder);
          r_refund_secret := Some (rs_refund_secret exampleResponder);
          r_refund_hash := Some (rs_refund_hash exampleResponder);
          r_toAddress := Some (jp_toAddress exampleJoin);
          r_refundAddress := Some (jp_refundAddress exampleJoin) |};
     transactions :=
       [ {| tx_type := "initiator_funding"; tx_chain := "BTC"; tx_txid := Some exampleTxid;
            tx_swapSecretRevealed := false; tx_timestamp := exampleStart |};
         {| tx_type := "responder_funding"; tx_chain := "BSV"; tx_txid := Some exampleTxid;
            tx_swapSecretRevealed := false; tx_timestamp := exampleStart |} ];
     createdAt := exampleStart;
     updatedAt := exampleStart |}.

(** ** Vocabulary of the properties of the coordinator *)

(** The errors by which [initiateSwap] rejects its parameters. *)
Definition isValidationError (e : Error) : bool :=
  match e with
  | ErrInvalidChain _ => true
  | ErrInvalidAddress _ _ => true
  | Err message => String.eqb message "fromChain and toChain must be different"
  | _ => false
  end.

(** No call in [calls] is a broadcast. *)
Definition isBroadcast (call : LedgerCall) : bool :=
  match call with
  | Broadcast _ _ => true
  | _ => false
  end.

Definition noBroadcast (calls : list LedgerCall) : Prop :=
  forallb (fun call => negb (isBroadcast call)) calls = true.

(** The secrets of a claim hash to the two commitments of the claim branch
    of a parsed script. *)
Definition secretsMatch (script : Htlc.ParsedHTLC) (swapSecret : string)
  (recipientSecret : option string) : Prop :=
  Crypto.sha256Hex (Crypto.ofHex swapSecret) = Htlc.parsed_swapHash script
  /\ sha256HexOf recipientSecret = Ok (Htlc.parsed_recipientHash script).

(** The script of an escrow opens with the hash lock on [hash]. *)
Definition embedsSwapHash (hash : string) (escrow : Htlc.HTLC) : Prop :=
  Htlc.swapHash (Htlc.htlcScript escrow) = hash
  /\ exists rest,
       Htlc.redeemScript (Htlc.htlcScript escrow) = "63a820" +:+ hash +:+ rest.

(** On the two script ledgers the swap record keeps the script of the
    escrow. *)
Definition keepsScript (chain : string) (escrow : Htlc.HTLC) (stored : Escrow) : Prop :=
  chain = "BSV" \/ chain = "BTC" ->
  e_lockingScript stored = Some (Htlc.redeemScript (Htlc.htlcScript escrow)).

(** Calls of [initiateSwap] that differ from [exampleInitiate] in one
    respect each. *)
Definition sameChains : InitiateParams :=
  {| ip_fromChain := "btc";
     ip_toChain := "BTC";
     ip_fromAmount := ip_fromAmount exampleInitiate;
     ip_toAmount := ip_toAmount exampleInitiate;
     ip_toAddress := ip_toAddress exampleInitiate;
     ip_refundAddress := ip_refundAddress exampleInitiate |}.

Definition noRefundAddress : InitiateParams :=
  {| ip_fromChain := ip_fromChain exampleInitiate;
     ip_toChain := ip_toChain exampleInitiate;
     ip_fromAmount := ip_fromAmount exampleInitiate;
     ip_toAmount := ip_toAmount exampleInitiate;
     ip_toAddress := ip_toAddress exampleInitiate;
     ip_refundAddress := EmptyString |}.

Definition noDestination : InitiateParams :=
  {| ip_fromChain := ip_fromChain exampleInitiate;
     ip_toChain := ip_toChain exampleInitiate;
     ip_fromAmount := ip_fromAmount exampleInitiate;
     ip_toAmount := ip_toAmount exampleInitiate;
     ip_toAddress := EmptyString;
     ip_refundAddress := ip_refundAddress exampleInitiate |}.

(** A call whose amounts are no numbers, a funding record that names no
    transaction, and ledgers that find nothing at any escrow. *)
Definition unreadableAmounts : InitiateParams :=
  {| ip_fromChain := ip_fromChain exampleInitiate;
     ip_toChain := ip_toChain exampleInitiate;
     ip_fromAmount := "ten";
     ip_toAmount := "twenty";
     ip_toAddress := ip_toAddress exampleInitiate;
     ip_refundAddress := ip_refundAddress exampleInitiate |}.

Definition unnamedFunding : FundingParams :=
  {| fp_swapId := exampleSwapId; fp_txid := None |}.

Definition ledgersEmpty (now : Z) : Env := exampleEnv now (Ok []) (Ok exampleTxid).

Definition negativeAmounts : InitiateParams :=
  {| ip_fromChain := ip_fromChain exampleInitiate;
     ip_toChain := ip_toChain exampleInitiate;
     ip_fromAmount := "-100000";
     ip_toAmount := "-150000";
     ip_toAddress := ip_toAddress exampleInitiate;
     ip_refundAddress := ip_refundAddress exampleInitiate |}.

(** A call of [initiateSwap] is refused: it throws a validation error, and
    the swaps and the ledger calls are as before. *)
Definition rejected `{Env} (uuid : string) (initiatorSecrets : InitiatorSecrets)
  (params : InitiateParams) (w : World) : Prop :=
  exists e,
    initiateSwap uuid initiatorSecrets params w = (w, Throw e)
    /\ isValidationError e = true.

(** The two errors by which the adapters refuse the secrets of a claim. *)
Definition swapSecretError : Error :=
  Err "Swap secret does not match hash in script".

Definition recipientSecretError : Error :=
  Err "Recipient secret does not match hash in script".

(** The calls [after] are the calls [before] followed by calls none of
    which is a broadcast. *)
Definition nothingBroadcast (before after : World) : Prop :=
  exists calls,
    ledgerCalls after = (ledgerCalls before ++ calls)%list /\ noBroadcast calls.

(** A claim request that carries a swap secret of one zero byte. *)
Definition wrongSecretRequest : ClaimRequest :=
  {| cq_swapId := exampleSwapId; cq_swapSecret := "00"; cq_toAddress := None |}.

(** What a call of [joinSwap] that returned [r] and left the world [after]
    has done to the swap it found in the world [before]. *)
Definition joined `{Env} (responderSecrets : ResponderSecrets) (params : JoinParams)
  (before after : World) (r : JoinResult) : Prop :=
  exists (swap : Swap) (initiatorEscrow responderEscrow : Htlc.HTLC) (swap' : Swap),
    swaps before !! jp_swapId params = Some swap
    /\ status swap = INITIATED
    /\ Htlc.createHTLC
         {| Htlc.p_swapHash := swap_hash (initiator swap);
            Htlc.p_recipientHash := rs_recipient_hash responderSecrets;
            Htlc.p_refundHash := refund_hash (initiator swap);
            Htlc.p_timeout := e_timeout (initiatorHTLC swap) |}
         (fromChain swap) "mainnet" = Ok initiatorEscrow
    /\ Htlc.createHTLC
         {| Htlc.p_swapHash := swap_hash (initiator swap);
            Htlc.p_recipientHash := claim_hash (initiator swap);
            Htlc.p_refundHash := rs_refund_hash responderSecrets;
            Htlc.p_timeout := e_timeout (responderHTLC swap) |}
         (toChain swap) "mainnet" = Ok responderEscrow
    /\ embedsSwapHash (swap_hash (initiator swap)) initiatorEscrow
    /\ embedsSwapHash (swap_hash (initiator swap)) responderEscrow
    /\ swaps after !! jp_swapId params = Some swap'
    /\ status swap' = COUNTERPARTY_JOINED
    /\ jr_status r = COUNTERPARTY_JOINED
    /\ keepsScript (fromChain swap) initiatorEscrow (initiatorHTLC swap')
    /\ keepsScript (toChain swap) responderEscrow (responderHTLC swap').

(** ** The calls of the coordinator

    The eight lifecycle functions that lib/swap.js exports, as one type of
    calls; [perform] is the state of the module after a call, whether the
    call returned or threw. *)

Inductive Call :=
| InitiateSwap (uuid : string) (initiatorSecrets : InitiatorSecrets)
    (params : InitiateParams)
| JoinSwap (responderSecrets : ResponderSecrets) (params : JoinParams)
| RecordInitiatorFunding (params : FundingParams)
| RecordResponderFunding (params : FundingParams)
| InitiatorClaim (params : ClaimRequest)
| ResponderClaim (params : ClaimRequest)
| InitiatorRefund (params : RefundRequest)
| ResponderRefund (params : RefundRequest).

Definition perform `{Env} (call : Call) (w : World) : World :=
  match call with
  | InitiateSwap uuid initiatorSecrets params =>
      fst (initiateSwap uuid initiatorSecrets params w)
  | JoinSwap responderSecrets params => fst (joinSwap responderSecrets params w)
  | RecordInitiatorFunding params => fst (recordInitiatorFunding params w)
  | RecordResponderFunding params => fst (recordResponderFunding params w)
  | InitiatorClaim params => fst (initiatorClaim params w)
  | ResponderClaim params => fst (responderClaim params w)
  | InitiatorRefund params => fst (initiatorRefund params w)
  | ResponderRefund params => fst (responderRefund params w)
  end.

Definition opensSwap (call : Call) : bool :=
  match call with
  | InitiateSwap _ _ _ => true
  | _ => false
  end.

(** The id under which [initiateSwap] stores the swap. *)
Definition newSwapId (uuid : string) : string :=
  "qswap_" +:+ Js.substring (removeDashes uuid) (Js.num 0) (Js.num 16).

(** The terms of a swap: what is agreed when it is opened. *)
Definition sameTerms (s s' : Swap) : Prop :=
  swapId s' = swapId s
  /\ fromChain s' = fromChain s
  /\ toChain s' = toChain s
  /\ fromAmount s' = fromAmount s
  /\ toAmount s' = toAmount s
  /\ toAddress s' = toAddress s
  /\ refundAddress s' = refundAddress s
  /\ initiator s' = initiator s
  /\ createdAt s' = createdAt s
  /\ e_chain (initiatorHTLC s') = e_chain (initiatorHTLC s)
  /\ e_timeout (initiatorHTLC s') = e_timeout (initiatorHTLC s)
  /\ e_chain (responderHTLC s') = e_chain (responderHTLC s)
  /\ e_timeout (responderHTLC s') = e_timeout (responderHTLC s).

(** How far a swap has come. *)
Definition statusRank (st : SwapStatus) : nat :=
  match st with
  | INITIATED => 0
  | COUNTERPARTY_JOINED => 1
  | INITIATOR_FUNDED | RESPONDER_FUNDED => 2
  | FULLY_FUNDED => 3
  | CLAIMING => 4
  | _ => 5
  end.

(** A swap record [s'] continues [s]: same terms, the transactions of [s]
    followed by zero or more, a status at least as far, and an escrow that
    was funded still funded. *)
Definition continues (s s' : Swap) : Prop :=
  sameTerms s s'
  /\ (exists more, transactions s' = (transactions s ++ more)%list)
  /\ (statusRank (status s) <= statusRank (status s'))%nat
  /\ (e_funded (initiatorHTLC s) = true -> e_funded (initiatorHTLC s') = true)
  /\ (e_funded (responderHTLC s) = true -> e_funded (responderHTLC s') = true).

(** A sequence of calls, each made at its own moment of the outside
    world. *)
Fixpoint performAll (calls : list (Env * Call)) (w : World) : World :=
  match calls with
  | [] => w
  | (moment, call) :: rest => performAll rest (@perform moment call w)
  end.

(** The call stores a new swap under [id]. *)
Definition reopens (id : string) (call : Call) : bool :=
  match call with
  | InitiateSwap uuid _ _ => String.eqb (newSwapId uuid) id
  | _ => false
  end.

Definition isSome {A} (x : option A) : bool :=
  match x with Some _ => true | None => false end.

(** The funding marks of a record agree with its status, an escrow that
    names a funding transaction is marked funded, and the status is one
    that the coordinator assigns. *)
Definition marksAgree (s : Swap) : bool :=
  let i := e_funded (initiatorHTLC s) in
  let r := e_funded (responderHTLC s) in
  implb (isSome (e_fundingTxid (initiatorHTLC s))) i
  && implb (isSome (e_fundingTxid (responderHTLC s))) r
  && match status s with
     | INITIATED | COUNTERPARTY_JOINED => negb i && negb r
     | INITIATOR_FUNDED => i && negb r
     | RESPONDER_FUNDED => negb i && r
     | FULLY_FUNDED | CLAIMING => i && r
     | COMPLETED | REFUNDED => true
     | REFUNDING | EXPIRED | FAILED => false
     end.

(** Every record of the world sits under its own id and has its marks in
    agreement. *)
Definition consistent (w : World) : Prop :=
  forall id s, swaps w !! id = Some s -> swapId s = id /\ marksAgree s = true.

(** The calls that follow the opening of the example swap: the responder
    joins, both sides record their funding, and the initiator tries to claim
    while the ledgers do not answer. *)
Definition laterCalls : list (Env * Call) :=
  [ (ledgersUp exampleStart, JoinSwap exampleResponder exampleJoin);
    (ledgersUp exampleStart,
     RecordInitiatorFunding {| fp_swapId := exampleSwapId; fp_txid := Some exampleTxid |});
    (ledgersUp exampleStart,
     RecordResponderFunding {| fp_swapId := exampleSwapId; fp_txid := Some exampleTxid |});
    (ledgersDown (exampleStart + 60000),
     InitiatorClaim {| cq_swapId := exampleSwapId; cq_swapSecret := EmptyString;
                       cq_toAddress := None |}) ].

(** The record after [recordInitiatorFunding] and after
    [recordResponderFunding] have gone through, and the entry each adds to
    the transactions. *)
Definition fundingEntry (kind chain : string) (txid : option string) (now : Z)
  : Transaction :=
  {| tx_type := kind; tx_chain := chain; tx_txid := txid;
     tx_swapSecretRevealed := false; tx_timestamp := now |}.

Definition afterInitiatorFunding (txid : option string) (now : Z) (s : Swap) : Swap :=
  push_transaction (fundingEntry "initiator_funding" (fromChain s) txid now)
    (set_updatedAt now
       (set_status (if e_funded (responderHTLC s) then FULLY_FUNDED else INITIATOR_FUNDED)
          (set_initiatorHTLC (set_funded txid (initiatorHTLC s)) s))).

Definition afterResponderFunding (txid : option string) (now : Z) (s : Swap) : Swap :=
  push_transaction (fundingEntry "responder_funding" (toChain s) txid now)
    (set_updatedAt now
       (set_status (if e_funded (initiatorHTLC s) then FULLY_FUNDED else RESPONDER_FUNDED)
          (set_responderHTLC (set_funded txid (responderHTLC s)) s))).

(** The figure [v] passes the check [v < amount] of the funding records:
    it is not below a finite amount; against an amount that is [NaN], or
    the negative infinity, every figure passes, and none against the
    positive infinity. *)
Definition passes (v : Z) (amount : Number) : Prop :=
  match amount with
  | Finite a => a <= v
  | NaN => True
  | Infinite negative => negative = true
  end.

(** The balance [balance] covers [amount] in the eyes of
    [recordInitiatorFunding]: each of the two figures it may hold passes. *)
Definition coversInitiator (balance : Balance) (amount : Number) : Prop :=
  (forall v, b_satoshis balance = Some v -> passes v amount)
  /\ (forall v, b_lamports balance = Some v -> passes v amount).


(** The example swap after the responder has joined, and the request that
    records a funding of it. *)
Definition joinedWorld : World :=
  fst (@joinSwap (ledgersUp exampleStart) exampleResponder exampleJoin initiatedWorld).

Definition exampleFunding : FundingParams :=
  {| fp_swapId := exampleSwapId; fp_txid := Some exampleTxid |}.

(** A swap from BTC to SOL, initiated, joined and funded on both sides
    through the coordinator. *)
Definition solanaInitiate : InitiateParams :=
  {| ip_fromChain := "btc";
     ip_toChain := "sol";
     ip_fromAmount := "100000";
     ip_toAmount := "150000";
     ip_toAddress := "4Nd1mBQtrMJVYVfKf2PJy9NZUZdTAsp7D4xWLs4gDB4T";
     ip_refundAddress := "3J98t1WpEZ73CNmQviecrnyiWrnqRhWNLy" |}.

Definition solanaJoin : JoinParams :=
  {| jp_swapId := exampleSwapId;
     jp_toAddress := "3P14159f73E4gFr7JterCCQh9QjiTjiZrG";
     jp_refundAddress := "7xKXtg2CW87d97TXJSDpbD5jBkheTqA83TZRuJosgAsU" |}.

Definition fundSolanaSwap : Coord FundingResult :=
  let _ : Env := ledgersUp exampleStart in
  _ ← initiateSwap exampleUuid exampleInitiator solanaInitiate;
  _ ← joinSwap exampleResponder solanaJoin;
  _ ← recordInitiatorFunding exampleFunding;
  recordResponderFunding exampleFunding.

Definition solanaWorld : World := fst (fundSolanaSwap emptyWorld).

(** The state [initiatorClaim] leaves when it fails after its status check
    without having called a ledger. *)
Definition markedClaiming (id : string) (w : World) : World :=
  {| swaps := alter (set_status CLAIMING) id (swaps w); ledgerCalls := ledgerCalls w |}.

(** ** Escrows tied to the terms of their swap

    [script] is what [createHTLCScript] makes of [params]. *)
Definition builtFrom (params : Htlc.HTLCParams) (script : string) : Prop :=
  exists c, Htlc.createHTLCScript params = Ok c /\ Htlc.redeemScript c = script.

(** The script kept for the initiator's escrow is the builder's script on
    the swap hash, the refund hash and the timeout that the record holds for
    the initiator, and the script kept for the responder's escrow the
    builder's script on the same swap hash, the initiator's claim hash and
    the responder's timeout. *)
Definition escrowsLinked (s : Swap) : Prop :=
  (forall script, e_lockingScript (initiatorHTLC s) = Some script ->
     exists recipientHash,
       builtFrom {| Htlc.p_swapHash := swap_hash (initiator s);
                    Htlc.p_recipientHash := recipientHash;
                    Htlc.p_refundHash := refund_hash (initiator s);
                    Htlc.p_timeout := e_timeout (initiatorHTLC s) |} script)
  /\ (forall script, e_lockingScript (responderHTLC s) = Some script ->
        exists refundHash,
          builtFrom {| Htlc.p_swapHash := swap_hash (initiator s);
                       Htlc.p_recipientHash := claim_hash (initiator s);
                       Htlc.p_refundHash := refundHash;
                       Htlc.p_timeout := e_timeout (responderHTLC s) |} script).

Definition linked (w : World) : Prop :=
  forall id s, swaps w !! id = Some s -> escrowsLinked s.

(** The hash locks that [parseHTLCScript] reads from the scripts kept in a
    swap record are those of the record. *)
Definition sharesSwapHash (s : Swap) : Prop :=
  (forall script parsed,
     e_lockingScript (initiatorHTLC s) = Some script ->
     Htlc.parseHTLCScript script = Ok parsed ->
     Htlc.parsed_swapHash parsed = swap_hash (initiator s))
  /\ (forall script parsed,
        e_lockingScript (responderHTLC s) = Some script ->
        Htlc.parseHTLCScript script = Ok parsed ->
        Htlc.parsed_swapHash parsed = swap_hash (initiator s)
        /\ Htlc.parsed_recipientHash parsed = claim_hash (initiator s)).

(** The example session from the empty store. *)
Definition exampleCalls : list (Env * Call) :=
  (ledgersUp exampleStart, InitiateSwap exampleUuid exampleInitiator exampleInitiate)
  :: laterCalls.

(** The entry that a claim or a refund adds to the transactions, and the
    record after [initiatorClaim] has gone through. *)
Definition spendEntry (kind chain txid : string) (revealed : bool) (now : Z)
  : Transaction :=
  {| tx_type := kind; tx_chain := chain; tx_txid := Some txid;
     tx_swapSecretRevealed := revealed; tx_timestamp := now |}.

Definition afterInitiatorClaim (txid : string) (now : Z) (s : Swap) : Swap :=
  push_transaction (spendEntry "initiator_claim" (toChain s) txid true now)
    (set_updatedAt now (set_status COMPLETED s)).

(** The spend that [initiatorClaim] asks the adapter for. *)
Definition initiatorClaimParams (s : Swap) (utxo : Utxo) (requested : option string)
  : ClaimParams :=
  {| cp_utxo := utxo;
     cp_swapSecret := swap_secret (initiator s);
     cp_recipientSecret := Some (claim_secret (initiator s));
     cp_lockingScript := e_lockingScript (responderHTLC s);
     cp_redeemScript := e_lockingScript (responderHTLC s);
     cp_toAddress := orString requested (Some (toAddress s)) |}.

Definition completedRequest : ClaimRequest :=
  {| cq_swapId := exampleSwapId; cq_swapSecret := ""; cq_toAddress := None |}.

(** The calls that open, join and fund the example swap. *)
Definition fundingCalls : list (Env * Call) :=
  [ (ledgersUp exampleStart, InitiateSwap exampleUuid exampleInitiator exampleInitiate);
    (ledgersUp exampleStart, JoinSwap exampleResponder exampleJoin);
    (ledgersUp exampleStart, RecordInitiatorFunding exampleFunding);
    (ledgersUp exampleStart, RecordResponderFunding exampleFunding) ].

(** ** lib/crypto.js: the secrets of a swap

    [generateInitiatorSecrets] and [generateResponderSecrets] draw one
    Winternitz keypair per secret; the arguments are the draws of
    [crypto.randomBytes] for each keypair.  The result repeats every secret
    and hash under two names ([swap.secret] and [swap_secret], ...); the
    record keeps the names that the coordinator reads. *)
Definition generateInitiatorSecrets (swapBytes refundBytes claimBytes : nat -> Buffer)
  : InitiatorSecrets :=
  let swapKeypair := Crypto.generateWinternitzKeypair swapBytes in
  let refundKeypair := Crypto.generateWinternitzKeypair refundBytes in
  let claimKeypair := Crypto.generateWinternitzKeypair claimBytes in
  {| swap_secret := Crypto.publicKeyPreimage swapKeypair;
     swap_hash := Crypto.publicKeyHash swapKeypair;
     refund_secret := Crypto.publicKeyPreimage refundKeypair;
     refund_hash := Crypto.publicKeyHash refundKeypair;
     claim_secret := Crypto.publicKeyPreimage claimKeypair;
     claim_hash := Crypto.publicKeyHash claimKeypair |}.

Definition generateResponderSecrets (recipientBytes refundBytes : nat -> Buffer)
  : ResponderSecrets :=
  let recipientKeypair := Crypto.generateWinternitzKeypair recipientBytes in
  let refundKeypair := Crypto.generateWinternitzKeypair refundBytes in
  {| rs_recipient_secret := Crypto.publicKeyPreimage recipientKeypair;
     rs_recipient_hash := Crypto.publicKeyHash recipientKeypair;
     rs_refund_secret := Crypto.publicKeyPreimage refundKeypair;
     rs_refund_hash := Crypto.publicKeyHash refundKeypair |}.

(** A secret of 1024 bytes that opens the hash [hash]: what the escrow
    scripts and the coordinator ask of a pair. *)
Definition opens (secret hash : string) : Prop :=
  Crypto.sha256Hex (Crypto.ofHex secret) = hash
  /\ Crypto.verifyPreimage secret hash = true
  /\ String.length secret = 2048%nat
  /\ String.length hash = 64%nat.

(** Draws of 32 bytes each, as [crypto.randomBytes(32)] returns them. *)
Definition exampleDraws (i : nat) : Buffer := repeat (Js.Zbyte (Z.of_nat i)) 32.

(** ** Refunds

    The record after [initiatorRefund] and after [responderRefund] have gone
    through. *)
Definition afterInitiatorRefund (txid : string) (now : Z) (s : Swap) : Swap :=
  push_transaction (spendEntry "initiator_refund" (fromChain s) txid false now)
    (set_updatedAt now (set_status REFUNDED s)).

Definition afterResponderRefund (txid : string) (now : Z) (s : Swap) : Swap :=
  push_transaction (spendEntry "responder_refund" (toChain s) txid false now)
    (set_updatedAt now (set_status REFUNDED s)).

(** What the adapter has checked when [buildRefundTransaction] returned
    [tx] for the escrow [escrow] and the secret [secret]: the script of the
    escrow parses, the secret hashes to its refund hash, its timeout has
    passed, and [tx] is the sweep of one output of the escrow with that
    timeout as lock time. *)
Definition refundChecked `{Env} (escrow : Escrow) (secret : option string) (tx : string)
  : Prop :=
  exists script parsed preimage sweep,
    e_lockingScript escrow = Some script
    /\ Htlc.parseHTLCScript script = Ok parsed
    /\ secret = Some preimage
    /\ Crypto.sha256Hex (Crypto.ofHex preimage) = Htlc.parsed_refundHash parsed
    /\ Htlc.parsed_timeout parsed <= nowSeconds
    /\ sw_locktime sweep = Htlc.parsed_timeout parsed
    /\ (bsv_buildSweepTransaction sweep = Ok tx \/ btc_buildSweepTransaction sweep = Ok tx).

Definition exampleRefund : RefundRequest :=
  {| rq_swapId := exampleSwapId; rq_toAddress := None |}.

(** ** lib/swap.js: [getSwapStatus]

    The object returned for one escrow, and for the swap.  The constant
    fields [version] and [quantumSafe] are left out, and so is the text of
    [timeoutDate], whose formatting can throw.  The four fields that
    [includeSecrets] adds are one optional record. *)
Record EscrowView := {
  ev_chain : string;
  ev_address : option string;
  ev_scriptHash : option string;
  ev_funded : bool;
  ev_timeout : Z;
  ev_timeoutRemaining : Z;
  ev_expired : bool
}.

Record ResponderSecretsView := {
  rv_recipient_hash : option string;
  rv_recipient_secret : option string;
  rv_refund_secret : option string
}.

Record SecretsView := {
  sv_initiatorSecrets : string * string * string * string;
  sv_responderSecrets : option ResponderSecretsView;
  sv_initiatorLockingScript : option string;
  sv_responderLockingScript : option string
}.

Record StatusView := {
  sv_swapId : string;
  sv_status : SwapStatus;
  sv_fromChain : string;
  sv_toChain : string;
  sv_fromAmount : Number;
  sv_toAmount : Number;
  sv_initiatorHTLC : option EscrowView;
  sv_responderHTLC : option EscrowView;
  sv_transactions : list Transaction;
  sv_createdAt : Z;
  sv_updatedAt : Z;
  sv_secrets : option SecretsView
}.

(** [x ? ... : null] on a string that may be [null]: the empty string is
    falsy too. *)
Definition truthy (x : option string) : bool :=
  match x with
  | None | Some EmptyString => false
  | Some _ => true
  end.

(** [swap.initiatorHTLC.lockingScript ? { ... } : null] *)
Definition viewEscrow `{Env} (chain : string) (escrow : Escrow)
  : result (option EscrowView) :=
  if truthy (e_lockingScript escrow) then
    _ ← Js.toISOString (e_timeout escrow * 1000);
    Ok (Some {| ev_chain := chain;
                ev_address := e_address escrow;
                ev_scriptHash := e_scriptHash escrow;
                ev_funded := e_funded escrow;
                ev_timeout := e_timeout escrow;
                ev_timeoutRemaining := Z.max 0 (e_timeout escrow - nowSeconds);
                ev_expired := nowSeconds >=? e_timeout escrow |})
  else Ok None.

Definition getSwapStatus `{Env} (swapId : string) (includeSecrets : bool) (w : World)
  : result StatusView :=
  match swaps w !! swapId with
  | None => Throw (Err "Swap not found")
  | Some swap =>
      initiatorView ← viewEscrow (fromChain swap) (initiatorHTLC swap);
      responderView ← viewEscrow (toChain swap) (responderHTLC swap);
      Ok {| sv_swapId := swapId;
            sv_status := status swap;
            sv_fromChain := fromChain swap;
            sv_toChain := toChain swap;
            sv_fromAmount := fromAmount swap;
            sv_toAmount := toAmount swap;
            sv_initiatorHTLC := initiatorView;
            sv_responderHTLC := responderView;
            sv_transactions := transactions swap;
            sv_createdAt := createdAt swap;
            sv_updatedAt := updatedAt swap;
            sv_secrets :=
              if includeSecrets then
                Some {| sv_initiatorSecrets :=
                          (swap_hash (initiator swap), swap_secret (initiator swap),
                           refund_secret (initiator swap), claim_secret (initiator swap));
                        sv_responderSecrets :=
                          if truthy (recipient_secret (responder swap)) then
                            Some {| rv_recipient_hash := recipient_hash (responder swap);
                                    rv_recipient_secret := recipient_secret (responder swap);
                                    rv_refund_secret := r_refund_secret (responder swap) |}
                          else None;
                        sv_initiatorLockingScript := e_lockingScript (initiatorHTLC swap);
                        sv_responderLockingScript := e_lockingScript (responderHTLC swap) |}
              else None |}
  end.

(** What the view of an escrow says of its timeout is what the refund of
    that escrow, run at the same moment on the same state, goes by: an
    escrow not shown as expired is refused with the seconds shown as
    remaining, and one shown as expired has none remaining and passes the
    timeout check of the coordinator. *)
Definition agreesWithRefund `{Env} (view : EscrowView) (timeout : Z)
  (refund : World * result SpendResult) (w : World) : Prop :=
  ev_timeout view = timeout
  /\ (ev_expired view = false ->
      0 < ev_timeoutRemaining view
      /\ refund = (w, Throw (ErrTimeoutNotReached (ev_timeoutRemaining view))))
  /\ (ev_expired view = true ->
      ev_timeoutRemaining view = 0 /\ timeout <= nowSeconds).

(** A script is kept only for an escrow on one of the two script
    ledgers. *)
Definition scriptOnLedger (chain : string) (escrow : Escrow) : Prop :=
  e_lockingScript escrow <> None -> chain = "BSV" \/ chain = "BTC".

Definition scriptsPlaced (w : World) : Prop :=
  forall id s,
    swaps w !! id = Some s ->
    scriptOnLedger (fromChain s) (initiatorHTLC s)
    /\ scriptOnLedger (toChain s) (responderHTLC s).

(** The calls that open, join and fund the swap towards SOL. *)
Definition solanaCalls : list (Env * Call) :=
  [ (ledgersUp exampleStart, InitiateSwap exampleUuid exampleInitiator solanaInitiate);
    (ledgersUp exampleStart, JoinSwap exampleResponder solanaJoin);
    (ledgersUp exampleStart, RecordInitiatorFunding exampleFunding);
    (ledgersUp exampleStart, RecordResponderFunding exampleFunding) ].

(** ** lib/htlc.js: [decodeScriptToASM]

    [Number.prototype.toString()] of an integer, for the template
    literals. *)
Fixpoint decOfPos (fuel : nat) (n : Z) (acc : string) : string :=
  match fuel with
  | O => acc
  | S f =>
      let acc' := String (Js.hexChar (n mod 10)) acc in
      if n / 10 =? 0 then acc' else decOfPos f (n / 10) acc'
  end.

Definition toString10 (n : Z) : string :=
  if n <? 0 then "-" +:+ decOfPos (S (Z.to_nat (Z.log2 (- n)))) (- n) EmptyString
  else decOfPos (S (Z.to_nat (Z.log2 n))) n EmptyString.

(** [opcodeNames[byte]]: [byte] has at most two characters, and no
    inherited property of an object has so short a name. *)
Definition opcodeNames : list (string * string) :=
  [ ("00", "OP_0"); ("51", "OP_TRUE"); ("52", "OP_2"); ("53", "OP_3");
    ("63", "OP_IF"); ("67", "OP_ELSE"); ("68", "OP_ENDIF"); ("75", "OP_DROP");
    ("76", "OP_DUP"); ("87", "OP_EQUAL"); ("88", "OP_EQUALVERIFY");
    ("a8", "OP_SHA256"); ("a9", "OP_HASH160"); ("aa", "OP_HASH256");
    ("ac", "OP_CHECKSIG"); ("b1", "OP_CHECKLOCKTIMEVERIFY");
    ("b2", "OP_CHECKSEQUENCEVERIFY") ].

Definition opcodeName (byte : string) : option string :=
  option_map snd (find (fun entry => String.eqb (fst entry) byte) opcodeNames).

(** [Buffer.from(lenBytes, 'hex').readUInt16LE(0)] *)
Definition readUInt16LE (buf : Buffer) : result Z :=
  match buf with
  | lo :: hi :: _ => Ok (Js.byteZ lo + 256 * Js.byteZ hi)
  | _ => Throw (RangeError "Attempt to access memory outside buffer bounds")
  end.

(** [parts.join(' ')] *)
Fixpoint joinSpace (parts : list string) : string :=
  match parts with
  | [] => EmptyString
  | [part] => part
  | part :: rest => part +:+ " " +:+ joinSpace rest
  end.

(** A number that may be [NaN], in a template literal. *)
Definition showNumber (x : option Z) : string :=
  match x with
  | Some n => toString10 n
  | None => "NaN"
  end.

(** One iteration of the [while] loop at cursor [i]: the new cursor and the
    parts so far.  The cursor becomes [NaN] when the length byte of a
    PUSHDATA1 is not a number. *)
Definition asmStep (scriptHex : string) (i : Z) (parts : list string)
  : result (option Z * list string) :=
  let byte := Js.substring scriptHex (Some i) (Some (i + 2)) in
  let opcode := Js.parseInt16 byte in
  match opcodeName byte with
  | Some name => Ok (Some (i + 2), (parts ++ [name])%list)
  | None =>
      if match opcode with Some op => (1 <=? op) && (op <=? 75) | None => false end then
        let dataLen := default 0 opcode * 2 in
        let data := Js.substring scriptHex (Some (i + 2)) (Some (i + 2 + dataLen)) in
        let part :=
          if dataLen <=? 16 then "<" +:+ data +:+ ">"
          else "<" +:+ Js.substring data (Some 0) (Some 8) +:+ "..."
               +:+ toString10 (dataLen / 2) +:+ "B>" in
        Ok (Some (i + 2 + dataLen), (parts ++ [part])%list)
      else if String.eqb byte "4c" then
        let lenByte := Js.parseInt16 (Js.substring scriptHex (Some (i + 2)) (Some (i + 4))) in
        Ok (Js.add (Some i) (Js.add (Some 4) (Js.mul lenByte (Some 2))),
            (parts ++ ["<PUSHDATA1:" +:+ showNumber lenByte +:+ "B>"])%list)
      else if String.eqb byte "4d" then
        let lenBytes := Js.substring scriptHex (Some (i + 2)) (Some (i + 6)) in
        len ← readUInt16LE (Js.fromHex lenBytes);
        Ok (Some (i + (6 + len * 2)),
            (parts ++ ["<PUSHDATA2:" +:+ toString10 len +:+ "B>"])%list)
      else Ok (Some (i + 2), (parts ++ ["0x" +:+ byte])%list)
  end.

(** The [while (i < scriptHex.length)] loop, one iteration per unit of
    [fuel]; [None] is a loop that is still running when the fuel is
    spent. *)
Fixpoint asmLoop (fuel : nat) (scriptHex : string) (i : option Z) (parts : list string)
  : option (result (list string)) :=
  match fuel with
  | O => None
  | S fuel' =>
      match i with
      | None => Some (Ok parts)
      | Some cursor =>
          if negb (cursor <? Z.of_nat (String.length scriptHex)) then Some (Ok parts)
          else
            match asmStep scriptHex cursor parts with
            | Throw e => Some (Throw e)
            | Ok (next, parts') => asmLoop fuel' scriptHex next parts'
            end
      end
  end.

Definition decodeScriptToASM (fuel : nat) (scriptHex : string) : option (result string) :=
  option_map (fun r => parts ← r; Ok (joinSpace parts))
    (asmLoop fuel scriptHex (Some 0) []).

(** The text that [decodeScriptToASM] prints for a hash: its first eight
    characters and its size. *)
Definition hashPreview (hash : string) : string :=
  "<" +:+ stake 8 hash +:+ "...32B>".

(** The ASM of the two-branch script. *)
Definition scriptASM (params : Htlc.HTLCParams) : string :=
  "OP_IF OP_SHA256 " +:+ hashPreview (Htlc.p_swapHash params)
  +:+ " OP_EQUALVERIFY OP_SHA256 " +:+ hashPreview (Htlc.p_recipientHash params)
  +:+ " OP_EQUAL OP_ELSE <" +:+ Htlc.encodeMinimalNumber (Htlc.p_timeout params)
  +:+ "> OP_CHECKLOCKTIMEVERIFY OP_DROP OP_SHA256 "
  +:+ hashPreview (Htlc.p_refundHash params) +:+ " OP_EQUAL OP_ENDIF".

(** A script that [parseHTLCScript] accepts: the script of the example
    followed by a PUSHDATA1 whose length byte reads as a negative number. *)
Definition hangingScript : string := exampleScript +:+ "4c-5".

(** The cursors of [decodeScriptToASM] on [hangingScript]: the opcodes and
    pushes of the script, the PUSHDATA1 behind it, and from there back to
    the last byte of the refund hash. *)
Definition hangingCursors : list Z :=
  [0; 2; 4; 70; 72; 74; 140; 142; 144; 154; 156; 158; 160; 226; 228; 230; 224].

(** ** lib/htlc.js: [estimateScriptSigSize]

    [htlc.redeemScript.length / 2] is a half-integer on a string of odd
    length, so the estimate is a rational number. *)
Definition estimateScriptSigSize (htlc : Htlc.HTLC) (isQuantum : bool)
  : QArith_base.Q :=
  let preimageSize : Z := if isQuantum then 1024 + 1024 + 3 else 32 + 32 + 3 in
  let redeemSize :=
    QArith_base.Qplus
      (QArith_base.Qmake
         (Z.of_nat (String.length (Htlc.redeemScript (Htlc.htlcScript htlc)))) 2)
      (QArith_base.inject_Z 3) in
  QArith_base.Qplus (QArith_base.inject_Z preimageSize)
    (if String.eqb (Htlc.chain htlc) "BTC" then redeemSize else QArith_base.inject_Z 0).

(** The size in bytes of a script given in hexadecimal. *)
Definition byteSize (scriptHex : string) : QArith_base.Q :=
  QArith_base.Qmake (Z.of_nat (String.length scriptHex)) 2.

(** By how many bytes the estimate falls short on a ledger. *)
Definition shortfall (chain : string) : Z :=
  if String.eqb chain "BSV" then 4 else 3.

(** ** lib/sol.js: Base58

    [ToInt32], the conversion that the bitwise operators apply to their
    operands and to their result. *)
Definition toInt32 (x : Z) : Z := (x + 2147483648) mod 4294967296 - 2147483648.

Definition BASE58_ALPHABET : string :=
  "123456789ABCDEFGHJKLMNPQRSTUVWXYZabcdefghijkmnopqrstuvwxyz".

(** [BASE58_ALPHABET[d]], appended to a string: an index outside the
    alphabet appends the text of [undefined]. *)
Definition alphabetAt (d : Z) : string :=
  match (if 0 <=? d then String.get (Z.to_nat d) BASE58_ALPHABET else None) with
  | Some c => String c EmptyString
  | None => "undefined"
  end.

(** [BASE58_ALPHABET.indexOf(c)], with [None] for -1. *)
Fixpoint indexIn (alphabet : string) (c : ascii) (i : Z) : option Z :=
  match alphabet with
  | EmptyString => None
  | String a rest => if Ascii.eqb a c then Some i else indexIn rest c (i + 1)
  end.

(** The inner [for] loop of [base58Encode] over the digits, least
    significant first: [carry += digits[j] << 8; digits[j] = carry % 58;
    carry = (carry / 58) | 0]. *)
Fixpoint encodeCarry (digits : list Z) (carry : Z) : list Z * Z :=
  match digits with
  | [] => ([], carry)
  | d :: rest =>
      let sum := carry + toInt32 (toInt32 d * 256) in
      let (rest', out) := encodeCarry rest (toInt32 (Z.quot sum 58)) in
      (Z.rem sum 58 :: rest', out)
  end.

(** [while (carry > 0) { digits.push(carry % 58); carry = (carry / 58) | 0 }];
    the carry is below 2^31, so six iterations end the loop. *)
Fixpoint encodePush (fuel : nat) (carry : Z) : list Z :=
  match fuel with
  | O => []
  | S fuel' =>
      if 0 <? carry
      then Z.rem carry 58 :: encodePush fuel' (toInt32 (Z.quot carry 58))
      else []
  end.

Definition encodeByte (digits : list Z) (byte : Z) : list Z :=
  let (digits', carry) := encodeCarry digits byte in
  (digits' ++ encodePush 6 carry)%list.

(** [for (k = 0; buffer[k] === 0 && k < buffer.length - 1; k++)] *)
Fixpoint leadingZeros (buffer : list Z) : nat :=
  match buffer with
  | b :: (_ :: _) as rest => if b =? 0 then S (leadingZeros rest) else O
  | _ => O
  end.

Fixpoint digitChars (digits : list Z) : string :=
  match digits with
  | [] => EmptyString
  | d :: rest => alphabetAt d +:+ digitChars rest
  end.

Definition base58Encode (buffer : Buffer) : string :=
  let bytes := map Js.byteZ buffer in
  let digits := fold_left encodeByte bytes [0] in
  repeatString (leadingZeros bytes) "1" +:+ digitChars (rev digits).

(** The inner [for] loop of [base58Decode]: [carry += bytes[j] * 58;
    bytes[j] = carry & 0xff; carry >>= 8]. *)
Fixpoint decodeCarry (bytes : list Z) (carry : Z) : list Z * Z :=
  match bytes with
  | [] => ([], carry)
  | b :: rest =>
      let sum := carry + b * 58 in
      let (rest', out) := decodeCarry rest (Z.shiftr (toInt32 sum) 8) in
      (Z.land (toInt32 sum) 255 :: rest', out)
  end.

(** [while (carry > 0) { bytes.push(carry & 0xff); carry >>= 8 }] *)
Fixpoint decodePush (fuel : nat) (carry : Z) : list Z :=
  match fuel with
  | O => []
  | S fuel' =>
      if 0 <? carry
      then Z.land (toInt32 carry) 255 :: decodePush fuel' (Z.shiftr (toInt32 carry) 8)
      else []
  end.

Definition decodeChar (bytes : list Z) (c : ascii) : result (list Z) :=
  match indexIn BASE58_ALPHABET c 0 with
  | None => Throw (Err "Invalid Base58 character")
  | Some carry =>
      let (bytes', out) := decodeCarry bytes carry in
      Ok (bytes' ++ decodePush 4 out)%list
  end.

Fixpoint decodeChars (bytes : list Z) (str : string) : result (list Z) :=
  match str with
  | EmptyString => Ok bytes
  | String c rest =>
      bytes' ← decodeChar bytes c;
      decodeChars bytes' rest
  end.

(** [for (k = 0; str[k] === BASE58_ALPHABET[0] && k < str.length - 1; k++)] *)
Fixpoint leadingOneChars (str : string) : nat :=
  match str with
  | String c (String _ _ as rest) =>
      if Ascii.eqb c "1" then S (leadingOneChars rest) else O
  | _ => O
  end.

Definition base58Decode (str : string) : result Buffer :=
  bytes ← decodeChars [0] str;
  Ok (map Js.Zbyte (rev (bytes ++ repeat 0 (leadingOneChars str)))).

(** [validateAddress] of lib/sol.js: the error of the decoder is caught and
    its message returned; [base58Decode] throws no error but the [Err] of
    [decodeChar]. *)
Definition solValidateAddress (address : string) : Validation :=
  match base58Decode address with
  | Ok decoded =>
      if negb (length decoded =? 32)%nat
      then {| v_valid := false; v_error := "Invalid address length" |}
      else {| v_valid := true; v_error := EmptyString |}
  | Throw (Err message) => {| v_valid := false; v_error := message |}
  | Throw _ => {| v_valid := false; v_error := EmptyString |}
  end.

(** Positional numbers, least significant digit first. *)
Fixpoint radixValue (base : Z) (digits : list Z) : Z :=
  match digits with
  | [] => 0
  | d :: rest => d + base * radixValue base rest
  end.

(** The loops of both conversions are the school method for multiplying a
    number in base [base] by [factor] and adding a carry. *)
Fixpoint mulAdd (base factor : Z) (digits : list Z) (carry : Z) : list Z * Z :=
  match digits with
  | [] => ([], carry)
  | d :: rest =>
      let sum := carry + d * factor in
      let (rest', out) := mulAdd base factor rest (sum / base) in
      (sum mod base :: rest', out)
  end.

Fixpoint digitsOf (base : Z) (fuel : nat) (carry : Z) : list Z :=
  match fuel with
  | O => []
  | S fuel' =>
      if 0 <? carry then carry mod base :: digitsOf base fuel' (carry / base) else []
  end.

(** Digits in range, with no zero in the most significant place, the
    number zero being the single digit 0. *)
Definition proper (base : Z) (digits : list Z) : Prop :=
  Forall (fun d => 0 <= d < base) digits
  /\ (digits = [0] \/ List.last digits 0 <> 0).

(** The number that bytes, or Base58 digits, most significant first, stand
    for. *)
Definition bigEndianValue (base : Z) (digits : list Z) : Z :=
  fold_left (fun acc d => base * acc + d) digits 0.

(** ** lib/crypto.js and lib/bsv.js: the raw sweep transaction

    [encodeVarInt(length)] on [length = len2 / 2], the byte count of a text
    of [len2] hexadecimal characters. *)
Definition writeUInt32LE (v : Z) : Buffer :=
  [Js.Zbyte v; Js.Zbyte (v / 256); Js.Zbyte (v / 65536); Js.Zbyte (v / 16777216)].

Definition encodeVarInt (len2 : Z) : result string :=
  if len2 <? 2 * 253 then Ok (Js.padStart2 (Crypto.halfToString16 len2))
  else if len2 <=? 2 * 65535 then
    Ok (Js.toHex (xfd :: Crypto.writeUInt16LE (len2 / 2)))
  else if len2 <=? 2 * 4294967295 then
    Ok (Js.toHex (xfe :: writeUInt32LE (len2 / 2)))
  else Throw (Err "Value too large for varint").

Definition reverseHex (hex : string) : string := Js.toHex (rev (Js.fromHex hex)).

(** [buf.writeUInt32LE(num)] refuses a number outside 32 bits. *)
Definition toLittleEndian32 (num : Z) : result string :=
  if (num <? 0) || (4294967295 <? num) then Throw (RangeError "ERR_OUT_OF_RANGE")
  else Ok (Js.toHex (writeUInt32LE num)).

Definition writeBigUInt64LE (v : Z) : Buffer :=
  map (fun k => Js.Zbyte (v / 256 ^ k)) [0; 1; 2; 3; 4; 5; 6; 7].

(** [buf.writeBigUInt64LE(BigInt(num))] refuses a number outside 64 bits. *)
Definition toLittleEndian64 (num : Z) : result string :=
  if (num <? 0) || (18446744073709551615 <? num) then
    Throw (RangeError "ERR_OUT_OF_RANGE")
  else Ok (Js.toHex (writeBigUInt64LE num)).

Definition dustLimit : Z := 546.

(** [Math.ceil(x / 2)] *)
Definition ceilHalf (x : Z) : Z := - ((- x) / 2).

Record SweepTransaction := {
  st_txHex : string;
  st_txid : string;
  st_fee : Z;
  st_size : QArith_base.Q;
  st_outputSatoshis : Z;
  st_feeRate : Z
}.

(** [bytes.toString('hex')] on a [Uint8Array]: the argument is not read,
    and the bytes are written as decimal numbers with commas between
    them. *)
Fixpoint joinComma (parts : list string) : string :=
  match parts with
  | [] => EmptyString
  | [part] => part
  | part :: rest => part +:+ "," +:+ joinComma rest
  end.

Definition typedArrayToString (bytes : Buffer) : string :=
  joinComma (map (fun b => toString10 (Js.byteZ b)) bytes).

(** [config.feeRate] is read from the environment; [bs58check.decode] is
    the decoder of the library in the version that the package names,
    3.0.1, which throws on what is not an address and returns the payload
    as a [Uint8Array]. *)
Section Sweep.

Variable feeRate : Z.
Variable bs58check_decode : option string -> result Buffer.

Definition addressToScriptPubKey (address : option string) : result string :=
  decoded ← bs58check_decode address;
  match decoded with
  | [] => Throw (TypeError "Cannot read properties of undefined (reading 'toString')")
  | version :: payload =>
      let v := Js.byteZ version in
      let hash := typedArrayToString payload in
      if v =? 0 then Ok ("76a914" +:+ hash +:+ "88ac")
      else if v =? 111 then Ok ("76a914" +:+ hash +:+ "88ac")
      else if v =? 5 then
        Throw (Err "P2SH addresses (starting with 3) are NOT supported on BSV post-Genesis")
      else Throw (Err "Unknown address version: 0x")
  end.

Definition buildSweepTransaction (params : SweepParams) : result SweepTransaction :=
  let utxo := sw_utxo params in
  let scriptSig := sw_scriptSig params in
  let sigLen2 := Z.of_nat (String.length scriptSig) in
  (* totalSize = baseSize + scriptSigBytes + 5, with baseSize = 87 *)
  let fee := ceilHalf ((2 * 87 + sigLen2 + 2 * 5) * feeRate) in
  let outputSatoshis := satoshis utxo - fee in
  if outputSatoshis <=? dustLimit then
    Throw (Err "Output would be dust after fees (")
  else
    prevOut ← toLittleEndian32 (vout utxo);
    sigLen ← encodeVarInt sigLen2;
    value ← toLittleEndian64 outputSatoshis;
    scriptPubKey ← addressToScriptPubKey (sw_toAddress params);
    pubKeyLen ← encodeVarInt (Z.of_nat (String.length scriptPubKey));
    locktime ← toLittleEndian32 (sw_locktime params);
    let tx := "01000000" +:+ "01" +:+ reverseHex (txid utxo) +:+ prevOut
              +:+ sigLen +:+ scriptSig +:+ "feffffff" +:+ "01" +:+ value
              +:+ pubKeyLen +:+ scriptPubKey +:+ locktime in
    Ok {| st_txHex := tx;
          st_txid := Js.toHex (rev (Crypto.hash256 (Crypto.ofHex tx)));
          st_fee := fee;
          st_size := QArith_base.Qmake (Z.of_nat (String.length tx)) 2;
          st_outputSatoshis := outputSatoshis;
          st_feeRate := feeRate |}.

End Sweep.

(** The second half of [extractSwapSecretFromTx]: the first push of the
    unlocking script. *)
Definition firstPush (scriptSig : string) : result string :=
  match Js.parseInt16 (Js.substring scriptSig (Some 0) (Some 2)) with
  | Some pushByte =>
      if pushByte =? 77 then
        pushLen ← readUInt16LE (Js.fromHex (Js.substring scriptSig (Some 2) (Some 6)));
        Ok (Js.substring scriptSig (Some 6) (Some (6 + pushLen * 2)))
      else if pushByte =? 76 then
        let pushLen := Js.parseInt16 (Js.substring scriptSig (Some 2) (Some 4)) in
        Ok (Js.substring scriptSig (Some 4)
              (Js.add (Some 4) (Js.mul pushLen (Some 2))))
      else if pushByte <=? 75 then
        Ok (Js.substring scriptSig (Some 2) (Some (2 + pushByte * 2)))
      else Throw (Err "Could not extract swap secret from transaction")
  | None => Throw (Err "Could not extract swap secret from transaction")
  end.

(** [extractSwapSecretFromTx], from the raw transaction that
    [getRawTransaction] has fetched; the cursor [i] stands at 82 behind the
    version, the input count, the previous txid and the previous vout. *)
Definition scriptSigOf (rawTx : string) : result string :=
  let i := 8 + 2 + (64 + 8) in
  located ←
    match Js.parseInt16 (Js.substring rawTx (Some i) (Some (i + 2))) with
    | Some firstByte =>
        if firstByte <? 253 then Ok (firstByte, i + 2)
        else if firstByte =? 253 then
          scriptSigLen ←
            readUInt16LE (Js.fromHex (Js.substring rawTx (Some (i + 2)) (Some (i + 6))));
          Ok (scriptSigLen, i + 6)
        else Throw (Err "Unexpected scriptSig length encoding")
    | None => Throw (Err "Unexpected scriptSig length encoding")
    end;
  Ok (Js.substring rawTx (Some (snd located))
        (Some (snd located + fst located * 2))).

Definition extractSwapSecretFromTx (rawTx : string) : result string :=
  scriptSig ← scriptSigOf rawTx;
  firstPush scriptSig.

(** The texts of the byte counts from 0 to 255, as [pushData] and
    [encodeVarInt] write them and [parseInt] reads them. *)
Definition byteText (n : Z) : string := Js.padStart2 (Js.toString16 n).

Definition readsBack (n : Z) : bool :=
  (String.length (byteText n) =? 2)%nat
  && match Js.parseInt16 (byteText n) with
     | Some v => v =? n
     | None => false
     end.

(** The coordinator's BSV adapter with the transaction builder of
    lib/bsv.js in it. *)
Definition withSweep (feeRate : Z) (decode : option string -> result Buffer)
  (base : Env) : Env :=
  {| Date_now := @Date_now base;
     initiatorTimeoutSeconds := @initiatorTimeoutSeconds base;
     responderTimeoutSeconds := @responderTimeoutSeconds base;
     bsv_validateAddress := @bsv_validateAddress base;
     btc_validateAddress := @btc_validateAddress base;
     sol_validateAddress := @sol_validateAddress base;
     bsv_getUTXOsByScriptHash := @bsv_getUTXOsByScriptHash base;
     btc_getUTXOs := @btc_getUTXOs base;
     sol_rpcGetBalance := @sol_rpcGetBalance base;
     sol_createHTLCInfo := @sol_createHTLCInfo base;
     bsv_buildSweepTransaction := fun params =>
       tx ← buildSweepTransaction feeRate decode params;
       Ok (st_txHex tx);
     btc_buildSweepTransaction := @btc_buildSweepTransaction base;
     bsv_broadcastTransaction := @bsv_broadcastTransaction base;
     btc_broadcastTransaction := @btc_broadcastTransaction base |}.

(** A claim on the first UTXO of the examples: the escrow is locked to the
    hashes of three secrets of 1024 bytes, and the address decodes to a
    version byte 0 and a hash of 20 bytes. *)
Definition claimScript : string :=
  match Htlc.createHTLCScript
          {| Htlc.p_swapHash := Crypto.sha256Hex (Crypto.ofHex (secretOf "11"));
             Htlc.p_recipientHash := Crypto.sha256Hex (Crypto.ofHex (secretOf "44"));
             Htlc.p_refundHash := Crypto.sha256Hex (Crypto.ofHex (secretOf "22"));
             Htlc.p_timeout := 1700000000 |} with
  | Ok script => Htlc.redeemScript script
  | Throw _ => EmptyString
  end.

Definition exampleClaim : ClaimParams :=
  {| cp_utxo := exampleUtxo;
     cp_swapSecret := secretOf "11";
     cp_recipientSecret := Some (secretOf "44");
     cp_lockingScript := Some claimScript;
     cp_redeemScript := None;
     cp_toAddress := Some "1BoatSLRHtKNngkdXEeobR76b53LETtpyT" |}.

Definition exampleDecode (address : option string) : result Buffer :=
  match address with
  | Some _ => Ok (x00 :: repeat x77 20)
  | None => Throw (TypeError "Expected String")
  end.

(** ** lib/sol.js: the account data of an escrow

    [source.copy(target, targetStart)] copies what fits and leaves the rest
    of [target] as it is. *)
Definition copyInto (source target : Buffer) (targetStart : nat) : Buffer :=
  (firstn targetStart target
   ++ firstn (length target - targetStart) source
   ++ skipn (targetStart + length source) target)%list.

(** [data.slice(start, end)] *)
Definition slice (data : Buffer) (start end_ : nat) : Buffer :=
  firstn (end_ - start) (skipn start data).

(** [data.readBigUInt64LE(offset)] on a buffer that has the eight bytes. *)
Definition readBigUInt64LE (data : Buffer) (offset : nat) : Z :=
  fold_right (fun b value => Js.byteZ b + 256 * value) 0 (slice data offset (offset + 8)).

(** [Number(b)] of a BigInt that is not negative: the nearest double, ties
    to the even significand of 53 bits. *)
Definition toNumber (b : Z) : Z :=
  if b <? 2 ^ 53 then b
  else
    let unit := 2 ^ (Z.log2 b - 52) in
    let significand := b / unit in
    let rest := b mod unit in
    if 2 * rest <? unit then significand * unit
    else if unit <? 2 * rest then (significand + 1) * unit
    else if Z.even significand then significand * unit
    else (significand + 1) * unit.

Record HTLCData := {
  hd_initialized : bool;
  hd_swapHash : string;
  hd_recipientHash : string;
  hd_refundHash : string;
  hd_initiator : string;
  hd_recipient : string;
  hd_timeoutSlot : Z
}.

(** [createHTLCData] reads the six parameters; [hd_initialized] is no
    parameter of it. *)
Definition createHTLCData (params : HTLCData) : result Buffer :=
  let buffer := repeat x00 169 in
  let buffer := copyInto [x01] buffer 0 in
  let buffer := copyInto (Js.fromHex (hd_swapHash params)) buffer 1 in
  let buffer := copyInto (Js.fromHex (hd_recipientHash params)) buffer 33 in
  let buffer := copyInto (Js.fromHex (hd_refundHash params)) buffer 65 in
  initiator ← base58Decode (hd_initiator params);
  let buffer := copyInto initiator buffer 97 in
  recipient ← base58Decode (hd_recipient params);
  let buffer := copyInto recipient buffer 129 in
  let timeoutSlot := hd_timeoutSlot params in
  if (timeoutSlot <? 0) || (18446744073709551615 <? timeoutSlot) then
    Throw (RangeError "ERR_OUT_OF_RANGE")
  else Ok (copyInto (writeBigUInt64LE timeoutSlot) buffer 161).

Definition parseHTLCData (data : Buffer) : result HTLCData :=
  if (length data <? 169)%nat then Throw (Err "Invalid HTLC data length")
  else
    Ok {| hd_initialized := Js.byteZ (nth 0 data x00) =? 1;
          hd_swapHash := Js.toHex (slice data 1 33);
          hd_recipientHash := Js.toHex (slice data 33 65);
          hd_refundHash := Js.toHex (slice data 65 97);
          hd_initiator := base58Encode (slice data 97 129);
          hd_recipient := base58Encode (slice data 129 161);
          hd_timeoutSlot := toNumber (readBigUInt64LE data 161) |}.

(** The parameters of an escrow between two public keys. *)
Definition accountOf (swap recipientDigest refund initiator recipient : Buffer) (slot : Z)
  : HTLCData :=
  {| hd_initialized := true;
     hd_swapHash := Js.toHex swap;
     hd_recipientHash := Js.toHex recipientDigest;
     hd_refundHash := Js.toHex refund;
     hd_initiator := base58Encode initiator;
     hd_recipient := base58Encode recipient;
     hd_timeoutSlot := slot |}.

(** The text of the decimal digits of a number that is not negative: no
    white space, no sign and no letter. *)
Fixpoint allDigits (s : string) : bool :=
  match s with
  | EmptyString => true
  | String c r =>
      match Js.decVal c with
      | Some _ => allDigits r
      | None => false
      end
  end.

(** * Properties *)

(** ** Bytes and hexadecimal text *)

Section HexFacts.

Lemma byteZ_range (b : byte) : 0 <= Js.byteZ b < 256.
Proof.
  unfold Js.byteZ. pose proof (Byte.to_N_bounded b). lia.
Qed.

Lemma Zbyte_byteZ (b : byte) : Js.Zbyte (Js.byteZ b) = b.
Proof.
  unfold Js.Zbyte. rewrite Z.mod_small by apply byteZ_range.
  unfold Js.byteZ. rewrite N2Z.id, Byte.of_to_N. reflexivity.
Qed.

Lemma byteZ_Zbyte (v : Z) : Js.byteZ (Js.Zbyte v) = v mod 256.
Proof.
  unfold Js.Zbyte, Js.byteZ.
  pose proof (Z.mod_pos_bound v 256 ltac:(lia)) as Hr.
  destruct (Byte.of_N (Z.to_N (v mod 256))) as [b|] eqn:E.
  - apply Byte.to_of_N in E. rewrite E. lia.
  - apply Byte.of_N_None_iff in E. lia.
Qed.

Lemma hexVal_hexChar (d : Z) : 0 <= d < 16 -> Js.hexVal (Js.hexChar d) = Some d.
Proof.
  intros Hd.
  assert (Hcases : d = 0 \/ d = 1 \/ d = 2 \/ d = 3 \/ d = 4 \/ d = 5 \/ d = 6
                   \/ d = 7 \/ d = 8 \/ d = 9 \/ d = 10 \/ d = 11 \/ d = 12
                   \/ d = 13 \/ d = 14 \/ d = 15) by lia.
  repeat (destruct Hcases as [-> | Hcases]; [reflexivity|]).
  subst d. reflexivity.
Qed.

Lemma fromHex_toHex (b : Buffer) : Js.fromHex (Js.toHex b) = b.
Proof.
  induction b as [|x r IH]; [reflexivity|].
  cbn [Js.toHex Js.fromHex].
  pose proof (byteZ_range x) as Hx.
  rewrite !hexVal_hexChar.
  - rewrite IH. f_equal.
    rewrite <- (Zbyte_byteZ x) at 3. f_equal.
    pose proof (Z.div_mod (Js.byteZ x) 16 ltac:(lia)). lia.
  - apply Z.mod_pos_bound. lia.
  - split; [apply Z.div_pos; lia | apply Z.div_lt_upper_bound; lia].
Qed.

Lemma length_toHex (b : Buffer) :
  String.length (Js.toHex b) = (2 * length b)%nat.
Proof.
  induction b as [|x r IH]; [reflexivity|].
  cbn [Js.toHex String.length length]. rewrite IH. lia.
Qed.

End HexFacts.

(** ** Minimal number encoding *)

Section MinimalNumber.

Lemma land_255 (n : Z) : 0 <= n -> Z.land n 255 = n mod 256.
Proof.
  intros Hn. change 255 with (Z.ones 8). rewrite Z.land_ones by lia.
  reflexivity.
Qed.

Lemma take_S_insert {A} (l : list A) (i : nat) (x : A) :
  (i < length l)%nat -> take (S i) (<[i := x]> l) = (take i l ++ [x])%list.
Proof.
  revert i. induction l as [|y l IH]; intros i Hi; simpl in Hi; [lia|].
  destruct i as [|i]; [reflexivity|].
  cbn. f_equal. apply IH. lia.
Qed.

Lemma loopBytes_length (fuel : nat) (n : Z) :
  (length (loopBytes fuel n) <= fuel)%nat.
Proof.
  revert n. induction fuel as [|f IH]; intros n; cbn; [lia|].
  destruct (n >? 0); cbn; [specialize (IH (n / 256)); lia | lia].
Qed.

(** The loop leaves what lies outside the bytes it wrote untouched. *)
Lemma encodeLoop_spec (fuel : nat) :
  forall (buf : Buffer) (i : nat) (n : Z),
    (i + length (loopBytes fuel n) <= length buf)%nat ->
    Htlc.encodeLoop fuel buf i n
    = ((take i buf ++ map Js.Zbyte (loopBytes fuel n)
          ++ drop (i + length (loopBytes fuel n)) buf)%list,
       (i + length (loopBytes fuel n))%nat).
Proof.
  induction fuel as [|f IH]; intros buf i n Hlen; cbn [Htlc.encodeLoop loopBytes] in *.
  - cbn. rewrite Nat.add_0_r, take_drop. reflexivity.
  - destruct (n >? 0) eqn:Hpos.
    + cbn [length map] in *.
      rewrite IH by (rewrite length_insert; lia).
      rewrite take_S_insert by lia.
      rewrite drop_insert_lt by lia.
      rewrite <- app_assoc. cbn.
      replace (S (i + length (loopBytes f (n / 256))))
        with (i + S (length (loopBytes f (n / 256))))%nat by lia.
      reflexivity.
    + cbn. rewrite Nat.add_0_r, take_drop. reflexivity.
Qed.

(** With enough iterations the loop stops because [n] has reached 0, and
    more iterations change nothing. *)
Lemma loopBytes_stable (fuel : nat) :
  forall n k, 0 <= n < 256 ^ Z.of_nat fuel ->
    loopBytes (fuel + k) n = loopBytes fuel n.
Proof.
  induction fuel as [|f IH]; intros n k Hn.
  - assert (n = 0) by (cbn in Hn; lia). subst n. destruct k; reflexivity.
  - cbn [loopBytes Nat.add]. destruct (n >? 0) eqn:Hpos; [|reflexivity].
    f_equal. apply IH.
    rewrite Nat2Z.inj_succ, Z.pow_succ_r in Hn by lia.
    split; [apply Z.div_pos; lia | apply Z.div_lt_upper_bound; lia].
Qed.

Lemma encodeFuel_enough (n : Z) :
  0 < n -> n < 256 ^ Z.of_nat (Htlc.encodeFuel n).
Proof.
  intros Hn. unfold Htlc.encodeFuel.
  rewrite Nat2Z.inj_succ, Z2Nat.id by apply Z.log2_nonneg.
  pose proof (Z.log2_spec n Hn) as [_ Hlt].
  eapply Z.lt_le_trans; [exact Hlt|].
  change 256 with (2 ^ 8). rewrite <- Z.pow_mul_r by (pose proof (Z.log2_nonneg n); lia).
  apply Z.pow_le_mono_r; pose proof (Z.log2_nonneg n); lia.
Qed.

Lemma usedBytes_step (n : Z) :
  0 < n -> usedBytes n = 1 + usedBytes (n / 256).
Proof.
  intros Hn. unfold usedBytes.
  destruct (n =? 0) eqn:E0; [lia|].
  destruct (n / 256 =? 0) eqn:E1.
  - assert (n < 256).
    { apply Z.eqb_eq in E1. apply Z.div_small_iff in E1; lia. }
    assert (Z.log2 n < 8) by (apply Z.log2_lt_pow2; lia).
    pose proof (Z.log2_nonneg n).
    rewrite Z.div_small by lia. lia.
  - assert (256 <= n).
    { apply Z.eqb_neq in E1. destruct (Z_lt_le_dec n 256); [|lia].
      rewrite Z.div_small in E1 by lia. lia. }
    change 256 with (2 ^ 8). rewrite <- Z.shiftr_div_pow2 by lia.
    rewrite Z.log2_shiftr by lia.
    assert (8 <= Z.log2 n) by (apply Z.log2_le_pow2; lia).
    rewrite Z.max_r by lia.
    replace (Z.log2 n) with ((Z.log2 n - 8) + 1 * 8) at 1 by lia.
    rewrite Z.div_add by lia. lia.
Qed.

Lemma usedBytes_nonneg (n : Z) : 0 <= usedBytes n.
Proof.
  unfold usedBytes. destruct (n =? 0); [lia|].
  pose proof (Z.log2_nonneg n).
  assert (0 <= Z.log2 n / 8) by (apply Z.div_pos; lia). lia.
Qed.

Lemma byteAt_step (n j : Z) :
  0 <= j -> byteAt n (Z.succ j) = byteAt (n / 256) j.
Proof.
  intros Hj. unfold byteAt. rewrite Z.pow_succ_r by lia.
  rewrite Z.div_div by (try apply Z.pow_pos_nonneg; lia). reflexivity.
Qed.

Lemma map_fmap {A B C} (f : B -> C) (g : A -> B) (l : list A) :
  map f (g <$> l) = map (fun x => f (g x)) l.
Proof. induction l as [|x l IH]; cbn; [reflexivity|]. f_equal. exact IH. Qed.

(** The loop writes the base-256 digits of [n], least significant first. *)
Lemma loopBytes_byteAt (fuel : nat) :
  forall n, 0 <= n < 256 ^ Z.of_nat fuel ->
    loopBytes fuel n = map (byteAt n) (seqZ 0 (usedBytes n)).
Proof.
  induction fuel as [|f IH]; intros n Hn.
  - assert (n = 0) by (cbn in Hn; lia). subst n. reflexivity.
  - cbn [loopBytes]. destruct (n >? 0) eqn:Hpos.
    + assert (0 < n) by lia.
      rewrite usedBytes_step by lia.
      pose proof (usedBytes_nonneg (n / 256)).
      rewrite seqZ_cons by lia. cbn [map].
      f_equal.
      * unfold byteAt. rewrite Z.pow_0_r, Z.div_1_r. apply land_255. lia.
      * rewrite IH.
        2:{ rewrite Nat2Z.inj_succ, Z.pow_succ_r in Hn by lia.
            split; [apply Z.div_pos; lia | apply Z.div_lt_upper_bound; lia]. }
        replace (Z.pred (1 + usedBytes (n / 256))) with (usedBytes (n / 256)) by lia.
        rewrite <- (fmap_add_seqZ 1 0). change (Z.succ 0) with (1 + 0).
        rewrite map_fmap.
        apply map_ext_in. intros j Hj.
        apply list_elem_of_In, elem_of_seqZ in Hj.
        replace (1 + j) with (Z.succ j) by lia.
        symmetry. apply byteAt_step. lia.
    + assert (n = 0) by lia. subst n. reflexivity.
Qed.

Lemma byteAt_range (n j : Z) : 0 <= byteAt n j < 256.
Proof. unfold byteAt. apply Z.mod_pos_bound. lia. Qed.

Lemma leValue_loopBytes (fuel : nat) :
  forall n, 0 <= n < 256 ^ Z.of_nat fuel ->
    leValue (map Js.Zbyte (loopBytes fuel n)) = n.
Proof.
  induction fuel as [|f IH]; intros n Hn.
  - cbn in *. lia.
  - cbn [loopBytes]. destruct (n >? 0) eqn:Hpos; [|cbn; lia].
    cbn [map leValue fold_right]. fold (leValue (map Js.Zbyte (loopBytes f (n / 256)))).
    rewrite IH.
    2:{ rewrite Nat2Z.inj_succ, Z.pow_succ_r in Hn by lia.
        split; [apply Z.div_pos; lia | apply Z.div_lt_upper_bound; lia]. }
    rewrite byteZ_Zbyte, land_255, Z.mod_mod by lia.
    pose proof (Z.div_mod n 256 ltac:(lia)). lia.
Qed.

Lemma leValue_app_zero (bs : Buffer) : leValue (bs ++ [x00]) = leValue bs.
Proof.
  induction bs as [|b r IH]; [reflexivity|].
  cbn [app leValue fold_right] in *. fold (leValue (r ++ [x00])). rewrite IH.
  reflexivity.
Qed.

Lemma decodeMinimalNumber_toHex (bs : Buffer) :
  Htlc.decodeMinimalNumber (Js.toHex bs) = leValue bs.
Proof.
  unfold Htlc.decodeMinimalNumber. rewrite fromHex_toHex.
  destruct bs; reflexivity.
Qed.

Lemma highBit_byte (b : byte) :
  negb (Z.land (Js.byteZ b) 128 =? 0) = (128 <=? Js.byteZ b).
Proof. destruct b; reflexivity. Qed.

Lemma usedBytes_le_8 (n : Z) : 0 <= n < 2 ^ 64 -> usedBytes n <= 8.
Proof.
  intros Hn. unfold usedBytes. destruct (n =? 0) eqn:E; [lia|].
  assert (Z.log2 n < 64) by (apply Z.log2_lt_pow2; lia).
  assert (Z.log2 n / 8 < 8) by (apply Z.div_lt_upper_bound; lia). lia.
Qed.

(** Below 2^63 the zero byte still fits the buffer when it is needed. *)
Lemma highBit_fits (n : Z) :
  0 <= n < 2 ^ 63 -> 0 < usedBytes n ->
  128 <= byteAt n (usedBytes n - 1) -> usedBytes n <= 7.
Proof.
  intros Hn Hk Htop.
  pose proof (usedBytes_le_8 n ltac:(lia)) as H8.
  destruct (Z.eq_dec (usedBytes n) 8) as [E|]; [|lia].
  rewrite E in Htop. unfold byteAt in Htop.
  change (256 ^ (8 - 1)) with 72057594037927936 in Htop.
  pose proof (Z.mod_le (n / 72057594037927936) 256
                ltac:(apply Z.div_pos; lia) ltac:(lia)).
  pose proof (Z.mul_div_le n 72057594037927936 ltac:(lia)).
  change (2 ^ 63) with 9223372036854775808 in Hn. lia.
Qed.

(** [encodeMinimalNumber] computes the minimal encoding. *)
Lemma encodeMinimalNumber_minimal (n : Z) :
  0 <= n < 2 ^ 63 ->
  Htlc.encodeMinimalNumber n = Js.toHex (map Js.Zbyte (minimalEncoding n)).
Proof.
  intros Hn. unfold Htlc.encodeMinimalNumber.
  destruct (n =? 0) eqn:E0.
  { apply Z.eqb_eq in E0. subst n. reflexivity. }
  assert (Hpos : 0 < n) by lia.
  pose proof (encodeFuel_enough n Hpos) as Hfuel.
  pose proof (loopBytes_byteAt (Htlc.encodeFuel n) n ltac:(lia)) as Hbytes.
  pose proof (usedBytes_le_8 n ltac:(change (2 ^ 64) with (2 * 2 ^ 63); lia)) as H8.
  pose proof (usedBytes_step n Hpos) as Hstep.
  pose proof (usedBytes_nonneg (n / 256)) as Hnn.
  set (k := usedBytes n) in *.
  assert (Hlen : length (loopBytes (Htlc.encodeFuel n) n) = Z.to_nat k).
  { rewrite Hbytes, length_map, length_seqZ. reflexivity. }
  rewrite encodeLoop_spec by (rewrite Hlen, length_replicate; lia).
  rewrite Hlen. change (0 + Z.to_nat k)%nat with (Z.to_nat k).
  change (take 0 (replicate 8 x00)) with (@nil byte). rewrite app_nil_l.
  remember (map Js.Zbyte (loopBytes (Htlc.encodeFuel n) n)) as bs eqn:Hbs.
  assert (Hbslen : length bs = Z.to_nat k) by (subst bs; rewrite length_map; exact Hlen).
  assert (Htop : Htlc.highBitSet (bs ++ drop (Z.to_nat k) (replicate 8 x00)) (Z.to_nat k)
                 = (128 <=? byteAt n (k - 1))).
  { destruct (Z.to_nat k) as [|j] eqn:Ek; [lia|].
    cbn [Htlc.highBitSet].
    rewrite lookup_app_l by lia.
    subst bs. rewrite Hbytes.
    change (map Js.Zbyte (map (byteAt n) (seqZ 0 k)))
      with (Js.Zbyte <$> (byteAt n <$> seqZ 0 k)).
    rewrite !list_lookup_fmap, lookup_seqZ_lt by lia. cbn.
    rewrite highBit_byte, byteZ_Zbyte.
    rewrite Z.mod_small by apply byteAt_range.
    do 2 f_equal. lia. }
  rewrite Htop. unfold minimalEncoding. fold k.
  replace (0 <? k) with true by (symmetry; apply Z.ltb_lt; lia). cbn [andb].
  destruct (128 <=? byteAt n (k - 1)) eqn:Ehigh.
  - pose proof (highBit_fits n Hn ltac:(fold k; lia)
                  ltac:(fold k; apply Z.leb_le; exact Ehigh)) as H7.
    fold k in H7.
    rewrite take_S_insert.
    2:{ rewrite length_app, length_drop, length_replicate. lia. }
    rewrite take_app_length' by lia.
    rewrite map_app. cbn [map]. rewrite <- Hbytes, <- Hbs. reflexivity.
  - rewrite take_app_length' by lia.
    rewrite <- Hbytes, <- Hbs. reflexivity.
Qed.

Lemma leValue_minimalEncoding (n : Z) :
  0 <= n -> leValue (map Js.Zbyte (minimalEncoding n)) = n.
Proof.
  intros Hn.
  assert (Hval : leValue (map Js.Zbyte (map (byteAt n) (seqZ 0 (usedBytes n)))) = n).
  { destruct (Z.eq_dec n 0) as [->|Hne]; [reflexivity|].
    rewrite <- (loopBytes_byteAt (Htlc.encodeFuel n) n).
    - apply leValue_loopBytes. split; [lia | apply encodeFuel_enough; lia].
    - split; [lia | apply encodeFuel_enough; lia]. }
  unfold minimalEncoding.
  destruct ((0 <? usedBytes n) && (128 <=? byteAt n (usedBytes n - 1))).
  - rewrite map_app. cbn [map]. change (Js.Zbyte 0) with x00.
    rewrite leValue_app_zero. exact Hval.
  - exact Hval.
Qed.

Lemma decode_encode (n : Z) :
  0 <= n < 2 ^ 63 ->
  Htlc.decodeMinimalNumber (Htlc.encodeMinimalNumber n) = n.
Proof.
  intros Hn. rewrite encodeMinimalNumber_minimal by exact Hn.
  rewrite decodeMinimalNumber_toHex. apply leValue_minimalEncoding. lia.
Qed.

End MinimalNumber.

(** C6.  For every non-negative integer [n] whose minimal encoding fits the
    8-byte buffer of the encoder (that is, [n < 2^63]; the integers that a
    JavaScript number counts exactly, up to [2^53], are all in that range),
    [decodeMinimalNumber (encodeMinimalNumber n) = n]; the encoder returns
    the little-endian bytes of [n] with a zero byte appended exactly when the
    high bit of the most significant used byte is set; and 0, 1, 127 and 128
    encode to the empty string, "01", "7f" and "8000". *)
Theorem encodeMinimalNumber_roundtrip (n : Z) :
  0 <= n < 2 ^ 63 ->
  Htlc.decodeMinimalNumber (Htlc.encodeMinimalNumber n) = n
  /\ Htlc.encodeMinimalNumber n = Js.toHex (map Js.Zbyte (minimalEncoding n))
  /\ Htlc.encodeMinimalNumber 0 = ""
  /\ Htlc.encodeMinimalNumber 1 = "01"
  /\ Htlc.encodeMinimalNumber 127 = "7f"
  /\ Htlc.encodeMinimalNumber 128 = "8000".
Proof.
  intros Hn. split; [|split; [|repeat split; reflexivity]].
  - apply decode_encode. exact Hn.
  - apply encodeMinimalNumber_minimal. exact Hn.
Qed.

Lemma encodeMinimalNumber_roundtrip_witness :
  0 <= 1700000000 < 2 ^ 63
  /\ Htlc.decodeMinimalNumber (Htlc.encodeMinimalNumber 1700000000) = 1700000000.
Proof.
  split; [lia|].
  apply (encodeMinimalNumber_roundtrip 1700000000). lia.
Defined.

(** ** Strings *)

Section StringFacts.

Lemma substring_stake_sdrop (n m : nat) (s : string) :
  String.substring n m s = stake m (sdrop n s).
Proof.
  revert n m. induction s as [|c r IH]; intros n m.
  - destruct n, m; reflexivity.
  - destruct n as [|n].
    + cbn [sdrop]. revert c r IH. induction m as [|m IHm]; intros c r IH.
      * reflexivity.
      * cbn. f_equal. destruct r as [|c' r']; [destruct m; reflexivity|].
        specialize (IH 0%nat m). cbn [sdrop] in IH. exact IH.
    + cbn. apply IH.
Qed.

Lemma length_stake (n : nat) (s : string) :
  String.length (stake n s) = Nat.min n (String.length s).
Proof.
  revert s. induction n as [|n IH]; intros [|c r]; cbn; try reflexivity.
  rewrite IH. reflexivity.
Qed.

Lemma length_sdrop (n : nat) (s : string) :
  String.length (sdrop n s) = (String.length s - n)%nat.
Proof.
  revert s. induction n as [|n IH]; intros [|c r]; cbn; try reflexivity.
  apply IH.
Qed.

Lemma app_cons (c : ascii) (a b : string) :
  String c a +:+ b = String c (a +:+ b).
Proof. reflexivity. Qed.

Lemma app_nil (b : string) : EmptyString +:+ b = b.
Proof. reflexivity. Qed.

Lemma stake_sdrop (n : nat) (s : string) : stake n s +:+ sdrop n s = s.
Proof.
  revert s. induction n as [|n IH]; intros [|c r]; cbn; try reflexivity.
  rewrite app_cons. f_equal. apply IH.
Qed.

Lemma sdrop_sdrop (n m : nat) (s : string) :
  sdrop m (sdrop n s) = sdrop (n + m) s.
Proof.
  revert s. induction n as [|n IH]; intros s; [reflexivity|].
  destruct s as [|c r]; cbn; [destruct m; reflexivity | apply IH].
Qed.

Lemma sdrop_ge (n : nat) (s : string) :
  (String.length s <= n)%nat -> sdrop n s = EmptyString.
Proof.
  revert s. induction n as [|n IH]; intros [|c r] H; cbn in *;
    try reflexivity; try lia.
  apply IH. lia.
Qed.

Lemma stake_ge (n : nat) (s : string) :
  (String.length s <= n)%nat -> stake n s = s.
Proof.
  revert s. induction n as [|n IH]; intros [|c r] H; cbn in *;
    try reflexivity; try lia.
  rewrite IH by lia. reflexivity.
Qed.

Lemma stake_min (n : nat) (s : string) :
  stake n s = stake (Nat.min n (String.length s)) s.
Proof.
  revert s. induction n as [|n IH]; intros [|c r]; cbn; try reflexivity.
  rewrite <- IH. reflexivity.
Qed.

Lemma length_app (a b : string) :
  String.length (a +:+ b) = (String.length a + String.length b)%nat.
Proof.
  induction a as [|c r IH]; [reflexivity|].
  rewrite app_cons. cbn. f_equal. exact IH.
Qed.

Lemma app_assoc_s (a b c : string) : (a +:+ b) +:+ c = a +:+ (b +:+ c).
Proof.
  induction a as [|x r IH]; [reflexivity|].
  rewrite !app_cons. f_equal. exact IH.
Qed.

Lemma sdrop_app_len (a b : string) (n : nat) :
  String.length a = n -> sdrop n (a +:+ b) = b.
Proof.
  intros <-. induction a as [|c r IH]; [reflexivity|].
  rewrite app_cons. cbn. exact IH.
Qed.

Lemma stake_app_len (a b : string) (n : nat) :
  String.length a = n -> stake n (a +:+ b) = a.
Proof.
  intros <-. induction a as [|c r IH]; [reflexivity|].
  rewrite app_cons. cbn. f_equal. exact IH.
Qed.

Lemma app_inv_len (a b a' b' : string) :
  String.length a = String.length a' -> a +:+ b = a' +:+ b' -> a = a' /\ b = b'.
Proof.
  revert a'. induction a as [|c r IH]; intros [|c' r'] Hlen Heq; cbn in *;
    try discriminate.
  - split; [reflexivity | exact Heq].
  - rewrite !app_cons in Heq. injection Heq as -> Heq. destruct (IH r' ltac:(lia) Heq) as [-> ->].
    split; reflexivity.
Qed.

(** [substring] between two indices in order is "drop, then take". *)
Lemma substring_clamped (s : string) (I J : nat) :
  (I <= J)%nat ->
  let L := String.length s in
  let a := Nat.min I L in
  let b := Nat.min J L in
  String.substring (Nat.min a b) (Nat.max a b - Nat.min a b) s
  = stake (J - I) (sdrop I s).
Proof.
  intros HIJ L a b. rewrite substring_stake_sdrop.
  destruct (Nat.le_gt_cases I L) as [Hin|Hout].
  - replace (Nat.min a b) with I by (unfold a, b; lia).
    rewrite (stake_min (J - I)), length_sdrop. fold L.
    replace (Nat.min (J - I) (L - I)) with (Nat.max a b - I)%nat
      by (unfold a, b; lia).
    reflexivity.
  - rewrite (sdrop_ge I) by (fold L; lia).
    rewrite sdrop_ge by (fold L; unfold a, b; lia).
    destruct (J - I)%nat, (Nat.max a b - Nat.min a b)%nat; reflexivity.
Qed.

(** [substring] between two indices in order is "drop, then take". *)
Lemma substring_between (s : string) (i j : Z) :
  0 <= i <= j ->
  Js.substring s (Some i) (Some j)
  = stake (Z.to_nat (j - i)) (sdrop (Z.to_nat i) s).
Proof.
  intros Hij. unfold Js.substring, Js.clampIndex.
  replace (Z.to_nat (Z.min (Z.max i 0) (Z.of_nat (String.length s))))
    with (Nat.min (Z.to_nat i) (String.length s)) by lia.
  replace (Z.to_nat (Z.min (Z.max j 0) (Z.of_nat (String.length s))))
    with (Nat.min (Z.to_nat j) (String.length s)) by lia.
  rewrite (substring_clamped s (Z.to_nat i) (Z.to_nat j)) by lia.
  f_equal. lia.
Qed.

Lemma peek_at (s : string) (i n : Z) :
  0 <= i -> 0 <= n ->
  Htlc.peek s (Some i) n = stake (Z.to_nat n) (sdrop (Z.to_nat i) s).
Proof.
  intros Hi Hn. unfold Htlc.peek, Js.add, Js.num.
  rewrite substring_between by lia. do 2 f_equal. lia.
Qed.

(** With [NaN] for both indices the substring is empty. *)
Lemma peek_NaN (s : string) (n : Z) : Htlc.peek s None n = EmptyString.
Proof.
  unfold Htlc.peek, Js.add, Js.substring, Js.clampIndex. cbn.
  destruct s; reflexivity.
Qed.

End StringFacts.

(** ** The script parser *)

Section Parser.

Lemma bind_Ok {A B} (m : result A) (k : A -> result B) (b : B) :
  (x ← m; k x) = Ok b -> exists a, m = Ok a /\ k a = Ok b.
Proof. destruct m as [a|e]; cbn; [eauto | discriminate]. Qed.

(** A successful [expect] at index [i] splits the suffix there. *)
Lemma expect_inv (s : string) (i : Z) (n m : nat) (op msg : string) (u : unit) :
  i = Z.of_nat n -> m = (n + 2)%nat -> String.length op = 2%nat ->
  Htlc.expect s (Some i) op msg = Ok u ->
  sdrop n s = op +:+ sdrop m s.
Proof.
  intros -> -> Hop. unfold Htlc.expect.
  destruct (String.eqb_spec (Htlc.peek s (Some (Z.of_nat n)) 2) op) as [E|];
    [|discriminate].
  intros _. rewrite peek_at in E by lia.
  rewrite Nat2Z.id in E. change (Z.to_nat 2) with 2%nat in E.
  rewrite <- (stake_sdrop 2 (sdrop n s)) at 1.
  rewrite E, sdrop_sdrop. reflexivity.
Qed.

Lemma expect_intro (s : string) (i : Z) (n : nat) (op msg rest : string) :
  sdrop n s = op +:+ rest -> String.length op = 2%nat ->
  i = Z.of_nat n ->
  Htlc.expect s (Some i) op msg = Ok tt.
Proof.
  intros E Hop ->. unfold Htlc.expect. rewrite peek_at by lia.
  rewrite Nat2Z.id. change (Z.to_nat 2) with 2%nat.
  rewrite E, stake_app_len by exact Hop.
  rewrite String.eqb_refl. reflexivity.
Qed.

(** With [NaN] for cursor every [expect] throws. *)
Lemma expect_NaN (s op msg : string) :
  String.length op = 2%nat -> Htlc.expect s None op msg = Throw (Err msg).
Proof.
  intros Hop. unfold Htlc.expect. rewrite peek_NaN.
  destruct op; [discriminate Hop | reflexivity].
Qed.

Lemma advance (s : string) (k n : nat) (a R : string) :
  sdrop k s = a +:+ R -> String.length a = n -> sdrop (k + n) s = R.
Proof.
  intros E Hn. rewrite <- sdrop_sdrop, E. apply sdrop_app_len. exact Hn.
Qed.

(** The text between two positions, when the string reaches the second. *)
Lemma segment (s : string) (k n m : nat) :
  m = (k + n)%nat -> (m < String.length s)%nat ->
  sdrop k s = stake n (sdrop k s) +:+ sdrop m s
  /\ String.length (stake n (sdrop k s)) = n.
Proof.
  intros -> Hlen. split.
  - rewrite <- sdrop_sdrop. symmetry. apply stake_sdrop.
  - rewrite length_stake, length_sdrop. lia.
Qed.

Lemma nonempty_suffix (s : string) (k : nat) (op R : string) :
  sdrop k s = op +:+ R -> String.length op = 2%nat ->
  (k + 1 < String.length s)%nat.
Proof.
  intros E Hop. apply (f_equal String.length) in E.
  rewrite length_sdrop, length_app, Hop in E. lia.
Qed.

(** *** [parseInt] on hexadecimal digits *)

Lemma parseInt16_hexhead (c : ascii) (t : string) :
  Js.isHexDigit c = true ->
  Js.parseInt16 (String c t) = Js.hexDigits None (Js.stripHexPrefix (String c t)).
Proof.
  destruct c as [[] [] [] [] [] [] [] []]; intros H; try discriminate H;
    reflexivity.
Qed.

Lemma stripHexPrefix_hex (s : string) :
  Js.isHex s = true -> Js.stripHexPrefix s = s.
Proof.
  destruct s as [|c [|c2 r]]; intros H.
  - reflexivity.
  - destruct c as [[] [] [] [] [] [] [] []]; reflexivity.
  - cbn [Js.isHex] in H. apply andb_prop in H as [_ H].
    apply andb_prop in H as [H _].
    destruct c as [[] [] [] [] [] [] [] []]; try reflexivity.
    destruct c2 as [[] [] [] [] [] [] [] []]; try discriminate H; reflexivity.
Qed.

Lemma hexVal_range (c : ascii) (d : Z) : Js.hexVal c = Some d -> 0 <= d < 16.
Proof.
  destruct c as [[] [] [] [] [] [] [] []]; intros H; vm_compute in H;
    try discriminate H; injection H as <-; lia.
Qed.

Lemma hexDigits_nonneg (s : string) :
  forall acc v, (forall a, acc = Some a -> 0 <= a) ->
    Js.hexDigits acc s = Some v -> 0 <= v.
Proof.
  induction s as [|c r IH]; intros acc v Hacc H; cbn in H.
  - apply Hacc. exact H.
  - destruct (Js.hexVal c) as [d|] eqn:E; [|apply Hacc; exact H].
    apply hexVal_range in E. eapply IH; [|exact H].
    intros a [= <-]. destruct acc as [a0|]; [specialize (Hacc a0 eq_refl)|]; lia.
Qed.

(** On hexadecimal text [parseInt] never returns a negative number. *)
Lemma parseInt16_hex_nonneg (t : string) (v : Z) :
  Js.isHex t = true -> Js.parseInt16 t = Some v -> 0 <= v.
Proof.
  intros Hhex H. destruct t as [|c r]; [discriminate H|].
  pose proof Hhex as Hc. cbn [Js.isHex] in Hc. apply andb_prop in Hc as [Hc _].
  rewrite parseInt16_hexhead, stripHexPrefix_hex in H by assumption.
  eapply hexDigits_nonneg; [|exact H]. intros a [=].
Qed.

Lemma isHex_sdrop (n : nat) (s : string) :
  Js.isHex s = true -> Js.isHex (sdrop n s) = true.
Proof.
  revert s. induction n as [|n IH]; intros [|c r] H; cbn;
    try assumption; try reflexivity.
  apply IH. cbn in H. apply andb_prop in H as [_ H]. exact H.
Qed.

Lemma isHex_stake (n : nat) (s : string) :
  Js.isHex s = true -> Js.isHex (stake n s) = true.
Proof.
  revert s. induction n as [|n IH]; intros [|c r] H; cbn; try reflexivity.
  cbn in H. apply andb_prop in H as [Hc H]. rewrite Hc. cbn. apply IH. exact H.
Qed.

(** *** What the parser accepts *)

(** Every string of the accepted shape parses, whatever follows
    OP_ENDIF. *)
Lemma parse_accepts (s : string) (r : Htlc.ParsedHTLC) :
  Accepted s r -> Htlc.parseHTLCScript s = Ok r.
Proof.
  intros (pushLen & rest & len & Hs & Hsh & Hrh & Hfh & Hpl & Hint & Hth & Htime & Hdate & Hvalid).
  destruct r as [v sh rh fh t th]. cbn in *. subst v t.
  remember (String.length th) as n eqn:Hn.
  set (R4 := "8768" +:+ rest).
  set (R3 := th +:+ "b175a820" +:+ fh +:+ R4).
  set (R2 := rh +:+ "8767" +:+ pushLen +:+ R3).
  set (R1 := sh +:+ "88a820" +:+ R2).
  (* the suffix of [s] at every position the parser reads *)
  assert (S0 : sdrop 0 s = "63" +:+ "a8" +:+ "20" +:+ R1) by (rewrite Hs; reflexivity).
  assert (S2 : sdrop 2 s = "a8" +:+ "20" +:+ R1) by exact (advance _ _ 2 _ _ S0 eq_refl).
  assert (S4 : sdrop 4 s = "20" +:+ R1) by exact (advance _ _ 2 _ _ S2 eq_refl).
  assert (S6 : sdrop 6 s = sh +:+ "88a820" +:+ R2) by exact (advance _ _ 2 _ _ S4 eq_refl).
  assert (S70 : sdrop 70 s = "88" +:+ "a8" +:+ "20" +:+ R2) by exact (advance _ _ 64 _ _ S6 Hsh).
  assert (S72 : sdrop 72 s = "a8" +:+ "20" +:+ R2) by exact (advance _ _ 2 _ _ S70 eq_refl).
  assert (S74 : sdrop 74 s = "20" +:+ R2) by exact (advance _ _ 2 _ _ S72 eq_refl).
  assert (S76 : sdrop 76 s = rh +:+ "8767" +:+ pushLen +:+ R3) by exact (advance _ _ 2 _ _ S74 eq_refl).
  assert (S140 : sdrop 140 s = "87" +:+ "67" +:+ pushLen +:+ R3) by exact (advance _ _ 64 _ _ S76 Hrh).
  assert (S142 : sdrop 142 s = "67" +:+ pushLen +:+ R3) by exact (advance _ _ 2 _ _ S140 eq_refl).
  assert (S144 : sdrop 144 s = pushLen +:+ R3) by exact (advance _ _ 2 _ _ S142 eq_refl).
  assert (S146 : sdrop 146 s = th +:+ "b175a820" +:+ fh +:+ R4) by exact (advance _ _ 2 _ _ S144 Hpl).
  assert (T0 : sdrop (146 + n) s = "b1" +:+ "75" +:+ "a8" +:+ "20" +:+ fh +:+ R4)
    by exact (advance _ _ n _ _ S146 (eq_sym Hn)).
  assert (T2 : sdrop (146 + n + 2) s = "75" +:+ "a8" +:+ "20" +:+ fh +:+ R4)
    by exact (advance _ _ 2 _ _ T0 eq_refl).
  assert (T4 : sdrop (146 + n + 2 + 2) s = "a8" +:+ "20" +:+ fh +:+ R4)
    by exact (advance _ _ 2 _ _ T2 eq_refl).
  assert (T6 : sdrop (146 + n + 2 + 2 + 2) s = "20" +:+ fh +:+ R4)
    by exact (advance _ _ 2 _ _ T4 eq_refl).
  assert (T8 : sdrop (146 + n + 2 + 2 + 2 + 2) s = fh +:+ "87" +:+ "68" +:+ rest)
    by exact (advance _ _ 2 _ _ T6 eq_refl).
  assert (T72 : sdrop (146 + n + 2 + 2 + 2 + 2 + 64) s = "87" +:+ "68" +:+ rest)
    by exact (advance _ _ 64 _ _ T8 Hfh).
  assert (T74 : sdrop (146 + n + 2 + 2 + 2 + 2 + 64 + 2) s = "68" +:+ rest)
    by exact (advance _ _ 2 _ _ T72 eq_refl).
  (* the three hashes, the push length and the timeout field *)
  assert (Psh : Htlc.peek s (Some 6) 64 = sh).
  { rewrite peek_at by lia. change (Z.to_nat 6) with 6%nat. change (Z.to_nat 64) with 64%nat.
    rewrite S6. apply stake_app_len. exact Hsh. }
  assert (Prh : Htlc.peek s (Some 76) 64 = rh).
  { rewrite peek_at by lia. change (Z.to_nat 76) with 76%nat. change (Z.to_nat 64) with 64%nat.
    rewrite S76. apply stake_app_len. exact Hrh. }
  assert (Ppl : Htlc.peek s (Some 144) 2 = pushLen).
  { rewrite peek_at by lia. change (Z.to_nat 144) with 144%nat. change (Z.to_nat 2) with 2%nat.
    rewrite S144. apply stake_app_len. exact Hpl. }
  assert (Pth : Js.substring s (Some 146) (Some (146 + len * 2)) = th).
  { rewrite substring_between by lia. change (Z.to_nat 146) with 146%nat.
    rewrite S146. apply stake_app_len. lia. }
  assert (Pfh : Htlc.peek s (Some (146 + len * 2 + 2 + 2 + 2 + 2)) 64 = fh).
  { rewrite peek_at by lia. change (Z.to_nat 64) with 64%nat.
    replace (Z.to_nat (146 + len * 2 + 2 + 2 + 2 + 2)) with (146 + n + 2 + 2 + 2 + 2)%nat by lia.
    rewrite T8. apply stake_app_len. exact Hfh. }
  unfold Htlc.parseHTLCScript. cbv zeta. cbn [Js.add Js.num].
  change (0 + 2 + 2 + 2) with 6. change (6 + 64 + 2 + 2 + 2) with 76.
  change (76 + 64 + 2 + 2) with 144.
  rewrite Psh, Prh, Ppl, Hint. cbn [Js.mul Js.add Js.num]. change (144 + 2) with 146.
  rewrite Pth, Pfh.
  rewrite (expect_intro s 0 _ _ _ _ S0 eq_refl eq_refl). cbn [mbind result_bind].
  rewrite (expect_intro s (0 + 2) _ _ _ _ S2 eq_refl eq_refl). cbn [mbind result_bind].
  rewrite (expect_intro s (0 + 2 + 2) _ _ _ _ S4 eq_refl eq_refl). cbn [mbind result_bind].
  rewrite (expect_intro s (6 + 64) _ _ _ _ S70 eq_refl eq_refl). cbn [mbind result_bind].
  rewrite (expect_intro s (6 + 64 + 2) _ _ _ _ S72 eq_refl eq_refl). cbn [mbind result_bind].
  rewrite (expect_intro s (6 + 64 + 2 + 2) _ _ _ _ S74 eq_refl eq_refl). cbn [mbind result_bind].
  rewrite (expect_intro s (76 + 64) _ _ _ _ S140 eq_refl eq_refl). cbn [mbind result_bind].
  rewrite (expect_intro s (76 + 64 + 2) _ _ _ _ S142 eq_refl eq_refl). cbn [mbind result_bind].
  rewrite (expect_intro s (146 + len * 2) _ _ _ _ T0 eq_refl) by lia. cbn [mbind result_bind].
  rewrite (expect_intro s (146 + len * 2 + 2) _ _ _ _ T2 eq_refl) by lia. cbn [mbind result_bind].
  rewrite (expect_intro s (146 + len * 2 + 2 + 2) _ _ _ _ T4 eq_refl) by lia. cbn [mbind result_bind].
  rewrite (expect_intro s (146 + len * 2 + 2 + 2 + 2) _ _ _ _ T6 eq_refl) by lia. cbn [mbind result_bind].
  rewrite (expect_intro s (146 + len * 2 + 2 + 2 + 2 + 2 + 64) _ _ _ _ T72 eq_refl) by lia. cbn [mbind result_bind].
  rewrite (expect_intro s (146 + len * 2 + 2 + 2 + 2 + 2 + 64 + 2) _ _ _ _ T74 eq_refl) by lia. cbn [mbind result_bind].
  unfold Js.toISOString. rewrite Hdate. reflexivity.
Qed.

(** On hexadecimal text nothing else parses. *)
Lemma parse_sound (s : string) (r : Htlc.ParsedHTLC) :
  Js.isHex s = true -> Htlc.parseHTLCScript s = Ok r -> Accepted s r.
Proof.
  intros Hhex H. unfold Htlc.parseHTLCScript in H.
  cbv zeta in H. cbn [Js.add Js.num] in H.
  change (0 + 2 + 2 + 2) with 6 in H. change (6 + 64 + 2 + 2 + 2) with 76 in H.
  change (76 + 64 + 2 + 2) with 144 in H.
  apply bind_Ok in H as (? & E0 & H).
  apply bind_Ok in H as (? & E2 & H).
  apply bind_Ok in H as (? & E4 & H).
  apply bind_Ok in H as (? & E70 & H).
  apply bind_Ok in H as (? & E72 & H).
  apply bind_Ok in H as (? & E74 & H).
  apply bind_Ok in H as (? & E140 & H).
  apply bind_Ok in H as (? & E142 & H).
  apply (expect_inv s _ 0 2) in E0; [|reflexivity..].
  apply (expect_inv s _ 2 4) in E2; [|reflexivity..].
  apply (expect_inv s _ 4 6) in E4; [|reflexivity..].
  apply (expect_inv s _ 70 72) in E70; [|reflexivity..].
  apply (expect_inv s _ 72 74) in E72; [|reflexivity..].
  apply (expect_inv s _ 74 76) in E74; [|reflexivity..].
  apply (expect_inv s _ 140 142) in E140; [|reflexivity..].
  apply (expect_inv s _ 142 144) in E142; [|reflexivity..].
  destruct (Js.parseInt16 (Htlc.peek s (Some 144) 2)) as [len|] eqn:Hint.
  2:{ cbn [Js.mul Js.add] in H. apply bind_Ok in H as (? & T0 & _).
      rewrite expect_NaN in T0 by reflexivity. discriminate T0. }
  assert (Hlen : 0 <= len).
  { eapply parseInt16_hex_nonneg; [|exact Hint].
    rewrite peek_at by lia. apply isHex_stake, isHex_sdrop, Hhex. }
  cbn [Js.mul Js.add Js.num] in H. change (144 + 2) with 146 in H.
  apply bind_Ok in H as (? & T0 & H).
  apply bind_Ok in H as (? & T2 & H).
  apply bind_Ok in H as (? & T4 & H).
  apply bind_Ok in H as (? & T6 & H).
  apply bind_Ok in H as (? & T72 & H).
  apply bind_Ok in H as (? & T74 & H).
  apply bind_Ok in H as (? & Hdate & H).
  injection H as <-.
  remember (Z.to_nat (len * 2)) as n eqn:Hn.
  remember (146 + n)%nat as p eqn:Hp.
  apply (expect_inv s _ p (p + 2)) in T0; [|lia|reflexivity..].
  apply (expect_inv s _ (p + 2) (p + 4)) in T2; [|lia|lia|reflexivity].
  apply (expect_inv s _ (p + 4) (p + 6)) in T4; [|lia|lia|reflexivity].
  apply (expect_inv s _ (p + 6) (p + 8)) in T6; [|lia|lia|reflexivity].
  apply (expect_inv s _ (p + 72) (p + 74)) in T72; [|lia|lia|reflexivity].
  apply (expect_inv s _ (p + 74) (p + 76)) in T74; [|lia|lia|reflexivity].
  (* the string reaches the end of the template *)
  pose proof (nonempty_suffix _ _ _ _ T74 eq_refl) as Hlong.
  (* the free segments *)
  destruct (segment s 6 64 70 eq_refl ltac:(lia)) as [S6 Lsh].
  destruct (segment s 76 64 140 eq_refl ltac:(lia)) as [S76 Lrh].
  destruct (segment s 144 2 146 eq_refl ltac:(lia)) as [S144 Lpl].
  destruct (segment s 146 n p Hp ltac:(lia)) as [S146 Lth].
  destruct (segment s (p + 8) 64 (p + 72) ltac:(lia) ltac:(lia)) as [S8 Lfh].
  rewrite peek_at in Hint by lia.
  unfold Js.toISOString in Hdate.
  destruct (Js.validTimeValue _) eqn:Hvalid in Hdate; [|discriminate Hdate].
  rewrite !peek_at in * by lia.
  rewrite substring_between in * by lia.
  replace (Z.to_nat (146 + len * 2 - 146)) with n in * by lia.
  replace (Z.to_nat (146 + len * 2 + 2 + 2 + 2 + 2)) with (p + 8)%nat in * by lia.
  change (Z.to_nat 6) with 6%nat in *. change (Z.to_nat 76) with 76%nat in *.
  change (Z.to_nat 144) with 144%nat in *. change (Z.to_nat 146) with 146%nat in *.
  change (Z.to_nat 64) with 64%nat in *. change (Z.to_nat 2) with 2%nat in *.
  remember (stake 64 (sdrop 6 s)) as sh eqn:Xsh.
  remember (stake 64 (sdrop 76 s)) as rh eqn:Xrh.
  remember (stake 2 (sdrop 144 s)) as pl eqn:Xpl.
  remember (stake n (sdrop 146 s)) as th eqn:Xth.
  remember (stake 64 (sdrop (p + 8) s)) as fh eqn:Xfh.
  clear Xsh Xrh Xpl Xth Xfh.
  exists pl, (sdrop (p + 76) s), len.
  cbn [Htlc.valid Htlc.parsed_swapHash Htlc.parsed_recipientHash Htlc.parsed_refundHash
       Htlc.parsed_timeout Htlc.parsed_timeoutHex].
  repeat split; try assumption; try lia.
  unfold layout.
  change s with (sdrop 0 s) at 1.
  rewrite E0, E2, E4, S6, E70, E72, E74, S76, E140, E142, S144, S146, T0, T2, T4, T6, S8, T72, T74.
  reflexivity.
Qed.

End Parser.

(** C5, as the code has it.  On hexadecimal text [parseHTLCScript] returns
    a result exactly for the strings that carry the two-branch layout from
    their first character to OP_ENDIF: a wrong opcode at any of the fixed
    positions, a push length other than 20 in front of one of the three
    hashes, or a string that ends before OP_ENDIF makes it throw.  It reads
    the push length of the timeout without constraining it, and it never
    looks at what follows OP_ENDIF. *)
Theorem parseHTLCScript_accepts_iff (s : string) (r : Htlc.ParsedHTLC) :
  Js.isHex s = true ->
  (Htlc.parseHTLCScript s = Ok r <-> Accepted s r).
Proof.
  intros Hhex. split; [apply parse_sound; exact Hhex | apply parse_accepts].
Qed.

Lemma parseHTLCScript_accepts_iff_witness :
  Js.isHex (exampleScript +:+ "00") = true
  /\ (Htlc.parseHTLCScript (exampleScript +:+ "00")
      = Ok (exampleParsed 1700000000 "00f15365")
      <-> Accepted (exampleScript +:+ "00") (exampleParsed 1700000000 "00f15365")).
Proof.
  split; [reflexivity|].
  apply (parseHTLCScript_accepts_iff (exampleScript +:+ "00")
           (exampleParsed 1700000000 "00f15365")).
  reflexivity.
Defined.

(** C5, as stated, fails: the script of the example with one more byte
    after OP_ENDIF is not the script that the builder makes, and the parser
    returns for it what it returns for the script itself. *)
Lemma parseHTLCScript_trailing_bytes :
  (exists c, Htlc.createHTLCScript exampleParams = Ok c
             /\ Htlc.redeemScript c = exampleScript)
  /\ exampleScript +:+ "00" <> exampleScript
  /\ Htlc.parseHTLCScript (exampleScript +:+ "00")
     = Ok (exampleParsed 1700000000 "00f15365")
  /\ Htlc.parseHTLCScript exampleScript
     = Ok (exampleParsed 1700000000 "00f15365").
Proof.
  split; [|split; [|split]].
  - eexists. split; vm_compute; reflexivity.
  - intros H. apply (f_equal String.length) in H. vm_compute in H. discriminate H.
  - vm_compute. reflexivity.
  - vm_compute. reflexivity.
Qed.

(** The push length of the timeout is not checked either: a zero-length
    push, which the builder never emits, parses to timeout 0. *)
Example parseHTLCScript_empty_timeout :
  Htlc.parseHTLCScript
    (layout (Htlc.p_swapHash exampleParams) (Htlc.p_recipientHash exampleParams)
       "00" "" (Htlc.p_refundHash exampleParams) "")
  = Ok (exampleParsed 0 "").
Proof. vm_compute. reflexivity. Qed.

(** A script cut short is rejected. *)
Example parseHTLCScript_missing_bytes :
  Htlc.parseHTLCScript (stake 228 exampleScript) = Throw (Err "Expected OP_ENDIF").
Proof. vm_compute. reflexivity. Qed.

(** ** Builder and parser together *)

Section RoundTrip.

Lemma pushData_hash (h : string) :
  String.length h = 64%nat -> Crypto.pushData h = Ok ("20" +:+ h).
Proof. intros H. unfold Crypto.pushData. rewrite H. reflexivity. Qed.

(** The push of one to eight bytes is the byte count on two digits, which
    [parseInt] reads back. *)
Lemma pushData_short (th : string) (k : nat) :
  String.length th = (2 * k)%nat -> (1 <= k <= 8)%nat ->
  exists pl, Crypto.pushData th = Ok (pl +:+ th)
             /\ String.length pl = 2%nat
             /\ Js.parseInt16 pl = Some (Z.of_nat k).
Proof.
  intros H Hk. unfold Crypto.pushData. rewrite H.
  assert (Hcases : (k = 1 \/ k = 2 \/ k = 3 \/ k = 4 \/ k = 5 \/ k = 6
                    \/ k = 7 \/ k = 8)%nat) by lia.
  repeat (destruct Hcases as [-> | Hcases];
          [eexists; split; [reflexivity | split; reflexivity]|]).
  subst k. eexists; split; [reflexivity | split; reflexivity].
Qed.

Lemma usedBytes_pos (n : Z) : 0 < n -> 1 <= usedBytes n.
Proof.
  intros Hn. rewrite usedBytes_step by exact Hn.
  pose proof (usedBytes_nonneg (n / 256)). lia.
Qed.

(** The timeout field of a script is one to eight bytes long. *)
Lemma length_encodeMinimalNumber (n : Z) :
  0 < n < 2 ^ 63 ->
  exists k, String.length (Htlc.encodeMinimalNumber n) = (2 * k)%nat
            /\ (1 <= k <= 8)%nat.
Proof.
  intros Hn. rewrite encodeMinimalNumber_minimal by lia.
  exists (length (minimalEncoding n)). split.
  - rewrite length_toHex, length_map. reflexivity.
  - pose proof (usedBytes_pos n ltac:(lia)) as Hpos.
    pose proof (usedBytes_le_8 n ltac:(change (2 ^ 64) with (2 * 2 ^ 63); lia)) as H8.
    unfold minimalEncoding.
    destruct ((0 <? usedBytes n) && (128 <=? byteAt n (usedBytes n - 1))) eqn:E.
    + apply andb_prop in E as [_ E]. apply Z.leb_le in E.
      pose proof (highBit_fits n ltac:(lia) ltac:(lia) E).
      rewrite List.length_app, length_map, length_seqZ. cbn [length]. lia.
    + rewrite length_map, length_seqZ. lia.
Qed.

Lemma createHTLCScript_layout (params : Htlc.HTLCParams) :
  String.length (Htlc.p_swapHash params) = 64%nat ->
  String.length (Htlc.p_recipientHash params) = 64%nat ->
  String.length (Htlc.p_refundHash params) = 64%nat ->
  0 < Htlc.p_timeout params < 2 ^ 63 ->
  exists c pl,
    Htlc.createHTLCScript params = Ok c
    /\ Htlc.redeemScript c
       = layout (Htlc.p_swapHash params) (Htlc.p_recipientHash params) pl
           (Htlc.encodeMinimalNumber (Htlc.p_timeout params))
           (Htlc.p_refundHash params) ""
    /\ String.length pl = 2%nat
    /\ Js.parseInt16 pl
       = Some (Z.of_nat (String.length (Htlc.encodeMinimalNumber (Htlc.p_timeout params))) / 2)
    /\ Htlc.swapHash c = Htlc.p_swapHash params
    /\ Htlc.recipientHash c = Htlc.p_recipientHash params
    /\ Htlc.refundHash c = Htlc.p_refundHash params
    /\ Htlc.timeout c = Htlc.p_timeout params.
Proof.
  intros Hsh Hrh Hfh Ht.
  destruct (length_encodeMinimalNumber _ Ht) as (k & Hk & Hk8).
  destruct (pushData_short _ k Hk Hk8) as (pl & Hpush & Hpl & Hint).
  unfold Htlc.createHTLCScript.
  rewrite Hsh, Hrh, Hfh. cbn [Nat.eqb negb].
  replace ((Htlc.p_timeout params =? 0) || (Htlc.p_timeout params <? 1)) with false
    by (symmetry; apply orb_false_iff; split; [apply Z.eqb_neq | apply Z.ltb_ge]; lia).
  repeat (first [rewrite pushData_hash by assumption | rewrite Hpush];
          cbn [mbind result_bind]).
  eexists. exists pl. split; [reflexivity|].
  cbn [Htlc.redeemScript Htlc.swapHash Htlc.recipientHash Htlc.refundHash Htlc.timeout].
  split; [|split; [exact Hpl | split; [|repeat split]]].
  - unfold layout, Htlc.OP_IF, Htlc.OP_SHA256, Htlc.OP_EQUALVERIFY, Htlc.OP_EQUAL,
      Htlc.OP_ELSE, Htlc.OP_CHECKLOCKTIMEVERIFY, Htlc.OP_DROP, Htlc.OP_ENDIF.
    rewrite !app_assoc_s. reflexivity.
  - rewrite Hint, Hk. do 2 f_equal.
    rewrite Nat2Z.inj_mul. change (Z.of_nat 2) with 2.
    rewrite Z.mul_comm, Z.div_mul by lia. reflexivity.
Qed.

End RoundTrip.

(** C4, as the code has it.  For three hashes of 64 characters and a
    timeout from 1 to 8 640 000 000 000 seconds (the last instant that is a
    date in JavaScript), the builder returns a script, and the parser
    returns for that script exactly the four values given to the builder. *)
Theorem parse_create_roundtrip (params : Htlc.HTLCParams) :
  String.length (Htlc.p_swapHash params) = 64%nat ->
  String.length (Htlc.p_recipientHash params) = 64%nat ->
  String.length (Htlc.p_refundHash params) = 64%nat ->
  1 <= Htlc.p_timeout params <= 8640000000000 ->
  exists c,
    Htlc.createHTLCScript params = Ok c
    /\ Htlc.parseHTLCScript (Htlc.redeemScript c) = Ok (parsedOf params).
Proof.
  intros Hsh Hrh Hfh Ht.
  assert (Ht63 : 0 < Htlc.p_timeout params < 2 ^ 63)
    by (change (2 ^ 63) with 9223372036854775808; lia).
  destruct (createHTLCScript_layout params Hsh Hrh Hfh Ht63)
    as (c & pl & Hc & Hscript & Hpl & Hint & _).
  exists c. split; [exact Hc|].
  apply parse_accepts.
  destruct (length_encodeMinimalNumber _ Ht63) as (k & Hk & Hk8).
  exists pl, "", (Z.of_nat k).
  unfold parsedOf.
  cbn [Htlc.valid Htlc.parsed_swapHash Htlc.parsed_recipientHash
       Htlc.parsed_refundHash Htlc.parsed_timeout Htlc.parsed_timeoutHex].
  assert (Hdec : Htlc.decodeMinimalNumber (Htlc.encodeMinimalNumber (Htlc.p_timeout params))
                 = Htlc.p_timeout params)
    by (apply decode_encode; lia).
  repeat split; try assumption.
  - rewrite Hint, Hk. do 2 f_equal.
    rewrite Nat2Z.inj_mul. change (Z.of_nat 2) with 2.
    rewrite Z.mul_comm, Z.div_mul by lia. reflexivity.
  - rewrite Hk. lia.
  - symmetry. exact Hdec.
  - unfold Js.validTimeValue. apply andb_true_intro.
    split; [apply Z.leb_le | apply Z.leb_le]; lia.
Qed.

Lemma parse_create_roundtrip_witness :
  exists c,
    Htlc.createHTLCScript exampleParams = Ok c
    /\ Htlc.parseHTLCScript (Htlc.redeemScript c) = Ok (parsedOf exampleParams).
Proof.
  apply (parse_create_roundtrip exampleParams);
    [reflexivity | reflexivity | reflexivity | cbn; lia].
Defined.

(** C4, as stated, fails: 8 640 000 000 001 is a positive timeout, the
    builder accepts it, and the parser throws on the script, because the
    date it formats for [timeoutDate] does not exist. *)
Lemma parse_create_far_future :
  exists c,
    Htlc.createHTLCScript farFutureParams = Ok c
    /\ Htlc.parseHTLCScript (Htlc.redeemScript c)
       = Throw (RangeError "Invalid time value").
Proof.
  eexists. split; [vm_compute; reflexivity|].
  vm_compute. reflexivity.
Qed.

(** ** Winternitz signatures *)

Section Winternitz.

Lemma bufferEquals_refl (a : Buffer) : Crypto.bufferEquals a a = true.
Proof.
  induction a as [|x r IH]; [reflexivity|].
  cbn. rewrite (Byte.byte_dec_lb (x:=x) (y:=x) eq_refl), IH. reflexivity.
Qed.

(** Walking [a] steps and then [b] more is walking [a + b] steps. *)
Lemma iteratedHash256_add (data : Buffer) (a b : Z) :
  0 <= a -> 0 <= b ->
  Crypto.iteratedHash256 (Crypto.iteratedHash256 data a) b
  = Crypto.iteratedHash256 data (a + b).
Proof.
  intros Ha Hb. unfold Crypto.iteratedHash256.
  rewrite Z2Nat.inj_add by lia.
  rewrite (Nat.add_comm (Z.to_nat a)), Nat.iter_add. reflexivity.
Qed.

Variable message : Buffer.
Variable privateKey : Crypto.PrivateKey.
Variable publicKey : Crypto.PublicKey.

Local Abbreviation privateScalars := (Crypto.scalars privateKey).
Local Abbreviation chunkAt := (signedChunk message privateScalars).

Lemma signLoop_chunks (indices : list nat) :
  Forall (fun i => (i < length privateScalars)%nat) indices ->
  Crypto.signLoop message privateKey indices = Ok (map chunkAt indices).
Proof.
  induction 1 as [|i r Hi _ IH]; [reflexivity|].
  cbn [Crypto.signLoop]. rewrite IH. unfold Crypto.signChunk.
  destruct (privateScalars !! i) as [scalar|] eqn:E.
  2:{ apply lookup_ge_None in E. lia. }
  cbn [mbind result_bind map]. unfold signedChunk at 2.
  rewrite (nth_lookup_Some _ _ [] _ E). reflexivity.
Qed.

Lemma lookup_map_seq {A} (f : nat -> A) (n i : nat) :
  (i < n)%nat -> map f (seq 0 n) !! i = Some (f i).
Proof.
  intros Hi. change (map f (seq 0 n)) with (f <$> seq 0 n).
  rewrite list_lookup_fmap, lookup_seq_lt by exact Hi. reflexivity.
Qed.

Hypothesis scalars_32 : length privateScalars = Crypto.WOTS_CHUNKS.
Hypothesis commitments_of_scalars :
  Crypto.commitments publicKey
  = map (fun scalar => Crypto.iteratedHash256 scalar Crypto.WOTS_ITERATIONS)
      privateScalars.

Lemma verifyLoop_signed (sig : Crypto.Signature) (indices : list nat) :
  Crypto.chunks sig = map chunkAt (seq 0 Crypto.WOTS_CHUNKS) ->
  Forall (fun i => (i < Crypto.WOTS_CHUNKS)%nat) indices ->
  Crypto.verifyLoop message sig publicKey indices = Ok true.
Proof.
  intros Hchunks. induction 1 as [|i r Hi _ IH]; [reflexivity|].
  cbn [Crypto.verifyLoop]. rewrite IH.
  rewrite Hchunks, lookup_map_seq by exact Hi.
  cbn [Crypto.offset Crypto.revealed signedChunk].
  rewrite Z.eqb_refl. cbn [negb].
  destruct (privateScalars !! i) as [scalar|] eqn:E.
  2:{ apply lookup_ge_None in E. lia. }
  rewrite commitments_of_scalars.
  change (map (fun scalar0 => Crypto.iteratedHash256 scalar0 Crypto.WOTS_ITERATIONS)
            privateScalars)
    with ((fun scalar0 => Crypto.iteratedHash256 scalar0 Crypto.WOTS_ITERATIONS)
            <$> privateScalars).
  rewrite list_lookup_fmap, E. cbn [fmap option_fmap option_map].
  rewrite (nth_lookup_Some _ _ [] _ E).
  pose proof (byteZ_range (nth i message x00)) as Hb.
  rewrite iteratedHash256_add by (unfold Crypto.WOTS_ITERATIONS; lia).
  replace (Crypto.WOTS_ITERATIONS - Js.byteZ (nth i message x00)
           + Js.byteZ (nth i message x00)) with Crypto.WOTS_ITERATIONS by lia.
  rewrite bufferEquals_refl. reflexivity.
Qed.

End Winternitz.

(** The digests of the empty input: SHA-256 and the chain hash. *)
Example chainHash_samples :
  Js.toHex (Sha256.sha256 [])
  = "e3b0c44298fc1c149afbf4c8996fb92427ae41e4649b934ca495991b7852b855"
  /\ Js.toHex (chainHash [])
     = "5df6e0e2761359d30a8275058e299fcc0381534545f55cf43e41983f5d4c9456"
  /\ Crypto.sha256Hex (Crypto.ofHex "deadbeef") = Htlc.p_swapHash exampleParams.
Proof. repeat split; vm_compute; reflexivity. Qed.

(** [iteratedHash256] walks the chain of the design. *)
Lemma chainValue_next (n : nat) (x : Buffer) :
  chainValue (S n) x = chainHash (chainValue n x).
Proof.
  revert x. induction n as [|n IH]; intros x; [reflexivity|].
  change (chainValue (S (S n)) x) with (chainValue (S n) (chainHash x)).
  rewrite IH. reflexivity.
Qed.

Lemma iteratedHash256_chain (data : Buffer) (n : Z) :
  Crypto.iteratedHash256 data n = chainValue (Z.to_nat n) data.
Proof.
  unfold Crypto.iteratedHash256. induction (Z.to_nat n) as [|k IH]; [reflexivity|].
  rewrite chainValue_next, <- IH. reflexivity.
Qed.

Lemma bufferEquals_eq (a b : Buffer) : Crypto.bufferEquals a b = true -> a = b.
Proof.
  revert b. induction a as [|x r IH]; intros [|y t] Heq; cbn in Heq;
    try discriminate Heq; [reflexivity|].
  apply andb_prop in Heq as [Hx Hr].
  apply Byte.byte_dec_bl in Hx. rewrite Hx, (IH t Hr). reflexivity.
Qed.

(** What the verifier has checked when it returns true: at every chain
    position the chunk carries the byte of the message, and the chain
    walked on from the revealed value by that many steps ends at the
    commitment of the public key. *)
Lemma verifyLoop_sound (message : Buffer) (sig : Crypto.Signature)
  (publicKey : Crypto.PublicKey) (indices : list nat) :
  Crypto.verifyLoop message sig publicKey indices = Ok true ->
  forall i, In i indices ->
    exists chunk commitment,
      Crypto.chunks sig !! i = Some chunk
      /\ Crypto.commitments publicKey !! i = Some commitment
      /\ Crypto.offset chunk = Js.byteZ (nth i message x00)
      /\ chainValue (Z.to_nat (Crypto.offset chunk)) (Crypto.revealed chunk) = commitment.
Proof.
  induction indices as [|j r IH]; intros Hrun i Hi; [destruct Hi|].
  cbn [Crypto.verifyLoop] in Hrun.
  destruct (Crypto.chunks sig !! j) as [chunk|] eqn:Hchunk; [|discriminate Hrun].
  destruct (Crypto.offset chunk =? Js.byteZ (nth j message x00)) eqn:Hoffset;
    [|discriminate Hrun].
  cbn [negb] in Hrun.
  destruct (Crypto.commitments publicKey !! j) as [commitment|] eqn:Hcommitment;
    [|discriminate Hrun].
  destruct (Crypto.bufferEquals _ commitment) eqn:Hequal; [|discriminate Hrun].
  cbn [negb] in Hrun.
  destruct Hi as [<-|Hi]; [|apply IH; assumption].
  exists chunk, commitment. split; [exact Hchunk|]. split; [exact Hcommitment|].
  split; [apply Z.eqb_eq; exact Hoffset|].
  rewrite <- iteratedHash256_chain. apply bufferEquals_eq. exact Hequal.
Qed.

Lemma commitments_chain (privateScalars : list Buffer) (hex : list string) (i : nat) :
  (i < length privateScalars)%nat ->
  Crypto.commitments (Crypto.publicKey (Crypto.keypairOf privateScalars hex)) !! i
  = Some (chainValue 256 (nth i privateScalars [])).
Proof.
  intros Hi. cbn [Crypto.keypairOf Crypto.publicKey Crypto.commitments].
  change (map (fun scalar => Crypto.iteratedHash256 scalar Crypto.WOTS_ITERATIONS)
            privateScalars)
    with ((fun scalar => Crypto.iteratedHash256 scalar Crypto.WOTS_ITERATIONS)
            <$> privateScalars).
  rewrite list_lookup_fmap.
  destruct (privateScalars !! i) as [scalar|] eqn:E.
  - cbn [fmap option_fmap option_map]. rewrite (nth_lookup_Some _ _ [] _ E).
    rewrite iteratedHash256_chain. reflexivity.
  - apply lookup_ge_None in E. lia.
Qed.

(** C7.  For the keypair of any 32 private scalars and any message:
    [signWinternitz] throws unless the message is 32 bytes long; on a 32-byte
    message it returns, for each chain position [i], the value that the
    chain hash, SHA-256 applied twice, gives when it is applied
    [256 - m[i]] times to the scalar [i], paired with the offset [m[i]];
    and [verifyWinternitz] on the message, that signature and the public
    key of the keypair returns true.  The public key commits to the end of
    each chain, the chain hash applied 256 times, and the verifier returns
    true for no signature but one whose chunks carry the bytes of the
    message and reveal values from which the rest of each chain, [m[i]]
    steps, ends at the commitment. *)
Theorem winternitz_sign_verify
  (privateScalars : list Buffer) (hex : list string) (m : Crypto.Data) :
  length privateScalars = Crypto.WOTS_CHUNKS ->
  let k := Crypto.keypairOf privateScalars hex in
  let message := Crypto.toBuffer m in
  (length message <> 32%nat ->
   Crypto.signWinternitz m (Crypto.privateKey k) = Throw (ErrMessageSize (length message)))
  /\ (length message = 32%nat ->
      exists sig,
        Crypto.signWinternitz m (Crypto.privateKey k) = Ok sig
        /\ (forall i, (i < Crypto.WOTS_CHUNKS)%nat ->
              exists chunk,
                Crypto.chunks sig !! i = Some chunk
                /\ Crypto.revealed chunk
                   = chainValue (Z.to_nat (256 - Js.byteZ (nth i message x00)))
                       (nth i privateScalars [])
                /\ Crypto.offset chunk = Js.byteZ (nth i message x00))
        /\ Crypto.verifyWinternitz m sig (Crypto.publicKey k) = Ok true)
  /\ (forall i, (i < Crypto.WOTS_CHUNKS)%nat ->
        Crypto.commitments (Crypto.publicKey k) !! i
        = Some (chainValue 256 (nth i privateScalars [])))
  /\ (forall sig,
        Crypto.verifyWinternitz m sig (Crypto.publicKey k) = Ok true ->
        length message = 32%nat
        /\ forall i, (i < Crypto.WOTS_CHUNKS)%nat ->
             exists chunk,
               Crypto.chunks sig !! i = Some chunk
               /\ Crypto.offset chunk = Js.byteZ (nth i message x00)
               /\ chainValue (Z.to_nat (Crypto.offset chunk)) (Crypto.revealed chunk)
                  = chainValue 256 (nth i privateScalars [])).
Proof.
  intros H32 k message. split; [|split; [|split]].
  - intros Hlen. unfold Crypto.signWinternitz. fold message.
    destruct (Nat.eqb_spec (length message) 32); [contradiction|]. reflexivity.
  - intros Hlen. unfold Crypto.signWinternitz, Crypto.verifyWinternitz. fold message.
    rewrite Hlen. cbn [Nat.eqb negb].
    rewrite signLoop_chunks.
    2:{ apply Forall_forall. intros i Hi. apply elem_of_seq in Hi. unfold Crypto.WOTS_CHUNKS in *.
        unfold k. cbn [Crypto.privateKey Crypto.keypairOf Crypto.scalars]. lia. }
    cbn [mbind result_bind]. eexists. split; [reflexivity|].
    cbn [Crypto.chunks]. split.
    + intros i Hi. exists (signedChunk message privateScalars i).
      split; [apply lookup_map_seq; exact Hi|]. split; [|reflexivity].
      cbn [signedChunk Crypto.revealed]. apply iteratedHash256_chain.
    + apply (verifyLoop_signed message (Crypto.privateKey k));
        [exact H32 | reflexivity | reflexivity |].
      apply Forall_forall. intros i Hi. apply elem_of_seq in Hi. unfold Crypto.WOTS_CHUNKS in *. lia.
  - intros i Hi. apply commitments_chain. rewrite H32. exact Hi.
  - intros sig Hverify. unfold Crypto.verifyWinternitz in Hverify. fold message in Hverify.
    destruct (Nat.eqb_spec (length message) 32) as [Hlen|Hlen];
      [|discriminate Hverify].
    cbn [negb] in Hverify. split; [exact Hlen|].
    intros i Hi.
    destruct (verifyLoop_sound _ _ _ _ Hverify i) as (chunk & commitment & Hc & Hp & Ho & Hend).
    { apply list_elem_of_In, elem_of_seq. lia. }
    exists chunk. split; [exact Hc|]. split; [exact Ho|].
    rewrite Hend. unfold k in Hp.
    rewrite commitments_chain in Hp by (rewrite H32; exact Hi).
    symmetry. apply (inj Some). exact Hp.
Qed.

Lemma winternitz_sign_verify_witness :
  exists sig chunk,
    Crypto.signWinternitz (Crypto.ofBuffer (repeat xff 32))
      (Crypto.privateKey (Crypto.keypairOf exampleScalars (map Js.toHex exampleScalars)))
    = Ok sig
    /\ Crypto.verifyWinternitz (Crypto.ofBuffer (repeat xff 32)) sig
         (Crypto.publicKey (Crypto.keypairOf exampleScalars (map Js.toHex exampleScalars)))
       = Ok true
    /\ Crypto.chunks sig !! 0%nat = Some chunk
    /\ Crypto.offset chunk = 255
    /\ Js.toHex (Crypto.revealed chunk)
       = "2b32db6c2c0a6235fb1397e8225ea85e0f0e6e8c7b126d0016ccbde0e667151e".
Proof.
  destruct (winternitz_sign_verify exampleScalars (map Js.toHex exampleScalars)
              (Crypto.ofBuffer (repeat xff 32)) eq_refl) as [_ [H _]].
  destruct (H eq_refl) as (sig & Hsig & Hchunks & Hverify).
  destruct (Hchunks 0%nat ltac:(unfold Crypto.WOTS_CHUNKS; lia))
    as (chunk & Hchunk & Hrevealed & Hoffset).
  exists sig, chunk. split; [exact Hsig|]. split; [exact Hverify|].
  split; [exact Hchunk|]. split; [exact Hoffset|].
  rewrite Hrevealed. vm_compute. reflexivity.
Defined.

(** ** Preimages *)

Section Preimage.

Lemma lowerChar_hexChar (d : Z) :
Js.lowerChar (Js.hexChar d) = Js.hexChar d
/\ Js.lowerChar (Js.upperChar (Js.hexChar d)) = Js.hexChar d.
Proof.
unfold Js.hexChar. generalize (Z.to_nat d). intros n.
do 16 (destruct n as [|n]; [split; reflexivity|]).
split; reflexivity.
Qed.

(** A hexadecimal dump is in lower case, and lowering its upper-case form
  gives it back. *)
Lemma toLowerCase_toHex (b : Buffer) :
Js.toLowerCase (Js.toHex b) = Js.toHex b
/\ Js.toLowerCase (Js.toUpperCase (Js.toHex b)) = Js.toHex b.
Proof.
induction b as [|x r [IH1 IH2]]; [split; reflexivity|].
cbn [Js.toHex Js.toLowerCase Js.toUpperCase].
destruct (lowerChar_hexChar (Js.byteZ x / 16)) as [A1 A2].
destruct (lowerChar_hexChar (Js.byteZ x mod 16)) as [B1 B2].
rewrite A1, A2, B1, B2, IH1, IH2. split; reflexivity.
Qed.

End Preimage.

(** C10.  [verifyPreimage secret expectedHash] is true exactly when the
    lower-cased hexadecimal SHA-256 of [secret] is the lower-cased
    [expectedHash]; so the digest of a secret validates it both as
    [sha256Hex] prints it and in upper case. *)
Theorem verifyPreimage_case_insensitive (secret expectedHash : string) :
  (Crypto.verifyPreimage secret expectedHash = true
   <-> Js.toLowerCase (Crypto.sha256Hex (Crypto.ofHex secret))
       = Js.toLowerCase expectedHash)
  /\ Crypto.verifyPreimage secret (Crypto.sha256Hex (Crypto.ofHex secret)) = true
  /\ Crypto.verifyPreimage secret
       (Js.toUpperCase (Crypto.sha256Hex (Crypto.ofHex secret))) = true.
Proof.
  unfold Crypto.verifyPreimage. split; [apply String.eqb_eq|].
  unfold Crypto.sha256Hex.
  destruct (toLowerCase_toHex (Crypto.sha256 (Crypto.ofHex secret))) as [H1 H2].
  rewrite H1, H2. split; apply String.eqb_refl.
Qed.

(** ** The coordinator *)

Lemma fundedWorld_swap : swaps fundedWorld !! exampleSwapId = Some fundedSwap.
Proof. vm_compute. reflexivity. Qed.

(** Symbolic execution of a coordinator function: unfold the binds and the
    primitive steps, and split on whatever a branch looks at. *)
Ltac has_match t :=
  match t with
  | context [match _ with _ => _ end] => idtac
  end.

Ltac split_scrutinee :=
  match goal with
  | |- context [match ?x with _ => _ end] =>
      tryif has_match x then fail else destruct x eqn:?
  end.

Ltac run_coord :=
  repeat first
    [ progress (unfold mbind, mret, coord_bind, coord_ret, lift, throw, await,
                assign, getSwap; cbv beta iota)
    | split_scrutinee ].

Ltac close_run :=
  intros Hrun; inversion Hrun; subst; clear Hrun;
  cbn [swaps ledgerCalls]; try reflexivity; try discriminate.

Section Coordinator.

Context `{Env}.

Lemma bind_run {A B} (m : Coord A) (k : A -> Coord B) (w : World) :
  (a ← m; k a) w
  = match m w with
    | (w', Ok a) => k a w'
    | (w', Throw e) => (w', Throw e)
    end.
Proof. reflexivity. Qed.

Lemma getSwap_found (w : World) (id : string) (swap : Swap) :
  swaps w !! id = Some swap -> getSwap id w = (w, Ok swap).
Proof. intros E. unfold getSwap. rewrite E. reflexivity. Qed.

Lemma refund_too_early_initiator (params : RefundRequest) (w : World) (swap : Swap) :
  swaps w !! rq_swapId params = Some swap ->
  nowSeconds < e_timeout (initiatorHTLC swap) ->
  initiatorRefund params w
  = (w, Throw (ErrTimeoutNotReached (e_timeout (initiatorHTLC swap) - nowSeconds))).
Proof.
  intros E Hlt. unfold initiatorRefund.
  rewrite bind_run, (getSwap_found _ _ _ E).
  apply Z.ltb_lt in Hlt. rewrite Hlt. reflexivity.
Qed.

Lemma refund_too_early_responder (params : RefundRequest) (w : World) (swap : Swap) :
  swaps w !! rq_swapId params = Some swap ->
  nowSeconds < e_timeout (responderHTLC swap) ->
  responderRefund params w
  = (w, Throw (ErrTimeoutNotReached (e_timeout (responderHTLC swap) - nowSeconds))).
Proof.
  intros E Hlt. unfold responderRefund.
  rewrite bind_run, (getSwap_found _ _ _ E).
  apply Z.ltb_lt in Hlt. rewrite Hlt. reflexivity.
Qed.

Lemma responderClaim_keeps (params : ClaimRequest) (w w' : World) (e : Error) :
  responderClaim params w = (w', Throw e) -> swaps w' = swaps w.
Proof.
  unfold responderClaim, fetchUtxos, broadcastTransaction.
  run_coord; close_run.
Qed.

Lemma initiatorRefund_keeps (params : RefundRequest) (w w' : World) (e : Error) :
  initiatorRefund params w = (w', Throw e) -> swaps w' = swaps w.
Proof.
  unfold initiatorRefund, fetchUtxos, broadcastTransaction.
  run_coord; close_run.
Qed.

Lemma responderRefund_keeps (params : RefundRequest) (w w' : World) (e : Error) :
  responderRefund params w = (w', Throw e) -> swaps w' = swaps w.
Proof.
  unfold responderRefund, fetchUtxos, broadcastTransaction.
  run_coord; close_run.
Qed.


Lemma lookup_assigned (f : Swap -> Swap) (id : string) (m : gmap string Swap)
  (swap : Swap) :
  m !! id = Some swap -> alter f id m !! id = Some (f swap).
Proof. intros E. rewrite lookup_alter_eq, E. reflexivity. Qed.

Lemma recordInitiatorFunding_keeps (params : FundingParams) (w w' : World) (e : Error) :
  recordInitiatorFunding params w = (w', Throw e) -> swaps w' = swaps w.
Proof.
  unfold recordInitiatorFunding, fetchBalance.
  run_coord; close_run.
  all: cbn [swaps] in *; rewrite !lookup_alter_eq in *;
    match goal with
    | Hs : _ !! _ = Some _, Hn : _ = None |- _ => rewrite Hs in Hn; discriminate Hn
    end.
Qed.

Lemma recordResponderFunding_keeps (params : FundingParams) (w w' : World) (e : Error) :
  recordResponderFunding params w = (w', Throw e) -> swaps w' = swaps w.
Proof.
  unfold recordResponderFunding, fetchBalance.
  run_coord; close_run.
  all: cbn [swaps] in *; rewrite !lookup_alter_eq in *;
    match goal with
    | Hs : _ !! _ = Some _, Hn : _ = None |- _ => rewrite Hs in Hn; discriminate Hn
    end.
Qed.

(** [initiatorClaim] marks the swap before it asks the ledger, and no
    failure afterwards takes the mark back. *)
Lemma initiatorClaim_marks (params : ClaimRequest) (w w' : World) (swap : Swap)
  (e : Error) :
  swaps w !! cq_swapId params = Some swap ->
  status swap = FULLY_FUNDED ->
  initiatorClaim params w = (w', Throw e) ->
  swaps w' = alter (set_status CLAIMING) (cq_swapId params) (swaps w).
Proof.
  intros E Hstatus. unfold initiatorClaim.
  rewrite bind_run, (getSwap_found _ _ _ E).
  rewrite (bool_decide_eq_true_2 _ Hstatus). cbn [negb].
  unfold fetchUtxos, broadcastTransaction.
  run_coord; close_run.
Qed.

Lemma initiatorClaim_refuses (params : ClaimRequest) (w : World) (swap : Swap) :
  swaps w !! cq_swapId params = Some swap ->
  status swap <> FULLY_FUNDED ->
  initiatorClaim params w = (w, Throw (ErrCannotClaim (status swap))).
Proof.
  intros E Hstatus. unfold initiatorClaim.
  rewrite bind_run, (getSwap_found _ _ _ E).
  rewrite (bool_decide_eq_false_2 _ Hstatus). reflexivity.
Qed.

End Coordinator.

(** C9.  A refund of either side asked for while the clock is before the
    timeout of that side's escrow throws the timeout error with
    [timeout - now] seconds remaining, and leaves the swaps and the list of
    ledger calls as they were. *)
Theorem refund_before_timeout `{Env} (params : RefundRequest) (w : World) (swap : Swap) :
  swaps w !! rq_swapId params = Some swap ->
  (nowSeconds < e_timeout (initiatorHTLC swap) ->
   initiatorRefund params w
   = (w, Throw (ErrTimeoutNotReached (e_timeout (initiatorHTLC swap) - nowSeconds))))
  /\ (nowSeconds < e_timeout (responderHTLC swap) ->
      responderRefund params w
      = (w, Throw (ErrTimeoutNotReached (e_timeout (responderHTLC swap) - nowSeconds)))).
Proof.
  intros E. split; intros Hlt.
  - apply refund_too_early_initiator; assumption.
  - apply refund_too_early_responder; assumption.
Qed.

Lemma refund_before_timeout_witness :
  let request := {| rq_swapId := exampleSwapId; rq_toAddress := None |} in
  @initiatorRefund (ledgersUp (exampleStart + 60000)) request fundedWorld
  = (fundedWorld, Throw (ErrTimeoutNotReached 86340))
  /\ @responderRefund (ledgersUp (exampleStart + 60000)) request fundedWorld
     = (fundedWorld, Throw (ErrTimeoutNotReached 43140)).
Proof.
  intros request.
  destruct (@refund_before_timeout (ledgersUp (exampleStart + 60000)) request
              fundedWorld fundedSwap fundedWorld_swap) as [Hi Hr].
  split; [apply Hi | apply Hr]; vm_compute; reflexivity.
Defined.

(** C1, at the initiator's claim.  When [initiatorClaim] fails on a fully
    funded swap, whatever the failure (the UTXO query, an empty escrow, the
    construction of the spend, the broadcast), the record is left in status
    [CLAIMING]; and a second attempt, whatever the ledgers answer then, is
    refused for that status. *)
Theorem initiatorClaim_failure_leaves_claiming (first second : Env)
  (params : ClaimRequest) (w w' : World) (swap : Swap) (e : Error) :
  swaps w !! cq_swapId params = Some swap ->
  status swap = FULLY_FUNDED ->
  @initiatorClaim first params w = (w', Throw e) ->
  swaps w' !! cq_swapId params = Some (set_status CLAIMING swap)
  /\ @initiatorClaim second params w' = (w', Throw (ErrCannotClaim CLAIMING)).
Proof.
  intros E Hstatus Hrun.
  apply (initiatorClaim_marks (H := first) _ _ _ _ _ E Hstatus) in Hrun.
  assert (E' : swaps w' !! cq_swapId params = Some (set_status CLAIMING swap)).
  { rewrite Hrun. apply lookup_assigned. exact E. }
  split; [exact E'|].
  apply (initiatorClaim_refuses (H := second) _ _ _ E'). discriminate.
Qed.

Lemma initiatorClaim_failure_leaves_claiming_witness :
  let request := {| cq_swapId := exampleSwapId; cq_swapSecret := EmptyString;
                    cq_toAddress := None |} in
  let outage := ledgersDown (exampleStart + 60000) in
  let later := ledgersUp (exampleStart + 120000) in
  exists w',
    @initiatorClaim outage request fundedWorld
    = (w', Throw (LedgerError "Failed to fetch HTLC balance"))
    /\ swaps w' !! exampleSwapId = Some (set_status CLAIMING fundedSwap)
    /\ @initiatorClaim later request w' = (w', Throw (ErrCannotClaim CLAIMING)).
Proof.
  intros request outage later.
  exists (fst (@initiatorClaim outage request fundedWorld)).
  assert (Hrun : @initiatorClaim outage request fundedWorld
                 = (fst (@initiatorClaim outage request fundedWorld),
                    Throw (LedgerError "Failed to fetch HTLC balance")))
    by (vm_compute; reflexivity).
  split; [exact Hrun|].
  apply (initiatorClaim_failure_leaves_claiming outage later request fundedWorld _
           fundedSwap _ fundedWorld_swap eq_refl Hrun).
Defined.

(** The other claim, the refunds and the funding records change the swaps
    only once everything that can fail is behind them. *)
Lemma sibling_failures_keep_record `{Env} (w w' : World) (e : Error) :
  (forall params, responderClaim params w = (w', Throw e) -> swaps w' = swaps w)
  /\ (forall params, initiatorRefund params w = (w', Throw e) -> swaps w' = swaps w)
  /\ (forall params, responderRefund params w = (w', Throw e) -> swaps w' = swaps w)
  /\ (forall params, recordInitiatorFunding params w = (w', Throw e) -> swaps w' = swaps w)
  /\ (forall params, recordResponderFunding params w = (w', Throw e) -> swaps w' = swaps w).
Proof.
  repeat split; intros params.
  - apply responderClaim_keeps.
  - apply initiatorRefund_keeps.
  - apply responderRefund_keeps.
  - apply recordInitiatorFunding_keeps.
  - apply recordResponderFunding_keeps.
Qed.

(** ** Opening a swap *)

Section Initiate.

Context `{Env}.

Lemma getChainModule_supported (chain : string) :
  includes SupportedChains (Js.toUpperCase chain) = true
  <-> exists m, getChainModule chain = Ok m.
Proof.
  unfold getChainModule, includes, SupportedChains. cbn [existsb].
  destruct (String.eqb (Js.toUpperCase chain) "BSV");
    [split; eauto|].
  destruct (String.eqb (Js.toUpperCase chain) "BTC");
    [split; eauto|].
  destruct (String.eqb (Js.toUpperCase chain) "SOL");
    [split; eauto|].
  split; [discriminate | intros [m Hm]; discriminate Hm].
Qed.

Variable uuid : string.
Variable initiatorSecrets : InitiatorSecrets.
Variable params : InitiateParams.
Variable w : World.

Local Abbreviation refused := (rejected uuid initiatorSecrets params w).

Lemma rejects_equal_chains :
  Js.toUpperCase (ip_fromChain params) = Js.toUpperCase (ip_toChain params) ->
  refused.
Proof.
  intros Heq. unfold rejected, initiateSwap.
  destruct (negb (includes SupportedChains (Js.toUpperCase (ip_fromChain params))));
    [eexists; split; reflexivity|].
  destruct (negb (includes SupportedChains (Js.toUpperCase (ip_toChain params))));
    [eexists; split; reflexivity|].
  rewrite Heq, String.eqb_refl. eexists; split; reflexivity.
Qed.

Lemma rejects_refund_address (fromModule : ChainModule) :
  getChainModule (ip_fromChain params) = Ok fromModule ->
  v_valid (validateAddress fromModule (ip_refundAddress params)) = false ->
  refused.
Proof.
  intros Hfrom Hinvalid. unfold rejected, initiateSwap.
  destruct (negb (includes SupportedChains (Js.toUpperCase (ip_fromChain params))));
    [eexists; split; reflexivity|].
  destruct (includes SupportedChains (Js.toUpperCase (ip_toChain params))) eqn:Hto;
    [|eexists; split; reflexivity].
  cbn [negb].
  destruct (String.eqb _ _); [eexists; split; reflexivity|].
  apply getChainModule_supported in Hto as [toModule Hto].
  rewrite !bind_run. unfold lift. rewrite Hfrom, Hto, Hinvalid.
  eexists; split; reflexivity.
Qed.

Lemma rejects_destination_address (toModule : ChainModule) :
  getChainModule (ip_toChain params) = Ok toModule ->
  v_valid (validateAddress toModule (ip_toAddress params)) = false ->
  refused.
Proof.
  intros Hto Hinvalid. unfold rejected, initiateSwap.
  destruct (includes SupportedChains (Js.toUpperCase (ip_fromChain params))) eqn:Hfrom;
    [|eexists; split; reflexivity].
  destruct (negb (includes SupportedChains (Js.toUpperCase (ip_toChain params))));
    [eexists; split; reflexivity|].
  cbn [negb].
  destruct (String.eqb _ _); [eexists; split; reflexivity|].
  apply getChainModule_supported in Hfrom as [fromModule Hfrom].
  rewrite !bind_run. unfold lift. rewrite Hfrom, Hto. cbv zeta.
  destruct (v_valid (validateAddress fromModule (ip_refundAddress params)));
    [|eexists; split; reflexivity].
  cbn [negb]. rewrite bind_run. cbv beta iota. rewrite Hinvalid.
  eexists; split; reflexivity.
Qed.

(** A call that returns has stored the swap with the two amounts that
    [parseInt] reads from the texts of its arguments. *)
Lemma initiateSwap_stores (w' : World) (r : InitiateResult) :
  initiateSwap uuid initiatorSecrets params w = (w', Ok r) ->
  exists swap,
    swaps w' !! ir_swapId r = Some swap
    /\ status swap = INITIATED
    /\ fromAmount swap = Js.parseInt (ip_fromAmount params)
    /\ toAmount swap = Js.parseInt (ip_toAmount params)
    /\ ir_fromAmount r = fromAmount swap
    /\ ir_toAmount r = toAmount swap.
Proof.
  unfold initiateSwap, setSwap.
  run_coord; intros Hrun; inversion Hrun; subst; clear Hrun.
  all: eexists; split; [cbn [swaps ir_swapId]; apply lookup_insert_eq|];
    repeat split.
Qed.

End Initiate.

(** What [parseInt] makes of the text of an amount: the integer the text
    begins with, hexadecimal behind [0x]; 1e21, whose text is 1e+21, is
    read as 1; a text that begins with no digit is [NaN]; an integer too
    long for a double is rounded, and becomes an infinity when it has more
    than 309 digits. *)
Example parseInt_samples :
  Js.parseInt "100000" = Finite 100000
  /\ Js.parseInt "-100000" = Finite (-100000)
  /\ Js.parseInt "1e+21" = Finite 1
  /\ Js.parseInt "12.9" = Finite 12
  /\ Js.parseInt "  42 sats" = Finite 42
  /\ Js.parseInt "0x1f" = Finite 31
  /\ Js.parseInt "abc" = NaN
  /\ Js.parseInt "undefined" = NaN
  /\ Js.parseInt "" = NaN
  /\ Js.parseInt "9007199254740993" = Finite 9007199254740992
  /\ Js.parseInt (repeatString 310 "9") = Infinite false.
Proof. repeat split; vm_compute; reflexivity. Qed.

(** ** The amount of a call that passes a number *)

Section AmountText.

Lemma decVal_digit (d : Z) : 0 <= d < 10 -> Js.decVal (Js.hexChar d) = Some d.
Proof.
  intros Hd.
  assert (Hcases : d = 0 \/ d = 1 \/ d = 2 \/ d = 3 \/ d = 4 \/ d = 5 \/ d = 6 \/ d = 7
                   \/ d = 8 \/ d = 9) by lia.
  repeat (destruct Hcases as [-> | Hcases]; [reflexivity|]).
  subst d. reflexivity.
Qed.

Lemma decOfPos_digits (fuel : nat) (n : Z) (acc : string) :
  0 <= n -> allDigits acc = true -> allDigits (decOfPos fuel n acc) = true.
Proof.
  revert n acc. induction fuel as [|f IH]; intros n acc Hn Hacc; [exact Hacc|].
  cbn [decOfPos].
  assert (Hstep : allDigits (String (Js.hexChar (n mod 10)) acc) = true).
  { cbn [allDigits]. rewrite decVal_digit by (apply Z.mod_pos_bound; lia). exact Hacc. }
  destruct (n / 10 =? 0); [exact Hstep|].
  apply IH; [apply Z.div_pos; lia | exact Hstep].
Qed.

Lemma decOfPos_nonempty (fuel : nat) (n : Z) (acc : string) :
  decOfPos (S fuel) n acc <> EmptyString.
Proof.
  revert n acc. induction fuel as [|f IH]; intros n acc.
  - cbn [decOfPos]. destruct (n / 10 =? 0); discriminate.
  - change (decOfPos (S (S f)) n acc)
      with (let acc' := String (Js.hexChar (n mod 10)) acc in
            if n / 10 =? 0 then acc' else decOfPos (S f) (n / 10) acc').
    cbv zeta. destruct (n / 10 =? 0); [discriminate | apply IH].
Qed.

(** Reading the digits back gives the number they were written for. *)
Lemma decDigits_decOfPos (fuel : nat) (n : Z) (acc : string) (read : option Z) :
  0 <= n < 10 ^ Z.of_nat (S fuel) ->
  exists k, 0 <= k
    /\ Js.decDigits read (decOfPos (S fuel) n acc)
       = Js.decDigits (Some (10 ^ k * default 0 read + n)) acc.
Proof.
  revert n acc read. induction fuel as [|f IH]; intros n acc read Hn.
  all: change (decOfPos (S ?g) n acc)
         with (let acc' := String (Js.hexChar (n mod 10)) acc in
               if n / 10 =? 0 then acc' else decOfPos g (n / 10) acc');
    cbv zeta.
  all: assert (Hdigit : Js.decVal (Js.hexChar (n mod 10)) = Some (n mod 10))
      by (apply decVal_digit, Z.mod_pos_bound; lia).
  all: pose proof (Z.div_mod n 10 ltac:(lia)) as Hsplit.
  all: assert (Hone : exists k, 0 <= k
         /\ Js.decDigits read (String (Js.hexChar (n mod 10)) acc)
            = Js.decDigits (Some (10 ^ k * default 0 read + (n mod 10))) acc).
  1,3: (exists 1; split; [lia|]; cbn [Js.decDigits]; rewrite Hdigit; do 2 f_equal;
        destruct read; cbn [default from_option]; unfold id; lia).
  - change (10 ^ Z.of_nat 1) with 10 in Hn.
    replace (n / 10) with 0 by (symmetry; apply Z.div_small; lia).
    change (0 =? 0) with true. cbv iota.
    destruct Hone as (k & Hk & Hread). exists k. split; [exact Hk|].
    rewrite Hread, Z.mod_small by lia. reflexivity.
  - destruct (n / 10 =? 0) eqn:Hlast.
    + apply Z.eqb_eq in Hlast.
      destruct Hone as (k & Hk & Hread). exists k. split; [exact Hk|].
      rewrite Hread. do 3 f_equal. lia.
    + destruct (IH (n / 10) (String (Js.hexChar (n mod 10)) acc) read) as (k & Hk & Hread).
      { split; [apply Z.div_pos; lia|].
        apply Z.div_lt_upper_bound; [lia|].
        rewrite (Nat2Z.inj_succ (S f)), Z.pow_succ_r in Hn by lia. lia. }
      exists (k + 1). split; [lia|].
      rewrite Hread. cbn [Js.decDigits]. rewrite Hdigit. do 2 f_equal.
      rewrite Z.pow_add_r by lia. change (10 ^ 1) with 10.
      cbn [default from_option]. unfold id. lia.
Qed.

Lemma fuel_enough (n : Z) : 0 <= n -> n < 10 ^ Z.of_nat (S (Z.to_nat (Z.log2 n))).
Proof.
  intros Hn. destruct (Z.eq_dec n 0) as [->|Hpos]; [reflexivity|].
  pose proof (Z.log2_spec n ltac:(lia)) as [_ Hlog].
  pose proof (Z.log2_nonneg n) as Hnonneg.
  rewrite Nat2Z.inj_succ, Z2Nat.id by lia.
  assert (Hpow : 2 ^ Z.succ (Z.log2 n) <= 10 ^ Z.succ (Z.log2 n))
    by (apply Z.pow_le_mono_l; lia).
  lia.
Qed.

(** A text of digits is read as it stands: nothing is skipped, and it has
    neither a sign nor the prefix of a hexadecimal number. *)
Lemma parseInt_digits (t : string) :
  allDigits t = true -> t <> EmptyString ->
  Js.parseInt t
  = match Js.decDigits None t with
    | Some v => Js.ofInteger false v
    | None => NaN
    end.
Proof.
  intros Hall Hne. destruct t as [|c r]; [contradiction|].
  cbn [allDigits] in Hall.
  destruct (Js.decVal c) as [d|] eqn:Hc; [|discriminate Hall].
  assert (Hsecond : forall x r', r = String x r' -> Js.decVal x <> None).
  { intros x r' ->. cbn [allDigits] in Hall. destruct (Js.decVal x); [discriminate|discriminate Hall]. }
  destruct c as [[] [] [] [] [] [] [] []]; try discriminate Hc;
    try reflexivity.
  destruct r as [|x r']; [reflexivity|].
  specialize (Hsecond x r' eq_refl).
  destruct x as [[] [] [] [] [] [] [] []]; try reflexivity;
    exfalso; apply Hsecond; reflexivity.
Qed.

Lemma parseInt_decimal (n : Z) :
  0 <= n < 2 ^ 53 ->
  Js.parseInt (toString10 n) = Finite n
  /\ Js.parseInt (toString10 (- n)) = Finite (- n).
Proof.
  intros Hn.
  assert (Hread : forall v, 0 <= v < 2 ^ 53 ->
            Js.decDigits None (decOfPos (S (Z.to_nat (Z.log2 v))) v EmptyString) = Some v
            /\ Js.ofInteger false v = Finite v /\ Js.ofInteger true v = Finite (- v)).
  { intros v Hv.
    destruct (decDigits_decOfPos (Z.to_nat (Z.log2 v)) v EmptyString None)
      as (k & _ & Hk); [split; [lia | apply fuel_enough; lia]|].
    split.
    - rewrite Hk. cbn [default from_option Js.decDigits]. f_equal. lia.
    - unfold Js.ofInteger, Js.nearestDouble.
      destruct (v <? 2 ^ 53) eqn:Hsafe; [|lia].
      assert (Hbig : (2 ^ 1024 <=? v) = false).
      { apply Z.leb_gt. assert (2 ^ 53 < 2 ^ 1024) by (apply Z.pow_lt_mono_r; lia). lia. }
      rewrite Hbig. split; reflexivity. }
  assert (Hplain : forall v, 0 <= v < 2 ^ 53 ->
            Js.parseInt (decOfPos (S (Z.to_nat (Z.log2 v))) v EmptyString) = Finite v).
  { intros v Hv. rewrite parseInt_digits.
    - destruct (Hread v Hv) as (-> & -> & _). reflexivity.
    - apply decOfPos_digits; [lia | reflexivity].
    - apply decOfPos_nonempty. }
  assert (Hpositive : Js.parseInt (toString10 n) = Finite n).
  { unfold toString10. destruct (n <? 0) eqn:Hsign; [lia|]. apply Hplain. exact Hn. }
  split; [exact Hpositive|].
  destruct (Z.eq_dec n 0) as [->|Hnonzero]; [exact Hpositive|].
  unfold toString10. destruct (- n <? 0) eqn:Hsign; [|lia].
  rewrite Z.opp_involutive.
  change ("-" +:+ decOfPos (S (Z.to_nat (Z.log2 n))) n EmptyString)
    with (String "-" (decOfPos (S (Z.to_nat (Z.log2 n))) n EmptyString)).
  change (Js.parseInt (String "-" ?r))
    with (match Js.unsignedDigits r with
          | Some v => Js.ofInteger true v
          | None => NaN
          end).
  pose proof (Hplain n Hn) as Hsame.
  rewrite parseInt_digits in Hsame
    by (first [apply decOfPos_digits; [lia | reflexivity] | apply decOfPos_nonempty]).
  destruct (Hread n Hn) as (Hdigits & _ & Hneg).
  assert (Hunsigned :
    Js.unsignedDigits (decOfPos (S (Z.to_nat (Z.log2 n))) n EmptyString) = Some n).
  { pose proof (decOfPos_digits (S (Z.to_nat (Z.log2 n))) n EmptyString ltac:(lia) eq_refl)
      as Hall.
    destruct (decOfPos (S (Z.to_nat (Z.log2 n))) n EmptyString) as [|c r] eqn:Htext;
      [discriminate Hdigits|].
    cbn [allDigits] in Hall.
    destruct (Js.decVal c) eqn:Hc; [|discriminate Hall].
    destruct r as [|x r']; [destruct c as [[] [] [] [] [] [] [] []]; exact Hdigits|].
    cbn [allDigits] in Hall.
    destruct (Js.decVal x) eqn:Hx; [|discriminate Hall].
    destruct c as [[] [] [] [] [] [] [] []]; try exact Hdigits;
      destruct x as [[] [] [] [] [] [] [] []]; try exact Hdigits; discriminate Hx. }
  rewrite Hunsigned. exact Hneg.
Qed.

(** A number below 2^53 in size is stored as it is: [parseInt] reads it
    back from its decimal text. *)
Lemma parseInt_integer (n : Z) :
  - 2 ^ 53 < n < 2 ^ 53 -> Js.parseInt (toString10 n) = Finite n.
Proof.
  intros Hn. destruct (Z.le_gt_cases 0 n) as [Hpos|Hneg].
  - apply (parseInt_decimal n). lia.
  - rewrite <- (Z.opp_involutive n). apply (parseInt_decimal (- n)). lia.
Qed.

End AmountText.




(** ** Claims and preimages *)

Ltac no_broadcast :=
  first [ exists []; split; [symmetry; apply app_nil_r | reflexivity]
        | eexists [_]; split; reflexivity ].

Section Claims.

Context `{Env}.

(** A spend is built only from secrets that hash to the commitments of the
    script. *)
Lemma buildClaimTransaction_checks (m : ChainModule) (build : ClaimParams)
  (script : Htlc.ParsedHTLC) (tx : string) :
  cp_redeemScript build = cp_lockingScript build ->
  parseScript (cp_lockingScript build) = Ok script ->
  buildClaimTransaction m build = Ok tx ->
  secretsMatch script (cp_swapSecret build) (cp_recipientSecret build).
Proof.
  intros Hsame Hparse. unfold secretsMatch.
  destruct m; cbn [buildClaimTransaction];
    [unfold Bsv.buildClaimTransaction | unfold Btc.buildClaimTransaction | discriminate].
  all: rewrite ?Hsame, Hparse; cbn [mbind result_bind].
  all: destruct (String.eqb (Crypto.sha256Hex (Crypto.ofHex (cp_swapSecret build)))
                   (Htlc.parsed_swapHash script)) eqn:Hswap; [|discriminate].
  all: cbn [negb].
  all: destruct (sha256HexOf (cp_recipientSecret build)) as [digest|] eqn:Hdigest;
    [|discriminate].
  all: cbn [mbind result_bind].
  all: destruct (String.eqb digest (Htlc.parsed_recipientHash script)) eqn:Hrecipient;
    [|discriminate].
  all: intros _; apply String.eqb_eq in Hswap, Hrecipient; subst digest; split;
    [exact Hswap | reflexivity].
Qed.

(** The errors of the two script adapters on secrets that do not match. *)
Lemma buildClaimTransaction_errors (m : ChainModule) (build : ClaimParams)
  (script : Htlc.ParsedHTLC) :
  m <> sol ->
  cp_redeemScript build = cp_lockingScript build ->
  parseScript (cp_lockingScript build) = Ok script ->
  (Crypto.sha256Hex (Crypto.ofHex (cp_swapSecret build)) <> Htlc.parsed_swapHash script ->
   buildClaimTransaction m build = Throw swapSecretError)
  /\ (forall recipientSecret,
        Crypto.sha256Hex (Crypto.ofHex (cp_swapSecret build)) = Htlc.parsed_swapHash script ->
        cp_recipientSecret build = Some recipientSecret ->
        Crypto.sha256Hex (Crypto.ofHex recipientSecret) <> Htlc.parsed_recipientHash script ->
        buildClaimTransaction m build = Throw recipientSecretError).
Proof.
  intros Hm Hsame Hparse.
  destruct m; [| |contradiction];
    cbn [buildClaimTransaction];
    [unfold Bsv.buildClaimTransaction | unfold Btc.buildClaimTransaction].
  all: rewrite ?Hsame, Hparse; cbn [mbind result_bind].
  all: split.
  all: try (intros Hswap; apply String.eqb_neq in Hswap; rewrite Hswap; reflexivity).
  all: intros recipientSecret Hswap Hsecret Hrecipient.
  all: apply String.eqb_eq in Hswap; rewrite Hswap, Hsecret; cbn [negb sha256HexOf mbind result_bind].
  all: apply String.eqb_neq in Hrecipient; rewrite Hrecipient; reflexivity.
Qed.

Variable params : ClaimRequest.
Variable w : World.
Variable swap : Swap.
Hypothesis found : swaps w !! cq_swapId params = Some swap.

Lemma responderClaim_invalid_secret :
  Crypto.sha256Hex (Crypto.ofHex (cq_swapSecret params)) <> swap_hash (initiator swap) ->
  responderClaim params w = (w, Throw (Err "Invalid swap secret")).
Proof.
  intros Hsecret. unfold responderClaim.
  rewrite bind_run, (getSwap_found _ _ _ found).
  apply String.eqb_neq in Hsecret. rewrite Hsecret. reflexivity.
Qed.

Lemma responderClaim_mismatch (script : Htlc.ParsedHTLC) (w' : World)
  (r : result SpendResult) :
  parseScript (e_lockingScript (initiatorHTLC swap)) = Ok script ->
  ~ secretsMatch script (cq_swapSecret params) (recipient_secret (responder swap)) ->
  responderClaim params w = (w', r) ->
  swaps w' = swaps w /\ isOk r = false /\ nothingBroadcast w w'.
Proof.
  intros Hparse Hmismatch. unfold responderClaim.
  rewrite bind_run, (getSwap_found _ _ _ found).
  unfold fetchUtxos, broadcastTransaction, nothingBroadcast.
  run_coord.
  all: try match goal with
           | Hbuild : buildClaimTransaction _ _ = Ok _ |- _ =>
               exfalso; apply Hmismatch;
               apply (fun same parsed =>
                        buildClaimTransaction_checks _ _ _ _ same parsed Hbuild);
               [reflexivity | exact Hparse]
           end.
  all: intros Hrun; inversion Hrun; subst; clear Hrun; cbn [swaps ledgerCalls isOk].
  all: split; [reflexivity | split; [reflexivity | no_broadcast]].
Qed.

Lemma initiatorClaim_mismatch (script : Htlc.ParsedHTLC) (w' : World)
  (r : result SpendResult) :
  parseScript (e_lockingScript (responderHTLC swap)) = Ok script ->
  ~ secretsMatch script (swap_secret (initiator swap))
      (Some (claim_secret (initiator swap))) ->
  initiatorClaim params w = (w', r) ->
  isOk r = false /\ nothingBroadcast w w'.
Proof.
  intros Hparse Hmismatch. unfold initiatorClaim.
  rewrite bind_run, (getSwap_found _ _ _ found).
  unfold fetchUtxos, broadcastTransaction, nothingBroadcast.
  run_coord.
  all: try match goal with
           | Hbuild : buildClaimTransaction _ _ = Ok _ |- _ =>
               exfalso; apply Hmismatch;
               apply (fun same parsed =>
                        buildClaimTransaction_checks _ _ _ _ same parsed Hbuild);
               [reflexivity | exact Hparse]
           end.
  all: intros Hrun; inversion Hrun; subst; clear Hrun; cbn [swaps ledgerCalls isOk].
  all: split; [reflexivity | no_broadcast].
Qed.

End Claims.

(** C2, as the code has it.  [responderClaim] checks the swap secret it is
    given against the [swap_hash] of the swap before anything else: when it
    does not match, the call throws 'Invalid swap secret' and the swaps and
    the ledger calls are as before.  The secrets that go into a spend, in
    either claim, are checked by the adapter's [buildClaimTransaction]
    against the two commitments of the escrow script, with an error of their
    own each: when they do not match, the claim does not succeed and makes
    no broadcast call, and [responderClaim] leaves the swaps as they
    were. *)
Theorem claims_check_preimages `{Env} (params : ClaimRequest) (w : World) (swap : Swap) :
  swaps w !! cq_swapId params = Some swap ->
  (Crypto.sha256Hex (Crypto.ofHex (cq_swapSecret params)) <> swap_hash (initiator swap) ->
   responderClaim params w = (w, Throw (Err "Invalid swap secret")))
  /\ (forall script w' r,
        parseScript (e_lockingScript (initiatorHTLC swap)) = Ok script ->
        ~ secretsMatch script (cq_swapSecret params) (recipient_secret (responder swap)) ->
        responderClaim params w = (w', r) ->
        swaps w' = swaps w /\ isOk r = false /\ nothingBroadcast w w')
  /\ (forall script w' r,
        parseScript (e_lockingScript (responderHTLC swap)) = Ok script ->
        ~ secretsMatch script (swap_secret (initiator swap))
            (Some (claim_secret (initiator swap))) ->
        initiatorClaim params w = (w', r) ->
        isOk r = false /\ nothingBroadcast w w')
  /\ (forall m build script,
        m <> sol ->
        cp_redeemScript build = cp_lockingScript build ->
        parseScript (cp_lockingScript build) = Ok script ->
        (Crypto.sha256Hex (Crypto.ofHex (cp_swapSecret build)) <> Htlc.parsed_swapHash script ->
         buildClaimTransaction m build = Throw swapSecretError)
        /\ (forall recipientSecret,
              Crypto.sha256Hex (Crypto.ofHex (cp_swapSecret build))
              = Htlc.parsed_swapHash script ->
              cp_recipientSecret build = Some recipientSecret ->
              Crypto.sha256Hex (Crypto.ofHex recipientSecret)
              <> Htlc.parsed_recipientHash script ->
              buildClaimTransaction m build = Throw recipientSecretError)).
Proof.
  intros found. split; [|split; [|split]].
  - apply responderClaim_invalid_secret. exact found.
  - intros script w' r. apply responderClaim_mismatch. exact found.
  - intros script w' r. apply initiatorClaim_mismatch. exact found.
  - intros m build script. apply buildClaimTransaction_errors.
Qed.

Lemma claims_check_preimages_witness :
  @responderClaim (ledgersUp (exampleStart + 60000)) wrongSecretRequest fundedWorld
  = (fundedWorld, Throw (Err "Invalid swap secret")).
Proof.
  apply (@claims_check_preimages (ledgersUp (exampleStart + 60000)) wrongSecretRequest
           fundedWorld fundedSwap fundedWorld_swap).
  apply String.eqb_neq. vm_compute. reflexivity.
Defined.

(** C2, as stated, fails: [initiatorClaim] does not read a secret from its
    caller.  Given a swap secret that does not hash to the commitment of the
    swap, it claims all the same, with the secrets of the swap record: the
    spend is broadcast and the swap completes. *)
Lemma initiatorClaim_ignores_supplied_secret :
  Crypto.sha256Hex (Crypto.ofHex (cq_swapSecret wrongSecretRequest))
  <> swap_hash (initiator fundedSwap)
  /\ exists w' r tx,
       @initiatorClaim (ledgersUp (exampleStart + 60000)) wrongSecretRequest fundedWorld
       = (w', Ok r)
       /\ sr_status r = COMPLETED
       /\ last (ledgerCalls w') = Some (Broadcast "BSV" tx).
Proof.
  split.
  - apply String.eqb_neq. vm_compute. reflexivity.
  - eexists. eexists. eexists.
    split; [vm_compute; reflexivity|].
    split; vm_compute; reflexivity.
Qed.

(** ** Joining a swap *)

Section Join.

Context `{Env}.

Lemma bind_Ok_inv {A B} (m : Coord A) (k : A -> Coord B) (w w' : World) (b : B) :
  (a ← m; k a) w = (w', Ok b) ->
  exists w1 a, m w = (w1, Ok a) /\ k a w1 = (w', Ok b).
Proof.
  rewrite bind_run. destruct (m w) as [w1 [a|e]]; [eauto | discriminate].
Qed.

Lemma lift_Ok_inv {A} (r : result A) (w w1 : World) (a : A) :
  lift r w = (w1, Ok a) -> w1 = w /\ r = Ok a.
Proof. unfold lift. intros Hrun. inversion Hrun. split; reflexivity. Qed.

Lemma assign_inv (id : string) (f : Swap -> Swap) (w w1 : World) (u : unit)
  (swap : Swap) :
  swaps w !! id = Some swap ->
  assign id f w = (w1, Ok u) ->
  swaps w1 !! id = Some (f swap).
Proof.
  intros E Hrun. unfold assign in Hrun. inversion Hrun. cbn [swaps].
  apply lookup_assigned. exact E.
Qed.

(** What [createHTLC] returns is built on the script of [createHTLCScript],
    which is the locking script on BSV. *)
Lemma createHTLC_script (params : Htlc.HTLCParams) (chain network : string)
  (escrow : Htlc.HTLC) :
  Htlc.createHTLC params chain network = Ok escrow ->
  Htlc.createHTLCScript params = Ok (Htlc.htlcScript escrow)
  /\ (chain = "BSV" ->
      Htlc.lockingScript escrow = Some (Htlc.redeemScript (Htlc.htlcScript escrow))).
Proof.
  unfold Htlc.createHTLC.
  destruct (Htlc.createHTLCScript params) as [script|]; [|discriminate].
  cbn [mbind result_bind].
  destruct (String.eqb chain "BSV") eqn:Hchain; intros Hrun; inversion Hrun;
    (split; [reflexivity|]); intros ->; [reflexivity | discriminate Hchain].
Qed.

Lemma createHTLCScript_embeds (params : Htlc.HTLCParams) (script : Htlc.HTLCScript) :
  Htlc.createHTLCScript params = Ok script ->
  Htlc.swapHash script = Htlc.p_swapHash params
  /\ exists rest,
       Htlc.redeemScript script = "63a820" +:+ Htlc.p_swapHash params +:+ rest.
Proof.
  unfold Htlc.createHTLCScript.
  destruct (String.length (Htlc.p_swapHash params) =? 64)%nat eqn:Hlen; [|discriminate].
  apply Nat.eqb_eq in Hlen. cbn [negb].
  destruct (negb _); [discriminate|].
  destruct (negb _); [discriminate|].
  destruct (_ || _); [discriminate|].
  rewrite (pushData_hash _ Hlen). cbn [mbind result_bind].
  destruct (Crypto.pushData (Htlc.p_recipientHash params)); [|discriminate].
  cbn [mbind result_bind].
  destruct (Crypto.pushData (Htlc.encodeMinimalNumber _)); [|discriminate].
  cbn [mbind result_bind].
  destruct (Crypto.pushData (Htlc.p_refundHash params)); [|discriminate].
  cbn [mbind result_bind].
  intros [= <-]. cbn [Htlc.swapHash Htlc.redeemScript].
  split; [reflexivity|]. eexists. reflexivity.
Qed.

Lemma createHTLC_embeds (params : Htlc.HTLCParams) (chain network : string)
  (escrow : Htlc.HTLC) :
  Htlc.createHTLC params chain network = Ok escrow ->
  embedsSwapHash (Htlc.p_swapHash params) escrow.
Proof.
  intros Hrun. apply createHTLC_script in Hrun as [Hscript _].
  apply createHTLCScript_embeds. exact Hscript.
Qed.

(** One escrow of [joinSwap]: either the chain is none of the three and
    nothing is assigned, or the escrow is assigned, with the script of
    [escrow] on the two script ledgers. *)
Lemma storeEscrow_run (id chain : string)
  (setEscrow : (Escrow -> Escrow) -> Swap -> Swap)
  (params : Htlc.HTLCParams) (network : string) (escrow : Htlc.HTLC)
  (solParams : SolHTLCParams) (w w1 : World) (swap : Swap) :
  swaps w !! id = Some swap ->
  Htlc.createHTLC params chain network = Ok escrow ->
  storeEscrow id chain setEscrow escrow solParams w = (w1, Ok tt) ->
  (swaps w1 !! id = Some swap /\ chain <> "BSV" /\ chain <> "BTC")
  \/ exists f,
       swaps w1 !! id = Some (setEscrow f swap)
       /\ (chain = "BSV" \/ chain = "BTC" ->
           forall e, e_lockingScript (f e)
                     = Some (Htlc.redeemScript (Htlc.htlcScript escrow))).
Proof.
  intros E Hescrow. unfold storeEscrow.
  destruct (String.eqb chain "BSV") eqn:Hbsv.
  { apply String.eqb_eq in Hbsv. intros Hrun. right. eexists. split.
    - exact (assign_inv _ _ _ _ _ _ E Hrun).
    - intros _ e. cbn [set_script e_lockingScript].
      apply (createHTLC_script _ _ _ _ Hescrow). exact Hbsv. }
  destruct (String.eqb chain "BTC") eqn:Hbtc.
  { intros Hrun. right. eexists. split.
    - exact (assign_inv _ _ _ _ _ _ E Hrun).
    - intros _ e. reflexivity. }
  apply String.eqb_neq in Hbsv, Hbtc.
  destruct (String.eqb chain "SOL") eqn:Hsol.
  - intros Hrun. apply bind_Ok_inv in Hrun as (w2 & solHTLC & Hawait & Hrun).
    right. eexists. split.
    + refine (assign_inv _ _ w2 _ _ _ _ Hrun).
      unfold await in Hawait. inversion Hawait. exact E.
    + intros [Hc|Hc]; contradiction.
  - intros Hrun. inversion Hrun. subst w1. left. auto.
Qed.

Variable responderSecrets : ResponderSecrets.
Variable params : JoinParams.
Variable w : World.

Lemma joinSwap_wrong_status (swap : Swap) :
  swaps w !! jp_swapId params = Some swap ->
  status swap <> INITIATED ->
  joinSwap responderSecrets params w = (w, Throw (ErrCannotJoin (status swap))).
Proof.
  intros E Hstatus. unfold joinSwap.
  rewrite bind_run, (getSwap_found _ _ _ E).
  rewrite (bool_decide_eq_false_2 _ Hstatus). reflexivity.
Qed.

Lemma joinSwap_joined (w' : World) (r : JoinResult) :
  joinSwap responderSecrets params w = (w', Ok r) ->
  joined responderSecrets params w w' r.
Proof.
  intros Hrun. unfold joinSwap in Hrun.
  apply bind_Ok_inv in Hrun as (w0 & swap & Hget & Hrun).
  unfold getSwap in Hget.
  destruct (swaps w !! jp_swapId params) as [swap0|] eqn:E; [|discriminate Hget].
  inversion Hget; subst w0 swap0; clear Hget.
  destruct (bool_decide (status swap = INITIATED)) eqn:Hstatus; [|discriminate Hrun].
  apply bool_decide_eq_true in Hstatus. cbn [negb] in Hrun.
  apply bind_Ok_inv in Hrun as (w0 & fromModule & Hlift & Hrun).
  apply lift_Ok_inv in Hlift as [-> _].
  apply bind_Ok_inv in Hrun as (w0 & toModule & Hlift & Hrun).
  apply lift_Ok_inv in Hlift as [-> _].
  cbv zeta in Hrun.
  destruct (negb (v_valid (validateAddress fromModule (jp_toAddress params))));
    [discriminate Hrun|].
  destruct (negb (v_valid (validateAddress toModule (jp_refundAddress params))));
    [discriminate Hrun|].
  apply bind_Ok_inv in Hrun as (w1 & u1 & Hresponder & Hrun).
  apply (assign_inv _ _ _ _ _ _ E) in Hresponder.
  apply bind_Ok_inv in Hrun as (w0 & initiatorEscrow & Hlift & Hrun).
  apply lift_Ok_inv in Hlift as [-> HinitiatorEscrow].
  apply bind_Ok_inv in Hrun as (w2 & [] & Hstore1 & Hrun).
  apply bind_Ok_inv in Hrun as (w0 & responderEscrow & Hlift & Hrun).
  apply lift_Ok_inv in Hlift as [-> HresponderEscrow].
  apply bind_Ok_inv in Hrun as (w3 & [] & Hstore2 & Hrun).
  apply bind_Ok_inv in Hrun as (w4 & u4 & Hassign1 & Hrun).
  apply bind_Ok_inv in Hrun as (w5 & u5 & Hassign2 & Hrun).
  apply bind_Ok_inv in Hrun as (w0 & swap' & Hget & Hrun).
  apply bind_Ok_inv in Hrun as (w6 & u6 & Hlift & Hrun).
  apply lift_Ok_inv in Hlift as [-> _].
  apply bind_Ok_inv in Hrun as (w7 & u7 & Hlift & Hrun).
  apply lift_Ok_inv in Hlift as [-> _].
  inversion Hrun; subst w' r; clear Hrun.
  exists swap, initiatorEscrow, responderEscrow, swap'.
  assert (Hfinal :
    exists swap3,
      swaps w3 !! jp_swapId params = Some swap3
      /\ keepsScript (fromChain swap) initiatorEscrow (initiatorHTLC swap3)
      /\ keepsScript (toChain swap) responderEscrow (responderHTLC swap3)).
  { unfold keepsScript.
    destruct (storeEscrow_run _ _ _ _ _ _ _ _ _ _ Hresponder HinitiatorEscrow Hstore1)
      as [(E2 & Hbsv & Hbtc) | (f & E2 & Hf)];
      destruct (storeEscrow_run _ _ _ _ _ _ _ _ _ _ E2 HresponderEscrow Hstore2)
      as [(E3 & Hbsv' & Hbtc') | (f' & E3 & Hf')];
      (eexists; split; [exact E3|]; split; intros Hchain;
       cbn [initiatorHTLC responderHTLC set_initiatorHTLC set_responderHTLC set_responder];
       first [ apply Hf; exact Hchain | apply Hf'; exact Hchain
             | destruct Hchain; contradiction ]). }
  destruct Hfinal as (swap3 & E3 & Hkeeps1 & Hkeeps2).
  pose proof (assign_inv _ _ _ _ _ _ E3 Hassign1) as E4.
  pose proof (assign_inv _ _ _ _ _ _ E4 Hassign2) as E5.
  unfold getSwap in Hget. rewrite E5 in Hget.
  inversion Hget; subst w0 swap'; clear Hget.
  split; [exact E|]. split; [exact Hstatus|].
  split; [exact HinitiatorEscrow|]. split; [exact HresponderEscrow|].
  split; [exact (createHTLC_embeds _ _ _ _ HinitiatorEscrow)|].
  split; [exact (createHTLC_embeds _ _ _ _ HresponderEscrow)|].
  split; [exact E5|].
  split; [reflexivity|]. split; [reflexivity|].
  split; [exact Hkeeps1 | exact Hkeeps2].
Qed.

End Join.



(** ** What every call keeps *)

Lemma continues_refl (s : Swap) : continues s s.
Proof.
  unfold continues, sameTerms. repeat split; try reflexivity; auto.
  exists []. symmetry. apply app_nil_r.
Qed.

(** A record reached from [s] by the assignments of the coordinator
    continues [s], when the statuses say so. *)
Ltac settle_continues s :=
  unfold continues, sameTerms;
  cbn [swapId status fromChain toChain fromAmount toAmount toAddress refundAddress
       initiator initiatorHTLC responderHTLC responder transactions createdAt
       updatedAt set_status set_updatedAt set_responder set_initiatorHTLC
       set_responderHTLC push_transaction set_script set_solana set_funded
       e_chain e_timeout e_funded];
  repeat match goal with
         | |- _ /\ _ => split
         end;
  try reflexivity; try (intros; assumption); try (intros; reflexivity);
  try (exists []; symmetry; apply app_nil_r);
  try (eexists [_]; reflexivity);
  try (repeat match goal with
              | Hb : context [bool_decide _] |- _ => revert Hb
              end;
       destruct (status s); vm_compute; intros; try discriminate; lia).

(** The lookups after a run of assignments to one swap. *)
Ltac settle_lookup :=
  cbn [swaps fst];
  match goal with
  | Hid : swaps ?w !! ?id = Some ?s |- _ =>
      match goal with
      | Hfound : swaps w !! ?key = Some ?s0 |- context [alter _ ?key _] =>
          destruct (decide (id = key)) as [->|Hother];
          [ rewrite !lookup_alter_eq, Hfound; rewrite Hfound in Hid;
            injection Hid as <-; cbn [fmap option_fmap option_map];
            eexists; split; [reflexivity | settle_continues s0]
          | rewrite !lookup_alter_ne by congruence;
            exists s; split; [exact Hid | apply continues_refl] ]
      | |- _ => exists s; split; [exact Hid | apply continues_refl]
      end
  end.

Section Steps.

Context `{Env}.

Variable w : World.
Variable id : string.
Variable s : Swap.
Hypothesis Hid : swaps w !! id = Some s.

Local Abbreviation kept after := (exists s', swaps after !! id = Some s' /\ continues s s').

Lemma initiatorClaim_continues (params : ClaimRequest) :
  kept (fst (initiatorClaim params w)).
Proof.
  unfold initiatorClaim, fetchUtxos, broadcastTransaction.
  run_coord; settle_lookup.
Qed.

Lemma responderClaim_continues (params : ClaimRequest) :
  kept (fst (responderClaim params w)).
Proof.
  unfold responderClaim, fetchUtxos, broadcastTransaction.
  run_coord; settle_lookup.
Qed.

Lemma initiatorRefund_continues (params : RefundRequest) :
  kept (fst (initiatorRefund params w)).
Proof.
  unfold initiatorRefund, fetchUtxos, broadcastTransaction.
  run_coord; settle_lookup.
Qed.

Lemma responderRefund_continues (params : RefundRequest) :
  kept (fst (responderRefund params w)).
Proof.
  unfold responderRefund, fetchUtxos, broadcastTransaction.
  run_coord; settle_lookup.
Qed.

Lemma recordInitiatorFunding_continues (params : FundingParams) :
  kept (fst (recordInitiatorFunding params w)).
Proof.
  unfold recordInitiatorFunding, fetchBalance.
  run_coord; settle_lookup.
Qed.

Lemma recordResponderFunding_continues (params : FundingParams) :
  kept (fst (recordResponderFunding params w)).
Proof.
  unfold recordResponderFunding, fetchBalance.
  run_coord; settle_lookup.
Qed.

Lemma joinSwap_continues (responderSecrets : ResponderSecrets) (params : JoinParams) :
  kept (fst (joinSwap responderSecrets params w)).
Proof.
  unfold joinSwap, storeEscrow.
  run_coord; settle_lookup.
Qed.

End Steps.

Ltac settle_none :=
  cbn [swaps fst]; repeat (apply lookup_alter_None); assumption.

Section NoNewSwap.

Context `{Env}.

Variable w : World.
Variable id : string.
Hypothesis Hnone : swaps w !! id = None.

Lemma initiatorClaim_no_new (params : ClaimRequest) :
  swaps (fst (initiatorClaim params w)) !! id = None.
Proof.
  unfold initiatorClaim, fetchUtxos, broadcastTransaction. run_coord; settle_none.
Qed.

Lemma responderClaim_no_new (params : ClaimRequest) :
  swaps (fst (responderClaim params w)) !! id = None.
Proof.
  unfold responderClaim, fetchUtxos, broadcastTransaction. run_coord; settle_none.
Qed.

Lemma initiatorRefund_no_new (params : RefundRequest) :
  swaps (fst (initiatorRefund params w)) !! id = None.
Proof.
  unfold initiatorRefund, fetchUtxos, broadcastTransaction. run_coord; settle_none.
Qed.

Lemma responderRefund_no_new (params : RefundRequest) :
  swaps (fst (responderRefund params w)) !! id = None.
Proof.
  unfold responderRefund, fetchUtxos, broadcastTransaction. run_coord; settle_none.
Qed.

Lemma recordInitiatorFunding_no_new (params : FundingParams) :
  swaps (fst (recordInitiatorFunding params w)) !! id = None.
Proof.
  unfold recordInitiatorFunding, fetchBalance. run_coord; settle_none.
Qed.

Lemma recordResponderFunding_no_new (params : FundingParams) :
  swaps (fst (recordResponderFunding params w)) !! id = None.
Proof.
  unfold recordResponderFunding, fetchBalance. run_coord; settle_none.
Qed.

Lemma joinSwap_no_new (responderSecrets : ResponderSecrets) (params : JoinParams) :
  swaps (fst (joinSwap responderSecrets params w)) !! id = None.
Proof.
  unfold joinSwap, storeEscrow. run_coord; settle_none.
Qed.

End NoNewSwap.

Section OneCall.

Context `{Env}.

(** [initiateSwap] writes under the new id or not at all. *)
Lemma initiateSwap_elsewhere (uuid : string) (initiatorSecrets : InitiatorSecrets)
  (params : InitiateParams) (w : World) (id : string) :
  newSwapId uuid <> id ->
  swaps (fst (initiateSwap uuid initiatorSecrets params w)) !! id = swaps w !! id.
Proof.
  intros Hother. unfold initiateSwap, setSwap.
  run_coord; cbn [swaps fst]; try reflexivity;
    apply lookup_insert_ne; exact Hother.
Qed.

Lemma perform_continues (call : Call) (w : World) (id : string) (s : Swap) :
  reopens id call = false ->
  swaps w !! id = Some s ->
  exists s', swaps (perform call w) !! id = Some s' /\ continues s s'.
Proof.
  intros Hcall Hid. destruct call; cbn [perform].
  - cbn [reopens] in Hcall. apply String.eqb_neq in Hcall.
    rewrite (initiateSwap_elsewhere _ _ _ _ _ Hcall).
    exists s. split; [exact Hid | apply continues_refl].
  - apply joinSwap_continues; exact Hid.
  - apply recordInitiatorFunding_continues; exact Hid.
  - apply recordResponderFunding_continues; exact Hid.
  - apply initiatorClaim_continues; exact Hid.
  - apply responderClaim_continues; exact Hid.
  - apply initiatorRefund_continues; exact Hid.
  - apply responderRefund_continues; exact Hid.
Qed.

Lemma perform_no_new (call : Call) (w : World) (id : string) :
  reopens id call = false ->
  swaps w !! id = None ->
  swaps (perform call w) !! id = None.
Proof.
  intros Hcall Hnone. destruct call; cbn [perform].
  - cbn [reopens] in Hcall. apply String.eqb_neq in Hcall.
    rewrite (initiateSwap_elsewhere _ _ _ _ _ Hcall). exact Hnone.
  - apply joinSwap_no_new; exact Hnone.
  - apply recordInitiatorFunding_no_new; exact Hnone.
  - apply recordResponderFunding_no_new; exact Hnone.
  - apply initiatorClaim_no_new; exact Hnone.
  - apply responderClaim_no_new; exact Hnone.
  - apply initiatorRefund_no_new; exact Hnone.
  - apply responderRefund_no_new; exact Hnone.
Qed.

End OneCall.

Lemma continues_trans (s1 s2 s3 : Swap) :
  continues s1 s2 -> continues s2 s3 -> continues s1 s3.
Proof.
  unfold continues, sameTerms.
  intros (T1 & [m1 L1] & R1 & I1 & F1) (T2 & [m2 L2] & R2 & I2 & F2).
  split; [|split; [|split; [|split]]].
  - decompose [and] T1. decompose [and] T2. repeat split; congruence.
  - exists (m1 ++ m2)%list. rewrite L2, L1. symmetry. apply app_assoc.
  - lia.
  - auto.
  - auto.
Qed.

(** X1.  Whatever calls follow, in any order and whatever the ledgers
    answer, a stored swap stays stored with the terms it was opened with
    (ids, chains, amounts, addresses, the initiator's secrets and hashes,
    the timeouts of both escrows), its transactions are only added to, its
    status never moves backwards and a funded escrow stays funded, as long
    as no [initiateSwap] draws the same id again; and apart from
    [initiateSwap] no call stores a swap under an id that had none. *)
Theorem calls_continue_swaps (calls : list (Env * Call)) (w : World) (id : string) :
  Forall (fun step => reopens id (snd step) = false) calls ->
  match swaps w !! id with
  | Some s => exists s', swaps (performAll calls w) !! id = Some s' /\ continues s s'
  | None => swaps (performAll calls w) !! id = None
  end.
Proof.
  intros Hcalls. revert w.
  induction Hcalls as [|[moment call] rest Hcall _ IH]; intros w; cbn [performAll].
  - destruct (swaps w !! id) as [s|]; [|reflexivity].
    exists s. split; [reflexivity | apply continues_refl].
  - cbn [snd] in Hcall. specialize (IH (@perform moment call w)).
    destruct (swaps w !! id) as [s|] eqn:Hid.
    + destruct (@perform_continues moment call w id s Hcall Hid) as (s1 & H1 & C1).
      rewrite H1 in IH. destruct IH as (s' & H' & C').
      exists s'. split; [exact H' | exact (continues_trans _ _ _ C1 C')].
    + rewrite (@perform_no_new moment call w id Hcall Hid) in IH. exact IH.
Qed.

Lemma calls_continue_swaps_witness :
  match swaps initiatedWorld !! exampleSwapId with
  | Some s =>
      exists s',
        swaps (performAll laterCalls initiatedWorld) !! exampleSwapId = Some s'
        /\ continues s s'
  | None => swaps (performAll laterCalls initiatedWorld) !! exampleSwapId = None
  end.
Proof.
  apply (calls_continue_swaps laterCalls initiatedWorld exampleSwapId).
  repeat constructor.
Defined.

(** ** Records that stay consistent *)

Ltac settle_marks s0 :=
  unfold marksAgree in *;
  cbn [status initiatorHTLC responderHTLC set_status set_updatedAt set_responder
       set_initiatorHTLC set_responderHTLC push_transaction set_script set_solana
       set_funded e_funded e_fundingTxid isSome] in *;
  rewrite ?implb_true_r;
  first
    [ assumption
    | repeat match goal with
             | Hb : context [bool_decide _] |- _ => revert Hb
             end;
      match goal with
      | Hm : _ = true |- _ => revert Hm
      end;
      destruct (status s0); try (vm_compute; intros; discriminate);
      destruct (e_funded (initiatorHTLC s0)), (e_funded (responderHTLC s0)),
        (e_fundingTxid (initiatorHTLC s0)), (e_fundingTxid (responderHTLC s0));
      vm_compute; intros; try discriminate; reflexivity ].

Ltac settle_consistent Hw :=
  cbn [swaps fst];
  let id := fresh "id" in
  let s := fresh "s" in
  let Hs := fresh "Hs" in
  intros id s Hs;
  match goal with
  | Hfound : swaps ?w !! ?key = Some ?s0 |- _ =>
      match type of Hs with
      | context [alter _ key _] =>
          destruct (decide (id = key)) as [->|Hother];
          [ rewrite !lookup_alter_eq, Hfound in Hs;
            cbn [fmap option_fmap option_map] in Hs; injection Hs as <-;
            destruct (Hw _ _ Hfound) as [Hkey Hmarks];
            split; [exact Hkey | settle_marks s0]
          | rewrite !lookup_alter_ne in Hs by congruence; exact (Hw _ _ Hs) ]
      end
  | |- _ => exact (Hw _ _ Hs)
  end.

Section Consistency.

Context `{Env}.

Variable w : World.
Hypothesis Hw : consistent w.

Lemma initiatorClaim_consistent (params : ClaimRequest) :
  consistent (fst (initiatorClaim params w)).
Proof.
  unfold consistent, initiatorClaim, fetchUtxos, broadcastTransaction.
  run_coord; settle_consistent Hw.
Qed.

Lemma responderClaim_consistent (params : ClaimRequest) :
  consistent (fst (responderClaim params w)).
Proof.
  unfold consistent, responderClaim, fetchUtxos, broadcastTransaction.
  run_coord; settle_consistent Hw.
Qed.

Lemma initiatorRefund_consistent (params : RefundRequest) :
  consistent (fst (initiatorRefund params w)).
Proof.
  unfold consistent, initiatorRefund, fetchUtxos, broadcastTransaction.
  run_coord; settle_consistent Hw.
Qed.

Lemma responderRefund_consistent (params : RefundRequest) :
  consistent (fst (responderRefund params w)).
Proof.
  unfold consistent, responderRefund, fetchUtxos, broadcastTransaction.
  run_coord; settle_consistent Hw.
Qed.

Lemma recordInitiatorFunding_consistent (params : FundingParams) :
  consistent (fst (recordInitiatorFunding params w)).
Proof.
  unfold consistent, recordInitiatorFunding, fetchBalance.
  run_coord; settle_consistent Hw.
Qed.

Lemma recordResponderFunding_consistent (params : FundingParams) :
  consistent (fst (recordResponderFunding params w)).
Proof.
  unfold consistent, recordResponderFunding, fetchBalance.
  run_coord; settle_consistent Hw.
Qed.

Lemma joinSwap_consistent (responderSecrets : ResponderSecrets) (params : JoinParams) :
  consistent (fst (joinSwap responderSecrets params w)).
Proof.
  unfold consistent, joinSwap, storeEscrow.
  run_coord; settle_consistent Hw.
Qed.

Lemma initiateSwap_consistent (uuid : string) (initiatorSecrets : InitiatorSecrets)
  (params : InitiateParams) :
  consistent (fst (initiateSwap uuid initiatorSecrets params w)).
Proof.
  unfold consistent, initiateSwap, setSwap.
  run_coord; cbn [swaps fst]; intros id s Hs; try exact (Hw _ _ Hs).
  all: destruct (decide (newSwapId uuid = id)) as [<-|Hother];
    [ unfold newSwapId in Hs; rewrite lookup_insert_eq in Hs; injection Hs as <-;
      split; reflexivity
    | unfold newSwapId in Hother; rewrite lookup_insert_ne in Hs by exact Hother;
      exact (Hw _ _ Hs) ].
Qed.

Lemma perform_consistent (call : Call) : consistent (perform call w).
Proof.
  destruct call; cbn [perform].
  - apply initiateSwap_consistent.
  - apply joinSwap_consistent.
  - apply recordInitiatorFunding_consistent.
  - apply recordResponderFunding_consistent.
  - apply initiatorClaim_consistent.
  - apply responderClaim_consistent.
  - apply initiatorRefund_consistent.
  - apply responderRefund_consistent.
Qed.

End Consistency.

(** X2.  In every state that calls of the coordinator reach from the empty
    store, whatever the calls and whatever the ledgers answer, each swap is
    stored under its own [swapId]; its status is one of the eight that the
    coordinator assigns; the funded marks of its escrows are what that
    status says (none in [INITIATED] and [COUNTERPARTY_JOINED], the one side
    in [INITIATOR_FUNDED] and [RESPONDER_FUNDED], both in [FULLY_FUNDED] and
    [CLAIMING]); and an escrow that names a funding transaction is marked
    funded.  The converse does not hold: a funding record that names no
    transaction marks the escrow funded all the same. *)
Theorem reachable_consistent (calls : list (Env * Call)) :
  consistent (performAll calls emptyWorld).
Proof.
  assert (Hall : forall w, consistent w -> consistent (performAll calls w)).
  { induction calls as [|[moment call] rest IH]; intros w Hw; cbn [performAll].
    - exact Hw.
    - apply IH. apply (@perform_consistent moment). exact Hw. }
  apply Hall. intros id s Hs. cbn in Hs. rewrite lookup_empty in Hs. discriminate Hs.
Qed.

(** ** Recording the funding *)

Ltac read_back Hfound :=
  repeat match goal with
         | Hread : swaps _ !! _ = Some _ |- _ =>
             lazymatch type of Hread with
             | context [alter] =>
                 cbn [swaps] in Hread;
                 rewrite !lookup_alter_eq, Hfound in Hread;
                 cbn [fmap option_fmap option_map] in Hread;
                 injection Hread as <-
             end
         | Hread : swaps _ !! _ = None |- _ =>
             lazymatch type of Hread with
             | context [alter] =>
                 cbn [swaps] in Hread;
                 rewrite !lookup_alter_eq, Hfound in Hread;
                 discriminate Hread
             end
         end.

Section Funding.

Context `{Env}.

Lemma alter_found (f : Swap -> Swap) (id : string) (m : gmap string Swap) (s : Swap) :
  m !! id = Some s -> alter f id m = <[id := f s]> m.
Proof.
  intros E. apply map_eq. intros k.
  destruct (decide (k = id)) as [->|Hne].
  - rewrite lookup_alter_eq, lookup_insert_eq, E. reflexivity.
  - rewrite lookup_alter_ne, lookup_insert_ne by congruence. reflexivity.
Qed.

Lemma alter_inserted (f : Swap -> Swap) (id : string) (m : gmap string Swap) (s : Swap) :
  alter f id (<[id := s]> m) = <[id := f s]> m.
Proof.
  rewrite (alter_found f id _ s) by apply lookup_insert_eq.
  apply insert_insert_eq.
Qed.

Lemma ltNumber_false (v : Z) (y : Number) : ltNumber v y = false <-> passes v y.
Proof.
  destruct y as [b| |[|]]; cbn; split; try reflexivity; try discriminate;
    try (intros _; reflexivity); try apply Z.ltb_ge.
Qed.

Lemma ltUndef_false (x : option Z) (y : Number) :
  ltUndef x y = false <-> forall v, x = Some v -> passes v y.
Proof.
  destruct x as [v|]; cbn [ltUndef]; split.
  - intros Hlt u [= <-]. apply ltNumber_false. exact Hlt.
  - intros Hle. apply ltNumber_false. apply Hle. reflexivity.
  - intros _ v Hv. discriminate Hv.
  - reflexivity.
Qed.

Lemma recordInitiatorFunding_effect (params : FundingParams) (w w' : World)
  (r : FundingResult) :
  recordInitiatorFunding params w = (w', Ok r) ->
  exists s balance,
    swaps w !! fp_swapId params = Some s
    /\ (status s = COUNTERPARTY_JOINED \/ status s = RESPONDER_FUNDED)
    /\ snd (fetchBalance (fromChain s) (initiatorHTLC s) w) = Ok (Some balance)
    /\ coversInitiator balance (fromAmount s)
    /\ swaps w'
       = <[fp_swapId params := afterInitiatorFunding (fp_txid params) Date_now s]> (swaps w)
    /\ fr_status r = status (afterInitiatorFunding (fp_txid params) Date_now s).
Proof.
  unfold recordInitiatorFunding.
  rewrite bind_run. unfold getSwap at 1.
  destruct (swaps w !! fp_swapId params) as [s|] eqn:Hfound; [|discriminate].
  destruct (bool_decide (status s = COUNTERPARTY_JOINED)) eqn:Hjoined;
    destruct (bool_decide (status s = RESPONDER_FUNDED)) eqn:Hfunded;
    cbn [negb andb]; try discriminate.
  all: assert (Hstatus : status s = COUNTERPARTY_JOINED \/ status s = RESPONDER_FUNDED)
    by (first [left; apply bool_decide_eq_true in Hjoined; exact Hjoined
              | right; apply bool_decide_eq_true in Hfunded; exact Hfunded]).
  all: rewrite bind_run; unfold lift at 1;
    destruct (getChainModule (fromChain s)); [|discriminate];
    rewrite bind_run;
    destruct (fetchBalance (fromChain s) (initiatorHTLC s) w) as [w1 [[balance|]|]] eqn:Hfetch;
    try discriminate.
  all: destruct (ltUndef (b_satoshis balance) (fromAmount s)) eqn:Hsat;
    [discriminate|];
    destruct (ltUndef (b_lamports balance) (fromAmount s)) eqn:Hlam;
    [discriminate|]; cbn [orb].
  all: assert (Hw1 : swaps w1 = swaps w)
    by (revert Hfetch; unfold fetchBalance; run_coord;
        intros Hfetch; inversion Hfetch; reflexivity).
  all: assert (Hfound1 : swaps w1 !! fp_swapId params = Some s)
    by (rewrite Hw1; exact Hfound).
  all: run_coord; read_back Hfound1; intros Hrun; inversion Hrun; subst; clear Hrun.
  all: exists s, balance; cbn [swaps fr_status].
  all: unfold afterInitiatorFunding;
    match goal with Hb : e_funded _ = _ |- _ => rewrite Hb end.
  all: split; [reflexivity|]; split; [exact Hstatus|].
  all: split; [rewrite Hfetch; reflexivity|].
  all: split; [split; apply ltUndef_false; assumption|].
  all: split; [|reflexivity].
  all: rewrite Hw1.
  all: rewrite (alter_found _ _ _ _ Hfound).
  all: rewrite !alter_inserted.
  all: reflexivity.
Qed.

Lemma fetchBalance_reads (chain : string) (escrow : Escrow) (w w1 : World)
  (r : result (option Balance)) :
  fetchBalance chain escrow w = (w1, r) -> swaps w1 = swaps w.
Proof.
  unfold fetchBalance. run_coord; intros Hfetch; inversion Hfetch; reflexivity.
Qed.

Lemma recordResponderFunding_effect (params : FundingParams) (w w' : World)
  (r : FundingResult) :
  recordResponderFunding params w = (w', Ok r) ->
  exists s balance,
    swaps w !! fp_swapId params = Some s
    /\ (status s = COUNTERPARTY_JOINED \/ status s = INITIATOR_FUNDED)
    /\ snd (fetchBalance (toChain s) (responderHTLC s) w) = Ok (Some balance)
    /\ passes (orElse (b_satoshis balance) (b_lamports balance)) (toAmount s)
    /\ swaps w'
       = <[fp_swapId params := afterResponderFunding (fp_txid params) Date_now s]> (swaps w)
    /\ fr_status r = status (afterResponderFunding (fp_txid params) Date_now s).
Proof.
  unfold recordResponderFunding.
  rewrite bind_run. unfold getSwap at 1.
  destruct (swaps w !! fp_swapId params) as [s|] eqn:Hfound; [|discriminate].
  destruct (bool_decide (status s = COUNTERPARTY_JOINED)) eqn:Hjoined;
    destruct (bool_decide (status s = INITIATOR_FUNDED)) eqn:Hfunded;
    cbn [negb andb]; try discriminate.
  all: assert (Hstatus : status s = COUNTERPARTY_JOINED \/ status s = INITIATOR_FUNDED)
    by (first [left; apply bool_decide_eq_true in Hjoined; exact Hjoined
              | right; apply bool_decide_eq_true in Hfunded; exact Hfunded]).
  all: rewrite bind_run;
    destruct (fetchBalance (toChain s) (responderHTLC s) w) as [w1 [[balance|]|]] eqn:Hfetch;
    try discriminate.
  all: destruct (ltNumber (orElse (b_satoshis balance) (b_lamports balance)) (toAmount s))
    eqn:Hcover; [discriminate|]; apply ltNumber_false in Hcover.
  all: pose proof (fetchBalance_reads _ _ _ _ _ Hfetch) as Hw1.
  all: assert (Hfound1 : swaps w1 !! fp_swapId params = Some s)
    by (rewrite Hw1; exact Hfound).
  all: run_coord; read_back Hfound1; intros Hrun; inversion Hrun; subst; clear Hrun.
  all: exists s, balance; cbn [swaps fr_status].
  all: unfold afterResponderFunding;
    match goal with Hb : e_funded _ = _ |- _ => rewrite Hb end.
  all: split; [reflexivity|]; split; [exact Hstatus|].
  all: split; [rewrite Hfetch; reflexivity|].
  all: split; [exact Hcover|].
  all: split; [|reflexivity].
  all: rewrite Hw1.
  all: rewrite (alter_found _ _ _ _ Hfound).
  all: rewrite !alter_inserted.
  all: reflexivity.
Qed.

Lemma recordInitiatorFunding_refused (params : FundingParams) (w : World) (s : Swap) :
  swaps w !! fp_swapId params = Some s ->
  status s <> COUNTERPARTY_JOINED ->
  status s <> RESPONDER_FUNDED ->
  recordInitiatorFunding params w = (w, Throw (ErrCannotFund (status s))).
Proof.
  intros Hfound H1 H2. unfold recordInitiatorFunding.
  rewrite bind_run, (getSwap_found _ _ _ Hfound).
  rewrite (bool_decide_eq_false_2 _ H1), (bool_decide_eq_false_2 _ H2). reflexivity.
Qed.

Lemma recordResponderFunding_refused (params : FundingParams) (w : World) (s : Swap) :
  swaps w !! fp_swapId params = Some s ->
  status s <> COUNTERPARTY_JOINED ->
  status s <> INITIATOR_FUNDED ->
  recordResponderFunding params w = (w, Throw (ErrCannotFund (status s))).
Proof.
  intros Hfound H1 H2. unfold recordResponderFunding.
  rewrite bind_run, (getSwap_found _ _ _ Hfound).
  rewrite (bool_decide_eq_false_2 _ H1), (bool_decide_eq_false_2 _ H2). reflexivity.
Qed.

End Funding.

(** X3.  When [recordInitiatorFunding] returns, the swap was in status
    [COUNTERPARTY_JOINED] or [RESPONDER_FUNDED], and each figure of the
    balance that the ledger of the source chain reported for the escrow has
    passed the check against [fromAmount]: it was not below a finite
    [fromAmount], while against a [fromAmount] that is [NaN], as [parseInt]
    leaves it for a text without digits, every balance passes.  The record
    is the old one with the escrow marked funded under the transaction id
    of the call, which may be [undefined], the status [FULLY_FUNDED] if the
    other escrow was funded and [INITIATOR_FUNDED] if not, and one entry
    added to the transactions; [recordResponderFunding] is the same on the
    other side, against [toAmount]. *)
Theorem funding_recorded_on_balance `{Env} (params : FundingParams) (w w' : World)
  (r : FundingResult) :
  (recordInitiatorFunding params w = (w', Ok r) ->
   exists s balance,
     swaps w !! fp_swapId params = Some s
     /\ (status s = COUNTERPARTY_JOINED \/ status s = RESPONDER_FUNDED)
     /\ snd (fetchBalance (fromChain s) (initiatorHTLC s) w) = Ok (Some balance)
     /\ coversInitiator balance (fromAmount s)
     /\ swaps w'
        = <[fp_swapId params := afterInitiatorFunding (fp_txid params) Date_now s]> (swaps w)
     /\ fr_status r = status (afterInitiatorFunding (fp_txid params) Date_now s))
  /\ (recordResponderFunding params w = (w', Ok r) ->
      exists s balance,
        swaps w !! fp_swapId params = Some s
        /\ (status s = COUNTERPARTY_JOINED \/ status s = INITIATOR_FUNDED)
        /\ snd (fetchBalance (toChain s) (responderHTLC s) w) = Ok (Some balance)
        /\ passes (orElse (b_satoshis balance) (b_lamports balance)) (toAmount s)
        /\ swaps w'
           = <[fp_swapId params := afterResponderFunding (fp_txid params) Date_now s]> (swaps w)
        /\ fr_status r = status (afterResponderFunding (fp_txid params) Date_now s)).
Proof.
  split.
  - apply recordInitiatorFunding_effect.
  - apply recordResponderFunding_effect.
Qed.

Lemma funding_recorded_on_balance_witness :
  exists w' r s balance,
    @recordInitiatorFunding (ledgersUp exampleStart) exampleFunding joinedWorld
    = (w', Ok r)
    /\ swaps joinedWorld !! exampleSwapId = Some s
    /\ coversInitiator balance (fromAmount s)
    /\ swaps w'
       = <[exampleSwapId := afterInitiatorFunding (Some exampleTxid) exampleStart s]>
           (swaps joinedWorld)
    /\ fr_status r = INITIATOR_FUNDED.
Proof.
  destruct (@recordInitiatorFunding (ledgersUp exampleStart) exampleFunding joinedWorld)
    as [w' [r|e]] eqn:Hrun.
  - destruct (proj1 (@funding_recorded_on_balance (ledgersUp exampleStart)
                       exampleFunding joinedWorld w' r) Hrun)
      as (s & balance & Hs & _ & _ & Hcover & Hw' & Hr).
    exists w', r, s, balance. split; [reflexivity|].
    split; [exact Hs|]. split; [exact Hcover|]. split; [exact Hw'|].
    rewrite Hr. vm_compute in Hs. injection Hs as <-. vm_compute. reflexivity.
  - apply (f_equal (fun p => isOk (snd p))) in Hrun.
    vm_compute in Hrun. discriminate Hrun.
Defined.

(** The two checks that a funding record does not make: on a swap opened
    with amounts that are no numbers, and joined, a funding record that
    names no transaction goes through while the ledger finds nothing at the
    escrow; the escrow is then marked funded and names no funding
    transaction. *)
Lemma funding_recorded_unchecked :
  exists w' r s,
    @recordInitiatorFunding (ledgersEmpty exampleStart) unnamedFunding
      (fst (@joinSwap (ledgersUp exampleStart) exampleResponder exampleJoin
              (fst (@initiateSwap (ledgersUp exampleStart) exampleUuid exampleInitiator
                      unreadableAmounts emptyWorld))))
    = (w', Ok r)
    /\ swaps w' !! exampleSwapId = Some s
    /\ fromAmount s = NaN
    /\ status s = INITIATOR_FUNDED
    /\ e_funded (initiatorHTLC s) = true
    /\ e_fundingTxid (initiatorHTLC s) = None.
Proof.
  eexists. eexists. eexists.
  split; [vm_compute; reflexivity|].
  split; [vm_compute; reflexivity|].
  repeat split.
Qed.

(** X4.  When both funding records go through on the same swap, one after
    the other in either order, the swap ends in status [FULLY_FUNDED] with
    both escrows marked funded, each under the transaction id that was
    recorded for it. *)
Theorem funding_in_either_order (first second : Env) (p q : FundingParams)
  (w w1 w2 : World) (r1 r2 : FundingResult) :
  fp_swapId q = fp_swapId p ->
  (@recordInitiatorFunding first p w = (w1, Ok r1) ->
   @recordResponderFunding second q w1 = (w2, Ok r2) ->
   exists s,
     swaps w2 !! fp_swapId p = Some s
     /\ status s = FULLY_FUNDED /\ fr_status r2 = FULLY_FUNDED
     /\ e_funded (initiatorHTLC s) = true /\ e_funded (responderHTLC s) = true
     /\ e_fundingTxid (initiatorHTLC s) = fp_txid p
     /\ e_fundingTxid (responderHTLC s) = fp_txid q)
  /\ (@recordResponderFunding first p w = (w1, Ok r1) ->
      @recordInitiatorFunding second q w1 = (w2, Ok r2) ->
      exists s,
        swaps w2 !! fp_swapId p = Some s
        /\ status s = FULLY_FUNDED /\ fr_status r2 = FULLY_FUNDED
        /\ e_funded (initiatorHTLC s) = true /\ e_funded (responderHTLC s) = true
        /\ e_fundingTxid (initiatorHTLC s) = fp_txid q
        /\ e_fundingTxid (responderHTLC s) = fp_txid p).
Proof.
  intros Hsame. split; intros Hfirst Hsecond.
  - apply (@recordInitiatorFunding_effect first) in Hfirst
      as (s & b1 & Hs & _ & _ & _ & Hw1 & _).
    apply (@recordResponderFunding_effect second) in Hsecond
      as (s1 & b2 & Hs1 & _ & _ & _ & Hw2 & Hr2).
    rewrite Hsame, Hw1, lookup_insert_eq in Hs1. injection Hs1 as <-.
    rewrite Hsame in Hw2.
    eexists. split; [rewrite Hw2; apply lookup_insert_eq|].
    rewrite Hr2. repeat split; reflexivity.
  - apply (@recordResponderFunding_effect first) in Hfirst
      as (s & b1 & Hs & _ & _ & _ & Hw1 & _).
    apply (@recordInitiatorFunding_effect second) in Hsecond
      as (s1 & b2 & Hs1 & _ & _ & _ & Hw2 & Hr2).
    rewrite Hsame, Hw1, lookup_insert_eq in Hs1. injection Hs1 as <-.
    rewrite Hsame in Hw2.
    eexists. split; [rewrite Hw2; apply lookup_insert_eq|].
    rewrite Hr2. repeat split; reflexivity.
Qed.

Lemma funding_in_either_order_witness :
  exists s,
    swaps (fst (@recordResponderFunding (ledgersUp exampleStart) exampleFunding
                  (fst (@recordInitiatorFunding (ledgersUp exampleStart) exampleFunding
                          joinedWorld)))) !! exampleSwapId = Some s
    /\ status s = FULLY_FUNDED.
Proof.
  destruct (@recordInitiatorFunding (ledgersUp exampleStart) exampleFunding joinedWorld)
    as [w1 [r1|e]] eqn:Hfirst.
  - cbn [fst].
    destruct (@recordResponderFunding (ledgersUp exampleStart) exampleFunding w1)
      as [w2 [r2|e]] eqn:Hsecond.
    + destruct (proj1 (funding_in_either_order (ledgersUp exampleStart)
                         (ledgersUp exampleStart) exampleFunding exampleFunding
                         joinedWorld w1 w2 r1 r2 eq_refl) Hfirst Hsecond)
        as (s & Hs & Hstatus & _).
      exists s. cbn [fst]. split; [exact Hs | exact Hstatus].
    + apply (f_equal (fun p => fst p)) in Hfirst. cbn [fst] in Hfirst. subst w1.
      apply (f_equal (fun p => isOk (snd p))) in Hsecond.
      vm_compute in Hsecond. discriminate Hsecond.
  - apply (f_equal (fun p => isOk (snd p))) in Hfirst.
    vm_compute in Hfirst. discriminate Hfirst.
Defined.

(** X5.  Once a funding record has gone through, the same record is
    refused ever after on the state it left, whatever the ledgers answer:
    the status it set is not one from which that side records funding. *)
Theorem funding_not_recorded_twice (first second : Env) (p q : FundingParams)
  (w w1 : World) (r1 : FundingResult) :
  fp_swapId q = fp_swapId p ->
  (@recordInitiatorFunding first p w = (w1, Ok r1) ->
   @recordInitiatorFunding second q w1 = (w1, Throw (ErrCannotFund (fr_status r1))))
  /\ (@recordResponderFunding first p w = (w1, Ok r1) ->
      @recordResponderFunding second q w1 = (w1, Throw (ErrCannotFund (fr_status r1)))).
Proof.
  intros Hsame. split; intros Hfirst.
  - apply (@recordInitiatorFunding_effect first) in Hfirst
      as (s & b1 & Hs & _ & _ & _ & Hw1 & Hr1).
    rewrite Hr1.
    apply (@recordInitiatorFunding_refused second).
    + rewrite Hsame, Hw1. apply lookup_insert_eq.
    + cbn. destruct (e_funded (responderHTLC s)); discriminate.
    + cbn. destruct (e_funded (responderHTLC s)); discriminate.
  - apply (@recordResponderFunding_effect first) in Hfirst
      as (s & b1 & Hs & _ & _ & _ & Hw1 & Hr1).
    rewrite Hr1.
    apply (@recordResponderFunding_refused second).
    + rewrite Hsame, Hw1. apply lookup_insert_eq.
    + cbn. destruct (e_funded (initiatorHTLC s)); discriminate.
    + cbn. destruct (e_funded (initiatorHTLC s)); discriminate.
Qed.

Lemma funding_not_recorded_twice_witness :
  exists w1,
    w1 = fst (@recordInitiatorFunding (ledgersUp exampleStart) exampleFunding joinedWorld)
    /\ @recordInitiatorFunding (ledgersUp exampleStart) exampleFunding w1
       = (w1, Throw (ErrCannotFund INITIATOR_FUNDED)).
Proof.
  destruct (@recordInitiatorFunding (ledgersUp exampleStart) exampleFunding joinedWorld)
    as [w1 [r1|e]] eqn:Hfirst.
  - exists w1. split; [reflexivity|].
    assert (Hr1 : fr_status r1 = INITIATOR_FUNDED).
    { apply (f_equal (fun p => match snd p with Ok r => Some (fr_status r) | _ => None end))
        in Hfirst.
      vm_compute in Hfirst. injection Hfirst as Hfirst. symmetry. exact Hfirst. }
    rewrite <- Hr1.
    apply (proj1 (funding_not_recorded_twice (ledgersUp exampleStart)
                    (ledgersUp exampleStart) exampleFunding exampleFunding
                    joinedWorld w1 r1 eq_refl) Hfirst).
  - apply (f_equal (fun p => isOk (snd p))) in Hfirst.
    vm_compute in Hfirst. discriminate Hfirst.
Defined.

(** ** Escrows on Solana *)

Section Solana.

Context `{Env}.

Lemma initiatorClaim_solana (p : ClaimRequest) (w : World) (s : Swap) :
  swaps w !! cq_swapId p = Some s ->
  toChain s = "SOL" ->
  status s = FULLY_FUNDED ->
  initiatorClaim p w
  = (markedClaiming (cq_swapId p) w, Throw (Err "No funds to claim in responder HTLC")).
Proof.
  intros Hfound Hchain Hstatus. unfold initiatorClaim.
  rewrite bind_run, (getSwap_found _ _ _ Hfound).
  rewrite (bool_decide_eq_true_2 _ Hstatus). cbn [negb].
  unfold fetchUtxos. rewrite Hchain. reflexivity.
Qed.

Lemma initiatorClaim_solana_fails (p : ClaimRequest) (w w' : World) (s : Swap)
  (r : SpendResult) :
  swaps w !! cq_swapId p = Some s ->
  toChain s = "SOL" ->
  initiatorClaim p w <> (w', Ok r).
Proof.
  intros Hfound Hchain.
  destruct (decide (status s = FULLY_FUNDED)) as [Hstatus|Hstatus].
  - rewrite (initiatorClaim_solana _ _ _ Hfound Hchain Hstatus). discriminate.
  - rewrite (initiatorClaim_refuses _ _ _ Hfound Hstatus). discriminate.
Qed.

Lemma responderClaim_solana (p : ClaimRequest) (w : World) (s : Swap) :
  swaps w !! cq_swapId p = Some s ->
  fromChain s = "SOL" ->
  exists e, responderClaim p w = (w, Throw e)
    /\ (Crypto.sha256Hex (Crypto.ofHex (cq_swapSecret p)) = swap_hash (initiator s) ->
        e = Err "No funds to claim in initiator HTLC").
Proof.
  intros Hfound Hchain. unfold responderClaim.
  rewrite bind_run, (getSwap_found _ _ _ Hfound).
  destruct (String.eqb _ _) eqn:Hsecret; cbn [negb].
  - unfold fetchUtxos. rewrite Hchain. eexists. split; [reflexivity|]. reflexivity.
  - eexists. split; [reflexivity|]. intros Heq.
    apply String.eqb_neq in Hsecret. contradiction.
Qed.

Lemma initiatorRefund_solana (p : RefundRequest) (w : World) (s : Swap) :
  swaps w !! rq_swapId p = Some s ->
  fromChain s = "SOL" ->
  exists e, initiatorRefund p w = (w, Throw e)
    /\ (e_timeout (initiatorHTLC s) <= nowSeconds -> e = Err "No funds to refund").
Proof.
  intros Hfound Hchain. unfold initiatorRefund.
  rewrite bind_run, (getSwap_found _ _ _ Hfound). cbv zeta.
  destruct (nowSeconds <? e_timeout (initiatorHTLC s)) eqn:Hnow.
  - eexists. split; [reflexivity|]. apply Z.ltb_lt in Hnow. lia.
  - unfold fetchUtxos. rewrite Hchain. eexists. split; reflexivity.
Qed.

Lemma responderRefund_solana (p : RefundRequest) (w : World) (s : Swap) :
  swaps w !! rq_swapId p = Some s ->
  toChain s = "SOL" ->
  exists e, responderRefund p w = (w, Throw e)
    /\ (e_timeout (responderHTLC s) <= nowSeconds -> e = Err "No funds to refund").
Proof.
  intros Hfound Hchain. unfold responderRefund.
  rewrite bind_run, (getSwap_found _ _ _ Hfound). cbv zeta.
  destruct (nowSeconds <? e_timeout (responderHTLC s)) eqn:Hnow.
  - eexists. split; [reflexivity|]. apply Z.ltb_lt in Hnow. lia.
  - unfold fetchUtxos. rewrite Hchain. eexists. split; reflexivity.
Qed.

End Solana.

(** X6.  An escrow on Solana is never spent through the coordinator.  On a
    swap whose [toChain] is SOL, [initiatorClaim] never returns: once the
    swap is fully funded it fails with 'No funds to claim in responder HTLC'
    without a call to any ledger, leaving the swap marked [CLAIMING]; and
    [responderRefund] fails with the state untouched, after the timeout with
    'No funds to refund'.  On a swap whose [fromChain] is SOL the same holds
    of [responderClaim] (with the right swap secret: 'No funds to claim in
    initiator HTLC') and of [initiatorRefund]. *)
Theorem solana_escrow_never_spent `{Env} (id : string) (w : World) (s : Swap) :
  swaps w !! id = Some s ->
  (toChain s = "SOL" ->
   (forall p w' r, cq_swapId p = id -> initiatorClaim p w <> (w', Ok r))
   /\ (forall p, cq_swapId p = id -> status s = FULLY_FUNDED ->
       initiatorClaim p w
       = (markedClaiming id w, Throw (Err "No funds to claim in responder HTLC")))
   /\ (forall p, rq_swapId p = id ->
       exists e, responderRefund p w = (w, Throw e)
         /\ (e_timeout (responderHTLC s) <= nowSeconds -> e = Err "No funds to refund")))
  /\ (fromChain s = "SOL" ->
      (forall p, cq_swapId p = id ->
       exists e, responderClaim p w = (w, Throw e)
         /\ (Crypto.sha256Hex (Crypto.ofHex (cq_swapSecret p)) = swap_hash (initiator s) ->
             e = Err "No funds to claim in initiator HTLC"))
      /\ (forall p, rq_swapId p = id ->
          exists e, initiatorRefund p w = (w, Throw e)
            /\ (e_timeout (initiatorHTLC s) <= nowSeconds -> e = Err "No funds to refund"))).
Proof.
  intros Hfound. split; intros Hchain.
  - split; [|split].
    + intros p w' r <-. apply (initiatorClaim_solana_fails p w w' s r Hfound Hchain).
    + intros p <- Hstatus. apply (initiatorClaim_solana p w s Hfound Hchain Hstatus).
    + intros p <-. apply (responderRefund_solana p w s Hfound Hchain).
  - split.
    + intros p <-. apply (responderClaim_solana p w s Hfound Hchain).
    + intros p <-. apply (initiatorRefund_solana p w s Hfound Hchain).
Qed.

Lemma solana_escrow_never_spent_witness :
  exists s,
    swaps solanaWorld !! exampleSwapId = Some s
    /\ status s = FULLY_FUNDED
    /\ @initiatorClaim (ledgersUp exampleStart)
         {| cq_swapId := exampleSwapId; cq_swapSecret := ""; cq_toAddress := None |}
         solanaWorld
       = (markedClaiming exampleSwapId solanaWorld,
          Throw (Err "No funds to claim in responder HTLC")).
Proof.
  destruct (swaps solanaWorld !! exampleSwapId) as [s|] eqn:Hfound.
  - assert (Hchain : toChain s = "SOL").
    { apply (f_equal (fun o => match o with Some x => toChain x | None => "" end)) in Hfound.
      vm_compute in Hfound. symmetry. exact Hfound. }
    assert (Hstatus : status s = FULLY_FUNDED).
    { apply (f_equal (fun o => match o with Some x => status x | None => FAILED end))
        in Hfound.
      vm_compute in Hfound. symmetry. exact Hfound. }
    exists s. split; [reflexivity|]. split; [exact Hstatus|].
    apply (proj1 (@solana_escrow_never_spent (ledgersUp exampleStart) exampleSwapId
                    solanaWorld s Hfound) Hchain).
    + reflexivity.
    + exact Hstatus.
  - apply (f_equal (fun o => isSome o)) in Hfound. vm_compute in Hfound. discriminate Hfound.
Defined.

(** ** Escrows tied to the terms of their swap *)

(** The two hashes of the claim branch sit at fixed places of a script that
    parses. *)
Lemma parse_heads (s : string) (parsed : Htlc.ParsedHTLC) :
  Htlc.parseHTLCScript s = Ok parsed ->
  Htlc.parsed_swapHash parsed = stake 64 (sdrop 6 s)
  /\ Htlc.parsed_recipientHash parsed = stake 64 (sdrop 76 s).
Proof.
  intros H. unfold Htlc.parseHTLCScript in H.
  cbv zeta in H. cbn [Js.add Js.num] in H.
  change (0 + 2 + 2 + 2) with 6 in H. change (6 + 64 + 2 + 2 + 2) with 76 in H.
  do 8 (apply bind_Ok in H as (? & _ & H)).
  do 7 (apply bind_Ok in H as (? & _ & H)).
  injection H as <-.
  cbn [Htlc.parsed_swapHash Htlc.parsed_recipientHash].
  rewrite !peek_at by lia. split; reflexivity.
Qed.

Lemma createHTLCScript_heads (params : Htlc.HTLCParams) (script : string) :
  builtFrom params script ->
  stake 64 (sdrop 6 script) = Htlc.p_swapHash params
  /\ stake 64 (sdrop 76 script) = Htlc.p_recipientHash params.
Proof.
  intros (c & Hc & <-). revert Hc. unfold Htlc.createHTLCScript.
  destruct (String.length (Htlc.p_swapHash params) =? 64)%nat eqn:Hsh; [|discriminate].
  destruct (String.length (Htlc.p_recipientHash params) =? 64)%nat eqn:Hrh; [|discriminate].
  apply Nat.eqb_eq in Hsh, Hrh. cbn [negb].
  destruct (negb _); [discriminate|].
  destruct (_ || _); [discriminate|].
  rewrite (pushData_hash _ Hsh), (pushData_hash _ Hrh). cbn [mbind result_bind].
  destruct (Crypto.pushData (Htlc.encodeMinimalNumber _)); [|discriminate].
  cbn [mbind result_bind].
  destruct (Crypto.pushData (Htlc.p_refundHash params)); [|discriminate].
  cbn [mbind result_bind].
  intros [= <-]. cbn [Htlc.redeemScript].
  unfold Htlc.OP_IF, Htlc.OP_SHA256, Htlc.OP_EQUALVERIFY, Htlc.OP_EQUAL.
  rewrite !app_assoc_s.
  split.
  - change ("63" +:+ "a8" +:+ "20" +:+ ?x) with ("63a820" +:+ x).
    rewrite (sdrop_app_len "63a820" _ 6 eq_refl).
    apply stake_app_len. exact Hsh.
  - change ("63" +:+ "a8" +:+ "20" +:+ ?x) with ("63a820" +:+ x).
    rewrite <- (sdrop_sdrop 6 70).
    rewrite (sdrop_app_len "63a820" _ 6 eq_refl).
    rewrite <- (sdrop_sdrop 64 6).
    rewrite (sdrop_app_len _ _ 64 Hsh).
    change ("88" +:+ "a8" +:+ "20" +:+ ?x) with ("88a820" +:+ x).
    rewrite (sdrop_app_len "88a820" _ 6 eq_refl).
    apply stake_app_len. exact Hrh.
Qed.

Lemma linked_shares (s : Swap) : escrowsLinked s -> sharesSwapHash s.
Proof.
  intros [Hinitiator Hresponder]. split.
  - intros script parsed Hscript Hparse.
    destruct (Hinitiator _ Hscript) as (h & Hbuilt).
    apply createHTLCScript_heads in Hbuilt as [Hsh _].
    apply parse_heads in Hparse as [-> _]. exact Hsh.
  - intros script parsed Hscript Hparse.
    destruct (Hresponder _ Hscript) as (h & Hbuilt).
    apply createHTLCScript_heads in Hbuilt as [Hsh Hrh].
    apply parse_heads in Hparse as [-> ->]. split; [exact Hsh | exact Hrh].
Qed.

(** The script taken from the result of [createHTLC], on either script
    ledger, is the builder's. *)
Lemma createHTLC_built (params : Htlc.HTLCParams) (chain network : string)
  (escrow : Htlc.HTLC) (script : string) :
  Htlc.createHTLC params chain network = Ok escrow ->
  Htlc.lockingScript escrow = Some script
  \/ Some (Htlc.redeemScript (Htlc.htlcScript escrow)) = Some script ->
  builtFrom params script.
Proof.
  unfold Htlc.createHTLC, builtFrom.
  destruct (Htlc.createHTLCScript params) as [c|]; [|discriminate].
  cbn [mbind result_bind].
  destruct (String.eqb chain "BSV"); intros [= <-];
    cbn [Htlc.lockingScript Htlc.htlcScript];
    intros [Hscript|Hscript]; try discriminate Hscript;
    injection Hscript as <-; exists c; split; reflexivity.
Qed.

Ltac settle_linked Hw :=
  cbn [swaps fst];
  let id := fresh "id" in
  let s := fresh "s" in
  let Hs := fresh "Hs" in
  intros id s Hs;
  match goal with
  | Hfound : swaps ?w !! ?key = Some ?s0 |- _ =>
      match type of Hs with
      | context [alter _ key _] =>
          destruct (decide (id = key)) as [->|Hother];
          [ rewrite !lookup_alter_eq, Hfound in Hs;
            cbn [fmap option_fmap option_map] in Hs; injection Hs as <-;
            destruct (Hw _ _ Hfound) as [Hfirst Hsecond];
            unfold escrowsLinked;
            cbn [initiator initiatorHTLC responderHTLC set_status set_updatedAt
                 set_responder set_initiatorHTLC set_responderHTLC push_transaction
                 set_script set_solana set_funded e_lockingScript e_timeout];
            split; intros script Hscript;
            first
              [ exact (Hfirst script Hscript)
              | exact (Hsecond script Hscript)
              | match goal with
                | Hh : Htlc.createHTLC (initiatorEscrowParams _ ?rs) _ _ = Ok _
                  |- context [refund_hash] =>
                    exists (rs_recipient_hash rs);
                    apply (createHTLC_built _ _ _ _ _ Hh);
                    first [left; exact Hscript | right; exact Hscript]
                | Hh : Htlc.createHTLC (responderEscrowParams _ ?rs) _ _ = Ok _
                  |- context [claim_hash] =>
                    exists (rs_refund_hash rs);
                    apply (createHTLC_built _ _ _ _ _ Hh);
                    first [left; exact Hscript | right; exact Hscript]
                end ]
          | rewrite !lookup_alter_ne in Hs by congruence; exact (Hw _ _ Hs) ]
      end
  | |- _ => exact (Hw _ _ Hs)
  end.

Section Linked.

Context `{Env}.

Variable w : World.
Hypothesis Hw : linked w.

Lemma initiatorClaim_linked (params : ClaimRequest) :
  linked (fst (initiatorClaim params w)).
Proof.
  unfold linked, initiatorClaim, fetchUtxos, broadcastTransaction.
  run_coord; settle_linked Hw.
Qed.

Lemma responderClaim_linked (params : ClaimRequest) :
  linked (fst (responderClaim params w)).
Proof.
  unfold linked, responderClaim, fetchUtxos, broadcastTransaction.
  run_coord; settle_linked Hw.
Qed.

Lemma initiatorRefund_linked (params : RefundRequest) :
  linked (fst (initiatorRefund params w)).
Proof.
  unfold linked, initiatorRefund, fetchUtxos, broadcastTransaction.
  run_coord; settle_linked Hw.
Qed.

Lemma responderRefund_linked (params : RefundRequest) :
  linked (fst (responderRefund params w)).
Proof.
  unfold linked, responderRefund, fetchUtxos, broadcastTransaction.
  run_coord; settle_linked Hw.
Qed.

Lemma recordInitiatorFunding_linked (params : FundingParams) :
  linked (fst (recordInitiatorFunding params w)).
Proof.
  unfold linked, recordInitiatorFunding, fetchBalance.
  run_coord; settle_linked Hw.
Qed.

Lemma recordResponderFunding_linked (params : FundingParams) :
  linked (fst (recordResponderFunding params w)).
Proof.
  unfold linked, recordResponderFunding, fetchBalance.
  run_coord; settle_linked Hw.
Qed.

Lemma joinSwap_linked (responderSecrets : ResponderSecrets) (params : JoinParams) :
  linked (fst (joinSwap responderSecrets params w)).
Proof.
  unfold linked, joinSwap, storeEscrow.
  run_coord; settle_linked Hw.
Qed.

Lemma initiateSwap_linked (uuid : string) (initiatorSecrets : InitiatorSecrets)
  (params : InitiateParams) :
  linked (fst (initiateSwap uuid initiatorSecrets params w)).
Proof.
  unfold linked, initiateSwap, setSwap.
  run_coord; cbn [swaps fst]; intros id s Hs; try exact (Hw _ _ Hs).
  all: destruct (decide (newSwapId uuid = id)) as [<-|Hother];
    [ unfold newSwapId in Hs; rewrite lookup_insert_eq in Hs; injection Hs as <-;
      split; intros script Hscript; discriminate Hscript
    | unfold newSwapId in Hother; rewrite lookup_insert_ne in Hs by exact Hother;
      exact (Hw _ _ Hs) ].
Qed.

Lemma perform_linked (call : Call) : linked (perform call w).
Proof.
  destruct call; cbn [perform].
  - apply initiateSwap_linked.
  - apply joinSwap_linked.
  - apply recordInitiatorFunding_linked.
  - apply recordResponderFunding_linked.
  - apply initiatorClaim_linked.
  - apply responderClaim_linked.
  - apply initiatorRefund_linked.
  - apply responderRefund_linked.
Qed.

End Linked.

Lemma reachable_linked (calls : list (Env * Call)) :
  linked (performAll calls emptyWorld).
Proof.
  assert (Hall : forall w, linked w -> linked (performAll calls w)).
  { induction calls as [|[moment call] rest IH]; intros w Hw; cbn [performAll].
    - exact Hw.
    - apply IH. apply (@perform_linked moment). exact Hw. }
  apply Hall. intros id s Hs. cbn in Hs. rewrite lookup_empty in Hs. discriminate Hs.
Qed.

(** X7.  In every state that calls of the coordinator reach from the empty
    store, the script kept for an escrow is the one [createHTLCScript] makes
    of the terms of its swap: the initiator's escrow is locked under the
    swap hash, the refund hash and the timeout of the initiator, the
    responder's under the same swap hash, the initiator's claim hash and the
    responder's timeout.  So whenever [parseHTLCScript] reads the two
    scripts, it reads the same swap hash from both, the one of the swap
    record. *)
Theorem escrows_share_swap_hash (calls : list (Env * Call)) (id : string) (s : Swap) :
  swaps (performAll calls emptyWorld) !! id = Some s ->
  escrowsLinked s /\ sharesSwapHash s.
Proof.
  intros Hs. pose proof (reachable_linked calls id s Hs) as Hlinked.
  split; [exact Hlinked | apply linked_shares; exact Hlinked].
Qed.

Lemma escrows_share_swap_hash_witness :
  exists s a b,
    swaps (performAll exampleCalls emptyWorld) !! exampleSwapId = Some s
    /\ e_lockingScript (initiatorHTLC s) = Some a
    /\ e_lockingScript (responderHTLC s) = Some b
    /\ sharesSwapHash s.
Proof.
  destruct (swaps (performAll exampleCalls emptyWorld) !! exampleSwapId) as [s|] eqn:Hs.
  - destruct (e_lockingScript (initiatorHTLC s)) as [a|] eqn:Ha.
    + destruct (e_lockingScript (responderHTLC s)) as [b|] eqn:Hb.
      * exists s, a, b. split; [reflexivity|]. split; [exact Ha|]. split; [exact Hb|].
        apply (escrows_share_swap_hash exampleCalls exampleSwapId s Hs).
      * apply (f_equal (fun o => match o with
                                  | Some x => isSome (e_lockingScript (responderHTLC x))
                                  | None => true
                                  end)) in Hs.
        rewrite Hb in Hs. vm_compute in Hs. discriminate Hs.
    + apply (f_equal (fun o => match o with
                                | Some x => isSome (e_lockingScript (initiatorHTLC x))
                                | None => true
                                end)) in Hs.
      rewrite Ha in Hs. vm_compute in Hs. discriminate Hs.
  - apply (f_equal (fun o => isSome o)) in Hs. vm_compute in Hs. discriminate Hs.
Defined.

(** ** The initiator's claim *)

Section InitiatorClaim.

Context `{Env}.

Lemma buildClaimTransaction_parses (m : ChainModule) (build : ClaimParams) (tx : string) :
  cp_redeemScript build = cp_lockingScript build ->
  buildClaimTransaction m build = Ok tx ->
  exists script parsed,
    cp_lockingScript build = Some script /\ Htlc.parseHTLCScript script = Ok parsed.
Proof.
  intros Hsame.
  destruct m; cbn [buildClaimTransaction];
    [unfold Bsv.buildClaimTransaction | unfold Btc.buildClaimTransaction | discriminate].
  all: rewrite ?Hsame; cbv zeta.
  all: destruct (cp_lockingScript build) as [script|]; [|discriminate].
  all: cbn [parseScript].
  all: destruct (Htlc.parseHTLCScript script) as [parsed|] eqn:Hparse; [|discriminate].
  all: intros _; exists script, parsed; split; [reflexivity | exact Hparse].
Qed.

Lemma initiatorClaim_effect (p : ClaimRequest) (w w' : World) (r : SpendResult) :
  initiatorClaim p w = (w', Ok r) ->
  exists s utxo m tx,
    swaps w !! cq_swapId p = Some s
    /\ status s = FULLY_FUNDED
    /\ buildClaimTransaction m (initiatorClaimParams s utxo (cq_toAddress p)) = Ok tx
    /\ swaps w'
       = <[cq_swapId p := afterInitiatorClaim (sr_txid r) Date_now s]> (swaps w)
    /\ last (ledgerCalls w') = Some (Broadcast (toChain s) tx)
    /\ sr_status r = COMPLETED
    /\ sr_chain r = toChain s
    /\ sr_revealedSecret r = Some (swap_secret (initiator s)).
Proof.
  unfold initiatorClaim.
  rewrite bind_run. unfold getSwap at 1.
  destruct (swaps w !! cq_swapId p) as [s|] eqn:Hfound; [|discriminate].
  destruct (bool_decide (status s = FULLY_FUNDED)) eqn:Hstatus; [|discriminate].
  apply bool_decide_eq_true in Hstatus. cbn [negb].
  unfold fetchUtxos.
  destruct (String.eqb (toChain s) "BSV") eqn:Hbsv;
    [|destruct (String.eqb (toChain s) "BTC") eqn:Hbtc].
  3:{ run_coord; discriminate. }
  1: apply String.eqb_eq in Hbsv; rewrite !Hbsv;
     change (getChainModule "BSV") with (Ok bsv).
  2: apply String.eqb_eq in Hbtc; rewrite !Hbtc;
     change (getChainModule "BTC") with (Ok btc).
  all: unfold broadcastTransaction.
  all: run_coord; try discriminate.
  all: intros Hrun; inversion Hrun; subst; clear Hrun.
  all: do 4 eexists; cbn [swaps ledgerCalls sr_status sr_chain sr_revealedSecret sr_txid].
  all: split; [reflexivity|]; split; [exact Hstatus|].
  all: split; [unfold initiatorClaimParams;
               match goal with Hb : buildClaimTransaction _ _ = Ok _ |- _ => exact Hb end|].
  all: split; [rewrite (alter_found _ _ _ _ Hfound), !alter_inserted;
               unfold afterInitiatorClaim, spendEntry; rewrite ?Hbsv, ?Hbtc; reflexivity|].
  all: split; [rewrite last_snoc, ?Hbsv, ?Hbtc; reflexivity|].
  all: rewrite ?Hbsv, ?Hbtc; repeat split; reflexivity.
Qed.

End InitiatorClaim.

(** X8.  When [initiatorClaim] returns, in a state that calls of the
    coordinator have reached from the empty store, the swap was fully
    funded, one spend was broadcast on the responder's ledger, the record is
    the old one completed with the claim added to its transactions, and the
    swap secret that the result reveals hashes to the swap hash of the
    record, which is the hash that locks the initiator's escrow: it is the
    secret the responder needs for [responderClaim].  The claim secret of
    the record hashes to its claim hash as well. *)
Theorem initiatorClaim_reveals_swap_secret `{Env} (calls : list (Env * Call))
  (p : ClaimRequest) (w' : World) (r : SpendResult) :
  initiatorClaim p (performAll calls emptyWorld) = (w', Ok r) ->
  exists s tx,
    swaps (performAll calls emptyWorld) !! cq_swapId p = Some s
    /\ status s = FULLY_FUNDED
    /\ swaps w' = <[cq_swapId p := afterInitiatorClaim (sr_txid r) Date_now s]>
                    (swaps (performAll calls emptyWorld))
    /\ last (ledgerCalls w') = Some (Broadcast (toChain s) tx)
    /\ sr_status r = COMPLETED
    /\ sr_revealedSecret r = Some (swap_secret (initiator s))
    /\ Crypto.sha256Hex (Crypto.ofHex (swap_secret (initiator s))) = swap_hash (initiator s)
    /\ Crypto.sha256Hex (Crypto.ofHex (claim_secret (initiator s))) = claim_hash (initiator s)
    /\ (forall script parsed,
          e_lockingScript (initiatorHTLC s) = Some script ->
          Htlc.parseHTLCScript script = Ok parsed ->
          Crypto.sha256Hex (Crypto.ofHex (swap_secret (initiator s)))
          = Htlc.parsed_swapHash parsed).
Proof.
  intros Hrun.
  apply initiatorClaim_effect in Hrun
    as (s & utxo & m & tx & Hs & Hstatus & Hbuild & Hw' & Hcalls & Hr & _ & Hsecret).
  destruct (linked_shares s (reachable_linked calls _ _ Hs)) as [Hinitiator Hresponder].
  destruct (fun same => buildClaimTransaction_parses m _ tx same Hbuild)
    as (script & parsed & Hscript & Hparse); [reflexivity|].
  cbn [initiatorClaimParams cp_lockingScript] in Hscript.
  assert (Hmatch : secretsMatch parsed (swap_secret (initiator s))
                     (Some (claim_secret (initiator s)))).
  { apply (fun same parse =>
             buildClaimTransaction_checks m _ parsed tx same parse Hbuild);
      [reflexivity|].
    cbn [initiatorClaimParams cp_lockingScript]. rewrite Hscript. exact Hparse. }
  destruct Hmatch as [Hswap Hclaim]. cbn [sha256HexOf] in Hclaim.
  injection Hclaim as Hclaim.
  destruct (Hresponder script parsed Hscript Hparse) as [Hsh Hrh].
  exists s, tx.
  split; [exact Hs|]. split; [exact Hstatus|]. split; [exact Hw'|].
  split; [exact Hcalls|]. split; [exact Hr|]. split; [exact Hsecret|].
  split; [rewrite Hswap; exact Hsh|]. split; [rewrite Hclaim; exact Hrh|].
  intros script' parsed' Hscript' Hparse'.
  rewrite (Hinitiator script' parsed' Hscript' Hparse'), Hswap. exact Hsh.
Qed.

Lemma initiatorClaim_reveals_swap_secret_witness :
  exists w' r s,
    @initiatorClaim (ledgersUp (exampleStart + 60000)) completedRequest
      (performAll fundingCalls emptyWorld) = (w', Ok r)
    /\ swaps (performAll fundingCalls emptyWorld) !! exampleSwapId = Some s
    /\ sr_revealedSecret r = Some (swap_secret (initiator s))
    /\ Crypto.sha256Hex (Crypto.ofHex (swap_secret (initiator s))) = swap_hash (initiator s).
Proof.
  destruct (@initiatorClaim (ledgersUp (exampleStart + 60000)) completedRequest
              (performAll fundingCalls emptyWorld)) as [w' [r|e]] eqn:Hrun.
  - destruct (@initiatorClaim_reveals_swap_secret (ledgersUp (exampleStart + 60000))
                fundingCalls completedRequest w' r Hrun)
      as (s & tx & Hs & _ & _ & _ & _ & Hsecret & Hhash & _).
    exists w', r, s. split; [reflexivity|]. split; [exact Hs|].
    split; [exact Hsecret | exact Hhash].
  - apply (f_equal (fun p => isOk (snd p))) in Hrun.
    vm_compute in Hrun. discriminate Hrun.
Defined.

(** ** Generated secrets *)

Section Digests.

Lemma length_round (k wt : Z) (st : list Z) :
  length st = 8%nat -> length (Sha256.round k wt st) = 8%nat.
Proof.
  intros Hst.
  do 8 (destruct st as [|? st]; [discriminate Hst|]).
  destruct st; [reflexivity | discriminate Hst].
Qed.

Lemma length_rounds (ks w st : list Z) :
  length st = 8%nat -> length (Sha256.rounds ks w st) = 8%nat.
Proof.
  revert w st. induction ks as [|k ks IH]; intros w st Hst; [exact Hst|].
  cbn [Sha256.rounds]. apply IH, length_round, Hst.
Qed.

Lemma length_compress (h block : list Z) :
  length h = 8%nat -> length (Sha256.compress h block) = 8%nat.
Proof.
  intros Hh. unfold Sha256.compress.
  rewrite length_map, length_combine, length_rounds by exact Hh. rewrite Hh. reflexivity.
Qed.

Lemma length_blocks (n : nat) (h bs : list Z) :
  length h = 8%nat -> length (Sha256.blocks n h bs) = 8%nat.
Proof.
  revert h bs. induction n as [|n IH]; intros h bs Hh; [exact Hh|].
  cbn [Sha256.blocks]. apply IH, length_compress, Hh.
Qed.

Lemma length_words_bytes (ws : list Z) :
  length (flat_map (Sha256.bigEndian 4) ws) = (4 * length ws)%nat.
Proof.
  induction ws as [|x r IH]; [reflexivity|].
  cbn [flat_map]. rewrite List.length_app, IH. cbn [Sha256.bigEndian length]. lia.
Qed.

(** A SHA-256 digest is 32 bytes long, whatever is hashed. *)
Lemma length_sha256 (data : Crypto.Data) : length (Crypto.sha256 data) = 32%nat.
Proof.
  unfold Crypto.sha256, Sha256.sha256, Sha256.digest.
  rewrite length_map, length_words_bytes, length_blocks; reflexivity.
Qed.

Lemma length_iteratedHash256 (data : Buffer) (n : Z) :
  0 < n -> length (Crypto.iteratedHash256 data n) = 32%nat.
Proof.
  intros Hn. unfold Crypto.iteratedHash256.
  destruct (Z.to_nat n) as [|k] eqn:Hk; [lia|].
  cbn [Nat.iter]. apply length_sha256.
Qed.

Lemma length_concat_32 (bufs : list Buffer) :
  Forall (fun buf => length buf = 32%nat) bufs ->
  length (concat bufs) = (32 * length bufs)%nat.
Proof.
  induction 1 as [|buf r Hbuf _ IH]; [reflexivity|].
  cbn [concat]. rewrite List.length_app, Hbuf, IH. cbn [length]. lia.
Qed.

Lemma sha256Hex_toHex (b : Buffer) :
  Crypto.sha256Hex (Crypto.ofHex (Js.toHex b)) = Js.toHex (Crypto.sha256 (Crypto.ofBuffer b)).
Proof.
  unfold Crypto.sha256Hex, Crypto.sha256. cbn [Crypto.toBuffer].
  rewrite fromHex_toHex. reflexivity.
Qed.

(** The preimage of a keypair opens its hash. *)
Lemma keypairOf_opens (privateScalars : list Buffer) (hex : list string) :
  length privateScalars = Crypto.WOTS_CHUNKS ->
  opens (Crypto.publicKeyPreimage (Crypto.keypairOf privateScalars hex))
        (Crypto.publicKeyHash (Crypto.keypairOf privateScalars hex)).
Proof.
  intros H32. unfold opens, Crypto.keypairOf.
  cbn [Crypto.publicKeyPreimage Crypto.publicKeyHash].
  assert (Hdigest := sha256Hex_toHex
    (concat (map (fun scalar => Crypto.iteratedHash256 scalar Crypto.WOTS_ITERATIONS)
               privateScalars))).
  split; [exact Hdigest|].
  split; [unfold Crypto.verifyPreimage; rewrite Hdigest; apply String.eqb_refl|].
  split.
  - rewrite length_toHex, length_concat_32.
    + rewrite length_map, H32. reflexivity.
    + apply Forall_forall. intros buf Hbuf.
      apply list_elem_of_In, in_map_iff in Hbuf as (scalar & <- & _).
      apply length_iteratedHash256. reflexivity.
  - rewrite length_toHex, length_sha256. reflexivity.
Qed.

Lemma generateWinternitzKeypair_opens (randomBytes : nat -> Buffer) :
  opens (Crypto.publicKeyPreimage (Crypto.generateWinternitzKeypair randomBytes))
        (Crypto.publicKeyHash (Crypto.generateWinternitzKeypair randomBytes)).
Proof.
  unfold Crypto.generateWinternitzKeypair. apply keypairOf_opens.
  rewrite length_map, length_seq. reflexivity.
Qed.

End Digests.

(** X9.  Every secret that [generateInitiatorSecrets] and
    [generateResponderSecrets] return opens the hash returned with it,
    whatever the random draws: the secret is 1024 bytes in hexadecimal, the
    hash is 64 hexadecimal characters (the length [createHTLCScript]
    insists on), the SHA-256 of the secret is the hash as [sha256Hex] prints
    it (what the claim and refund builders compare), and [verifyPreimage]
    accepts the pair. *)
Theorem generated_secrets_open (a b c d e : nat -> Buffer) :
  let i := generateInitiatorSecrets a b c in
  let r := generateResponderSecrets d e in
  opens (swap_secret i) (swap_hash i)
  /\ opens (refund_secret i) (refund_hash i)
  /\ opens (claim_secret i) (claim_hash i)
  /\ opens (rs_recipient_secret r) (rs_recipient_hash r)
  /\ opens (rs_refund_secret r) (rs_refund_hash r).
Proof.
  cbv zeta. unfold generateInitiatorSecrets, generateResponderSecrets.
  cbn [swap_secret swap_hash refund_secret refund_hash claim_secret claim_hash
       rs_recipient_secret rs_recipient_hash rs_refund_secret rs_refund_hash].
  split; [|split; [|split; [|split]]]; apply generateWinternitzKeypair_opens.
Qed.

(** ** Restoring a keypair *)

Lemma checkScalarSizes_ok (bufs : list Buffer) :
  Forall (fun buf => length buf = Crypto.SCALAR_SIZE) bufs ->
  Crypto.checkScalarSizes bufs = Ok tt.
Proof.
  induction 1 as [|buf r Hbuf _ IH]; [reflexivity|].
  cbn [Crypto.checkScalarSizes]. rewrite Hbuf, Nat.eqb_refl. exact IH.
Qed.

Lemma checkScalarSizes_bad (bufs : list Buffer) :
  Exists (fun buf => length buf <> Crypto.SCALAR_SIZE) bufs ->
  Crypto.checkScalarSizes bufs = Throw (Err "Invalid scalar size").
Proof.
  induction bufs as [|buf r IH]; intros Hbad; [inversion Hbad|].
  cbn [Crypto.checkScalarSizes].
  destruct (Nat.eqb_spec (length buf) Crypto.SCALAR_SIZE) as [Hbuf|Hbuf]; [|reflexivity].
  cbn [negb]. apply IH. inversion Hbad; [contradiction | assumption].
Qed.

Lemma map_fromHex_toHex (bufs : list Buffer) : map Js.fromHex (map Js.toHex bufs) = bufs.
Proof.
  induction bufs as [|buf r IH]; [reflexivity|].
  cbn [map]. rewrite fromHex_toHex, IH. reflexivity.
Qed.

(** X10.  [restoreKeypairFromPrivate] gives back the keypair that
    [generateWinternitzKeypair] made, from the hexadecimal private key of
    that keypair alone, when the draws are of 32 bytes each; and it throws
    when it is not given 32 strings, or when one of them does not decode to
    32 bytes. *)
Theorem restoreKeypairFromPrivate_roundtrip (randomBytes : nat -> Buffer)
  (privateKeyHex : list string) :
  ((forall i, (i < Crypto.WOTS_CHUNKS)%nat -> length (randomBytes i) = Crypto.SCALAR_SIZE) ->
   Crypto.restoreKeypairFromPrivate
     (Crypto.sk_hex (Crypto.privateKey (Crypto.generateWinternitzKeypair randomBytes)))
   = Ok (Crypto.generateWinternitzKeypair randomBytes))
  /\ (length privateKeyHex <> Crypto.WOTS_CHUNKS ->
      Crypto.restoreKeypairFromPrivate privateKeyHex = Throw (Err "Expected 32 private scalars"))
  /\ (length privateKeyHex = Crypto.WOTS_CHUNKS ->
      Exists (fun hex => length (Js.fromHex hex) <> Crypto.SCALAR_SIZE) privateKeyHex ->
      Crypto.restoreKeypairFromPrivate privateKeyHex = Throw (Err "Invalid scalar size")).
Proof.
  split; [|split].
  - intros Hdraws. unfold Crypto.generateWinternitzKeypair, Crypto.restoreKeypairFromPrivate.
    cbn [Crypto.keypairOf Crypto.privateKey Crypto.sk_hex].
    rewrite !length_map, length_seq. cbn [Nat.eqb negb Crypto.WOTS_CHUNKS].
    rewrite map_fromHex_toHex.
    rewrite checkScalarSizes_ok; [reflexivity|].
    apply Forall_forall. intros buf Hbuf.
    apply list_elem_of_In, in_map_iff in Hbuf as (i & <- & Hi).
    apply in_seq in Hi. apply Hdraws. unfold Crypto.WOTS_CHUNKS in *. lia.
  - intros Hcount. unfold Crypto.restoreKeypairFromPrivate.
    destruct (Nat.eqb_spec (length privateKeyHex) Crypto.WOTS_CHUNKS); [contradiction|].
    reflexivity.
  - intros Hcount Hbad. unfold Crypto.restoreKeypairFromPrivate.
    rewrite Hcount, Nat.eqb_refl. cbn [negb].
    rewrite checkScalarSizes_bad; [reflexivity|].
    apply Exists_exists in Hbad as (hex & Hin & Hhex).
    apply Exists_exists. exists (Js.fromHex hex). split; [|exact Hhex].
    apply list_elem_of_In. apply in_map. apply list_elem_of_In. exact Hin.
Qed.

Lemma restoreKeypairFromPrivate_roundtrip_witness :
  Crypto.restoreKeypairFromPrivate
    (Crypto.sk_hex (Crypto.privateKey (Crypto.generateWinternitzKeypair exampleDraws)))
  = Ok (Crypto.generateWinternitzKeypair exampleDraws).
Proof.
  apply (proj1 (restoreKeypairFromPrivate_roundtrip exampleDraws [])).
  intros i _. reflexivity.
Defined.

(** ** A signature belongs to one message *)

Lemma signLoop_offsets (message : Buffer) (privateKey : Crypto.PrivateKey)
  (indices : list nat) (signed : list Crypto.Chunk) :
  Crypto.signLoop message privateKey indices = Ok signed ->
  map Crypto.offset signed = map (fun i => Js.byteZ (nth i message x00)) indices.
Proof.
  revert signed. induction indices as [|i r IH]; intros signed.
  - intros [= <-]. reflexivity.
  - cbn [Crypto.signLoop]. unfold Crypto.signChunk.
    destruct (Crypto.scalars privateKey !! i) as [scalar|]; [|discriminate].
    cbn [mbind result_bind].
    destruct (Crypto.signLoop message privateKey r) as [rest|]; [|discriminate].
    cbn [mbind result_bind]. intros [= <-].
    cbn [map Crypto.offset]. rewrite (IH rest eq_refl). reflexivity.
Qed.

Lemma verifyLoop_offsets (message : Buffer) (sig : Crypto.Signature)
  (publicKey : Crypto.PublicKey) (indices : list nat) :
  Crypto.verifyLoop message sig publicKey indices = Ok true ->
  forall i, In i indices ->
    exists chunk, Crypto.chunks sig !! i = Some chunk
                  /\ Crypto.offset chunk = Js.byteZ (nth i message x00).
Proof.
  induction indices as [|j r IH]; intros Hrun i Hi; [destruct Hi|].
  cbn [Crypto.verifyLoop] in Hrun.
  destruct (Crypto.chunks sig !! j) as [chunk|] eqn:Hchunk; [|discriminate Hrun].
  destruct (Crypto.offset chunk =? Js.byteZ (nth j message x00)) eqn:Hoffset;
    [|discriminate Hrun].
  cbn [negb] in Hrun.
  destruct (Crypto.commitments publicKey !! j); [|discriminate Hrun].
  destruct (negb _); [discriminate Hrun|].
  destruct Hi as [<-|Hi].
  - exists chunk. split; [exact Hchunk | apply Z.eqb_eq; exact Hoffset].
  - apply IH; assumption.
Qed.

Lemma byteZ_inj (x y : byte) : Js.byteZ x = Js.byteZ y -> x = y.
Proof.
  intros Hxy. rewrite <- (Zbyte_byteZ x), <- (Zbyte_byteZ y), Hxy. reflexivity.
Qed.

Lemma nth_ext_32 (a b : Buffer) :
  length a = 32%nat -> length b = 32%nat ->
  (forall i, (i < 32)%nat -> nth i a x00 = nth i b x00) -> a = b.
Proof.
  intros Ha Hb Hnth. apply (nth_ext a b x00 x00); [congruence|].
  intros i Hi. apply Hnth. lia.
Qed.

(** X11.  A Winternitz signature verifies for no other message than the
    one it was made for: when [signWinternitz] has signed [m], and [m'] is a
    different message, [verifyWinternitz] does not return true for [m'] and
    that signature, under any public key. *)
Theorem winternitz_binds_message (m m' : Crypto.Data) (privateKey : Crypto.PrivateKey)
  (publicKey : Crypto.PublicKey) (sig : Crypto.Signature) :
  Crypto.signWinternitz m privateKey = Ok sig ->
  Crypto.toBuffer m' <> Crypto.toBuffer m ->
  Crypto.verifyWinternitz m' sig publicKey <> Ok true.
Proof.
  intros Hsign Hother Hverify.
  unfold Crypto.signWinternitz in Hsign. unfold Crypto.verifyWinternitz in Hverify.
  destruct (Nat.eqb_spec (length (Crypto.toBuffer m)) 32) as [Hm|]; [|discriminate Hsign].
  destruct (Nat.eqb_spec (length (Crypto.toBuffer m')) 32) as [Hm'|]; [|discriminate Hverify].
  cbn [negb] in Hsign, Hverify.
  destruct (Crypto.signLoop (Crypto.toBuffer m) privateKey (seq 0 Crypto.WOTS_CHUNKS))
    as [signed|] eqn:Hloop; [|discriminate Hsign].
  cbn [mbind result_bind] in Hsign. injection Hsign as <-.
  apply signLoop_offsets in Hloop.
  apply Hother. apply nth_ext_32; [exact Hm' | exact Hm|].
  intros i Hi. apply byteZ_inj.
  destruct (verifyLoop_offsets _ _ _ _ Hverify i) as (chunk & Hchunk & Hoffset).
  { apply in_seq. unfold Crypto.WOTS_CHUNKS. lia. }
  cbn [Crypto.chunks] in Hchunk.
  rewrite <- Hoffset.
  apply (f_equal (fun l => l !! i)) in Hloop.
  change (map Crypto.offset signed) with (Crypto.offset <$> signed) in Hloop.
  rewrite list_lookup_fmap, Hchunk in Hloop. cbn [fmap option_fmap option_map] in Hloop.
  rewrite lookup_map_seq in Hloop by (unfold Crypto.WOTS_CHUNKS; lia).
  injection Hloop as Hloop. exact Hloop.
Qed.

Lemma winternitz_binds_message_witness :
  exists sig,
    Crypto.signWinternitz exampleMessage
      (Crypto.privateKey (Crypto.keypairOf exampleScalars (map Js.toHex exampleScalars)))
    = Ok sig
    /\ Crypto.verifyWinternitz (Crypto.ofBuffer (repeat x00 32)) sig
         (Crypto.publicKey (Crypto.keypairOf exampleScalars (map Js.toHex exampleScalars)))
       <> Ok true.
Proof.
  assert (Hsign : exists sig,
            Crypto.signWinternitz exampleMessage
              (Crypto.privateKey
                 (Crypto.keypairOf exampleScalars (map Js.toHex exampleScalars)))
            = Ok sig).
  { unfold Crypto.signWinternitz.
    change (negb (length (Crypto.toBuffer exampleMessage) =? 32)%nat) with false.
    cbv iota. rewrite signLoop_chunks.
    - cbn [mbind result_bind]. eexists. reflexivity.
    - apply Forall_forall. intros i Hi. apply elem_of_seq in Hi.
      unfold Crypto.WOTS_CHUNKS in *.
      cbn [Crypto.privateKey Crypto.keypairOf Crypto.scalars].
      change (length exampleScalars) with 32%nat. lia. }
  destruct Hsign as [sig Hsig]. exists sig. split; [exact Hsig|].
  apply (winternitz_binds_message exampleMessage (Crypto.ofBuffer (repeat x00 32))
           _ _ sig Hsig).
  vm_compute. discriminate.
Defined.

(** ** Refunds *)

Section Refunds.

Context `{Env}.

Lemma buildRefundTransaction_checks (m : ChainModule) (utxo : Utxo) (escrow : Escrow)
  (secret destination : option string) (tx : string) :
  buildRefundTransaction m
    {| rp_utxo := utxo; rp_refundSecret := secret;
       rp_lockingScript := e_lockingScript escrow;
       rp_redeemScript := e_lockingScript escrow;
       rp_toAddress := destination |} = Ok tx ->
  refundChecked escrow secret tx.
Proof.
  unfold refundChecked.
  destruct m; cbn [buildRefundTransaction];
    [unfold Bsv.buildRefundTransaction | unfold Btc.buildRefundTransaction | discriminate].
  all: cbv zeta; cbn [rp_lockingScript rp_redeemScript rp_refundSecret rp_utxo rp_toAddress].
  all: destruct (e_lockingScript escrow) as [script|]; [|discriminate].
  all: cbn [parseScript].
  all: destruct (Htlc.parseHTLCScript script) as [parsed|] eqn:Hparse; [|discriminate].
  all: cbn [mbind result_bind].
  all: destruct secret as [preimage|]; [|discriminate].
  all: cbn [sha256HexOf mbind result_bind].
  all: destruct (String.eqb _ _) eqn:Hsecret; [|discriminate].
  all: apply String.eqb_eq in Hsecret. all: cbn [negb].
  all: destruct (nowSeconds <? Htlc.parsed_timeout parsed) eqn:Hnow; [discriminate|].
  all: apply Z.ltb_ge in Hnow.
  all: destruct (Htlc.createRefundScriptSig _ _ _) as [scriptSig|]; [|discriminate].
  all: cbn [mbind result_bind]. all: intros Hsweep.
  all: exists script, parsed, preimage; eexists.
  all: split; [reflexivity|]; split; [exact Hparse|]; split; [reflexivity|].
  all: split; [exact Hsecret|]; split; [exact Hnow|].
  all: split; [|first [left; exact Hsweep | right; exact Hsweep]].
  all: reflexivity.
Qed.

Lemma initiatorRefund_effect (p : RefundRequest) (w w' : World) (r : SpendResult) :
  initiatorRefund p w = (w', Ok r) ->
  exists s tx,
    swaps w !! rq_swapId p = Some s
    /\ e_timeout (initiatorHTLC s) <= nowSeconds
    /\ refundChecked (initiatorHTLC s) (Some (refund_secret (initiator s))) tx
    /\ swaps w'
       = <[rq_swapId p := afterInitiatorRefund (sr_txid r) Date_now s]> (swaps w)
    /\ last (ledgerCalls w') = Some (Broadcast (fromChain s) tx)
    /\ sr_status r = REFUNDED.
Proof.
  unfold initiatorRefund.
  rewrite bind_run. unfold getSwap at 1.
  destruct (swaps w !! rq_swapId p) as [s|] eqn:Hfound; [|discriminate].
  cbv zeta.
  destruct (nowSeconds <? e_timeout (initiatorHTLC s)) eqn:Hnow; [discriminate|].
  apply Z.ltb_ge in Hnow.
  unfold fetchUtxos.
  destruct (String.eqb (fromChain s) "BSV") eqn:Hbsv;
    [|destruct (String.eqb (fromChain s) "BTC") eqn:Hbtc].
  3:{ run_coord; discriminate. }
  1: apply String.eqb_eq in Hbsv; rewrite !Hbsv;
     change (getChainModule "BSV") with (Ok bsv).
  2: apply String.eqb_eq in Hbtc; rewrite !Hbtc;
     change (getChainModule "BTC") with (Ok btc).
  all: unfold broadcastTransaction.
  all: run_coord; try discriminate.
  all: intros Hrun; inversion Hrun; subst; clear Hrun.
  all: do 2 eexists; cbn [swaps ledgerCalls sr_status sr_txid].
  all: split; [reflexivity|]; split; [exact Hnow|].
  all: split; [match goal with
               | Hb : buildRefundTransaction _ _ = Ok _ |- _ =>
                   exact (buildRefundTransaction_checks _ _ _ _ _ _ Hb)
               end|].
  all: split; [rewrite (alter_found _ _ _ _ Hfound), !alter_inserted;
               unfold afterInitiatorRefund, spendEntry; rewrite ?Hbsv, ?Hbtc; reflexivity|].
  all: split; [rewrite last_snoc, ?Hbsv, ?Hbtc; reflexivity | reflexivity].
Qed.

Lemma responderRefund_effect (p : RefundRequest) (w w' : World) (r : SpendResult) :
  responderRefund p w = (w', Ok r) ->
  exists s tx,
    swaps w !! rq_swapId p = Some s
    /\ e_timeout (responderHTLC s) <= nowSeconds
    /\ refundChecked (responderHTLC s) (r_refund_secret (responder s)) tx
    /\ swaps w'
       = <[rq_swapId p := afterResponderRefund (sr_txid r) Date_now s]> (swaps w)
    /\ last (ledgerCalls w') = Some (Broadcast (toChain s) tx)
    /\ sr_status r = REFUNDED.
Proof.
  unfold responderRefund.
  rewrite bind_run. unfold getSwap at 1.
  destruct (swaps w !! rq_swapId p) as [s|] eqn:Hfound; [|discriminate].
  cbv zeta.
  destruct (nowSeconds <? e_timeout (responderHTLC s)) eqn:Hnow; [discriminate|].
  apply Z.ltb_ge in Hnow.
  unfold fetchUtxos.
  destruct (String.eqb (toChain s) "BSV") eqn:Hbsv;
    [|destruct (String.eqb (toChain s) "BTC") eqn:Hbtc].
  3:{ run_coord; discriminate. }
  1: apply String.eqb_eq in Hbsv; rewrite !Hbsv;
     change (getChainModule "BSV") with (Ok bsv).
  2: apply String.eqb_eq in Hbtc; rewrite !Hbtc;
     change (getChainModule "BTC") with (Ok btc).
  all: unfold broadcastTransaction.
  all: run_coord; try discriminate.
  all: intros Hrun; inversion Hrun; subst; clear Hrun.
  all: do 2 eexists; cbn [swaps ledgerCalls sr_status sr_txid].
  all: split; [reflexivity|]; split; [exact Hnow|].
  all: split; [match goal with
               | Hb : buildRefundTransaction _ _ = Ok _ |- _ =>
                   exact (buildRefundTransaction_checks _ _ _ _ _ _ Hb)
               end|].
  all: split; [rewrite (alter_found _ _ _ _ Hfound), !alter_inserted;
               unfold afterResponderRefund, spendEntry; rewrite ?Hbsv, ?Hbtc; reflexivity|].
  all: split; [rewrite last_snoc, ?Hbsv, ?Hbtc; reflexivity | reflexivity].
Qed.

End Refunds.

(** X12.  A refund goes through only after the timeout.  When
    [initiatorRefund] returns, the clock had reached the timeout that the
    record holds for the initiator's escrow; the adapter has parsed the
    script of that escrow, found that the refund secret of the record hashes
    to the refund hash in the script and that the timeout in the script has
    passed as well, and built the spend with that timeout as its lock time;
    the spend is the last call made to the ledger, and the record is the old
    one in status [REFUNDED] with the refund added to its transactions.
    [responderRefund] is the same on the responder's escrow. *)
Theorem refund_after_timeout `{Env} (p : RefundRequest) (w w' : World) (r : SpendResult) :
  (initiatorRefund p w = (w', Ok r) ->
   exists s tx,
     swaps w !! rq_swapId p = Some s
     /\ e_timeout (initiatorHTLC s) <= nowSeconds
     /\ refundChecked (initiatorHTLC s) (Some (refund_secret (initiator s))) tx
     /\ swaps w'
        = <[rq_swapId p := afterInitiatorRefund (sr_txid r) Date_now s]> (swaps w)
     /\ last (ledgerCalls w') = Some (Broadcast (fromChain s) tx)
     /\ sr_status r = REFUNDED)
  /\ (responderRefund p w = (w', Ok r) ->
      exists s tx,
        swaps w !! rq_swapId p = Some s
        /\ e_timeout (responderHTLC s) <= nowSeconds
        /\ refundChecked (responderHTLC s) (r_refund_secret (responder s)) tx
        /\ swaps w'
           = <[rq_swapId p := afterResponderRefund (sr_txid r) Date_now s]> (swaps w)
        /\ last (ledgerCalls w') = Some (Broadcast (toChain s) tx)
        /\ sr_status r = REFUNDED).
Proof.
  split.
  - apply initiatorRefund_effect.
  - apply responderRefund_effect.
Qed.

Lemma refund_after_timeout_witness :
  exists w' r s,
    @initiatorRefund (ledgersUp (exampleStart + 86400000)) exampleRefund fundedWorld
    = (w', Ok r)
    /\ swaps fundedWorld !! exampleSwapId = Some s
    /\ e_timeout (initiatorHTLC s) <= @nowSeconds (ledgersUp (exampleStart + 86400000))
    /\ sr_status r = REFUNDED.
Proof.
  destruct (@initiatorRefund (ledgersUp (exampleStart + 86400000)) exampleRefund
              fundedWorld) as [w' [r|e]] eqn:Hrun.
  - destruct (proj1 (@refund_after_timeout (ledgersUp (exampleStart + 86400000))
                       exampleRefund fundedWorld w' r) Hrun)
      as (s & tx & Hs & Hnow & _ & _ & _ & Hr).
    exists w', r, s. split; [reflexivity|]. split; [exact Hs|].
    split; [exact Hnow | exact Hr].
  - apply (f_equal (fun p => isOk (snd p))) in Hrun.
    vm_compute in Hrun. discriminate Hrun.
Defined.

(** ** The status of a swap *)

Section Status.

Context `{Env}.

Lemma viewEscrow_shown (chain : string) (escrow : Escrow) (view : EscrowView) :
  viewEscrow chain escrow = Ok (Some view) ->
  truthy (e_lockingScript escrow) = true
  /\ ev_chain view = chain
  /\ ev_funded view = e_funded escrow
  /\ ev_timeout view = e_timeout escrow
  /\ ev_timeoutRemaining view = Z.max 0 (e_timeout escrow - nowSeconds)
  /\ ev_expired view = (nowSeconds >=? e_timeout escrow).
Proof.
  unfold viewEscrow.
  destruct (truthy (e_lockingScript escrow)); [|discriminate].
  destruct (Js.toISOString _); [|discriminate].
  cbn [mbind result_bind]. intros [= <-]. repeat split; reflexivity.
Qed.

Lemma viewEscrow_hidden (chain : string) (escrow : Escrow) :
  viewEscrow chain escrow = Ok None -> truthy (e_lockingScript escrow) = false.
Proof.
  unfold viewEscrow.
  destruct (truthy (e_lockingScript escrow)); [|reflexivity].
  destruct (Js.toISOString _); discriminate.
Qed.

Lemma getSwapStatus_inv (id : string) (includeSecrets : bool) (w : World)
  (view : StatusView) :
  getSwapStatus id includeSecrets w = Ok view ->
  exists s,
    swaps w !! id = Some s
    /\ sv_status view = status s
    /\ sv_fromChain view = fromChain s
    /\ sv_toChain view = toChain s
    /\ viewEscrow (fromChain s) (initiatorHTLC s) = Ok (sv_initiatorHTLC view)
    /\ viewEscrow (toChain s) (responderHTLC s) = Ok (sv_responderHTLC view).
Proof.
  unfold getSwapStatus.
  destruct (swaps w !! id) as [s|]; [|discriminate].
  destruct (viewEscrow (fromChain s) (initiatorHTLC s)) as [initiatorView|] eqn:Hfirst;
    [|discriminate].
  cbn [mbind result_bind].
  destruct (viewEscrow (toChain s) (responderHTLC s)) as [responderView|] eqn:Hsecond;
    [|discriminate].
  cbn [mbind result_bind]. intros [= <-]. exists s.
  cbn [sv_status sv_fromChain sv_toChain sv_initiatorHTLC sv_responderHTLC].
  split; [reflexivity|]. split; [reflexivity|]. split; [reflexivity|].
  split; [reflexivity|]. split; [exact Hfirst | exact Hsecond].
Qed.

Lemma view_agrees (chain : string) (escrow : Escrow) (view : EscrowView)
  (refund : World * result SpendResult) (w : World) :
  viewEscrow chain escrow = Ok (Some view) ->
  (nowSeconds < e_timeout escrow ->
   refund = (w, Throw (ErrTimeoutNotReached (e_timeout escrow - nowSeconds)))) ->
  agreesWithRefund view (e_timeout escrow) refund w.
Proof.
  intros Hview Hrefund.
  apply viewEscrow_shown in Hview as (_ & _ & _ & Htimeout & Hremaining & Hexpired).
  unfold agreesWithRefund. rewrite Htimeout, Hremaining, Hexpired.
  split; [reflexivity|]. split; intros Hnow.
  - assert (Hlt : nowSeconds < e_timeout escrow).
    { destruct (Z.geb_spec nowSeconds (e_timeout escrow)); [discriminate Hnow | lia]. }
    rewrite Z.max_r by lia. split; [lia | apply Hrefund; exact Hlt].
  - assert (Hge : e_timeout escrow <= nowSeconds).
    { destruct (Z.geb_spec nowSeconds (e_timeout escrow)); [lia | discriminate Hnow]. }
    split; [apply Z.max_l; lia | exact Hge].
Qed.

End Status.

(** X13.  [getSwapStatus] throws 'Swap not found' for an id that is not
    stored.  When it returns, it shows an escrow exactly when a script is
    kept for it, and what it shows of the timeout is what the refund of that
    escrow goes by at the same moment: an escrow shown as not expired has a
    positive [timeoutRemaining], and the refund is refused, the swap
    untouched, with just that number of seconds in its message; an escrow
    shown as expired has [timeoutRemaining] 0 and is past the timeout check
    of the coordinator. *)
Theorem status_agrees_with_refund `{Env} (id : string) (includeSecrets : bool)
  (w : World) :
  (swaps w !! id = None ->
   getSwapStatus id includeSecrets w = Throw (Err "Swap not found"))
  /\ (forall view,
        getSwapStatus id includeSecrets w = Ok view ->
        exists s,
          swaps w !! id = Some s
          /\ sv_status view = status s
          /\ (sv_initiatorHTLC view = None <->
              truthy (e_lockingScript (initiatorHTLC s)) = false)
          /\ (sv_responderHTLC view = None <->
              truthy (e_lockingScript (responderHTLC s)) = false)
          /\ (forall shown destination,
                sv_initiatorHTLC view = Some shown ->
                agreesWithRefund shown (e_timeout (initiatorHTLC s))
                  (initiatorRefund {| rq_swapId := id; rq_toAddress := destination |} w) w)
          /\ (forall shown destination,
                sv_responderHTLC view = Some shown ->
                agreesWithRefund shown (e_timeout (responderHTLC s))
                  (responderRefund {| rq_swapId := id; rq_toAddress := destination |} w) w)).
Proof.
  split.
  - intros Hnone. unfold getSwapStatus. rewrite Hnone. reflexivity.
  - intros view Hview.
    apply getSwapStatus_inv in Hview as (s & Hs & Hstatus & _ & _ & Hinitiator & Hresponder).
    exists s. split; [exact Hs|]. split; [exact Hstatus|].
    split; [|split; [|split]].
    + split.
      * intros Hnone. rewrite Hnone in Hinitiator.
        apply viewEscrow_hidden in Hinitiator. exact Hinitiator.
      * intros Hfalsy. unfold viewEscrow in Hinitiator. rewrite Hfalsy in Hinitiator.
        injection Hinitiator as <-. reflexivity.
    + split.
      * intros Hnone. rewrite Hnone in Hresponder.
        apply viewEscrow_hidden in Hresponder. exact Hresponder.
      * intros Hfalsy. unfold viewEscrow in Hresponder. rewrite Hfalsy in Hresponder.
        injection Hresponder as <-. reflexivity.
    + intros shown destination Hshown. rewrite Hshown in Hinitiator.
      apply (view_agrees _ _ _ _ _ Hinitiator). intros Hlt.
      apply (refund_too_early_initiator
               {| rq_swapId := id; rq_toAddress := destination |} w s Hs Hlt).
    + intros shown destination Hshown. rewrite Hshown in Hresponder.
      apply (view_agrees _ _ _ _ _ Hresponder). intros Hlt.
      apply (refund_too_early_responder
               {| rq_swapId := id; rq_toAddress := destination |} w s Hs Hlt).
Qed.

Lemma status_agrees_with_refund_witness :
  exists view shown,
    @getSwapStatus (ledgersUp (exampleStart + 60000)) exampleSwapId false fundedWorld
    = Ok view
    /\ sv_initiatorHTLC view = Some shown
    /\ ev_expired shown = false
    /\ @initiatorRefund (ledgersUp (exampleStart + 60000)) exampleRefund fundedWorld
       = (fundedWorld, Throw (ErrTimeoutNotReached (ev_timeoutRemaining shown))).
Proof.
  destruct (@getSwapStatus (ledgersUp (exampleStart + 60000)) exampleSwapId false
              fundedWorld) as [view|e] eqn:Hview.
  - destruct (sv_initiatorHTLC view) as [shown|] eqn:Hshown.
    + destruct (ev_expired shown) eqn:Hexpired.
      * apply (f_equal (fun r => match r with
                                 | Ok v => match sv_initiatorHTLC v with
                                           | Some e => ev_expired e
                                           | None => false
                                           end
                                 | Throw _ => false
                                 end)) in Hview.
        rewrite Hshown, Hexpired in Hview. vm_compute in Hview. discriminate Hview.
      * exists view, shown. split; [reflexivity|]. split; [exact Hshown|].
        split; [exact Hexpired|].
        destruct (proj2 (@status_agrees_with_refund (ledgersUp (exampleStart + 60000))
                           exampleSwapId false fundedWorld) view Hview)
          as (s & _ & _ & _ & _ & Hagrees & _).
        destruct (Hagrees shown None Hshown) as (_ & Hearly & _).
        apply Hearly. exact Hexpired.
    + apply (f_equal (fun r => match r with
                               | Ok v => isSome (sv_initiatorHTLC v)
                               | Throw _ => true
                               end)) in Hview.
      rewrite Hshown in Hview. vm_compute in Hview. discriminate Hview.
  - apply (f_equal (fun r => isOk r)) in Hview. vm_compute in Hview. discriminate Hview.
Defined.

(** ** Scripts are kept on the script ledgers only *)

Ltac settle_placed Hw :=
  cbn [swaps fst];
  let id := fresh "id" in
  let s := fresh "s" in
  let Hs := fresh "Hs" in
  intros id s Hs;
  match goal with
  | Hfound : swaps ?w !! ?key = Some ?s0 |- _ =>
      match type of Hs with
      | context [alter _ key _] =>
          destruct (decide (id = key)) as [->|Hother];
          [ rewrite !lookup_alter_eq, Hfound in Hs;
            cbn [fmap option_fmap option_map] in Hs; injection Hs as <-;
            destruct (Hw _ _ Hfound) as [Hfirst Hsecond];
            unfold scriptOnLedger in *;
            cbn [fromChain toChain initiatorHTLC responderHTLC set_status set_updatedAt
                 set_responder set_initiatorHTLC set_responderHTLC push_transaction
                 set_script set_solana set_funded e_lockingScript];
            split; intros Hscript;
            first
              [ exact (Hfirst Hscript)
              | exact (Hsecond Hscript)
              | left; apply String.eqb_eq; assumption
              | right; apply String.eqb_eq; assumption ]
          | rewrite !lookup_alter_ne in Hs by congruence; exact (Hw _ _ Hs) ]
      end
  | |- _ => exact (Hw _ _ Hs)
  end.

Section Placed.

Context `{Env}.

Variable w : World.
Hypothesis Hw : scriptsPlaced w.

Lemma initiatorClaim_placed (params : ClaimRequest) :
  scriptsPlaced (fst (initiatorClaim params w)).
Proof.
  unfold scriptsPlaced, initiatorClaim, fetchUtxos, broadcastTransaction.
  run_coord; settle_placed Hw.
Qed.

Lemma responderClaim_placed (params : ClaimRequest) :
  scriptsPlaced (fst (responderClaim params w)).
Proof.
  unfold scriptsPlaced, responderClaim, fetchUtxos, broadcastTransaction.
  run_coord; settle_placed Hw.
Qed.

Lemma initiatorRefund_placed (params : RefundRequest) :
  scriptsPlaced (fst (initiatorRefund params w)).
Proof.
  unfold scriptsPlaced, initiatorRefund, fetchUtxos, broadcastTransaction.
  run_coord; settle_placed Hw.
Qed.

Lemma responderRefund_placed (params : RefundRequest) :
  scriptsPlaced (fst (responderRefund params w)).
Proof.
  unfold scriptsPlaced, responderRefund, fetchUtxos, broadcastTransaction.
  run_coord; settle_placed Hw.
Qed.

Lemma recordInitiatorFunding_placed (params : FundingParams) :
  scriptsPlaced (fst (recordInitiatorFunding params w)).
Proof.
  unfold scriptsPlaced, recordInitiatorFunding, fetchBalance.
  run_coord; settle_placed Hw.
Qed.

Lemma recordResponderFunding_placed (params : FundingParams) :
  scriptsPlaced (fst (recordResponderFunding params w)).
Proof.
  unfold scriptsPlaced, recordResponderFunding, fetchBalance.
  run_coord; settle_placed Hw.
Qed.

Lemma joinSwap_placed (responderSecrets : ResponderSecrets) (params : JoinParams) :
  scriptsPlaced (fst (joinSwap responderSecrets params w)).
Proof.
  unfold scriptsPlaced, joinSwap, storeEscrow.
  run_coord; settle_placed Hw.
Qed.

Lemma initiateSwap_placed (uuid : string) (initiatorSecrets : InitiatorSecrets)
  (params : InitiateParams) :
  scriptsPlaced (fst (initiateSwap uuid initiatorSecrets params w)).
Proof.
  unfold scriptsPlaced, initiateSwap, setSwap.
  run_coord; cbn [swaps fst]; intros id s Hs; try exact (Hw _ _ Hs).
  all: destruct (decide (newSwapId uuid = id)) as [<-|Hother];
    [ unfold newSwapId in Hs; rewrite lookup_insert_eq in Hs; injection Hs as <-;
      split; intros Hscript; contradiction Hscript; reflexivity
    | unfold newSwapId in Hother; rewrite lookup_insert_ne in Hs by exact Hother;
      exact (Hw _ _ Hs) ].
Qed.

Lemma perform_placed (call : Call) : scriptsPlaced (perform call w).
Proof.
  destruct call; cbn [perform].
  - apply initiateSwap_placed.
  - apply joinSwap_placed.
  - apply recordInitiatorFunding_placed.
  - apply recordResponderFunding_placed.
  - apply initiatorClaim_placed.
  - apply responderClaim_placed.
  - apply initiatorRefund_placed.
  - apply responderRefund_placed.
Qed.

End Placed.

Lemma reachable_placed (calls : list (Env * Call)) :
  scriptsPlaced (performAll calls emptyWorld).
Proof.
  assert (Hall : forall w, scriptsPlaced w -> scriptsPlaced (performAll calls w)).
  { induction calls as [|[moment call] rest IH]; intros w Hw; cbn [performAll].
    - exact Hw.
    - apply IH. apply (@perform_placed moment). exact Hw. }
  apply Hall. intros id s Hs. cbn in Hs. rewrite lookup_empty in Hs. discriminate Hs.
Qed.

Lemma truthy_script (x : option string) : truthy x = true -> x <> None.
Proof. destruct x; [discriminate | discriminate]. Qed.

(** X14.  [getSwapStatus] never shows an escrow on SOL: in every state
    that calls of the coordinator reach from the empty store, and whatever
    the status of the swap, the view of a swap towards SOL has
    [responderHTLC] null, and the view of a swap from SOL has
    [initiatorHTLC] null; the address that [joinSwap] stored for that escrow
    is not in the view. *)
Theorem solana_escrow_not_shown `{Env} (calls : list (Env * Call)) (id : string)
  (includeSecrets : bool) (view : StatusView) :
  getSwapStatus id includeSecrets (performAll calls emptyWorld) = Ok view ->
  (sv_toChain view = "SOL" -> sv_responderHTLC view = None)
  /\ (sv_fromChain view = "SOL" -> sv_initiatorHTLC view = None).
Proof.
  intros Hview.
  apply getSwapStatus_inv in Hview as (s & Hs & _ & Hfrom & Hto & Hinitiator & Hresponder).
  destruct (reachable_placed calls id s Hs) as [Hfirst Hsecond].
  rewrite Hfrom, Hto. split; intros Hchain.
  - destruct (sv_responderHTLC view) as [shown|]; [|reflexivity].
    apply viewEscrow_shown in Hresponder as (Hscript & _).
    apply truthy_script in Hscript.
    destruct (Hsecond Hscript) as [Hc|Hc]; rewrite Hc in Hchain; discriminate Hchain.
  - destruct (sv_initiatorHTLC view) as [shown|]; [|reflexivity].
    apply viewEscrow_shown in Hinitiator as (Hscript & _).
    apply truthy_script in Hscript.
    destruct (Hfirst Hscript) as [Hc|Hc]; rewrite Hc in Hchain; discriminate Hchain.
Qed.

Lemma solana_escrow_not_shown_witness :
  exists view,
    @getSwapStatus (ledgersUp exampleStart) exampleSwapId true
      (performAll solanaCalls emptyWorld) = Ok view
    /\ sv_status view = FULLY_FUNDED
    /\ sv_responderHTLC view = None.
Proof.
  destruct (@getSwapStatus (ledgersUp exampleStart) exampleSwapId true
              (performAll solanaCalls emptyWorld)) as [view|e] eqn:Hview.
  - exists view. split; [reflexivity|].
    assert (Hfacts : sv_status view = FULLY_FUNDED /\ sv_toChain view = "SOL").
    { apply (f_equal (fun r => match r with
                               | Ok v => (sv_status v, sv_toChain v)
                               | Throw _ => (FAILED, "")
                               end)) in Hview.
      vm_compute in Hview. injection Hview as H1 H2. split; symmetry; assumption. }
    destruct Hfacts as [Hstatus Hchain]. split; [exact Hstatus|].
    apply (proj1 (@solana_escrow_not_shown (ledgersUp exampleStart) solanaCalls
                    exampleSwapId true view Hview) Hchain).
  - apply (f_equal (fun r => isOk r)) in Hview. vm_compute in Hview. discriminate Hview.
Defined.

(** ** The ASM of a script *)

(** The three cases of the repository's tests. *)
Example decodeScriptToASM_tests :
  decodeScriptToASM 100 "0401020304" = Some (Ok "<01020304>")
  /\ decodeScriptToASM 100 ("4c64" +:+ repeatString 100 "aa") = Some (Ok "<PUSHDATA1:100B>")
  /\ decodeScriptToASM 100
       "63a8205151515151515151515151515151515151515151515151515151515151515151878768"
     = Some (Ok "OP_IF OP_SHA256 <51515151...32B> OP_EQUAL OP_EQUAL OP_ENDIF").
Proof. split; [|split]; vm_compute; reflexivity. Qed.

Section Asm.

Lemma asmLoop_next (fuel : nat) (s : string) (c : Z) (parts parts' : list string)
  (next : option Z) :
  c < Z.of_nat (String.length s) ->
  asmStep s c parts = Ok (next, parts') ->
  asmLoop (S fuel) s (Some c) parts = asmLoop fuel s next parts'.
Proof.
  intros Hc Hstep. cbn [asmLoop].
  apply Z.ltb_lt in Hc. rewrite Hc, Hstep. reflexivity.
Qed.

Lemma asmLoop_end (fuel : nat) (s : string) (c : Z) (parts : list string) :
  Z.of_nat (String.length s) <= c ->
  asmLoop (S fuel) s (Some c) parts = Some (Ok parts).
Proof.
  intros Hc. cbn [asmLoop]. apply Z.ltb_ge in Hc. rewrite Hc. reflexivity.
Qed.

Lemma cursor_inside (s : string) (n : nat) (op rest : string) :
  sdrop n s = op +:+ rest -> String.length op = 2%nat ->
  Z.of_nat n < Z.of_nat (String.length s).
Proof.
  intros Hs Hop. pose proof (nonempty_suffix _ _ _ _ Hs Hop). lia.
Qed.

Lemma byte_at (s : string) (n : nat) (op rest : string) :
  sdrop n s = op +:+ rest -> String.length op = 2%nat ->
  Js.substring s (Some (Z.of_nat n)) (Some (Z.of_nat n + 2)) = op.
Proof.
  intros Hs Hop. rewrite substring_between by lia.
  rewrite Nat2Z.id. replace (Z.to_nat (Z.of_nat n + 2 - Z.of_nat n)) with 2%nat by lia.
  rewrite Hs. apply stake_app_len. exact Hop.
Qed.

Lemma data_at (s : string) (n m : nat) (op data rest : string) :
  sdrop n s = op +:+ data +:+ rest -> String.length op = 2%nat ->
  String.length data = m ->
  Js.substring s (Some (Z.of_nat n + 2)) (Some (Z.of_nat n + 2 + Z.of_nat m)) = data.
Proof.
  intros Hs Hop Hdata. rewrite substring_between by lia.
  replace (Z.to_nat (Z.of_nat n + 2)) with (n + 2)%nat by lia.
  replace (Z.to_nat (Z.of_nat n + 2 + Z.of_nat m - (Z.of_nat n + 2))) with m by lia.
  rewrite (advance _ _ 2 _ _ Hs Hop). apply stake_app_len. exact Hdata.
Qed.

(** A named opcode. *)
Lemma asmStep_opcode (s : string) (n : nat) (op name rest : string) (parts : list string) :
  sdrop n s = op +:+ rest -> String.length op = 2%nat ->
  opcodeName op = Some name ->
  asmStep s (Z.of_nat n) parts = Ok (Some (Z.of_nat (n + 2)), (parts ++ [name])%list).
Proof.
  intros Hs Hop Hname. unfold asmStep.
  rewrite (byte_at _ _ _ _ Hs Hop), Hname.
  replace (Z.of_nat (n + 2)) with (Z.of_nat n + 2) by lia. reflexivity.
Qed.

(** No opcode that has a name reads as a number from 1 to 75. *)
Lemma opcodeName_push (op : string) (k : Z) :
  Js.parseInt16 op = Some k -> 1 <= k <= 75 -> opcodeName op = None.
Proof.
  intros Hparse Hk. unfold opcodeName, opcodeNames. cbn [find fst].
  repeat match goal with
         | |- context [String.eqb ?key op] =>
             let Hkey := fresh "Hkey" in
             destruct (String.eqb key op) eqn:Hkey;
             [ apply String.eqb_eq in Hkey; subst op;
               vm_compute in Hparse; injection Hparse as Hparse; lia |]
         end.
  reflexivity.
Qed.

(** A direct push of [m / 2] bytes. *)
Lemma asmStep_push (s : string) (n m : nat) (op data rest : string)
  (parts : list string) :
  sdrop n s = op +:+ data +:+ rest -> String.length op = 2%nat ->
  String.length data = m ->
  Js.parseInt16 op = Some (Z.of_nat m / 2) ->
  1 <= Z.of_nat m / 2 <= 75 -> Nat.Even m ->
  asmStep s (Z.of_nat n) parts
  = Ok (Some (Z.of_nat (n + 2 + m)),
        (parts ++ [if Z.of_nat m <=? 16 then "<" +:+ data +:+ ">"
                   else "<" +:+ stake 8 data +:+ "..."
                        +:+ toString10 (Z.of_nat m / 2) +:+ "B>"])%list).
Proof.
  intros Hs Hop Hdata Hparse Hk [h Hm]. unfold asmStep.
  rewrite (byte_at _ _ _ _ Hs Hop), (opcodeName_push _ _ Hparse Hk), Hparse.
  cbn [default from_option]. unfold id.
  replace ((1 <=? Z.of_nat m / 2) && (Z.of_nat m / 2 <=? 75)) with true
    by (symmetry; apply andb_true_intro; split; apply Z.leb_le; lia).
  assert (Hlen : Z.of_nat m / 2 * 2 = Z.of_nat m).
  { rewrite Hm. replace (Z.of_nat (2 * h)) with (Z.of_nat h * 2) by lia.
    rewrite Z.div_mul by lia. reflexivity. }
  cbv zeta. rewrite Hlen.
  rewrite (data_at _ _ _ _ _ _ Hs Hop Hdata).
  rewrite (substring_between data 0 8) by lia.
  replace (Z.of_nat (n + 2 + m)) with (Z.of_nat n + 2 + Z.of_nat m) by lia.
  reflexivity.
Qed.

Lemma sdrop_end (s : string) (n : nat) :
  sdrop n s = EmptyString -> Z.of_nat (String.length s) <= Z.of_nat n.
Proof.
  intros Hs. apply (f_equal String.length) in Hs. rewrite length_sdrop in Hs.
  cbn [String.length] in Hs. lia.
Qed.

Lemma createHTLCScript_asm (params : Htlc.HTLCParams) (fuel : nat) :
  String.length (Htlc.p_swapHash params) = 64%nat ->
  String.length (Htlc.p_recipientHash params) = 64%nat ->
  String.length (Htlc.p_refundHash params) = 64%nat ->
  0 < Htlc.p_timeout params < 2 ^ 63 ->
  (16 <= fuel)%nat ->
  exists c,
    Htlc.createHTLCScript params = Ok c
    /\ decodeScriptToASM fuel (Htlc.redeemScript c) = Some (Ok (scriptASM params)).
Proof.
  intros Hsh Hrh Hfh Ht Hfuel.
  destruct (createHTLCScript_layout params Hsh Hrh Hfh Ht)
    as (c & pl & Hc & Hscript & Hpl & Hint & _).
  destruct (length_encodeMinimalNumber _ Ht) as (k & Hk & Hk8).
  exists c. split; [exact Hc|]. rewrite Hscript. unfold scriptASM.
  destruct params as [sh rh fh t].
  cbn [Htlc.p_swapHash Htlc.p_recipientHash Htlc.p_refundHash Htlc.p_timeout] in *.
  remember (Htlc.encodeMinimalNumber t) as th eqn:Hth. clear Hth Hc Hscript c Ht.
  remember (String.length th) as n eqn:Hn.
  assert (Hhalf : Z.of_nat n / 2 = Z.of_nat k).
  { rewrite Hk. replace (Z.of_nat (2 * k)) with (Z.of_nat k * 2) by lia.
    apply Z.div_mul. lia. }
  set (s := layout sh rh pl th fh "").
  set (R4 := "87" +:+ "68" +:+ "").
  set (R3 := th +:+ "b1" +:+ "75" +:+ "a8" +:+ "20" +:+ fh +:+ R4).
  set (R2 := rh +:+ "87" +:+ "67" +:+ pl +:+ R3).
  set (R1 := sh +:+ "88" +:+ "a8" +:+ "20" +:+ R2).
  assert (S0 : sdrop 0 s = "63" +:+ "a8" +:+ "20" +:+ R1) by reflexivity.
  assert (S2 : sdrop 2 s = "a8" +:+ "20" +:+ R1) by exact (advance _ _ 2 _ _ S0 eq_refl).
  assert (S4 : sdrop 4 s = "20" +:+ R1) by exact (advance _ _ 2 _ _ S2 eq_refl).
  assert (S6 : sdrop (4 + 2) s = R1) by exact (advance _ _ 2 _ _ S4 eq_refl).
  assert (S70 : sdrop (4 + 2 + 64) s = "88" +:+ "a8" +:+ "20" +:+ R2)
    by exact (advance _ _ 64 _ _ S6 Hsh).
  assert (S72 : sdrop (4 + 2 + 64 + 2) s = "a8" +:+ "20" +:+ R2)
    by exact (advance _ _ 2 _ _ S70 eq_refl).
  assert (S74 : sdrop (4 + 2 + 64 + 2 + 2) s = "20" +:+ R2)
    by exact (advance _ _ 2 _ _ S72 eq_refl).
  assert (S76 : sdrop (74 + 2) s = R2) by exact (advance _ _ 2 _ _ S74 eq_refl).
  assert (S140 : sdrop (74 + 2 + 64) s = "87" +:+ "67" +:+ pl +:+ R3)
    by exact (advance _ _ 64 _ _ S76 Hrh).
  assert (S142 : sdrop (74 + 2 + 64 + 2) s = "67" +:+ pl +:+ R3)
    by exact (advance _ _ 2 _ _ S140 eq_refl).
  assert (S144 : sdrop (74 + 2 + 64 + 2 + 2) s = pl +:+ R3)
    by exact (advance _ _ 2 _ _ S142 eq_refl).
  assert (S146 : sdrop (144 + 2) s = R3) by exact (advance _ _ 2 _ _ S144 Hpl).
  assert (T0 : sdrop (144 + 2 + n) s = "b1" +:+ "75" +:+ "a8" +:+ "20" +:+ fh +:+ R4)
    by exact (advance _ _ n _ _ S146 (eq_sym Hn)).
  assert (T2 : sdrop (144 + 2 + n + 2) s = "75" +:+ "a8" +:+ "20" +:+ fh +:+ R4)
    by exact (advance _ _ 2 _ _ T0 eq_refl).
  assert (T4 : sdrop (144 + 2 + n + 2 + 2) s = "a8" +:+ "20" +:+ fh +:+ R4)
    by exact (advance _ _ 2 _ _ T2 eq_refl).
  assert (T6 : sdrop (144 + 2 + n + 2 + 2 + 2) s = "20" +:+ fh +:+ R4)
    by exact (advance _ _ 2 _ _ T4 eq_refl).
  assert (T8 : sdrop (144 + 2 + n + 2 + 2 + 2 + 2) s = fh +:+ R4)
    by exact (advance _ _ 2 _ _ T6 eq_refl).
  assert (T72 : sdrop (144 + 2 + n + 2 + 2 + 2 + 2 + 64) s = "87" +:+ "68" +:+ "")
    by exact (advance _ _ 64 _ _ T8 Hfh).
  assert (T74 : sdrop (144 + 2 + n + 2 + 2 + 2 + 2 + 64 + 2) s = "68" +:+ "")
    by exact (advance _ _ 2 _ _ T72 eq_refl).
  assert (T76 : sdrop (144 + 2 + n + 2 + 2 + 2 + 2 + 64 + 2 + 2) s = "")
    by exact (advance _ _ 2 _ _ T74 eq_refl).
  do 16 (destruct fuel as [|fuel]; [lia|]). clear Hfuel.
  unfold decodeScriptToASM.
  change (Some 0) with (Some (Z.of_nat 0)).
  rewrite (asmLoop_next _ _ _ _ _ _ (cursor_inside _ _ _ _ S0 eq_refl)
             (asmStep_opcode _ _ _ _ _ _ S0 eq_refl eq_refl)).
  rewrite (asmLoop_next _ _ _ _ _ _ (cursor_inside _ _ _ _ S2 eq_refl)
             (asmStep_opcode _ _ _ _ _ _ S2 eq_refl eq_refl)).
  rewrite (asmLoop_next _ _ _ _ _ _ (cursor_inside _ _ _ _ S4 eq_refl)
             (asmStep_push _ _ 64 _ _ _ _ S4 eq_refl Hsh eq_refl ltac:(split; vm_compute; discriminate)
                ltac:(exists 32%nat; reflexivity))).
  rewrite (asmLoop_next _ _ _ _ _ _ (cursor_inside _ _ _ _ S70 eq_refl)
             (asmStep_opcode _ _ _ _ _ _ S70 eq_refl eq_refl)).
  rewrite (asmLoop_next _ _ _ _ _ _ (cursor_inside _ _ _ _ S72 eq_refl)
             (asmStep_opcode _ _ _ _ _ _ S72 eq_refl eq_refl)).
  rewrite (asmLoop_next _ _ _ _ _ _ (cursor_inside _ _ _ _ S74 eq_refl)
             (asmStep_push _ _ 64 _ _ _ _ S74 eq_refl Hrh eq_refl ltac:(split; vm_compute; discriminate)
                ltac:(exists 32%nat; reflexivity))).
  rewrite (asmLoop_next _ _ _ _ _ _ (cursor_inside _ _ _ _ S140 eq_refl)
             (asmStep_opcode _ _ _ _ _ _ S140 eq_refl eq_refl)).
  rewrite (asmLoop_next _ _ _ _ _ _ (cursor_inside _ _ _ _ S142 eq_refl)
             (asmStep_opcode _ _ _ _ _ _ S142 eq_refl eq_refl)).
  rewrite (asmLoop_next _ _ _ _ _ _ (cursor_inside _ _ _ _ S144 Hpl)
             (asmStep_push _ _ n _ _ _ _ S144 Hpl (eq_sym Hn) Hint ltac:(lia)
                ltac:(exists k; exact Hk))).
  rewrite (asmLoop_next _ _ _ _ _ _ (cursor_inside _ _ _ _ T0 eq_refl)
             (asmStep_opcode _ _ _ _ _ _ T0 eq_refl eq_refl)).
  rewrite (asmLoop_next _ _ _ _ _ _ (cursor_inside _ _ _ _ T2 eq_refl)
             (asmStep_opcode _ _ _ _ _ _ T2 eq_refl eq_refl)).
  rewrite (asmLoop_next _ _ _ _ _ _ (cursor_inside _ _ _ _ T4 eq_refl)
             (asmStep_opcode _ _ _ _ _ _ T4 eq_refl eq_refl)).
  rewrite (asmLoop_next _ _ _ _ _ _ (cursor_inside _ _ _ _ T6 eq_refl)
             (asmStep_push _ _ 64 _ _ _ _ T6 eq_refl Hfh eq_refl ltac:(split; vm_compute; discriminate)
                ltac:(exists 32%nat; reflexivity))).
  rewrite (asmLoop_next _ _ _ _ _ _ (cursor_inside _ _ _ _ T72 eq_refl)
             (asmStep_opcode _ _ _ _ _ _ T72 eq_refl eq_refl)).
  rewrite (asmLoop_next _ _ _ _ _ _ (cursor_inside _ _ _ _ T74 eq_refl)
             (asmStep_opcode _ _ _ _ _ _ T74 eq_refl eq_refl)).
  rewrite (asmLoop_end _ _ _ _ (sdrop_end _ _ T76)).
  cbn [option_map mbind result_bind app joinSpace].
  replace (Z.of_nat n <=? 16) with true by (symmetry; apply Z.leb_le; lia).
  change (Z.of_nat 64 <=? 16) with false. cbv iota.
  change (toString10 (Z.of_nat 64 / 2)) with "32".
  unfold hashPreview. rewrite !app_assoc_s. reflexivity.
Qed.

End Asm.

(** X15.  For three hashes of 64 characters and a timeout below 2^63,
    [decodeScriptToASM] returns on the script that [createHTLCScript]
    builds, after fifteen iterations, and prints its two branches: each hash
    as its first eight characters and its size, the timeout in full. *)
Theorem decodeScriptToASM_of_built_script (params : Htlc.HTLCParams) (fuel : nat) :
  String.length (Htlc.p_swapHash params) = 64%nat ->
  String.length (Htlc.p_recipientHash params) = 64%nat ->
  String.length (Htlc.p_refundHash params) = 64%nat ->
  0 < Htlc.p_timeout params < 2 ^ 63 ->
  (16 <= fuel)%nat ->
  exists c,
    Htlc.createHTLCScript params = Ok c
    /\ decodeScriptToASM fuel (Htlc.redeemScript c) = Some (Ok (scriptASM params)).
Proof.
  apply createHTLCScript_asm.
Qed.

Lemma decodeScriptToASM_of_built_script_witness :
  exists c,
    Htlc.createHTLCScript exampleParams = Ok c
    /\ decodeScriptToASM 16 (Htlc.redeemScript c) = Some (Ok (scriptASM exampleParams)).
Proof.
  apply (decodeScriptToASM_of_built_script exampleParams 16);
    [reflexivity | reflexivity | reflexivity | cbn; lia | lia].
Defined.

(** ** A script on which the decoder does not stop *)

Section Hang.

Lemma substring_before (s : string) (i j : Z) :
  i <= j <= 0 -> Js.substring s (Some i) (Some j) = EmptyString.
Proof.
  intros Hij. unfold Js.substring, Js.clampIndex.
  rewrite !Z.max_r by lia. rewrite !Z.min_l by lia.
  destruct s; reflexivity.
Qed.

Variable digit : ascii.
Variable v : Z.
Variable rest : string.
Hypothesis digit_value : Js.hexVal digit = Some v.
Hypothesis large : 2 <= v.

Local Abbreviation looping := ("4c-" +:+ String digit rest).

Lemma asmStep_back (parts : list string) :
  asmStep looping 0 parts
  = Ok (Some (4 - 2 * v), (parts ++ ["<PUSHDATA1:" +:+ toString10 (- v) +:+ "B>"])%list).
Proof.
  assert (Hlen : Js.parseInt16 (String "-" (String digit EmptyString)) = Some (- v)).
  { unfold Js.parseInt16. cbn [Js.skipWhiteSpace]. 
    change (Js.isWhiteSpace "-") with false. cbv iota.
    destruct (Js.stripHexPrefix (String digit EmptyString)) eqn:Hstrip.
    - destruct digit as [[] [] [] [] [] [] [] []]; discriminate Hstrip.
    - assert (Hsame : String a s = String digit EmptyString).
      { rewrite <- Hstrip. unfold Js.stripHexPrefix.
        destruct digit as [[] [] [] [] [] [] [] []]; reflexivity. }
      rewrite Hsame. cbn [Js.hexDigits]. rewrite digit_value.
      cbn [option_map]. f_equal; lia. }
  assert (Hbyte : Js.substring looping (Some 0) (Some (0 + 2)) = "4c")
    by (rewrite substring_between by lia; reflexivity).
  assert (Hnext : Js.substring looping (Some (0 + 2)) (Some (0 + 4))
                  = String "-" (String digit EmptyString))
    by (rewrite substring_between by lia; reflexivity).
  unfold asmStep. rewrite Hbyte, Hnext, Hlen.
  change (opcodeName "4c") with (@None string).
  change (Js.parseInt16 "4c") with (Some 76). cbv iota.
  change ((1 <=? 76) && (76 <=? 75)) with false. cbv iota.
  change (String.eqb "4c" "4c") with true. cbv iota.
  cbn [Js.add Js.mul showNumber]. do 3 f_equal; lia.
Qed.

Lemma asmStep_before (c : Z) (parts : list string) :
  c <= -2 ->
  asmStep looping c parts = Ok (Some (c + 2), (parts ++ ["0x"])%list).
Proof.
  intros Hc. unfold asmStep. rewrite substring_before by lia. reflexivity.
Qed.

Lemma asmLoop_never (fuel : nat) :
  forall c parts, c <= 0 -> Z.even c = true ->
    asmLoop fuel looping (Some c) parts = None.
Proof.
  induction fuel as [|fuel IH]; intros c parts Hc Heven; [reflexivity|].
  assert (Hinside : c < Z.of_nat (String.length looping)).
  { change (String.length looping) with (S (S (S (S (String.length rest))))). lia. }
  destruct (Z.eq_dec c 0) as [->|Hnonzero].
  - rewrite (asmLoop_next _ _ _ _ _ _ Hinside (asmStep_back parts)).
    apply IH; [lia|].
    replace (4 - 2 * v) with (2 * (2 - v)) by lia. apply Z.even_mul.
  - assert (Hlow : c <= -2).
    { destruct (Z.eq_dec c (-1)) as [->|]; [discriminate Heven | lia]. }
    rewrite (asmLoop_next _ _ _ _ _ _ Hinside (asmStep_before c parts Hlow)).
    apply IH; [lia|].
    rewrite Z.even_add, Heven. reflexivity.
Qed.

End Hang.

Lemma hangingScript_never (fuel : nat) :
  forall c parts, In c hangingCursors ->
    asmLoop fuel hangingScript (Some c) parts = None.
Proof.
  induction fuel as [|fuel IH]; intros c parts Hc; [reflexivity|].
  cbn [asmLoop]. unfold hangingCursors in Hc. cbn [In] in Hc.
  repeat (destruct Hc as [<-|Hc];
          [ match goal with
            | |- context [asmStep ?s ?c ?p] =>
                let step := eval vm_compute in (asmStep s c p) in
                change (asmStep s c p) with step
            end;
            match goal with
            | |- context [negb ?b] =>
                let inside := eval vm_compute in (negb b) in
                change (negb b) with inside
            end;
            cbv iota; apply IH; unfold hangingCursors; cbn [In]; tauto |]).
  contradiction.
Qed.

(** X16.  [decodeScriptToASM] does not stop on every input.  On a script
    that opens with a PUSHDATA1 [4c] whose length byte reads as a negative
    number ([-2] to [-f]) the cursor moves backwards, the loop comes round
    to the same opcode, and no number of iterations ends it.  The same
    happens behind a full script: the script of the example followed by
    [4c-5] is one that [parseHTLCScript] accepts, and on which
    [decodeScriptToASM] never returns. *)
Theorem decodeScriptToASM_never_returns :
  (forall (digit : ascii) (v : Z) (rest : string) (fuel : nat),
     Js.hexVal digit = Some v -> 2 <= v ->
     decodeScriptToASM fuel ("4c-" +:+ String digit rest) = None)
  /\ (exists parsed, Htlc.parseHTLCScript hangingScript = Ok parsed)
  /\ (forall fuel, decodeScriptToASM fuel hangingScript = None).
Proof.
  split; [|split].
  - intros digit v rest fuel Hdigit Hv. unfold decodeScriptToASM.
    rewrite (asmLoop_never digit v rest Hdigit Hv fuel 0 []); [reflexivity | lia | reflexivity].
  - eexists. vm_compute. reflexivity.
  - intros fuel. unfold decodeScriptToASM.
    rewrite (hangingScript_never fuel 0 []); [reflexivity|].
    unfold hangingCursors. cbn [In]. tauto.
Qed.

Lemma decodeScriptToASM_never_returns_witness :
  decodeScriptToASM 1000 "4c-5" = None.
Proof.
  apply (proj1 decodeScriptToASM_never_returns "5"%char 5 EmptyString 1000%nat);
    [reflexivity | lia].
Defined.

(** ** The size of an unlocking script *)

Section ScriptSig.

(** A Winternitz preimage goes behind a PUSHDATA2. *)
Lemma pushData_preimage (secret : string) :
  String.length secret = 2048%nat ->
  Crypto.pushData secret = Ok ("4d0004" +:+ secret).
Proof. intros H. unfold Crypto.pushData. rewrite H. reflexivity. Qed.

(** The script of an escrow goes behind a PUSHDATA1. *)
Lemma pushData_script (script : string) (k : nat) :
  String.length script = (222 + 2 * k)%nat -> (1 <= k <= 8)%nat ->
  exists prefix,
    Crypto.pushData script = Ok (prefix +:+ script) /\ String.length prefix = 4%nat.
Proof.
  intros H Hk. unfold Crypto.pushData. rewrite H.
  assert (Hcases : (k = 1 \/ k = 2 \/ k = 3 \/ k = 4 \/ k = 5 \/ k = 6
                    \/ k = 7 \/ k = 8)%nat) by lia.
  repeat (destruct Hcases as [-> | Hcases];
          [eexists (String _ (String _ (String _ (String _ EmptyString))));
           split; [reflexivity | reflexivity]|]).
  subst k. eexists (String _ (String _ (String _ (String _ EmptyString)))).
  split; reflexivity.
Qed.

Lemma length_layout (sh rh pl th fh rest : string) :
  String.length (layout sh rh pl th fh rest)
  = (28 + String.length sh + String.length rh + String.length pl + String.length th
     + String.length fh + String.length rest)%nat.
Proof.
  unfold layout. rewrite !length_app. cbn [String.length]. lia.
Qed.

End ScriptSig.

(** X17.  For a Winternitz claim the estimate of [estimateScriptSigSize]
    is below the size of the unlocking script that [createClaimScriptSig]
    builds for the same escrow: by 4 bytes on BSV, where the two preimages
    of 1024 bytes go behind a PUSHDATA2 of three bytes each, and by 3 bytes
    on BTC, where the redeem script follows behind a PUSHDATA1. *)
Theorem estimateScriptSigSize_short (params : Htlc.HTLCParams) (chain : string)
  (swapPreimage recipientPreimage : string) :
  String.length (Htlc.p_swapHash params) = 64%nat ->
  String.length (Htlc.p_recipientHash params) = 64%nat ->
  String.length (Htlc.p_refundHash params) = 64%nat ->
  0 < Htlc.p_timeout params < 2 ^ 63 ->
  String.length swapPreimage = 2048%nat ->
  String.length recipientPreimage = 2048%nat ->
  exists escrow scriptSig,
    Htlc.createHTLC params chain "mainnet" = Ok escrow
    /\ Htlc.createClaimScriptSig swapPreimage recipientPreimage
         (Htlc.redeemScript (Htlc.htlcScript escrow)) (Htlc.chain escrow) = Ok scriptSig
    /\ QArith_base.Qeq (byteSize scriptSig)
         (QArith_base.Qplus (estimateScriptSigSize escrow true)
            (QArith_base.inject_Z (shortfall chain))).
Proof.
  intros Hsh Hrh Hfh Ht Hswap Hrecipient.
  destruct (createHTLCScript_layout params Hsh Hrh Hfh Ht)
    as (c & pl & Hc & Hscript & Hpl & _).
  destruct (length_encodeMinimalNumber _ Ht) as (k & Hk & Hk8).
  assert (Hlen : String.length (Htlc.redeemScript c) = (222 + 2 * k)%nat).
  { rewrite Hscript, length_layout, Hsh, Hrh, Hfh, Hpl, Hk. cbn [String.length]. lia. }
  unfold Htlc.createHTLC. rewrite Hc. cbn [mbind result_bind].
  unfold Htlc.createClaimScriptSig, shortfall.
  rewrite Hswap, Hrecipient.
  change (2048 <? 64)%nat with false. cbv iota.
  rewrite (pushData_preimage _ Hswap), (pushData_preimage _ Hrecipient).
  cbn [mbind result_bind].
  destruct (String.eqb chain "BSV") eqn:Hchain.
  - eexists. eexists. split; [reflexivity|].
    cbn [Htlc.chain Htlc.htlcScript]. change (String.eqb "BSV" "BTC") with false.
    cbv iota. split; [reflexivity|].
    unfold byteSize, estimateScriptSigSize. cbn [Htlc.chain].
    change (String.eqb "BSV" "BTC") with false. cbv iota.
    rewrite !length_app, Hswap, Hrecipient.
    unfold QArith_base.Qeq. vm_compute. reflexivity.
  - destruct (pushData_script _ k Hlen Hk8) as (prefix & Hpush & Hprefix).
    eexists. eexists. split; [reflexivity|].
    cbn [Htlc.chain Htlc.htlcScript]. change (String.eqb "BTC" "BTC") with true.
    cbv iota.
    rewrite Hpush. cbn [mbind result_bind]. split; [reflexivity|].
    unfold byteSize, estimateScriptSigSize. cbn [Htlc.chain Htlc.htlcScript].
    change (String.eqb "BTC" "BTC") with true. cbv iota.
    rewrite !length_app, Hswap, Hrecipient, Hprefix, Hlen.
    unfold QArith_base.Qeq, QArith_base.Qplus, QArith_base.inject_Z.
    unfold Htlc.OP_TRUE.
    cbn [QArith_base.Qnum QArith_base.Qden String.length Pos.mul].
    lia.
Qed.

Lemma estimateScriptSigSize_short_witness :
  exists escrow scriptSig,
    Htlc.createHTLC exampleParams "BSV" "mainnet" = Ok escrow
    /\ Htlc.createClaimScriptSig (secretOf "11") (secretOf "33")
         (Htlc.redeemScript (Htlc.htlcScript escrow)) (Htlc.chain escrow) = Ok scriptSig
    /\ QArith_base.Qeq (byteSize scriptSig)
         (QArith_base.Qplus (estimateScriptSigSize escrow true)
            (QArith_base.inject_Z 4)).
Proof.
  apply (estimateScriptSigSize_short exampleParams "BSV" (secretOf "11") (secretOf "33"));
    [reflexivity | reflexivity | reflexivity | cbn; lia
    | vm_compute; reflexivity | vm_compute; reflexivity].
Defined.

(** ** Base58 *)

Example base58_samples :
  base58Encode [] = "1"
  /\ base58Decode "" = Ok [x00]
  /\ base58Encode [x00; x00; x05] = "116"
  /\ base58Decode "116" = Ok [x00; x00; x05]
  /\ base58Decode "0" = Throw (Err "Invalid Base58 character").
Proof. repeat split. Qed.

Section Radix.

Variable base factor : Z.
Hypothesis base_2 : 2 <= base.
Hypothesis factor_1 : 1 <= factor.

Local Abbreviation value := (radixValue base).
Local Abbreviation inRange := (Forall (fun d => 0 <= d < base)).

Lemma value_app (a b : list Z) :
  value (a ++ b) = value a + base ^ Z.of_nat (length a) * value b.
Proof.
  induction a as [|d a IH]; [cbn; lia|].
  cbn [app radixValue length]. rewrite IH, Nat2Z.inj_succ, Z.pow_succ_r by lia. ring.
Qed.

Lemma value_bounds (ds : list Z) :
  inRange ds -> 0 <= value ds < base ^ Z.of_nat (length ds).
Proof.
  induction 1 as [|d ds Hd _ IH]; [cbn; lia|].
  cbn [radixValue length]. rewrite Nat2Z.inj_succ, Z.pow_succ_r by lia. nia.
Qed.

Lemma mulAdd_spec (ds : list Z) :
  inRange ds ->
  forall carry, 0 <= carry < factor ->
    inRange (fst (mulAdd base factor ds carry))
    /\ length (fst (mulAdd base factor ds carry)) = length ds
    /\ 0 <= snd (mulAdd base factor ds carry) < factor
    /\ value (fst (mulAdd base factor ds carry))
       + base ^ Z.of_nat (length ds) * snd (mulAdd base factor ds carry)
       = factor * value ds + carry.
Proof.
  induction 1 as [|d ds Hd _ IH]; intros carry Hcarry.
  - cbn. repeat split; try constructor; lia.
  - cbn [mulAdd].
    assert (Hsum : 0 <= carry + d * factor < base * factor) by nia.
    assert (Hnext : 0 <= (carry + d * factor) / base < factor).
    { split; [apply Z.div_pos; lia | apply Z.div_lt_upper_bound; lia]. }
    specialize (IH _ Hnext).
    destruct (mulAdd base factor ds ((carry + d * factor) / base)) as [rest' out].
    cbn [fst snd] in *. destruct IH as (Hrange & Hlen & Hout & Hval).
    split; [constructor; [apply Z.mod_pos_bound; lia | exact Hrange]|].
    split; [cbn [length]; rewrite Hlen; reflexivity|].
    split; [exact Hout|].
    cbn [radixValue length]. rewrite Nat2Z.inj_succ, Z.pow_succ_r by lia.
    pose proof (Z.div_mod (carry + d * factor) base ltac:(lia)). nia.
Qed.

Lemma digitsOf_spec (fuel : nat) :
  forall carry, 0 <= carry < base ^ Z.of_nat fuel ->
    inRange (digitsOf base fuel carry)
    /\ value (digitsOf base fuel carry) = carry
    /\ (0 < carry -> List.last (digitsOf base fuel carry) 0 <> 0)
    /\ (carry = 0 -> digitsOf base fuel carry = []).
Proof.
  induction fuel as [|fuel IH]; intros carry Hcarry.
  - cbn in *. assert (carry = 0) by lia. subst carry.
    repeat split; try constructor; intros; lia.
  - cbn [digitsOf]. rewrite Nat2Z.inj_succ, Z.pow_succ_r in Hcarry by lia.
    destruct (Z.ltb_spec 0 carry) as [Hpos|Hzero].
    + assert (Hnext : 0 <= carry / base < base ^ Z.of_nat fuel).
      { split; [apply Z.div_pos; lia | apply Z.div_lt_upper_bound; lia]. }
      destruct (IH _ Hnext) as (Hrange & Hval & Hlast & Hnil).
      split; [constructor; [apply Z.mod_pos_bound; lia | exact Hrange]|].
      split; [cbn [radixValue]; rewrite Hval;
              pose proof (Z.div_mod carry base ltac:(lia)); lia|].
      split; [|intros ->; lia].
      intros _. destruct (Z.eq_dec (carry / base) 0) as [Hq|Hq].
      * rewrite (Hnil Hq). cbn [List.last].
        rewrite Z.mod_small; [lia|].
        split; [lia|]. apply Z.div_small_iff in Hq; lia.
      * assert (Hq' : 0 < carry / base) by lia.
        specialize (Hlast Hq').
        destruct (digitsOf base fuel (carry / base)) as [|d r] eqn:Hds;
          [cbn in Hlast; contradiction|].
        exact Hlast.
    + assert (carry = 0) by lia. subst carry.
      repeat split; try constructor; intros; lia.
Qed.

Lemma last_app_nonempty (a b : list Z) :
  b <> [] -> List.last (a ++ b) 0 = List.last b 0.
Proof.
  intros Hb. induction a as [|d a IH]; [reflexivity|].
  cbn [app]. destruct (a ++ b)%list as [|e r] eqn:Hab.
  - destruct a; [cbn in Hab; contradiction | discriminate Hab].
  - cbn [List.last] in *. exact IH.
Qed.

(** A list in range whose last digit is zero is worth less than the power
    of its other digits. *)
Lemma value_last (ds : list Z) :
  inRange ds -> ds <> [] ->
  (List.last ds 0 = 0 -> value ds < base ^ (Z.of_nat (length ds) - 1))
  /\ (List.last ds 0 <> 0 -> base ^ (Z.of_nat (length ds) - 1) <= value ds).
Proof.
  intros Hrange Hne.
  destruct (exists_last Hne) as (init & top & ->).
  apply Forall_app in Hrange as [Hinit Htop].
  apply Forall_inv in Htop.
  rewrite last_app_nonempty by discriminate. cbn [List.last].
  rewrite value_app, List.length_app. cbn [length radixValue].
  replace (Z.of_nat (length init + 1) - 1) with (Z.of_nat (length init)) by lia.
  pose proof (value_bounds init Hinit) as Hb.
  split; intros Hlast; [subst top; lia | nia].
Qed.

(** One byte, or one character, more. *)
Lemma step_proper (fuel : nat) (ds : list Z) (b : Z) :
  proper base ds -> 0 <= b < factor -> factor <= base ^ Z.of_nat fuel ->
  let r := mulAdd base factor ds b in
  proper base (fst r ++ digitsOf base fuel (snd r))
  /\ value (fst r ++ digitsOf base fuel (snd r)) = factor * value ds + b.
Proof.
  intros [Hrange Htop] Hb Hfuel r.
  destruct (mulAdd_spec ds Hrange b Hb) as (Hrange' & Hlen & Hout & Hval).
  fold r in Hrange', Hlen, Hout, Hval.
  destruct (digitsOf_spec fuel (snd r) ltac:(lia)) as (Hrange2 & Hval2 & Hlast2 & Hnil2).
  assert (Hvalue : value (fst r ++ digitsOf base fuel (snd r)) = factor * value ds + b).
  { rewrite value_app, Hval2, Hlen. exact Hval. }
  split; [|exact Hvalue].
  split; [apply Forall_app; split; assumption|].
  destruct (Z.eq_dec (snd r) 0) as [Hzero|Hpos].
  - rewrite (Hnil2 Hzero), app_nil_r. rewrite Hzero in Hval.
    assert (Hne : fst r <> []).
    { intros Hnil. rewrite Hnil in Hlen. destruct Htop as [->|Htop].
      - discriminate Hlen.
      - destruct ds; [cbn in Htop; contradiction | discriminate Hlen]. }
    destruct (value_last (fst r) Hrange' Hne) as [Hsmall _].
    destruct Htop as [->|Htop].
    + destruct (fst r) as [|d [|e t]] eqn:Hr; try discriminate Hlen.
      cbn [List.last radixValue] in *.
      destruct (Z.eq_dec d 0) as [->|Hd]; [left; reflexivity | right; exact Hd].
    + right. intros Hlast. specialize (Hsmall Hlast).
      assert (Hds : ds <> []) by (destruct ds; [cbn in Htop; contradiction | discriminate]).
      destruct (value_last ds Hrange Hds) as [_ Hlarge]. specialize (Hlarge Htop).
      rewrite Hlen in Hsmall. nia.
  - right. rewrite last_app_nonempty.
    + apply Hlast2. lia.
    + intros Hnil. specialize (Hlast2 ltac:(lia)). rewrite Hnil in Hlast2.
      cbn in Hlast2. contradiction.
Qed.

Lemma same_length_unique (a : list Z) :
  forall b, inRange a -> inRange b -> length a = length b ->
    value a = value b -> a = b.
Proof.
  induction a as [|x a IH]; intros [|y b] Ha Hb Hlen Hval; try discriminate Hlen.
  - reflexivity.
  - apply Forall_cons_iff in Ha as [Hx Ha]. apply Forall_cons_iff in Hb as [Hy Hb].
    cbn [radixValue] in Hval.
    assert (Hxy : x = y).
    { assert (Hmod : (x + base * value a) mod base = (y + base * value b) mod base)
        by (rewrite Hval; reflexivity).
      replace (x + base * value a) with (x + value a * base) in Hmod by ring.
      replace (y + base * value b) with (y + value b * base) in Hmod by ring.
      rewrite !Z.mod_add in Hmod by lia.
      rewrite !Z.mod_small in Hmod by lia. exact Hmod. }
    subst y. f_equal. apply IH; [assumption | assumption | cbn in Hlen; lia | nia].
Qed.

(** A number has one proper list of digits. *)
Lemma proper_unique (a b : list Z) :
  proper base a -> proper base b -> value a = value b -> a = b.
Proof.
  intros [Ha Hatop] [Hb Hbtop] Hval.
  assert (Hzero : forall l, inRange l -> List.last l 0 <> 0 -> 0 < value l /\ l <> []).
  { intros l Hl Hlast.
    assert (Hne : l <> []) by (intros ->; cbn in Hlast; contradiction).
    destruct (value_last l Hl Hne) as [_ Hlarge]. specialize (Hlarge Hlast).
    split; [|exact Hne].
    assert (0 < base ^ (Z.of_nat (length l) - 1)); [|lia].
    apply Z.pow_pos_nonneg; [lia|]. destruct l; [contradiction | cbn [length]; lia]. }
  destruct Hatop as [->|Hatop]; destruct Hbtop as [->|Hbtop].
  - reflexivity.
  - destruct (Hzero b Hb Hbtop). cbn in Hval. lia.
  - destruct (Hzero a Ha Hatop). cbn in Hval. lia.
  - destruct (Hzero a Ha Hatop) as [_ Hane]. destruct (Hzero b Hb Hbtop) as [_ Hbne].
    apply same_length_unique; try assumption.
    destruct (value_last a Ha Hane) as [_ Hal]. destruct (value_last b Hb Hbne) as [_ Hbl].
    specialize (Hal Hatop). specialize (Hbl Hbtop).
    pose proof (value_bounds a Ha) as Hab. pose proof (value_bounds b Hb) as Hbb.
    destruct (Nat.lt_trichotomy (length a) (length b)) as [Hlt|[Heq|Hgt]]; [|exact Heq|].
    + exfalso.
      assert (base ^ Z.of_nat (length a) <= base ^ (Z.of_nat (length b) - 1))
        by (apply Z.pow_le_mono_r; lia).
      lia.
    + exfalso.
      assert (base ^ Z.of_nat (length b) <= base ^ (Z.of_nat (length a) - 1))
        by (apply Z.pow_le_mono_r; lia).
      lia.
Qed.

End Radix.

Section Base58.

Lemma toInt32_small (x : Z) : -2147483648 <= x < 2147483648 -> toInt32 x = x.
Proof.
  intros Hx. unfold toInt32. rewrite Z.mod_small by lia. lia.
Qed.

Lemma encodeCarry_mulAdd (ds : list Z) :
  Forall (fun d => 0 <= d < 58) ds ->
  forall carry, 0 <= carry < 256 ->
    encodeCarry ds carry = mulAdd 58 256 ds carry.
Proof.
  induction 1 as [|d ds Hd _ IH]; intros carry Hcarry; [reflexivity|].
  cbn [encodeCarry mulAdd].
  rewrite (toInt32_small d) by lia. rewrite (toInt32_small (d * 256)) by lia.
  assert (Hsum : 0 <= carry + d * 256 < 14848) by lia.
  rewrite Z.quot_div_nonneg, Z.rem_mod_nonneg by lia.
  assert (Hq : 0 <= (carry + d * 256) / 58 < 256).
  { split; [apply Z.div_pos; lia | apply Z.div_lt_upper_bound; lia]. }
  rewrite toInt32_small by lia. rewrite IH by exact Hq. reflexivity.
Qed.

Lemma encodePush_digitsOf (fuel : nat) :
  forall carry, 0 <= carry < 2147483648 ->
    encodePush fuel carry = digitsOf 58 fuel carry.
Proof.
  induction fuel as [|fuel IH]; intros carry Hcarry; [reflexivity|].
  cbn [encodePush digitsOf]. destruct (0 <? carry); [|reflexivity].
  rewrite Z.quot_div_nonneg, Z.rem_mod_nonneg by lia.
  assert (Hq : 0 <= carry / 58 < 2147483648).
  { split; [apply Z.div_pos; lia | apply Z.div_lt_upper_bound; lia]. }
  rewrite toInt32_small by lia. rewrite IH by exact Hq. reflexivity.
Qed.

Lemma decodeCarry_mulAdd (bs : list Z) :
  Forall (fun b => 0 <= b < 256) bs ->
  forall carry, 0 <= carry < 58 ->
    decodeCarry bs carry = mulAdd 256 58 bs carry.
Proof.
  induction 1 as [|b bs Hb _ IH]; intros carry Hcarry; [reflexivity|].
  cbn [decodeCarry mulAdd].
  assert (Hsum : 0 <= carry + b * 58 < 14848) by lia.
  rewrite toInt32_small by lia.
  change 255 with (Z.ones 8). rewrite Z.land_ones, Z.shiftr_div_pow2 by lia.
  change (2 ^ 8) with 256.
  assert (Hq : 0 <= (carry + b * 58) / 256 < 58).
  { split; [apply Z.div_pos; lia | apply Z.div_lt_upper_bound; lia]. }
  rewrite IH by exact Hq. reflexivity.
Qed.

Lemma decodePush_digitsOf (fuel : nat) :
  forall carry, 0 <= carry < 2147483648 ->
    decodePush fuel carry = digitsOf 256 fuel carry.
Proof.
  induction fuel as [|fuel IH]; intros carry Hcarry; [reflexivity|].
  cbn [decodePush digitsOf]. destruct (0 <? carry); [|reflexivity].
  rewrite toInt32_small by lia.
  change 255 with (Z.ones 8). rewrite Z.land_ones, Z.shiftr_div_pow2 by lia.
  change (2 ^ 8) with 256.
  assert (Hq : 0 <= carry / 256 < 2147483648).
  { split; [apply Z.div_pos; lia | apply Z.div_lt_upper_bound; lia]. }
  rewrite IH by exact Hq. reflexivity.
Qed.

(** One more byte in [base58Encode]. *)
Lemma encodeByte_step (ds : list Z) (b : Z) :
  proper 58 ds -> 0 <= b < 256 ->
  proper 58 (encodeByte ds b)
  /\ radixValue 58 (encodeByte ds b) = 256 * radixValue 58 ds + b.
Proof.
  intros Hds Hb. unfold encodeByte.
  rewrite (encodeCarry_mulAdd ds (proj1 Hds) b Hb).
  destruct (mulAdd_spec 58 256 ltac:(lia) ltac:(lia) ds (proj1 Hds) b Hb) as (_ & _ & Hout & _).
  pose proof (step_proper 58 256 ltac:(lia) ltac:(lia) 6 ds b Hds Hb ltac:(cbn; lia)) as Hstep.
  cbv zeta in Hstep.
  destruct (mulAdd 58 256 ds b) as [ds' out]. cbn [fst snd] in *.
  rewrite encodePush_digitsOf by lia. exact Hstep.
Qed.

Lemma encode_fold (bytes : list Z) :
  Forall (fun b => 0 <= b < 256) bytes ->
  forall ds, proper 58 ds ->
    proper 58 (fold_left encodeByte bytes ds)
    /\ radixValue 58 (fold_left encodeByte bytes ds)
       = fold_left (fun acc b => 256 * acc + b) bytes (radixValue 58 ds).
Proof.
  induction 1 as [|b bytes Hb _ IH]; intros ds Hds; [split; [exact Hds | reflexivity]|].
  cbn [fold_left]. destruct (encodeByte_step ds b Hds Hb) as [Hproper Hvalue].
  destruct (IH _ Hproper) as [Hp Hv]. split; [exact Hp|]. rewrite Hv, Hvalue. reflexivity.
Qed.

(** A digit and its character. *)
Lemma indexIn_alphabetAt (d : Z) :
  0 <= d < 58 ->
  exists c, alphabetAt d = String c EmptyString
            /\ indexIn BASE58_ALPHABET c 0 = Some d
            /\ (Ascii.eqb c "1" = true <-> d = 0).
Proof.
  intros Hd.
  assert (Hall : forall n, (n < 58)%nat ->
            exists c, alphabetAt (Z.of_nat n) = String c EmptyString
                      /\ indexIn BASE58_ALPHABET c 0 = Some (Z.of_nat n)
                      /\ (Ascii.eqb c "1" = true <-> Z.of_nat n = 0)).
  { intros n Hn.
    do 58 (destruct n as [|n];
           [eexists; split; [reflexivity|]; split; [reflexivity|];
            split; intros H; vm_compute in H |- *; first [reflexivity | discriminate H]|]).
    lia. }
  destruct (Hall (Z.to_nat d) ltac:(lia)) as (c & H1 & H2 & H3).
  rewrite Z2Nat.id in H1, H2, H3 by lia.
  exists c. split; [exact H1|]. split; [exact H2 | exact H3].
Qed.

Lemma decodeChar_step (bs : list Z) (d : Z) (c : ascii) :
  proper 256 bs -> 0 <= d < 58 -> indexIn BASE58_ALPHABET c 0 = Some d ->
  exists bs',
    decodeChar bs c = Ok bs'
    /\ proper 256 bs'
    /\ radixValue 256 bs' = 58 * radixValue 256 bs + d.
Proof.
  intros Hbs Hd Hc. unfold decodeChar. rewrite Hc.
  rewrite (decodeCarry_mulAdd bs (proj1 Hbs) d Hd).
  destruct (mulAdd_spec 256 58 ltac:(lia) ltac:(lia) bs (proj1 Hbs) d Hd) as (_ & _ & Hout & _).
  pose proof (step_proper 256 58 ltac:(lia) ltac:(lia) 4 bs d Hbs Hd ltac:(cbn; lia)) as Hstep.
  cbv zeta in Hstep.
  destruct (mulAdd 256 58 bs d) as [bs' out]. cbn [fst snd] in *.
  rewrite decodePush_digitsOf by lia. eexists. split; [reflexivity | exact Hstep].
Qed.

Lemma decodeChars_digits (ds : list Z) :
  Forall (fun d => 0 <= d < 58) ds ->
  forall bs, proper 256 bs ->
    exists bs',
      decodeChars bs (digitChars ds) = Ok bs'
      /\ proper 256 bs'
      /\ radixValue 256 bs'
         = fold_left (fun acc d => 58 * acc + d) ds (radixValue 256 bs).
Proof.
  induction 1 as [|d ds Hd _ IH]; intros bs Hbs.
  - exists bs. split; [reflexivity|]. split; [exact Hbs | reflexivity].
  - destruct (indexIn_alphabetAt d Hd) as (c & Hchar & Hindex & _).
    cbn [digitChars]. rewrite Hchar.
    change (String c EmptyString +:+ digitChars ds) with (String c (digitChars ds)).
    cbn [decodeChars].
    destruct (decodeChar_step bs d c Hbs Hd Hindex) as (bs1 & Hstep & Hproper & Hvalue).
    rewrite Hstep. cbn [mbind result_bind].
    destruct (IH _ Hproper) as (bs' & Hrun & Hp & Hv).
    exists bs'. split; [exact Hrun|]. split; [exact Hp|].
    cbn [fold_left]. rewrite Hv, Hvalue. reflexivity.
Qed.

Lemma digitChars_app (a b : list Z) :
  digitChars (a ++ b) = digitChars a +:+ digitChars b.
Proof.
  induction a as [|d a IH]; [reflexivity|].
  cbn [app digitChars]. rewrite IH. symmetry. apply app_assoc_s.
Qed.

Lemma digitChars_zeros (n : nat) : digitChars (repeat 0 n) = repeatString n "1".
Proof.
  induction n as [|n IH]; [reflexivity|].
  cbn [repeat digitChars repeatString]. rewrite IH. reflexivity.
Qed.

Lemma fold_zeros (base : Z) (n : nat) (rest : list Z) :
  fold_left (fun acc d => base * acc + d) (repeat 0 n ++ rest) 0
  = fold_left (fun acc d => base * acc + d) rest 0.
Proof.
  induction n as [|n IH]; [reflexivity|].
  cbn [repeat app fold_left]. replace (base * 0 + 0) with 0 by lia. exact IH.
Qed.

Lemma fold_rev_value (base : Z) (ds : list Z) :
  fold_left (fun acc d => base * acc + d) (rev ds) 0 = radixValue base ds.
Proof.
  rewrite <- fold_left_rev_right, rev_involutive.
  induction ds as [|d ds IH]; [reflexivity|].
  cbn [fold_right radixValue]. rewrite IH. lia.
Qed.

Lemma fold_shift (base : Z) (ds : list Z) (v : Z) :
  fold_left (fun acc d => base * acc + d) ds v
  = base ^ Z.of_nat (length ds) * v + fold_left (fun acc d => base * acc + d) ds 0.
Proof.
  revert v. induction ds as [|d ds IH]; intros v; [cbn; lia|].
  cbn [fold_left length]. rewrite (IH (base * v + d)), (IH (base * 0 + d)).
  rewrite Nat2Z.inj_succ, Z.pow_succ_r by lia. ring.
Qed.

(** The bytes split into the zeros that [base58Encode] counts and a rest
    which, turned round, is a proper number in base 256. *)
Lemma leadingZeros_split (bytes : list Z) :
  bytes <> [] -> Forall (fun b => 0 <= b < 256) bytes ->
  exists rest,
    bytes = (repeat 0 (leadingZeros bytes) ++ rest)%list
    /\ proper 256 (rev rest).
Proof.
  induction bytes as [|b bytes IH]; intros Hne Hrange; [contradiction|].
  apply Forall_cons_iff in Hrange as [Hb Hrange].
  destruct bytes as [|b' bytes'].
  - exists [b]. split; [reflexivity|]. split; [constructor; [exact Hb | constructor]|].
    cbn. destruct (Z.eq_dec b 0) as [->|Hnz]; [left; reflexivity | right; exact Hnz].
  - cbn [leadingZeros]. destruct (Z.eqb_spec b 0) as [->|Hnz].
    + destruct (IH ltac:(discriminate) Hrange) as (rest & Hsplit & Hproper).
      exists rest. split; [|exact Hproper].
      cbn [repeat app]. f_equal. exact Hsplit.
    + exists (b :: b' :: bytes'). split; [reflexivity|].
      split.
      * apply Forall_rev. constructor; assumption.
      * right. change (b :: b' :: bytes') with ([b] ++ (b' :: bytes'))%list.
        rewrite rev_app_distr. cbn [rev app].
        rewrite last_app_nonempty by discriminate. exact Hnz.
Qed.

Lemma leadingOneChars_one (t : string) :
  t <> EmptyString -> leadingOneChars (String "1" t) = S (leadingOneChars t).
Proof. destruct t; [contradiction | reflexivity]. Qed.

Lemma leadingOneChars_ones (n : nat) (c : ascii) (rest : string) :
  (Ascii.eqb c "1" = false \/ rest = EmptyString) ->
  leadingOneChars (repeatString n "1" +:+ String c rest) = n.
Proof.
  intros Hc. induction n as [|n IH].
  - cbn [repeatString]. change (EmptyString +:+ String c rest) with (String c rest).
    destruct Hc as [Hc| ->]; [|reflexivity].
    cbn [leadingOneChars]. destruct rest; [reflexivity|]. rewrite Hc. reflexivity.
  - cbn [repeatString].
    change (("1" +:+ repeatString n "1") +:+ String c rest)
      with (String "1" (repeatString n "1" +:+ String c rest)).
    rewrite leadingOneChars_one, IH; [reflexivity|].
    intros Hnil. apply (f_equal String.length) in Hnil. rewrite length_app in Hnil.
    cbn [String.length] in Hnil. lia.
Qed.

Lemma byteZ_bytes (buffer : Buffer) :
  Forall (fun b => 0 <= b < 256) (map Js.byteZ buffer).
Proof.
  apply Forall_forall. intros b Hb.
  apply list_elem_of_In, in_map_iff in Hb as (x & <- & _). apply byteZ_range.
Qed.

Lemma map_Zbyte_byteZ (buffer : Buffer) : map Js.Zbyte (map Js.byteZ buffer) = buffer.
Proof.
  induction buffer as [|x r IH]; [reflexivity|].
  cbn [map]. rewrite Zbyte_byteZ, IH. reflexivity.
Qed.

Lemma base58Decode_encode (buffer : Buffer) :
  buffer <> [] -> base58Decode (base58Encode buffer) = Ok buffer.
Proof.
  intros Hne. unfold base58Encode, base58Decode. cbv zeta.
  set (bytes := map Js.byteZ buffer).
  assert (Hbytes : Forall (fun b => 0 <= b < 256) bytes) by apply byteZ_bytes.
  assert (Hnonempty : bytes <> []) by (destruct buffer; [contradiction | discriminate]).
  assert (Hstart : proper 58 [0]) by (split; [constructor; [lia | constructor] | left; reflexivity]).
  destruct (encode_fold bytes Hbytes [0] Hstart) as [Hproper Hvalue].
  set (ds := fold_left encodeByte bytes [0]) in *.
  set (z := leadingZeros bytes).
  destruct (leadingZeros_split bytes Hnonempty Hbytes) as (rest & Hsplit & Hrest).
  fold z in Hsplit.
  (* the digits, most significant first *)
  assert (Hrev : Forall (fun d => 0 <= d < 58) (repeat 0 z ++ rev ds)).
  { apply Forall_app. split.
    - apply Forall_forall. intros d Hd. apply list_elem_of_In, repeat_spec in Hd. lia.
    - apply Forall_rev. exact (proj1 Hproper). }
  assert (Hzero : proper 256 [0])
    by (split; [constructor; [lia | constructor] | left; reflexivity]).
  destruct (decodeChars_digits _ Hrev [0] Hzero) as (bs & Hrun & Hbs & Hbsvalue).
  rewrite digitChars_app, digitChars_zeros in Hrun.
  rewrite Hrun. cbn [mbind result_bind].
  (* the value read back *)
  cbn [radixValue] in Hbsvalue, Hvalue.
  replace (0 + 256 * 0) with 0 in Hbsvalue by lia.
  replace (0 + 58 * 0) with 0 in Hvalue by lia.
  rewrite fold_zeros, fold_rev_value, Hvalue in Hbsvalue.
  assert (Hsame : bs = rev rest).
  { apply (proper_unique 256 ltac:(lia)); [exact Hbs | exact Hrest|].
    rewrite Hbsvalue. rewrite Hsplit at 1.
    rewrite fold_zeros, <- fold_rev_value, rev_involutive. reflexivity. }
  (* the leading ones *)
  assert (Hones : leadingOneChars (repeatString z "1" +:+ digitChars (rev ds)) = z).
  { destruct Hproper as [Hrange [Hds|Htop]].
    - rewrite Hds. cbn [rev app digitChars]. apply leadingOneChars_ones.
      right. reflexivity.
    - assert (Hds : ds <> []) by (intros Hnil; rewrite Hnil in Htop; cbn in Htop; lia).
      destruct (exists_last Hds) as (init & top & Heq).
      rewrite Heq in Htop, Hrange |- *.
      rewrite last_app_nonempty in Htop by discriminate. cbn [List.last] in Htop.
      apply Forall_app in Hrange as [_ Htoprange]. apply Forall_inv in Htoprange.
      rewrite rev_app_distr. cbn [rev app digitChars].
      destruct (indexIn_alphabetAt top Htoprange) as (c & Hchar & _ & Hone).
      rewrite Hchar.
      change (String c EmptyString +:+ digitChars (rev init))
        with (String c (digitChars (rev init))).
      apply leadingOneChars_ones. left.
      destruct (Ascii.eqb c "1") eqn:Hc; [|reflexivity].
      exfalso. apply Htop. apply Hone. reflexivity. }
  rewrite Hones, Hsame, rev_app_distr, rev_involutive.
  rewrite rev_repeat, <- Hsplit. unfold bytes. rewrite map_Zbyte_byteZ. reflexivity.
Qed.

Lemma decodeChars_invalid (str : string) (c : ascii) :
  In c (list_ascii_of_string str) -> indexIn BASE58_ALPHABET c 0 = None ->
  forall bytes, decodeChars bytes str = Throw (Err "Invalid Base58 character").
Proof.
  intros Hin Hout. induction str as [|a rest IH]; intros bytes; [destruct Hin|].
  cbn [decodeChars]. unfold decodeChar.
  destruct (indexIn BASE58_ALPHABET a 0) as [carry|] eqn:Ha; [|reflexivity].
  destruct (decodeCarry bytes carry) as [bytes' out].
  cbn [mbind result_bind]. apply IH.
  destruct Hin as [->|Hin]; [congruence | exact Hin].
Qed.

End Base58.

(** X18.  [base58Decode] gives back every buffer that [base58Encode] has
    encoded, leading zero bytes included, but for the empty buffer, which is
    encoded as the one character '1' and comes back as one zero byte. *)
Theorem base58_roundtrip (buffer : Buffer) :
  (buffer <> [] -> base58Decode (base58Encode buffer) = Ok buffer)
  /\ base58Encode [] = "1"
  /\ base58Decode (base58Encode []) = Ok [x00].
Proof.
  split; [apply base58Decode_encode|]. split; reflexivity.
Qed.

Lemma base58_roundtrip_witness :
  base58Decode (base58Encode [x00; x00; x05]) = Ok [x00; x00; x05].
Proof.
  apply (proj1 (base58_roundtrip [x00; x00; x05])). discriminate.
Defined.

(** X19.  [validateAddress] of lib/sol.js accepts the Base58 text of a
    buffer exactly when the buffer has 32 bytes, and answers a text with a
    character outside the alphabet with the decoder's message. *)
Theorem solValidateAddress_of_encoded (buffer : Buffer) (address : string) (c : ascii) :
  v_valid (solValidateAddress (base58Encode buffer)) = (length buffer =? 32)%nat
  /\ (In c (list_ascii_of_string address) -> indexIn BASE58_ALPHABET c 0 = None ->
      solValidateAddress address
      = {| v_valid := false; v_error := "Invalid Base58 character" |}).
Proof.
  split.
  - destruct buffer as [|b rest]; [reflexivity|].
    unfold solValidateAddress.
    rewrite base58Decode_encode by discriminate.
    destruct (length (b :: rest) =? 32)%nat; reflexivity.
  - intros Hin Hout. unfold solValidateAddress, base58Decode.
    rewrite (decodeChars_invalid address c Hin Hout). reflexivity.
Qed.

Lemma solValidateAddress_of_encoded_witness :
  v_valid (solValidateAddress (base58Encode (repeat x01 32))) = true
  /\ solValidateAddress "1l1"
     = {| v_valid := false; v_error := "Invalid Base58 character" |}.
Proof.
  split.
  - exact (proj1 (solValidateAddress_of_encoded (repeat x01 32) "1l1" "l")).
  - apply (proj2 (solValidateAddress_of_encoded (repeat x01 32) "1l1" "l")).
    + cbn. right. left. reflexivity.
    + reflexivity.
Defined.

(** ** The swap secret in the claim transaction *)

Section Extract.

Lemma app_empty (s : string) : s +:+ EmptyString = s.
Proof. induction s as [|c r IH]; [reflexivity|]. rewrite app_cons, IH. reflexivity. Qed.

(** The part of a text between two cursors. *)
Lemma sub_at (a b c : string) (i j : Z) :
  Z.of_nat (String.length a) = i -> Z.of_nat (String.length b) = j - i ->
  Js.substring (a +:+ b +:+ c) (Some i) (Some j) = b.
Proof.
  intros Ha Hb. rewrite substring_between by lia.
  rewrite (sdrop_app_len a) by lia. apply stake_app_len. lia.
Qed.

Lemma sub_head (b c : string) (j : Z) :
  Z.of_nat (String.length b) = j ->
  Js.substring (b +:+ c) (Some 0) (Some j) = b.
Proof.
  intros Hb. apply (sub_at EmptyString b c 0 j); [reflexivity | lia].
Qed.

Lemma byteText_reads (n : Z) :
  0 <= n < 256 ->
  String.length (byteText n) = 2%nat /\ Js.parseInt16 (byteText n) = Some n.
Proof.
  intros Hn.
  assert (Hall : forallb readsBack (map Z.of_nat (seq 0 256)) = true)
    by (vm_compute; reflexivity).
  rewrite forallb_forall in Hall.
  assert (Hin : In n (map Z.of_nat (seq 0 256))).
  { apply in_map_iff. exists (Z.to_nat n). split; [lia|]. apply in_seq. lia. }
  specialize (Hall n Hin). unfold readsBack in Hall.
  apply andb_prop in Hall as [Hlen Hread]. apply Nat.eqb_eq in Hlen.
  split; [exact Hlen|].
  destruct (Js.parseInt16 (byteText n)) as [v|]; [|discriminate Hread].
  apply Z.eqb_eq in Hread. rewrite Hread. reflexivity.
Qed.

Lemma halfToString16_even (n : Z) : Crypto.halfToString16 (2 * n) = Js.toString16 n.
Proof.
  unfold Crypto.halfToString16.
  replace (2 * n / 2) with n by (rewrite Z.mul_comm, Z.div_mul; lia).
  rewrite Z.odd_mul. cbn [Z.odd andb]. apply app_empty.
Qed.

Lemma readUInt16LE_written (n : Z) :
  0 <= n <= 65535 ->
  String.length (Js.toHex (Crypto.writeUInt16LE n)) = 4%nat
  /\ readUInt16LE (Js.fromHex (Js.toHex (Crypto.writeUInt16LE n))) = Ok n.
Proof.
  intros Hn. split; [reflexivity|].
  rewrite fromHex_toHex. unfold Crypto.writeUInt16LE, readUInt16LE.
  rewrite !byteZ_Zbyte. f_equal.
  rewrite (Z.mod_small (n / 256)) by (split; [apply Z.div_pos; lia | apply Z.div_lt_upper_bound; lia]).
  pose proof (Z.div_mod n 256 ltac:(lia)). lia.
Qed.

(** What [pushData] puts before a secret of whole bytes is what
    [extractSwapSecretFromTx] reads to find the secret again. *)
Lemma pushData_firstPush (secret pushed : string) (n : nat) :
  String.length secret = (2 * n)%nat -> (32 <= n)%nat ->
  Crypto.pushData secret = Ok pushed ->
  exists prefix k,
    pushed = prefix +:+ secret
    /\ String.length prefix = (2 * k)%nat /\ (k <= 3)%nat
    /\ forall rest, firstPush (prefix +:+ secret +:+ rest) = Ok secret.
Proof.
  intros Hlen Hn Hpush. unfold Crypto.pushData in Hpush. rewrite Hlen in Hpush.
  replace (Z.of_nat (2 * n)) with (2 * Z.of_nat n) in Hpush by lia.
  destruct (2 * Z.of_nat n =? 0) eqn:Hzero; [lia|].
  rewrite halfToString16_even in Hpush. fold (byteText (Z.of_nat n)) in Hpush.
  replace (2 * Z.of_nat n / 2) with (Z.of_nat n) in Hpush
    by (rewrite Z.mul_comm, Z.div_mul; lia).
  destruct (2 * Z.of_nat n <=? 2 * 75) eqn:Hdirect;
    [|destruct (2 * Z.of_nat n <=? 2 * 255) eqn:Hone;
      [|destruct (2 * Z.of_nat n <=? 2 * 65535) eqn:Htwo; [|discriminate Hpush]]];
    injection Hpush as <-.
  - destruct (byteText_reads (Z.of_nat n) ltac:(lia)) as [Hsize Hread].
    exists (byteText (Z.of_nat n)), 1%nat.
    split; [reflexivity|]. split; [exact Hsize|]. split; [lia|].
    intros rest. unfold firstPush.
    rewrite (sub_head (byteText (Z.of_nat n))) by lia. rewrite Hread.
    destruct (Z.of_nat n =? 77) eqn:H77; [lia|].
    destruct (Z.of_nat n =? 76) eqn:H76; [lia|].
    destruct (Z.of_nat n <=? 75) eqn:H75; [|lia].
    f_equal. apply sub_at; lia.
  - destruct (byteText_reads (Z.of_nat n) ltac:(lia)) as [Hsize Hread].
    exists ("4c" +:+ byteText (Z.of_nat n)), 2%nat.
    split; [rewrite app_assoc_s; reflexivity|].
    split; [rewrite length_app, Hsize; reflexivity|]. split; [lia|].
    intros rest. unfold firstPush.
    rewrite !app_assoc_s.
    rewrite (sub_head "4c") by reflexivity.
    change (Js.parseInt16 "4c") with (Some 76). cbv iota.
    change (76 =? 77) with false. change (76 =? 76) with true. cbv iota.
    rewrite (sub_at "4c" (byteText (Z.of_nat n)) _ 2 4) by (cbn [String.length]; lia).
    rewrite Hread. cbn [Js.add Js.mul]. f_equal.
    rewrite <- app_assoc_s. apply sub_at; [rewrite length_app, Hsize; cbn; lia | lia].
  - destruct (readUInt16LE_written (Z.of_nat n) ltac:(lia)) as [Hsize Hread].
    exists ("4d" +:+ Js.toHex (Crypto.writeUInt16LE (Z.of_nat n))), 3%nat.
    split; [rewrite app_assoc_s; reflexivity|].
    split; [rewrite length_app, Hsize; reflexivity|]. split; [lia|].
    intros rest. unfold firstPush.
    rewrite !app_assoc_s.
    rewrite (sub_head "4d") by reflexivity.
    change (Js.parseInt16 "4d") with (Some 77). cbv iota.
    change (77 =? 77) with true. cbv iota.
    rewrite (sub_at "4d" (Js.toHex (Crypto.writeUInt16LE (Z.of_nat n))) _ 2 6)
      by (rewrite ?Hsize; cbn [String.length]; lia).
    rewrite Hread. cbn [mbind result_bind]. f_equal.
    rewrite <- app_assoc_s. apply sub_at; [rewrite length_app, Hsize; cbn; lia | lia].
Qed.

(** The count that [encodeVarInt] writes before the unlocking script is the
    count that [extractSwapSecretFromTx] reads, up to 65535 bytes. *)
Lemma scriptSigOf_counted (head counted scriptSig tail : string) (n : nat) :
  String.length head = 82%nat ->
  String.length scriptSig = (2 * n)%nat -> Z.of_nat n <= 65535 ->
  encodeVarInt (Z.of_nat (String.length scriptSig)) = Ok counted ->
  scriptSigOf (head +:+ counted +:+ scriptSig +:+ tail) = Ok scriptSig.
Proof.
  intros Hhead Hlen Hn Hcount. unfold encodeVarInt in Hcount. rewrite Hlen in Hcount.
  replace (Z.of_nat (2 * n)) with (2 * Z.of_nat n) in Hcount by lia.
  rewrite halfToString16_even in Hcount. fold (byteText (Z.of_nat n)) in Hcount.
  replace (2 * Z.of_nat n / 2) with (Z.of_nat n) in Hcount
    by (rewrite Z.mul_comm, Z.div_mul; lia).
  unfold scriptSigOf. cbv zeta.
  change (8 + 2 + (64 + 8)) with 82.
  destruct (2 * Z.of_nat n <? 2 * 253) eqn:Hshort.
  - injection Hcount as <-.
    destruct (byteText_reads (Z.of_nat n) ltac:(lia)) as [Hsize Hread].
    rewrite (sub_at head (byteText (Z.of_nat n)) _ 82 (82 + 2)) by lia.
    rewrite Hread. destruct (Z.of_nat n <? 253) eqn:Hlow; [|lia].
    cbn [mbind result_bind fst snd]. f_equal.
    rewrite <- app_assoc_s. apply sub_at; [rewrite length_app; lia | lia].
  - destruct (2 * Z.of_nat n <=? 2 * 65535) eqn:Hmid; [|lia].
    assert (Hfd : counted = "fd" +:+ Js.toHex (Crypto.writeUInt16LE (Z.of_nat n)))
      by (injection Hcount as <-; reflexivity).
    rewrite Hfd. clear Hcount Hfd.
    destruct (readUInt16LE_written (Z.of_nat n) ltac:(lia)) as [Hsize Hread].
    rewrite !app_assoc_s.
    rewrite (sub_at head "fd" _ 82 (82 + 2)) by (cbn [String.length]; lia).
    change (Js.parseInt16 "fd") with (Some 253). cbv iota.
    change (253 <? 253) with false. change (253 =? 253) with true. cbv iota.
    rewrite <- (app_assoc_s head "fd").
    rewrite (sub_at (head +:+ "fd") (Js.toHex (Crypto.writeUInt16LE (Z.of_nat n))) _
               (82 + 2) (82 + 6))
      by (rewrite ?length_app, ?Hsize; cbn [String.length]; lia).
    rewrite Hread. cbn [mbind result_bind fst snd]. f_equal.
    rewrite <- app_assoc_s. apply sub_at; [rewrite !length_app, Hsize; cbn; lia | lia].
Qed.

Lemma length_toLittleEndian32 (num : Z) (text : string) :
  toLittleEndian32 num = Ok text -> String.length text = 8%nat.
Proof.
  unfold toLittleEndian32. destruct (_ || _); [discriminate|].
  intros [= <-]. reflexivity.
Qed.

(** The raw transaction of [buildSweepTransaction]: 82 characters, the
    counted unlocking script, and the rest. *)
Lemma buildSweepTransaction_layout (feeRate : Z)
  (decode : option string -> result Buffer) (params : SweepParams)
  (tx : SweepTransaction) :
  buildSweepTransaction feeRate decode params = Ok tx ->
  length (Js.fromHex (txid (sw_utxo params))) = 32%nat ->
  exists head counted tail,
    st_txHex tx = head +:+ counted +:+ sw_scriptSig params +:+ tail
    /\ String.length head = 82%nat
    /\ encodeVarInt (Z.of_nat (String.length (sw_scriptSig params))) = Ok counted.
Proof.
  intros Hbuild Htxid. unfold buildSweepTransaction in Hbuild. cbv zeta in Hbuild.
  destruct (_ <=? dustLimit); [discriminate Hbuild|].
  destruct (toLittleEndian32 (vout (sw_utxo params))) as [prevOut|] eqn:Hprev;
    [|discriminate Hbuild].
  cbn [mbind result_bind] in Hbuild.
  destruct (encodeVarInt (Z.of_nat (String.length (sw_scriptSig params))))
    as [counted|] eqn:Hcount; [|discriminate Hbuild].
  cbn [mbind result_bind] in Hbuild.
  destruct (toLittleEndian64 _) as [value|]; [|discriminate Hbuild].
  cbn [mbind result_bind] in Hbuild.
  destruct (addressToScriptPubKey decode _) as [scriptPubKey|]; [|discriminate Hbuild].
  cbn [mbind result_bind] in Hbuild.
  destruct (encodeVarInt (Z.of_nat (String.length scriptPubKey))) as [pubKeyLen|];
    [|discriminate Hbuild].
  cbn [mbind result_bind] in Hbuild.
  destruct (toLittleEndian32 (sw_locktime params)) as [locktime|]; [|discriminate Hbuild].
  cbn [mbind result_bind] in Hbuild.
  apply (f_equal (fun r => match r with Ok t => st_txHex t | Throw _ => EmptyString end))
    in Hbuild.
  cbv beta iota in Hbuild. cbn [st_txHex] in Hbuild. rewrite <- Hbuild.
  exists ("01000000" +:+ "01" +:+ reverseHex (txid (sw_utxo params)) +:+ prevOut),
    counted,
    ("feffffff" +:+ "01" +:+ value +:+ pubKeyLen +:+ scriptPubKey +:+ locktime).
  split; [rewrite !app_assoc_s; reflexivity|]. split; [|reflexivity].
  rewrite !length_app. unfold reverseHex.
  rewrite length_toHex, length_rev, Htxid, (length_toLittleEndian32 _ _ Hprev).
  reflexivity.
Qed.

Lemma createClaimScriptSig_bare (swap recipient script scriptSig : string) :
  Htlc.createClaimScriptSig swap recipient script "BSV" = Ok scriptSig ->
  exists pushSwap pushRecipient,
    Crypto.pushData swap = Ok pushSwap
    /\ Crypto.pushData recipient = Ok pushRecipient
    /\ scriptSig = pushSwap +:+ pushRecipient +:+ "51"
    /\ (64 <= String.length swap)%nat /\ (64 <= String.length recipient)%nat.
Proof.
  unfold Htlc.createClaimScriptSig.
  destruct (String.length swap <? 64)%nat eqn:Hs; [discriminate|].
  destruct (String.length recipient <? 64)%nat eqn:Hr; [discriminate|].
  apply Nat.ltb_ge in Hs, Hr.
  destruct (Crypto.pushData swap) as [ps|]; [|discriminate].
  destruct (Crypto.pushData recipient) as [pr|]; [|discriminate].
  cbn [mbind result_bind]. change (String.eqb "BSV" "BTC") with false. cbv iota.
  intros [= <-]. exists ps, pr. repeat split; assumption.
Qed.

Lemma even_half (m : nat) : Nat.even m = true -> exists n, m = (2 * n)%nat.
Proof.
  intros H. apply Nat.even_spec in H as [n ->]. exists n. reflexivity.
Qed.

End Extract.

(** X20.  The swap secret can be read off the claim transaction.  When
    [buildClaimTransaction] of lib/bsv.js returns a raw transaction for an
    output whose txid is 32 bytes of hexadecimal text and for secrets of
    whole bytes that take up to 65528 bytes together,
    [extractSwapSecretFromTx] returns the swap secret from that text. *)
Theorem claim_transaction_reveals_secret (feeRate : Z)
  (decode : option string -> result Buffer) (base : Env) (params : ClaimParams)
  (tx : string) :
  @Bsv.buildClaimTransaction (withSweep feeRate decode base) params = Ok tx ->
  length (Js.fromHex (txid (cp_utxo params))) = 32%nat ->
  Nat.even (String.length (cp_swapSecret params)) = true ->
  Nat.even (String.length (default "" (cp_recipientSecret params))) = true ->
  Z.of_nat (String.length (cp_swapSecret params))
  + Z.of_nat (String.length (default "" (cp_recipientSecret params))) <= 131056 ->
  extractSwapSecretFromTx tx = Ok (cp_swapSecret params).
Proof.
  intros Hbuild Htxid Hswap Hrecipient Hroom.
  unfold Bsv.buildClaimTransaction in Hbuild. cbv zeta in Hbuild.
  destruct (parseScript (cp_lockingScript params)) as [details|]; [|discriminate Hbuild].
  cbn [mbind result_bind] in Hbuild.
  destruct (negb (String.eqb _ (Htlc.parsed_swapHash details))); [discriminate Hbuild|].
  destruct (cp_recipientSecret params) as [recipient|]; [|discriminate Hbuild].
  cbn [sha256HexOf mbind result_bind] in Hbuild.
  destruct (negb (String.eqb _ (Htlc.parsed_recipientHash details)));
    [discriminate Hbuild|].
  cbn [default from_option] in Hbuild, Hrecipient, Hroom. unfold id in *.
  destruct (Htlc.createClaimScriptSig _ recipient _ "BSV") as [scriptSig|] eqn:Hsig;
    [|discriminate Hbuild].
  cbn [mbind result_bind withSweep bsv_buildSweepTransaction] in Hbuild.
  destruct (buildSweepTransaction feeRate decode _) as [sweep|] eqn:Hsweep;
    [|discriminate Hbuild].
  cbn [mbind result_bind] in Hbuild. injection Hbuild as <-.
  destruct (createClaimScriptSig_bare _ _ _ _ Hsig)
    as (pushSwap & pushRecipient & Hps & Hpr & -> & Hs64 & Hr64).
  destruct (even_half _ Hswap) as (n & Hn).
  destruct (even_half _ Hrecipient) as (m & Hm).
  destruct (pushData_firstPush _ _ n Hn ltac:(lia) Hps)
    as (prefix & k & -> & Hprefix & Hk & Hfirst).
  destruct (pushData_firstPush _ _ m Hm ltac:(lia) Hpr)
    as (prefix' & k' & -> & Hprefix' & Hk' & _).
  destruct (buildSweepTransaction_layout _ _ _ _ Hsweep Htxid)
    as (head & counted & tail & Htx & Hhead & Hcount).
  cbn [sw_scriptSig] in Htx, Hcount.
  unfold extractSwapSecretFromTx. rewrite Htx.
  rewrite (scriptSigOf_counted head counted _ tail (k + n + (k' + m) + 1) Hhead).
  - cbn [mbind result_bind]. rewrite app_assoc_s. apply Hfirst.
  - rewrite !length_app, Hprefix, Hprefix', Hn, Hm. cbn [String.length]. lia.
  - lia.
  - exact Hcount.
Qed.

Lemma claim_transaction_reveals_secret_witness :
  exists tx,
    @Bsv.buildClaimTransaction (withSweep 1 exampleDecode (ledgersUp exampleStart))
      exampleClaim = Ok tx
    /\ extractSwapSecretFromTx tx = Ok (secretOf "11").
Proof.
  assert (Hok : isOk (@Bsv.buildClaimTransaction
                        (withSweep 1 exampleDecode (ledgersUp exampleStart))
                        exampleClaim) = true) by (vm_compute; reflexivity).
  destruct (@Bsv.buildClaimTransaction (withSweep 1 exampleDecode (ledgersUp exampleStart))
              exampleClaim) as [tx|e] eqn:Hrun.
  - exists tx. split; [reflexivity|].
    apply (claim_transaction_reveals_secret 1 exampleDecode (ledgersUp exampleStart)
             exampleClaim tx Hrun);
      [vm_compute; reflexivity | vm_compute; reflexivity | vm_compute; reflexivity
      | vm_compute; intros Hgt; discriminate Hgt].
  - discriminate Hok.
Defined.

(** ** The output of a sweep *)

Section Output.

Lemma isHex_app (a b : string) : Js.isHex (a +:+ b) = Js.isHex a && Js.isHex b.
Proof.
  induction a as [|c r IH]; [reflexivity|].
  rewrite app_cons. cbn [Js.isHex]. rewrite IH. apply andb_assoc.
Qed.

(** Two numbers or more have a comma between them, which is no
    hexadecimal digit. *)
Lemma typedArrayToString_not_hex (first second : byte) (rest : Buffer) :
  Js.isHex (typedArrayToString (first :: second :: rest)) = false.
Proof.
  unfold typedArrayToString. cbn [map joinComma].
  rewrite !isHex_app. change (Js.isHex ",") with false.
  rewrite andb_false_l. apply andb_false_r.
Qed.

End Output.



(** ** The account data of an escrow on Solana *)

Section AccountData.

Lemma copyInto_at (before old after source : Buffer) (start : nat) :
  length before = start -> length old = length source ->
  copyInto source (before ++ old ++ after) start = (before ++ source ++ after)%list.
Proof.
  intros Hbefore Hold. unfold copyInto.
  rewrite firstn_app, firstn_all2 by lia.
  replace (start - length before)%nat with 0%nat by lia. cbn [firstn].
  rewrite app_nil_r. f_equal.
  rewrite !List.length_app.
  rewrite (firstn_all2 source) by lia. f_equal.
  rewrite skipn_app, (skipn_all2 before) by lia. cbn [app].
  replace (start + length source - length before)%nat with (length old) by lia.
  rewrite skipn_app, skipn_all, Nat.sub_diag. reflexivity.
Qed.

Lemma slice_at (before part after : Buffer) (start stop : nat) :
  length before = start -> length part = (stop - start)%nat ->
  slice (before ++ part ++ after) start stop = part.
Proof.
  intros Hbefore Hpart. unfold slice.
  rewrite skipn_app, (skipn_all2 before) by lia. cbn [app].
  replace (start - length before)%nat with 0%nat by lia. rewrite skipn_O.
  rewrite firstn_app, firstn_all2 by lia.
  replace (stop - start - length part)%nat with 0%nat by lia.
  cbn [firstn]. apply app_nil_r.
Qed.

(** Eight bytes hold every number below 2^64. *)
Lemma readBigUInt64LE_written (before : Buffer) (v : Z) (start : nat) :
  0 <= v < 2 ^ 64 -> length before = start ->
  readBigUInt64LE (before ++ writeBigUInt64LE v) start = v.
Proof.
  intros Hv Hbefore. unfold readBigUInt64LE.
  rewrite <- (app_nil_r (writeBigUInt64LE v)).
  rewrite (slice_at before (writeBigUInt64LE v) [] start (start + 8) Hbefore)
    by (cbn; lia).
  unfold writeBigUInt64LE. cbn [map fold_right]. rewrite !byteZ_Zbyte.
  assert (Hstep : forall k, 0 <= k -> v / 256 ^ k = 256 * (v / 256 ^ (k + 1)) + (v / 256 ^ k) mod 256).
  { intros k Hk. rewrite Z.pow_add_r, <- Z.div_div by lia.
    change (256 ^ 1) with 256. apply Z.div_mod. lia. }
  pose proof (Hstep 0 ltac:(lia)) as H0. pose proof (Hstep 1 ltac:(lia)) as H1.
  pose proof (Hstep 2 ltac:(lia)) as H2. pose proof (Hstep 3 ltac:(lia)) as H3.
  pose proof (Hstep 4 ltac:(lia)) as H4. pose proof (Hstep 5 ltac:(lia)) as H5.
  pose proof (Hstep 6 ltac:(lia)) as H6. pose proof (Hstep 7 ltac:(lia)) as H7.
  assert (Htop : v / 256 ^ (7 + 1) = 0)
    by (apply Z.div_small; change (256 ^ (7 + 1)) with (2 ^ 64); lia).
  change (0 + 1) with 1 in *. change (1 + 1) with 2 in *. change (2 + 1) with 3 in *.
  change (3 + 1) with 4 in *. change (4 + 1) with 5 in *. change (5 + 1) with 6 in *.
  change (6 + 1) with 7 in *. change (7 + 1) with 8 in *.
  rewrite Z.pow_0_r, Z.div_1_r in H0 |- *. lia.
Qed.

End AccountData.

(** X22.  [parseHTLCData] reads back what [createHTLCData] has written: for
    three digests and two public keys of 32 bytes each, in hexadecimal and
    Base58 text, and a timeout slot below 2^53, the account data has 169
    bytes and parses to the same seven fields, marked initialized. *)
Theorem parseHTLCData_createHTLCData
  (swap recipientDigest refund initiator recipient : Buffer) (slot : Z) :
  length swap = 32%nat -> length recipientDigest = 32%nat -> length refund = 32%nat ->
  length initiator = 32%nat -> length recipient = 32%nat ->
  0 <= slot < 2 ^ 53 ->
  exists data,
    createHTLCData (accountOf swap recipientDigest refund initiator recipient slot) = Ok data
    /\ length data = 169%nat
    /\ parseHTLCData data
       = Ok (accountOf swap recipientDigest refund initiator recipient slot).
Proof.
  intros Hswap Hdigest Hrefund Hinitiator Hrecipient Hslot.
  assert (Hsafest : 2 ^ 53 = 9007199254740992) by reflexivity.
  set (data := ([x01] ++ swap ++ recipientDigest ++ refund ++ initiator ++ recipient
                ++ writeBigUInt64LE slot)%list).
  assert (Hsize : length data = 169%nat).
  { unfold data. rewrite !List.length_app, Hswap, Hdigest, Hrefund, Hinitiator, Hrecipient.
    reflexivity. }
  assert (Hcreate :
    createHTLCData (accountOf swap recipientDigest refund initiator recipient slot) = Ok data).
  { unfold createHTLCData, accountOf.
    cbn [hd_swapHash hd_recipientHash hd_refundHash hd_initiator hd_recipient hd_timeoutSlot].
    rewrite !fromHex_toHex.
    rewrite !base58Decode_encode by (intros Hnil; rewrite Hnil in *; discriminate).
    cbn [mbind result_bind].
    destruct ((slot <? 0) || (18446744073709551615 <? slot)) eqn:Hrange;
      [apply orb_true_iff in Hrange as [Hrange|Hrange]; lia|].
    f_equal.
    change (repeat x00 169)
      with ([] ++ repeat x00 1 ++ repeat x00 32 ++ repeat x00 32 ++ repeat x00 32
               ++ repeat x00 32 ++ repeat x00 32 ++ repeat x00 8)%list.
    rewrite (copyInto_at [] (repeat x00 1) _ [x01] 0) by reflexivity.
    cbn [app].
    change (x01 :: ?rest) with ([x01] ++ rest)%list.
    rewrite (copyInto_at [x01] (repeat x00 32) _ swap 1)
      by (rewrite ?repeat_length; cbn [length]; lia).
    rewrite (app_assoc [x01] swap).
    rewrite (copyInto_at ([x01] ++ swap) (repeat x00 32) _ recipientDigest 33)
      by (rewrite ?List.length_app, ?repeat_length; cbn [length]; lia).
    rewrite (app_assoc ([x01] ++ swap) recipientDigest).
    rewrite (copyInto_at (([x01] ++ swap) ++ recipientDigest) (repeat x00 32) _ refund 65)
      by (rewrite ?List.length_app, ?repeat_length; cbn [length]; lia).
    rewrite (app_assoc (([x01] ++ swap) ++ recipientDigest) refund).
    rewrite (copyInto_at ((([x01] ++ swap) ++ recipientDigest) ++ refund)
               (repeat x00 32) _ initiator 97)
      by (rewrite ?List.length_app, ?repeat_length; cbn [length]; lia).
    rewrite (app_assoc ((([x01] ++ swap) ++ recipientDigest) ++ refund) initiator).
    rewrite (copyInto_at (((([x01] ++ swap) ++ recipientDigest) ++ refund) ++ initiator)
               (repeat x00 32) _ recipient 129)
      by (rewrite ?List.length_app, ?repeat_length; cbn [length]; lia).
    rewrite (app_assoc (((([x01] ++ swap) ++ recipientDigest) ++ refund) ++ initiator)
               recipient).
    rewrite <- (app_nil_r (repeat x00 8)).
    rewrite (copyInto_at _ (repeat x00 8) [] (writeBigUInt64LE slot) 161)
      by (first [reflexivity | rewrite !List.length_app; cbn [length]; lia]).
    rewrite app_nil_r. unfold data. rewrite <- !app_assoc. reflexivity. }
  exists data. split; [exact Hcreate|]. split; [exact Hsize|].
  unfold parseHTLCData. rewrite Hsize. change (169 <? 169)%nat with false. cbv iota.
  unfold accountOf. f_equal.
  assert (Hfirst : (Js.byteZ (nth 0 data x00) =? 1) = true) by reflexivity.
  assert (H1 : slice data 1 33 = swap)
    by (unfold data; apply slice_at; [reflexivity | lia]).
  assert (H2 : slice data 33 65 = recipientDigest).
  { unfold data. rewrite (app_assoc [x01] swap).
    apply slice_at; [rewrite List.length_app; cbn [length]; lia | lia]. }
  assert (H3 : slice data 65 97 = refund).
  { unfold data. rewrite (app_assoc [x01] swap), (app_assoc _ recipientDigest).
    apply slice_at; [rewrite !List.length_app; cbn [length]; lia | lia]. }
  assert (H4 : slice data 97 129 = initiator).
  { unfold data.
    rewrite (app_assoc [x01] swap), (app_assoc _ recipientDigest), (app_assoc _ refund).
    apply slice_at; [rewrite !List.length_app; cbn [length]; lia | lia]. }
  assert (H5 : slice data 129 161 = recipient).
  { unfold data.
    rewrite (app_assoc [x01] swap), (app_assoc _ recipientDigest), (app_assoc _ refund),
      (app_assoc _ initiator).
    apply slice_at; [rewrite !List.length_app; cbn [length]; lia | lia]. }
  assert (H6 : readBigUInt64LE data 161 = slot).
  { unfold data.
    rewrite (app_assoc [x01] swap), (app_assoc _ recipientDigest), (app_assoc _ refund),
      (app_assoc _ initiator), (app_assoc _ recipient).
    apply readBigUInt64LE_written; [lia | rewrite !List.length_app; cbn [length]; lia]. }
  rewrite Hfirst, H1, H2, H3, H4, H5, H6.
  unfold toNumber. destruct (slot <? 2 ^ 53) eqn:Hsafe; [reflexivity | lia].
Qed.

Lemma parseHTLCData_createHTLCData_witness :
  exists data,
    createHTLCData (accountOf (repeat x11 32) (repeat x22 32) (repeat x33 32)
                      (repeat x00 32) (repeat xff 32) 250000000) = Ok data
    /\ length data = 169%nat
    /\ parseHTLCData data
       = Ok (accountOf (repeat x11 32) (repeat x22 32) (repeat x33 32)
               (repeat x00 32) (repeat xff 32) 250000000).
Proof.
  apply (parseHTLCData_createHTLCData (repeat x11 32) (repeat x22 32) (repeat x33 32)
           (repeat x00 32) (repeat xff 32) 250000000);
    [reflexivity | reflexivity | reflexivity | reflexivity | reflexivity | lia].
Defined.
